(* ===== verification/_CoqProject ===== *)
-Q . S2P
Prelude.v
Text.v
Order.v
Hex.v
Core.v
Policy.v
Watchdog.v
Privacy.v
Diagnostics.v
Grid.v
Retention.v
Platform.v
Ownership.v
Wire.v
Pause.v
Files.v
Config.v
Crypto.v
Session.v
FileFrames.v
Dirs.v
Startup.v
Logging.v
LoggingFacts.v
Launcher.v
LauncherFacts.v
LauncherStable.v
Surface.v
Menus.v
Engine.v
EngineSteps.v
EngineFuel.v
EngineTermination.v
EngineSafety.v
EngineIpc.v
IpcServer.v
IpcProtocol.v
IpcFacts.v
IpcSafety.v
PipeClient.v
Cli.v
CliFacts.v
CliRun.v
EngineEase.v
EngineKeeps.v
Tray.v
TrayMenu.v
TrayStart.v
TrayStays.v
TraySafety.v
TrayEnd.v
TraySettings.v
TrayOffers.v
ManifestTool.v
ManifestFacts.v
AppRecords.v
DiagLayout.v
DiagWindow.v
DiagRecords.v
DiagFacts.v
DiagSettle.v
Icons.v
IconFacts.v
