(* ===== verification/Prelude.v ===== *)
(** * True Tick: a model of the timer-resolution utility and its theorems

    True Tick is a Windows tray application that holds a system timer resolution
    request when its policy allows it.  This library translates the logic of its
    crates and applications into executable definitions, file by file, and proves
    what they guarantee.  Paths below are relative to [src/].

    ** The program's parts and how they meet

    - A _launcher_ ([apps/launcher]) verifies the slots of a portable package
      against a signed manifest or a checksum file and starts one of them.
    - The _tray application_ ([apps/true-tick]) runs one UI thread.  Its handlers
      (menu commands, timers, power broadcasts, anomalies, IPC commands) drive an
      intent queue; the power policy decides; the timer controller acquires or
      releases the kernel's resolution request through the platform adapter; every
      step is recorded in a bounded, hash-chained diagnostic store whose texts are
      redacted first.
    - Beside the UI thread run the _watchdog_ (it measures the age of the UI
      thread's heartbeat) and the _IPC server_ (an accept loop and up to eight
      workers, which queue commands for the UI thread).
    - A _command line client_ ([apps/true-tick-cli]) speaks the same wire protocol.
    - _Files_: the configuration, the session marker, the package state, the logs
      and snapshots.

    ** Files of the library and the code they model

    Foundations: [Prelude] (results, the state-and-error monad [comp] with its
    postconditions [wp], machine integers as [Z] with their width written out,
    little-endian bytes, tactics and hints), [Text] (Rust's string operations on
    Unicode scalar values), [Order] (stable sorting), [Hex], [Files] (the [std::fs]
    calls on a store of nodes; each call may fail, a write after part of its
    bytes), [FileFrames] (which paths a computation leaves alone or depends on).

    - [Core]: [crates/tick-core].  [Hns], the intent queue, the civil calendar.
    - [Policy]: [crates/tick-policy].  [decide], capability tiers, the
      responsiveness tracker.
    - [Watchdog]: [crates/tick-watchdog].  Monitor, UI thread and clock as
      interleaved atomic steps.
    - [Privacy]: [crates/tick-diagnostics/src/privacy.rs].  Scanners on UTF-8
      bytes, span merging, redaction; a panic is an error value.
    - [Diagnostics], [Grid]: [crates/tick-diagnostics/src/lib.rs].  The store and
      its hash chain; parsers, selections and report formats.
    - [Retention]: [retention.rs], [recorder.rs] of that crate.
    - [Platform]: [crates/tick-platform-windows].  The class [TimerPlatform] is
      the trait, [TimerPlatformLaws] what it promises; the Windows adapter is an
      instance over the two native calls ([NtKernel]).
    - [Ownership]: [crates/tick-ownership].  The controller, generic in the
      platform; its theorems use the laws only.
    - [Pause]: [apps/true-tick/src/pause.rs].  Presets, schedules, their timers.
    - [Config], [Session]: [config.rs], [session.rs].  The configuration file and
      the session marker, on a file system whose calls may fail.
    - [Surface]: [tray_surface.rs], [tray/status.rs], [tray/quit.rs],
      [shutdown.rs].  What the tray shows and the decisions derived from it.
    - [Engine]: [tray/tier.rs], [tray/schedule.rs], [tray/power.rs],
      [tray/controller.rs].  The UI thread's handlers as functions on one state
      record, generic in the platform and in the desktop (clock, timers, shell).
      [EngineSteps], [EngineFuel], [EngineTermination], [EngineSafety] and
      [EngineIpc] hold its theorems.
    - [Wire]: [crates/tick-ipc].  CRC-32, tokens, frames, responses, the rate
      limiter.  [PipeClient]: the pipe client of that crate.
    - [IpcServer]: [tray/ipc.rs], [tray/ipc_queue.rs] and the queue's users.  The
      threads of the server as program counters over a shared state.
      [IpcProtocol] is the abstract machine it refines, [IpcFacts] its
      invariants, [IpcSafety] the theorems and the engine as its UI thread.
    - [Cli]: [apps/true-tick-cli].  [CliFacts] and [CliRun] hold its theorems.
    - [Crypto]: [crates/tick-crypto].  Signed manifests.  [Launcher]:
      [apps/launcher].  [LauncherFacts] and [LauncherStable] hold its theorems.
    - [Dirs]: directories and [tray/reset.rs].  [Startup]: [portable.rs] and
      [crates/tick-startup-windows].  [Logging]: [logging/mod.rs], with its theorems
      in [LoggingFacts].
    - [Menus], [Tray], [TrayMenu], [TrayStart]: the tray window around the engine.
      [Menus] has the items and commands of [tray_surface.rs], [Tray] the setting
      toggles, quitting, resets, the icon and the presets window, [TrayMenu] the menu
      handles of [tray/menu.rs], the window procedure and the shutdown loop of
      [controller.rs], [TrayStart] the start of the process.  A message box or a menu
      runs the window procedure again: the messages it handles are an input.
      [EngineEase] and [EngineKeeps] are what these proofs need of the engine;
      [TrayStays], [TraySafety], [TrayEnd], [TraySettings] and [TrayOffers] hold the
      theorems.
    - [Icons]: [tray/icon.rs] and the registration of [tray/surface.rs], with its
      theorems in [IconFacts].  The engine sees them as the shell's answers
      ([Desktop]).
    - [ManifestTool]: [apps/manifest-tool], the producer of signed packages, with
      its theorems in [ManifestFacts].
    - [AppRecords]: [tray/diagnostics_map.rs] and the recording methods of [App].
      [DiagLayout]: [ui/diagnostic_layout.rs].  [DiagWindow]: [ui/diagnostic_window.rs],
      [ui/diagnostic_grid.rs] and [ui/diagnostic_transfer.rs], as a state and error
      monad over the state of the window, the recorder and what the controls hold;
      the answers of the native calls are inputs.  [DiagRecords], [DiagFacts] and
      [DiagSettle] hold its theorems.
    The interfaces between components are classes: [TimerPlatform] with its laws
    between controller and adapter, [Desktop] between engine and operating system,
    [UiThread] between server and application (its instance [engine_ui] is the
    engine), [CliHost] between client and system, [Ed25519] and [Sha256]
    between manifests and cryptography.

    ** What the theorems show

    - Resource ownership: the controller's state describes the kernel's request
      through every sequence of operations and every engine event; an unverified
      request is rolled back; a newly held request satisfies the power policy.
    - Termination and its failure: event sequences return while fewer than three
      anomalies are counted, and publication never returns beyond that while the
      request is held; a worker of the server, the settle probe, the watchdog's
      monitor and the client's daemon wait all end.
    - Authorisation: a command runs once, from an admitted connection with the
      session token; a launched executable is authorised by the manifest or the
      checksum file whatever file system calls fail, and the release counter never
      moves on a failing selection.
    - Encodings: frames, responses, tokens, tombstones, manifests, CSV cells, JSON
      status and the configuration file are read back exactly; canonical manifest
      bytes bind the manifest; one changed byte of a frame is never accepted.
    - Bounds: the event store keeps the newest records, the limiter and the command
      queue stay within their sizes, retention ends within its bounds, the controls of
      the diagnostic window neither overlap nor leave it.
    - The end of the process: from its start, through every message, nested dialog
      and failing call, a verified cleanup has released the timer, and the process
      ends only after one, or as the shutdown loop's bound says.
    - Settings: a setting is changed in the file and in memory together or not at all,
      with the registration at sign-in on every branch; the open menu offers what the
      dispatcher accepts.
    - Packages: a package the tool signed is reported as verified only while every
      signed file has its digest, whatever calls fail.
    - The tray icon: no graphics object is left behind or destroyed while it is on
      show, whatever calls fail.
    - The diagnostic window: no message panics, its refreshes come to an end and leave
      the list showing the stored events, a copy or an export transfers the selected rows
      or tells the user that it did not.
    - Files: loading a configuration never loses the bytes of a damaged file; the
      session marker tells the next start the truth after every failure.
    - Flaws, stated as theorems or evaluated examples next to the code they concern
      ([Ownership.clamp_strands_release], [Privacy.sanitize_pii_panics],
      [EngineTermination.quiescent_release_diverges],
      [LauncherStable.failed_query_downgrades], [IpcSafety.failed_post_discards],
      [LoggingFacts.overlapping_flushes_repeat], [TraySettings.ipc_interval_persists],
      [CliRun.daemon_drops_credentials], [TrayEnd.late_request_survives_exit],
      [DiagSettle.reopened_limit] and others).

    ** Bounds and fuel

    Engine handlers call each other in cycles; they take fuel and answer
    [OutOfFuel] when it ends.  Ten is enough for every handler below the release
    threshold ([EngineTermination.run_returns]) and more never changes a result
    ([EngineFuel]); above the threshold no fuel is.  The configuration's backup
    search makes the code's own 1025 attempts.  The client's daemon wait needs 201
    polls for its ten seconds ([CliRun.cli_ends]).  Other loops recurse on their
    data.  Instants are nanoseconds and do not overflow the clock.
    The tray's dialogs are an input list and every one that is handled is taken off
    it, so the nesting of the window procedure is bounded by its length
    ([TrayEnd.dialogs_end]); the shutdown loop takes the turns that 50 ms allow
    ([TrayEnd.shutdown_loop_ends]).  The walk of the manifest tool over a package has
    one more unit of fuel than the store has nodes, which is enough
    ([ManifestFacts.tool_returns]).  The diagnostic window needs no fuel: a handler
    posts a message instead of calling itself, and four messages empty the queue
    ([DiagSettle.refreshes_settle]).
    ** Not modelled, and why

    Drawing, the security descriptor of the pipe and process creation are calls of
    the operating system with no logic of their own around them; where logic depends
    on the outcome of a system call, the outcome is an input.  SHA-256, Ed25519, Unicode lowercasing and the display of
    paths and system errors are parameters.  Diagnostic lines on standard error
    are left out except in the client, where they are the output.  [App] holds the
    fields the modelled handlers read and write.
    Left out as well: the help window beside the menu ([tray/menu.rs]), the
    selection marquee ([ui/marquee.rs]); the painting, fonts, batched redraw and
    horizontal scrolling of the diagnostic window; the parent contexts of the records
    in [Tray], whose records are names only; the console control handler and the panic hook of
    [emergency.rs]; the environment report ([environment.rs]), which only reads the
    system; the manual probe [crates/tick-multiclient]; the child process that
    restricts the permissions of a key file.
*)
From stdpp Require Export base list strings gmap.
From Stdlib Require Export ZArith Lia Ascii.
Open Scope Z_scope.

(** ** Results of fallible code: Rust's [Result<T, E>] *)

Inductive result (E T : Type) : Type :=
| Ok (value : T)
| Err (error : E).
Arguments Ok {E T} value.
Arguments Err {E T} error.

#[export] Instance result_ret E : MRet (result E) := fun _ x => Ok x.
#[export] Instance result_bind E : MBind (result E) := fun _ _ f m =>
  match m with Ok x => f x | Err e => Err e end.
#[export] Instance result_fmap E : FMap (result E) := fun _ _ f m =>
  match m with Ok x => Ok (f x) | Err e => Err e end.

#[export] Instance result_eq_dec E T `{EqDecision E, EqDecision T} :
  EqDecision (result E T).
Proof. solve_decision. Defined.

(** [o.ok_or(e)] *)
Definition ok_or {E T} (o : option T) (e : E) : result E T :=
  match o with Some x => Ok x | None => Err e end.

Definition is_ok {E T} (r : result E T) : bool :=
  match r with Ok _ => true | Err _ => false end.

Lemma bind_ok {E T U} (m : result E T) (f : T → result E U) (u : U) :
  (m ≫= f) = Ok u ↔ ∃ t, m = Ok t ∧ f t = Ok u.
Proof. destruct m; cbn; naive_solver. Qed.

Lemma ok_or_ok {E T} (o : option T) (e : E) (x : T) :
  ok_or o e = Ok x ↔ o = Some x.
Proof. destruct o; cbn; naive_solver. Qed.

(** ** State and errors: code that mutates a state and may return early with an
    error; the state reached is kept either way. *)

Definition comp (S E A : Type) : Type := S → result E A * S.

#[export] Instance comp_ret S E : MRet (comp S E) := fun _ x s => (Ok x, s).
#[export] Instance comp_bind S E : MBind (comp S E) := fun _ _ f m s =>
  match m s with (Ok x, s') => f x s' | (Err e, s') => (Err e, s') end.

Definition fail {S E A} (e : E) : comp S E A := fun s => (Err e, s).
Definition get {S E} : comp S E S := fun s => (Ok s, s).
Definition modify {S E} (f : S → S) : comp S E unit := fun s => (Ok tt, f s).
Definition lift {S E A} (r : result E A) : comp S E A := fun s => (r, s).
(** The result of a computation as a value: [match m { Ok .. Err .. }]. *)
Definition attempt {S E E' A} (m : comp S E A) : comp S E' (result E A) :=
  fun s => let '(r, s') := m s in (Ok r, s').

(** Postconditions of a computation, by its steps. *)
Definition wp {S E A} (m : comp S E A) (s : S) (Q : result E A → S → Prop) : Prop :=
  Q (m s).1 (m s).2.

Section Wp.
Context {S E A B : Type}.
Implicit Types (m : comp S E A) (f : A → comp S E B).

Lemma wp_bind m f s Q :
  wp (m ≫= f) s Q ↔
  wp m s (λ r s', match r with Ok x => wp (f x) s' Q | Err e => Q (Err e) s' end).
Proof. unfold wp, mbind, comp_bind. destruct (m s) as [[x|e] s']; cbn; done. Qed.
Lemma wp_ret (x : A) (s : S) (Q : result E A → S → Prop) : wp (mret x) s Q ↔ Q (Ok x) s.
Proof. done. Qed.
Lemma wp_fail (e : E) (s : S) (Q : result E A → S → Prop) : wp (fail e) s Q ↔ Q (Err e) s.
Proof. done. Qed.
Lemma wp_lift (r : result E A) (s : S) (Q : result E A → S → Prop) : wp (lift r) s Q ↔ Q r s.
Proof. done. Qed.
Lemma wp_get (s : S) (Q : result E S → S → Prop) : wp get s Q ↔ Q (Ok s) s.
Proof. done. Qed.
Lemma wp_modify (g : S → S) s (Q : result E unit → S → Prop) : wp (modify g) s Q ↔ Q (Ok tt) (g s).
Proof. done. Qed.
Lemma wp_attempt {E'} m s (Q : result E' (result E A) → S → Prop) :
  wp (attempt m) s Q ↔ wp m s (λ r s', Q (Ok r) s').
Proof. unfold wp, attempt. destruct (m s) as [r s']. done. Qed.
Lemma wp_mono m s (Q Q' : result E A → S → Prop) :
  wp m s Q → (∀ r s', Q r s' → Q' r s') → wp m s Q'.
Proof. unfold wp. auto. Qed.
End Wp.

(** [m] leaves the part [f] of the state as it is. *)
Definition keeps {S E A B} (f : S → B) (m : comp S E A) : Prop := ∀ s, f (m s).2 = f s.

Section Keeps.
Context {S E B : Type} (f : S → B).

Lemma keeps_wp {A} (m : comp S E A) s Q :
  keeps f m → (∀ r s', f s' = f s → Q r s') → wp m s Q.
Proof. unfold wp. auto. Qed.
Lemma keeps_bind {A C} (m : comp S E A) (k : A → comp S E C) :
  keeps f m → (∀ x, keeps f (k x)) → keeps f (m ≫= k).
Proof.
  intros Hm Hk s. unfold mbind, comp_bind. specialize (Hm s).
  destruct (m s) as [[x|e] s']; cbn in *; [by rewrite Hk|done].
Qed.
Lemma keeps_ret {A} (x : A) : keeps f (mret x : comp S E A).
Proof. done. Qed.
Lemma keeps_fail {A} (e : E) : keeps f (fail e : comp S E A).
Proof. done. Qed.
Lemma keeps_lift {A} (r : result E A) : keeps f (lift r).
Proof. done. Qed.
Lemma keeps_attempt {E' A} (m : comp S E A) : keeps f m → keeps f (attempt (E' := E') m).
Proof. intros Hm s. unfold attempt. specialize (Hm s). by destruct (m s). Qed.
End Keeps.

(** ** Machine integers, as [Z] with the width written out *)

Definition u8_max : Z := 2 ^ 8 - 1.
Definition u16_max : Z := 2 ^ 16 - 1.
Definition u32_max : Z := 2 ^ 32 - 1.
Definition u64_max : Z := 2 ^ 64 - 1.
Definition u128_max : Z := 2 ^ 128 - 1.

Definition is_u8 (z : Z) : Prop := 0 ≤ z < 2 ^ 8.
Definition is_u16 (z : Z) : Prop := 0 ≤ z < 2 ^ 16.
Definition is_u32 (z : Z) : Prop := 0 ≤ z < 2 ^ 32.
Definition is_u64 (z : Z) : Prop := 0 ≤ z < 2 ^ 64.
Definition is_i64 (z : Z) : Prop := - 2 ^ 63 ≤ z < 2 ^ 63.

(** [a.saturating_add(b)] and its relatives on a [w]-bit unsigned type. *)
Definition sat_add (w a b : Z) : Z := Z.min (a + b) (2 ^ w - 1).
Definition sat_mul (w a b : Z) : Z := Z.min (a * b) (2 ^ w - 1).
Definition sat_sub (a b : Z) : Z := Z.max 0 (a - b).

(** [a.checked_add(b)] and [a.checked_mul(b)]: [None] past the width. *)
Definition checked_add (w a b : Z) : option Z :=
  if a + b <? 2 ^ w then Some (a + b) else None.
Definition checked_mul (w a b : Z) : option Z :=
  if a * b <? 2 ^ w then Some (a * b) else None.

(** [a as uw]: truncation. *)
Definition wrap (w z : Z) : Z := z mod 2 ^ w.

(** Reinterpretation of a 32-bit pattern as [i32] ([x as i32]). *)
Definition as_i32 (z : Z) : Z :=
  let r := z mod 2 ^ 32 in if r <? 2 ^ 31 then r else r - 2 ^ 32.

Lemma wrap_id w z : 0 ≤ z < 2 ^ w → wrap w z = z.
Proof. intros. by apply Z.mod_small. Qed.

Lemma wrap_bound w z : 0 ≤ w → 0 ≤ wrap w z < 2 ^ w.
Proof. intros. apply Z.mod_pos_bound, Z.pow_pos_nonneg; lia. Qed.

Lemma as_i32_wrap z : - 2 ^ 31 ≤ z < 2 ^ 31 → as_i32 (wrap 32 z) = z.
Proof.
  intros. unfold as_i32, wrap. rewrite Zmod_mod.
  destruct (Z_lt_le_dec z 0).
  - replace (z mod 2 ^ 32) with (z + 2 ^ 32); [case_match; lia|].
    apply (Z.mod_unique_pos _ _ (-1)); lia.
  - rewrite Z.mod_small by lia. case_match; lia.
Qed.

(** The tactic of the development for goals about widths and saturation. *)
Ltac unfold_ints :=
  unfold is_u8, is_u16, is_u32, is_u64, is_i64, u8_max, u16_max, u32_max,
    u64_max, u128_max, sat_add, sat_mul, sat_sub in *.
Ltac int_solve := unfold_ints; lia.

(** Case analysis on the boolean comparisons of the code. *)
Ltac destruct_ifs :=
  repeat match goal with
  | |- context [if ?b then _ else _] => destruct b eqn:?
  | H : context [if ?b then _ else _] |- _ => destruct b eqn:?
  end.
Ltac reflect_bools :=
  repeat match goal with
  | H : (_ && _)%bool = true |- _ => apply andb_prop in H; destruct H
  | H : (_ && _)%bool = false |- _ => apply andb_false_iff in H
  | H : (_ || _)%bool = true |- _ => apply orb_prop in H
  | H : (_ || _)%bool = false |- _ => apply orb_false_iff in H; destruct H
  | H : negb _ = true |- _ => apply negb_true_iff in H
  | H : negb _ = false |- _ => apply negb_false_iff in H
  | H : (_ =? _) = true |- _ => apply Z.eqb_eq in H
  | H : (_ =? _) = false |- _ => apply Z.eqb_neq in H
  | H : (_ <? _) = true |- _ => apply Z.ltb_lt in H
  | H : (_ <? _) = false |- _ => apply Z.ltb_ge in H
  | H : (_ <=? _) = true |- _ => apply Z.leb_le in H
  | H : (_ <=? _) = false |- _ => apply Z.leb_gt in H
  end.

(** [lia] with division and remainder turned into equations first. *)
Ltac dlia := Z.to_euclidean_division_equations; lia.

Create HintDb tick.
#[export] Hint Resolve wrap_bound : tick.
#[export] Hint Resolve keeps_bind keeps_ret keeps_fail keeps_lift keeps_attempt : tick.

(** One step of a postcondition. *)
Ltac wp_step :=
  first [ rewrite wp_bind | rewrite wp_attempt | rewrite wp_ret | rewrite wp_fail
        | rewrite wp_lift | rewrite wp_get | rewrite wp_modify ].

(** ** Little-endian byte strings ([to_le_bytes] and [from_le_bytes])

    A byte is a [Z] in [0 .. 255]; a buffer is a list of them. *)

Abbreviation bytes := (list Z) (only parsing).
Abbreviation all_bytes := (Forall is_u8).

Fixpoint le_bytes (n : nat) (z : Z) : bytes :=
  match n with
  | O => []
  | S n' => z mod 256 :: le_bytes n' (z / 256)
  end.

Fixpoint le_value (bs : bytes) : Z :=
  match bs with
  | [] => 0
  | b :: rest => b + 256 * le_value rest
  end.

Lemma le_bytes_length n z : length (le_bytes n z) = n.
Proof. revert z. induction n; intros; cbn; auto. Qed.

Lemma le_bytes_all n z : all_bytes (le_bytes n z).
Proof.
  revert z. induction n; intros; cbn; constructor; auto.
  unfold is_u8. pose proof (Z.mod_pos_bound z 256). lia.
Qed.

Lemma le_value_bytes n z :
  0 ≤ z < 256 ^ Z.of_nat n → le_value (le_bytes n z) = z.
Proof.
  revert z. induction n as [|n IH]; intros z Hz.
  - change (256 ^ Z.of_nat 0) with 1 in Hz. cbn. lia.
  - rewrite Nat2Z.inj_succ, Z.pow_succ_r in Hz by lia.
    cbn [le_bytes le_value]. rewrite IH by dlia. dlia.
Qed.

Lemma le_bytes_value bs :
  all_bytes bs → le_bytes (length bs) (le_value bs) = bs.
Proof.
  induction 1 as [|b bs Hb _ IH]; [done|]. cbn [length le_bytes le_value].
  unfold is_u8 in Hb. rewrite Z.mul_comm. f_equal.
  - rewrite Z.mod_add by lia. by apply Z.mod_small.
  - rewrite Z.div_add, Z.div_small by lia. exact IH.
Qed.

Lemma le_value_bound bs :
  all_bytes bs → 0 ≤ le_value bs < 256 ^ Z.of_nat (length bs).
Proof.
  induction 1 as [|b bs Hb _ IH]; [cbn; lia|].
  cbn [length le_value]. rewrite Nat2Z.inj_succ, Z.pow_succ_r by lia.
  unfold is_u8 in Hb. lia.
Qed.

Lemma le_value_inj bs cs :
  all_bytes bs → all_bytes cs → length bs = length cs →
  le_value bs = le_value cs → bs = cs.
Proof.
  intros Hb Hc Hl Hv.
  by rewrite <- (le_bytes_value bs Hb), <- (le_bytes_value cs Hc), Hl, Hv.
Qed.

(** [buf[i]] inside a bounds-checked context and [buf[a..b]]. *)
Definition byte_at (bs : bytes) (i : nat) : Z := nth i bs 0.
Definition slice (bs : bytes) (a b : nat) : bytes := take (b - a) (drop a bs).

Lemma slice_length bs a b : (a ≤ b ≤ length bs)%nat → length (slice bs a b) = (b - a)%nat.
Proof. intros. unfold slice. rewrite length_take, length_drop. lia. Qed.

Lemma all_bytes_slice bs a b : all_bytes bs → all_bytes (slice bs a b).
Proof. intros. unfold slice. by apply Forall_take, Forall_drop. Qed.

Lemma byte_at_bound bs i : all_bytes bs → is_u8 (byte_at bs i).
Proof.
  intros H. unfold byte_at. destruct (nth_in_or_default i bs 0) as [Hi| ->].
  - rewrite Forall_forall in H. apply H. by apply list_elem_of_In.
  - unfold is_u8. lia.
Qed.

#[export] Hint Resolve le_bytes_all all_bytes_slice byte_at_bound : tick.
#[export] Hint Rewrite le_bytes_length : tick.

(** Byte-wise equality of buffers ([a == b] on slices). *)
Definition bytes_eqb (a b : bytes) : bool := bool_decide (a = b).

Lemma bytes_eqb_spec a b : bytes_eqb a b = true ↔ a = b.
Proof. unfold bytes_eqb. by rewrite bool_decide_eq_true. Qed.
