(* ===== verification/Text.v ===== *)
(** * Text: the string operations of Rust's standard library

    A [&str] or [String] is the list of its Unicode scalar values; its byte
    length and its UTF-8 bytes are computed, so code that measures bytes and
    code that walks characters are both modelled as written. *)
From S2P Require Import Prelude.

Abbreviation str := (list Z) (only parsing).

(** String literals. *)
Definition lit (s : string) : str :=
  map (λ a, Z.of_N (N_of_ascii a)) (String.list_ascii_of_string s).

#[global] Arguments lit _ : simpl never.

(** ** Characters *)

Definition is_scalar (c : Z) : bool :=
  ((0 <=? c) && (c <? 0xD800)) || ((0xE000 <=? c) && (c <=? 0x10FFFF)).
Definition is_ascii_digit (c : Z) : bool := (48 <=? c) && (c <=? 57).
Definition is_ascii_upper (c : Z) : bool := (65 <=? c) && (c <=? 90).
Definition is_ascii_lower (c : Z) : bool := (97 <=? c) && (c <=? 122).
Definition is_ascii_alphabetic (c : Z) : bool := is_ascii_upper c || is_ascii_lower c.
Definition to_ascii_lower (c : Z) : Z := if is_ascii_upper c then c + 32 else c.

(** [char::is_whitespace]: the Unicode [White_Space] property. *)
Definition is_whitespace (c : Z) : bool :=
  ((9 <=? c) && (c <=? 13)) || (c =? 32) || (c =? 0x85) || (c =? 0xA0) ||
  (c =? 0x1680) || ((0x2000 <=? c) && (c <=? 0x200A)) || (c =? 0x2028) ||
  (c =? 0x2029) || (c =? 0x202F) || (c =? 0x205F) || (c =? 0x3000).

(** ** UTF-8 *)

Definition utf8_len (c : Z) : Z :=
  if c <? 0x80 then 1 else if c <? 0x800 then 2 else if c <? 0x10000 then 3 else 4.

(** [s.len()] *)
Fixpoint str_len (s : str) : Z :=
  match s with [] => 0 | c :: t => utf8_len c + str_len t end.

Definition utf8_char (c : Z) : bytes :=
  if c <? 0x80 then [c]
  else if c <? 0x800 then [0xC0 + c / 64; 0x80 + c mod 64]
  else if c <? 0x10000 then [0xE0 + c / 4096; 0x80 + (c / 64) mod 64; 0x80 + c mod 64]
  else [0xF0 + c / 262144; 0x80 + (c / 4096) mod 64;
        0x80 + (c / 64) mod 64; 0x80 + c mod 64].

(** [s.as_bytes()] *)
Definition utf8_encode (s : str) : bytes := flat_map utf8_char s.

Definition is_cont (b : Z) : bool := (0x80 <=? b) && (b <? 0xC0).

(** [std::str::from_utf8]: overlong forms, surrogates and stray continuation
    bytes are rejected. *)
Fixpoint utf8_decode (l : bytes) : option str :=
  match l with
  | [] => Some []
  | b0 :: t0 =>
      if b0 <? 0x80 then cons b0 <$> utf8_decode t0
      else match t0 with
      | [] => None
      | b1 :: t1 =>
          if negb (is_cont b1) then None
          else if (0xC0 <=? b0) && (b0 <? 0xE0) then
            let c := (b0 - 0xC0) * 64 + (b1 - 0x80) in
            if 0x80 <=? c then cons c <$> utf8_decode t1 else None
          else match t1 with
          | [] => None
          | b2 :: t2 =>
              if negb (is_cont b2) then None
              else if (0xE0 <=? b0) && (b0 <? 0xF0) then
                let c := (b0 - 0xE0) * 4096 + (b1 - 0x80) * 64 + (b2 - 0x80) in
                if (0x800 <=? c) && is_scalar c then cons c <$> utf8_decode t2 else None
              else match t2 with
              | [] => None
              | b3 :: t3 =>
                  if negb (is_cont b3) then None
                  else if (0xF0 <=? b0) && (b0 <? 0xF8) then
                    let c := (b0 - 0xF0) * 262144 + (b1 - 0x80) * 4096
                             + (b2 - 0x80) * 64 + (b3 - 0x80) in
                    if (0x10000 <=? c) && is_scalar c then cons c <$> utf8_decode t3 else None
                  else None
              end
          end
      end
  end.

Lemma utf8_decode_char c t :
  is_scalar c = true → utf8_decode (utf8_char c ++ t) = cons c <$> utf8_decode t.
Proof.
  intros Hs. pose proof Hs as Hc. unfold is_scalar in Hc. unfold utf8_char.
  destruct (c <? 0x80) eqn:H1; [cbn [app utf8_decode]; by rewrite H1|].
  destruct (c <? 0x800) eqn:H2; [|destruct (c <? 0x10000) eqn:H3];
    reflect_bools; cbn [app utf8_decode].
  - replace (0xC0 + c / 64 <? 0x80) with false by dlia.
    replace (is_cont (0x80 + c mod 64)) with true by (unfold is_cont; dlia).
    replace ((0xC0 <=? 0xC0 + c / 64) && (0xC0 + c / 64 <? 0xE0)) with true by dlia.
    cbn [negb]. replace ((0xC0 + c / 64 - 0xC0) * 64 + (0x80 + c mod 64 - 0x80)) with c by dlia.
    by replace (0x80 <=? c) with true by lia.
  - replace (0xE0 + c / 4096 <? 0x80) with false by dlia.
    replace (is_cont (0x80 + c mod 64)) with true by (unfold is_cont; dlia).
    replace (is_cont (0x80 + (c / 64) mod 64)) with true by (unfold is_cont; dlia).
    replace ((0xC0 <=? 0xE0 + c / 4096) && (0xE0 + c / 4096 <? 0xE0)) with false by dlia.
    replace ((0xE0 <=? 0xE0 + c / 4096) && (0xE0 + c / 4096 <? 0xF0)) with true by dlia.
    cbn [negb].
    replace ((0xE0 + c / 4096 - 0xE0) * 4096 + (0x80 + (c / 64) mod 64 - 0x80) * 64
             + (0x80 + c mod 64 - 0x80)) with c by dlia.
    replace (0x800 <=? c) with true by lia. by rewrite Hs.
  - replace (0xF0 + c / 262144 <? 0x80) with false by dlia.
    replace (is_cont (0x80 + c mod 64)) with true by (unfold is_cont; dlia).
    replace (is_cont (0x80 + (c / 64) mod 64)) with true by (unfold is_cont; dlia).
    replace (is_cont (0x80 + (c / 4096) mod 64)) with true by (unfold is_cont; dlia).
    replace ((0xC0 <=? 0xF0 + c / 262144) && (0xF0 + c / 262144 <? 0xE0)) with false by dlia.
    replace ((0xE0 <=? 0xF0 + c / 262144) && (0xF0 + c / 262144 <? 0xF0)) with false by dlia.
    replace ((0xF0 <=? 0xF0 + c / 262144) && (0xF0 + c / 262144 <? 0xF8)) with true by dlia.
    cbn [negb].
    replace ((0xF0 + c / 262144 - 0xF0) * 262144 + (0x80 + (c / 4096) mod 64 - 0x80) * 4096
             + (0x80 + (c / 64) mod 64 - 0x80) * 64 + (0x80 + c mod 64 - 0x80)) with c by dlia.
    replace (0x10000 <=? c) with true by lia. by rewrite Hs.
Qed.

Lemma utf8_decode_encode s :
  Forall (λ c, is_scalar c = true) s → utf8_decode (utf8_encode s) = Some s.
Proof.
  induction 1 as [|c s Hc _ IH]; [done|].
  cbn [utf8_encode flat_map]. rewrite utf8_decode_char by done.
  fold (utf8_encode s). by rewrite IH.
Qed.

(** ** Searching, trimming, splitting *)

Fixpoint starts_with (s p : str) : bool :=
  match p, s with
  | [], _ => true
  | c :: p', d :: s' => (c =? d) && starts_with s' p'
  | _ :: _, [] => false
  end.

Definition strip_prefix (s p : str) : option str :=
  if starts_with s p then Some (drop (length p) s) else None.

Definition ends_with (s p : str) : bool := starts_with (reverse s) (reverse p).

Definition strip_suffix (s p : str) : option str :=
  if ends_with s p then Some (take (length s - length p) s) else None.

Fixpoint drop_while (f : Z → bool) (s : str) : str :=
  match s with
  | [] => []
  | c :: t => if f c then drop_while f t else s
  end.

Definition trim_start_matches (f : Z → bool) (s : str) : str := drop_while f s.
Definition trim_end_matches (f : Z → bool) (s : str) : str :=
  reverse (drop_while f (reverse s)).
Definition trim_matches (f : Z → bool) (s : str) : str :=
  trim_end_matches f (trim_start_matches f s).
Definition trim (s : str) : str := trim_matches is_whitespace s.

(** [s.split(c)]: at least one piece. *)
Fixpoint split_char (sep : Z) (s : str) : list str :=
  match s with
  | [] => [[]]
  | c :: t =>
      if c =? sep then [] :: split_char sep t
      else match split_char sep t with
           | [] => [[c]]
           | p :: ps => (c :: p) :: ps
           end
  end.

(** [s.split_once(c)] and [s.rsplit_once(c)]. *)
Fixpoint split_once (sep : Z) (s : str) : option (str * str) :=
  match s with
  | [] => None
  | c :: t =>
      if c =? sep then Some ([], t)
      else match split_once sep t with
           | Some (a, b) => Some (c :: a, b)
           | None => None
           end
  end.
Definition rsplit_once (sep : Z) (s : str) : option (str * str) :=
  match split_once sep (reverse s) with
  | Some (a, b) => Some (reverse b, reverse a)
  | None => None
  end.

(** [s.split_whitespace()]: the maximal runs of non-whitespace. *)
Fixpoint split_ws_acc (acc : str) (s : str) : list str :=
  match s with
  | [] => match acc with [] => [] | _ => [reverse acc] end
  | c :: t =>
      if is_whitespace c
      then match acc with [] => split_ws_acc [] t | _ => reverse acc :: split_ws_acc [] t end
      else split_ws_acc (c :: acc) t
  end.
Definition split_whitespace (s : str) : list str := split_ws_acc [] s.

(** [s.lines()]: split at newlines, a trailing carriage return dropped from
    each terminated line, no final empty line. *)
Definition strip_cr (s : str) : str :=
  match strip_suffix s [13] with Some t => t | None => s end.
Definition lines (s : str) : list str :=
  match reverse (split_char 10 s) with
  | [] => []
  | last :: init =>
      map strip_cr (reverse init) ++ match last with [] => [] | _ => [last] end
  end.

Definition str_eqb (a b : str) : bool := bool_decide (a = b).

Lemma str_eqb_spec a b : str_eqb a b = true ↔ a = b.
Proof. unfold str_eqb. by rewrite bool_decide_eq_true. Qed.

(** ** Decimal numbers *)

Fixpoint digits_acc (fuel : nat) (n : Z) (acc : str) : str :=
  match fuel with
  | O => acc
  | S f =>
      let acc' := 48 + n mod 10 :: acc in
      if n <? 10 then acc' else digits_acc f (n / 10) acc'
  end.

(** [n.to_string()] of an unsigned integer: [log2 n + 1] digits are enough. *)
Definition show_u (n : Z) : str := digits_acc (S (Z.to_nat (Z.log2 n))) n [].

(** [n.to_string()] of a signed integer. *)
Definition show_i (n : Z) : str := if n <? 0 then 45 :: show_u (- n) else show_u n.

(** [{n:0k}]: zero padding to at least [k] characters. *)
Definition pad_zero (k : nat) (s : str) : str := replicate (k - length s) 48 ++ s.

Fixpoint digits_value (acc : Z) (s : str) : option Z :=
  match s with
  | [] => Some acc
  | c :: t => if is_ascii_digit c then digits_value (acc * 10 + (c - 48)) t else None
  end.

(** [s.parse::<uw>()]: an optional plus sign, at least one digit, no overflow. *)
Definition parse_u (w : Z) (s : str) : option Z :=
  let ds := match s with 43 :: (_ :: _) as t => tail t | _ => s end in
  match ds with
  | [] => None
  | _ => match digits_value 0 ds with
         | Some v => if v <? 2 ^ w then Some v else None
         | None => None
         end
  end.

Lemma digits_value_app acc s t :
  digits_value acc (s ++ t) =
  match digits_value acc s with Some v => digits_value v t | None => None end.
Proof.
  revert acc. induction s as [|c s IH]; intros acc; [done|].
  cbn [app digits_value]. by destruct (is_ascii_digit c).
Qed.

Lemma digits_acc_app fuel n acc :
  digits_acc fuel n acc = digits_acc fuel n [] ++ acc.
Proof.
  revert n acc. induction fuel as [|f IH]; intros n acc; [done|]. cbn [digits_acc].
  destruct (n <? 10); [done|]. rewrite IH, (IH _ [_]), <- app_assoc. done.
Qed.

Lemma digits_acc_spec fuel n acc0 :
  0 ≤ n < 2 ^ Z.of_nat fuel → (0 < fuel)%nat →
  Forall (λ c, is_ascii_digit c = true) (digits_acc fuel n []) ∧
  digits_value acc0 (digits_acc fuel n []) =
    Some (acc0 * 10 ^ Z.of_nat (length (digits_acc fuel n [])) + n).
Proof.
  revert n acc0. induction fuel as [|f IH]; intros n acc0 Hn Hf; [lia|].
  cbn [digits_acc].
  assert (Hd : is_ascii_digit (48 + n mod 10) = true) by (unfold is_ascii_digit; dlia).
  destruct (n <? 10) eqn:Hlt; reflect_bools.
  - split; [by repeat constructor|]. cbn [digits_value length]. rewrite Hd.
    rewrite Z.mod_small by lia. f_equal. change (10 ^ Z.of_nat 1) with 10. lia.
  - rewrite Nat2Z.inj_succ, Z.pow_succ_r in Hn by lia.
    assert (0 < f)%nat by (destruct f; [change (2 ^ Z.of_nat 0) with 1 in Hn|]; lia).
    destruct (IH (n / 10) acc0) as [IHd IHv]; [dlia|done|].
    rewrite digits_acc_app. split; [apply Forall_app; split; [done|by repeat constructor]|].
    rewrite digits_value_app, IHv, length_app. cbn [digits_value length]. rewrite Hd.
    f_equal. rewrite Nat2Z.inj_add, Z.pow_add_r by lia. change (10 ^ Z.of_nat 1) with 10. dlia.
Qed.

Lemma show_u_fuel n : 0 ≤ n → 0 ≤ n < 2 ^ Z.of_nat (S (Z.to_nat (Z.log2 n))).
Proof.
  intros Hn. split; [done|]. rewrite Nat2Z.inj_succ, Z2Nat.id by apply Z.log2_nonneg.
  destruct (Z.eq_dec n 0) as [->|]; [cbn; lia|]. apply Z.log2_spec. lia.
Qed.

Lemma show_u_digits n : 0 ≤ n → Forall (λ c, is_ascii_digit c = true) (show_u n).
Proof.
  intros Hn. unfold show_u. apply (digits_acc_spec _ n 0); [by apply show_u_fuel|lia].
Qed.

Lemma show_u_value n acc :
  0 ≤ n → digits_value acc (show_u n) = Some (acc * 10 ^ Z.of_nat (length (show_u n)) + n).
Proof.
  intros Hn. unfold show_u. apply (digits_acc_spec _ n acc); [by apply show_u_fuel|lia].
Qed.

Lemma show_u_cons n : ∃ c t, show_u n = c :: t.
Proof.
  unfold show_u. cbn [digits_acc]. destruct (n <? 10); [by eexists _, _|].
  rewrite digits_acc_app. destruct (digits_acc _ _ []); by eexists _, _.
Qed.

Lemma parse_u_digits w s v :
  s ≠ [] → Forall (λ c, is_ascii_digit c = true) s →
  digits_value 0 s = Some v → 0 ≤ v < 2 ^ w → parse_u w s = Some v.
Proof.
  intros Hs Hd Hv Hb. destruct s as [|c t]; [done|].
  inversion Hd as [|? ? Hc Ht]; subst. unfold parse_u.
  assert (Hne : c ≠ 43) by (intros ->; done).
  replace (match c :: t with 43 :: (_ :: _) as t0 => tail t0 | _ => c :: t end) with (c :: t).
  - cbn [digits_value] in *. rewrite Hv. by replace (v <? 2 ^ w) with true by lia.
  - destruct c as [|p|p]; [done| |done].
    do 6 (destruct p as [p|p|]; try done).
Qed.

(** Parsing what [to_string] printed gives the number back. *)
Lemma parse_show w n : 0 ≤ n < 2 ^ w → parse_u w (show_u n) = Some n.
Proof.
  intros Hn. apply parse_u_digits; [|apply show_u_digits; lia| |lia].
  - destruct (show_u_cons n) as (c & t & ->). done.
  - rewrite show_u_value by lia. f_equal; lia.
Qed.

Lemma digits_acc_length fuel n k :
  0 ≤ n < 10 ^ Z.of_nat (S k) → (length (digits_acc fuel n []) ≤ S k)%nat.
Proof.
  revert n k. induction fuel as [|f IH]; intros n k Hn; cbn [digits_acc]; [cbn; lia|].
  destruct (n <? 10) eqn:Hlt; [cbn; lia|]. rewrite digits_acc_app, length_app. cbn [length].
  reflect_bools. destruct k as [|k]; [change (10 ^ Z.of_nat 1) with 10 in Hn; lia|].
  rewrite Nat2Z.inj_succ, Z.pow_succ_r in Hn by lia.
  specialize (IH (n / 10) k ltac:(dlia)). lia.
Qed.

(** A number below [10 ^ (k + 1)] prints in at most [k + 1] digits. *)
Lemma show_u_length n k : 0 ≤ n < 10 ^ Z.of_nat (S k) → (length (show_u n) ≤ S k)%nat.
Proof. apply digits_acc_length. Qed.

Lemma pad_zero_length k s : (length (pad_zero k s) = Nat.max k (length s)).
Proof. unfold pad_zero. rewrite length_app, length_replicate. lia. Qed.

Lemma digits_value_zeros k s : digits_value 0 (replicate k 48 ++ s) = digits_value 0 s.
Proof. induction k; [done|]. cbn. exact IHk. Qed.

Lemma pad_zero_value k s : digits_value 0 (pad_zero k s) = digits_value 0 s.
Proof. apply digits_value_zeros. Qed.

#[export] Hint Resolve show_u_digits : tick.

(** [s.contains(p)] for a string pattern. *)
Fixpoint contains (s p : str) : bool :=
  starts_with s p || match s with [] => false | _ :: t => contains t p end.

(** [s.to_ascii_lowercase()], [s.eq_ignore_ascii_case(t)] *)
Definition lowercase (s : str) : str := map to_ascii_lower s.
(** [str::to_lowercase]. *)
Class ToLowercase := to_lowercase : str → str.
Definition str_eq_ignore_case (s t : str) : bool := str_eqb (lowercase s) (lowercase t).

(** [char::is_control]: the Unicode category Cc. *)
Definition is_control (c : Z) : bool := (c <? 32) || ((127 <=? c) && (c <? 160)).

(** [o.map_or("none", |v| v.to_string())] *)
Definition show_opt (show : Z → str) (o : option Z) : str :=
  match o with Some v => show v | None => lit "none" end.

(** [pieces.join(sep)] *)
Fixpoint join (sep : str) (l : list str) : str :=
  match l with
  | [] => []
  | [s] => s
  | s :: rest => s ++ sep ++ join sep rest
  end.

(** [{b}] of a boolean. *)
Definition show_bool (b : bool) : str := if b then lit "true" else lit "false".

Lemma str_len_app s t : str_len (s ++ t) = str_len s + str_len t.
Proof. induction s; cbn [app str_len]; lia. Qed.

Lemma utf8_len_pos c : 1 ≤ utf8_len c ≤ 4.
Proof. unfold utf8_len. destruct_ifs; lia. Qed.

Lemma str_len_nonneg s : 0 ≤ str_len s.
Proof. induction s as [|c t IH]; cbn [str_len]; [lia|]. pose proof (utf8_len_pos c). lia. Qed.

Lemma utf8_encode_length s : Z.of_nat (length (utf8_encode s)) = str_len s.
Proof.
  induction s as [|c t IH]; [done|]. change (utf8_encode (c :: t)) with (utf8_char c ++ utf8_encode t).
  rewrite length_app, Nat2Z.inj_add, IH. cbn [str_len]. f_equal.
  unfold utf8_char, utf8_len. destruct_ifs; done.
Qed.

(** ** Facts about splitting and trimming *)

Lemma drop_while_none f s : Forall (λ c, f c = false) s → drop_while f s = s.
Proof. destruct 1 as [|c s Hc _]; cbn; [done|]. by rewrite Hc. Qed.

Lemma trim_matches_none f s : Forall (λ c, f c = false) s → trim_matches f s = s.
Proof.
  intros H. unfold trim_matches, trim_end_matches, trim_start_matches.
  rewrite (drop_while_none f s H), drop_while_none, reverse_involutive; [done|].
  by apply Forall_reverse.
Qed.

Lemma split_char_none sep s : Forall (λ c, (c =? sep) = false) s → split_char sep s = [s].
Proof. induction 1 as [|c s Hc _ IH]; cbn; [done|]. by rewrite Hc, IH. Qed.

Lemma split_char_app sep a b :
  Forall (λ c, (c =? sep) = false) a → split_char sep (a ++ sep :: b) = a :: split_char sep b.
Proof.
  induction 1 as [|c a Hc _ IH]; cbn [app split_char].
  - by rewrite Z.eqb_refl.
  - by rewrite Hc, IH.
Qed.

Lemma digits_no c s :
  is_ascii_digit c = false → Forall (λ d, is_ascii_digit d = true) s →
  Forall (λ d, (d =? c) = false) s.
Proof.
  intros Hc H. eapply Forall_impl; [exact H|]. cbn. intros d Hd.
  apply Z.eqb_neq. intros ->. by rewrite Hd in Hc.
Qed.

Lemma digits_not_whitespace s :
  Forall (λ d, is_ascii_digit d = true) s → Forall (λ d, is_whitespace d = false) s.
Proof.
  intros H. eapply Forall_impl; [exact H|]. cbn. intros d. unfold is_ascii_digit, is_whitespace. lia.
Qed.

Lemma digits_str_len s : Forall (λ d, is_ascii_digit d = true) s → str_len s = Z.of_nat (length s).
Proof.
  induction 1 as [|c s Hc _ IH]; [done|]. cbn [str_len length]. rewrite IH.
  unfold utf8_len, is_ascii_digit in *. replace (c <? 128) with true by lia. lia.
Qed.

Lemma digits_forallb s : Forall (λ d, is_ascii_digit d = true) s → forallb is_ascii_digit s = true.
Proof. intros H. apply forallb_forall. rewrite Forall_forall in H. intros c Hc. by apply H, list_elem_of_In. Qed.

#[export] Hint Resolve show_u_digits digits_not_whitespace : tick.

Lemma digits_value_nonneg acc s v : 0 ≤ acc → digits_value acc s = Some v → 0 ≤ v.
Proof.
  revert acc. induction s as [|c s IH]; intros acc Ha; cbn; [intros [= <-]; done|].
  destruct (is_ascii_digit c) eqn:Hc; [|done]. apply IH. unfold is_ascii_digit in Hc. lia.
Qed.

Lemma parse_u_bound w s v : parse_u w s = Some v → 0 ≤ v < 2 ^ w.
Proof.
  unfold parse_u. set (ds := match s with 43 :: (_ :: _) as t => tail t | _ => s end).
  clearbody ds. destruct ds as [|c ds]; [done|].
  destruct (digits_value 0 (c :: ds)) as [x|] eqn:Hd; [|done].
  destruct (x <? 2 ^ w) eqn:Hx; [|done]. intros [= <-]. reflect_bools.
  apply digits_value_nonneg in Hd; lia.
Qed.

(** ** Trimming and splitting text of a known shape *)

(** Neither end is trimmed away. *)
Definition black_edges (f : Z → bool) (s : str) : Prop :=
  (∀ c, head s = Some c → f c = false) ∧ (∀ c, last s = Some c → f c = false).

Lemma drop_while_edge f s : (∀ c, head s = Some c → f c = false) → drop_while f s = s.
Proof. destruct s as [|c s]; [done|]. cbn. intros Hc. by rewrite (Hc c). Qed.

Lemma trim_edges f s : black_edges f s → trim_matches f s = s.
Proof.
  intros [Hh Hl]. unfold trim_matches, trim_start_matches, trim_end_matches.
  rewrite (drop_while_edge f s) by done. rewrite drop_while_edge; [apply reverse_involutive|].
  by rewrite head_reverse.
Qed.
Lemma trim_leading f c s : f c = true → trim_matches f (c :: s) = trim_matches f s.
Proof. intros Hc. unfold trim_matches, trim_start_matches. cbn [drop_while]. by rewrite Hc. Qed.
Lemma trim_trailing f c s : f c = true → black_edges f s → trim_matches f (s ++ [c]) = s.
Proof.
  intros Hc [Hh Hl]. unfold trim_matches, trim_start_matches, trim_end_matches.
  destruct s as [|d s]; [cbn; by rewrite Hc|].
  rewrite (drop_while_edge f ((d :: s) ++ [c])) by exact Hh. rewrite reverse_app.
  change (reverse [c]) with [c]. cbn [app drop_while]. rewrite Hc.
  rewrite drop_while_edge; [apply reverse_involutive|]. by rewrite head_reverse.
Qed.

Lemma split_once_none sep s : Forall (λ c, (c =? sep) = false) s → split_once sep s = None.
Proof. induction 1 as [|c s Hc _ IH]; cbn; [done|]. by rewrite Hc, IH. Qed.
Lemma split_once_app sep a b :
  Forall (λ c, (c =? sep) = false) a → split_once sep (a ++ sep :: b) = Some (a, b).
Proof. induction 1 as [|c a Hc _ IH]; cbn [app split_once]; [by rewrite Z.eqb_refl|]. by rewrite Hc, IH. Qed.


Lemma lines_cons l s : Forall (λ c, (c =? 10) = false) l → lines (l ++ 10 :: s) = strip_cr l :: lines s.
Proof.
  intros Hl. unfold lines. rewrite split_char_app by done. cbn [reverse]. rewrite reverse_cons.
  destruct (reverse (split_char 10 s)) as [|x init] eqn:E; [|cbn [app]; rewrite reverse_app; reflexivity].
  exfalso. apply (f_equal reverse) in E. rewrite reverse_involutive in E. destruct s as [|c t]; [done|].
  cbn in E. destruct (c =? 10); [done|]. by destruct (split_char 10 t).
Qed.
Lemma strip_cr_none s : (∀ c, last s = Some c → c ≠ 13) → strip_cr s = s.
Proof.
  intros Hl. unfold strip_cr, strip_suffix, ends_with. rewrite <- head_reverse in Hl.
  change (reverse [13]) with [13]. destruct (reverse s) as [|c t] eqn:E; [done|]. cbn [starts_with].
  replace (13 =? c) with false; [done|]. symmetry. apply Z.eqb_neq. intros <-. by apply (Hl 13).
Qed.

(** A text of newline-terminated lines, read back by [lines]. *)
Definition plain_line (s : str) : Prop :=
  Forall (λ c, (c =? 10) = false) s ∧ (∀ c, last s = Some c → c ≠ 13).
Definition unlines (ls : list str) : str := flat_map (λ l, l ++ [10]) ls.
Lemma lines_unlines ls : Forall plain_line ls → lines (unlines ls) = ls.
Proof.
  induction 1 as [|l ls [Hl Hr] _ IH]; [done|]. change (unlines (l :: ls)) with ((l ++ [10]) ++ unlines ls).
  rewrite <- app_assoc. cbn [app]. rewrite lines_cons by done. by rewrite strip_cr_none, IH.
Qed.

Lemma starts_with_app p s : starts_with (p ++ s) p = true.
Proof. induction p as [|c p IH]; [by destruct s|]. cbn. by rewrite Z.eqb_refl, IH. Qed.
Lemma strip_prefix_app p s : strip_prefix (p ++ s) p = Some s.
Proof. unfold strip_prefix. by rewrite starts_with_app, drop_app_length. Qed.
Lemma strip_suffix_app s p : strip_suffix (s ++ p) p = Some s.
Proof.
  unfold strip_suffix, ends_with. rewrite reverse_app, starts_with_app, length_app, Nat.add_sub.
  by rewrite take_app_length.
Qed.
