(* ===== verification/Order.v ===== *)
(** * Order: stable sorting, and the order of strings *)
From S2P Require Import Prelude Text.

(** [sort_by_key]: stable. *)
Fixpoint insert_by {A} (le : A → A → bool) (x : A) (l : list A) : list A :=
  match l with
  | [] => [x]
  | h :: t => if le x h then x :: l else h :: insert_by le x t
  end.
Definition sort_by {A} (le : A → A → bool) (l : list A) : list A := foldr (insert_by le) [] l.

(** [String]'s order, that of its bytes. *)
Fixpoint str_leb (a b : str) : bool :=
  match a, b with
  | [], _ => true
  | _ :: _, [] => false
  | x :: a', y :: b' => (x <? y) || ((x =? y) && str_leb a' b')
  end.

(** ** Sorting *)

Lemma insert_by_perm {A} (le : A → A → bool) x l : insert_by le x l ≡ₚ x :: l.
Proof.
  induction l as [|h t IH]; cbn; [done|]. destruct (le x h); [done|]. rewrite IH. constructor.
Qed.
Lemma sort_by_perm {A} (le : A → A → bool) l : sort_by le l ≡ₚ l.
Proof. induction l as [|x l IH]; cbn; [done|]. by rewrite insert_by_perm, IH. Qed.

Fixpoint sorted_by {A} (le : A → A → bool) (l : list A) : Prop :=
  match l with
  | [] => True
  | x :: t => Forall (λ y, le x y = true) t ∧ sorted_by le t
  end.

Section Sorted.
Context {A} (le : A → A → bool).
Context (le_total : ∀ a b, le a b = false → le b a = true).
Context (le_trans : ∀ a b c, le a b = true → le b c = true → le a c = true).

Lemma insert_by_sorted x l : sorted_by le l → sorted_by le (insert_by le x l).
Proof.
  induction l as [|h t IH]; cbn [insert_by sorted_by]; [done|]. intros [Hh Ht].
  destruct (le x h) eqn:Hx.
  - split; [|done]. constructor; [done|]. eapply Forall_impl; [exact Hh|]. eauto.
  - split; [|by apply IH]. rewrite insert_by_perm. constructor; [by apply le_total|done].
Qed.
Lemma sort_by_sorted l : sorted_by le (sort_by le l).
Proof. induction l as [|x l IH]; cbn; [done|]. by apply insert_by_sorted. Qed.

End Sorted.

Lemma sorted_by_app {A} (le : A → A → bool) a b :
  sorted_by le (a ++ b) → ∀ x y, x ∈ a → y ∈ b → le x y = true.
Proof.
  induction a as [|h t IH]; cbn [app sorted_by]; intros Hs x y Hx Hy; [set_solver|].
  destruct Hs as [Hh Ht]. apply elem_of_cons in Hx as [->|Hx]; [|by eapply IH].
  rewrite Forall_forall in Hh. apply Hh. set_solver.
Qed.

Lemma filter_sorted {A} (le : A → A → bool) f l :
  sorted_by le l → sorted_by le (List.filter f l).
Proof.
  induction l as [|x l IH]; cbn; [done|]. intros [Hx Hl]. destruct (f x); [|by apply IH].
  split; [|by apply IH]. rewrite !Forall_forall in *. intros y Hy. apply Hx.
  apply list_elem_of_In in Hy. apply filter_In in Hy as [Hy _]. by apply list_elem_of_In.
Qed.

Lemma str_leb_trans a b c : str_leb a b = true → str_leb b c = true → str_leb a c = true.
Proof.
  revert b c. induction a as [|x a IH]; intros [|y b] [|z c]; cbn [str_leb]; try done.
  intros H1 H2. apply orb_prop in H1, H2.
  destruct H1 as [H1|[H1 H1']%andb_prop], H2 as [H2|[H2 H2']%andb_prop].
  - replace (x <? z) with true by lia. done.
  - replace (x <? z) with true by lia. done.
  - replace (x <? z) with true by lia. done.
  - replace (x =? z) with true by lia. rewrite (IH _ _ H1' H2'). apply orb_true_r.
Qed.

Lemma str_leb_total a b : str_leb a b = false → str_leb b a = true.
Proof.
  revert b. induction a as [|x l IH]; intros [|y l']; cbn [str_leb]; try done.
  intros H. apply orb_false_iff in H as [H1 H2]. destruct (y <? x) eqn:E; [done|].
  rewrite (proj2 (Z.eqb_eq x y)) in H2 by lia. rewrite (proj2 (Z.eqb_eq y x)) by lia.
  cbn in H2 |- *. by apply IH.
Qed.
Lemma str_leb_antisym a b : str_leb a b = true → str_leb b a = true → a = b.
Proof.
  revert b. induction a as [|x l IH]; intros [|y l']; cbn [str_leb]; try done.
  intros H1 H2. apply orb_prop in H1, H2. rewrite !andb_true_iff in H1, H2.
  destruct H1 as [H1|[H1 H1']], H2 as [H2|[H2 H2']]; try lia.
  assert (x = y) as -> by lia. f_equal. by apply IH.
Qed.

(** A sorted list is its own sort, and permuted lists without ties sort alike. *)
Lemma sort_by_id {A} (le : A → A → bool) l : sorted_by le l → sort_by le l = l.
Proof.
  induction l as [|x l IH]; [done|]. intros [Hx Hl]. change (sort_by le (x :: l)) with (insert_by le x (sort_by le l)).
  rewrite IH by done. destruct l as [|h t]; [done|]. cbn [insert_by].
  inversion Hx as [|? ? Hh _]; subst. by rewrite Hh.
Qed.
Lemma sorted_perm_eq {A} (le : A → A → bool) l k :
  (∀ x y, x ∈ l → y ∈ l → le x y = true → le y x = true → x = y) →
  sorted_by le l → sorted_by le k → l ≡ₚ k → l = k.
Proof.
  revert k. induction l as [|x l IH]; intros [|y k] Ha Hl Hk Hp; try done.
  - by apply Permutation_nil_l in Hp.
  - by apply Permutation_nil_r in Hp.
  - destruct Hl as [Hx Hl], Hk as [Hy Hk]. rewrite Forall_forall in Hx, Hy.
    assert (x = y) as <-.
    { assert (x ∈ y :: k) as H1 by (rewrite <- Hp; set_solver).
      assert (y ∈ x :: l) as H2 by (rewrite Hp; set_solver).
      apply elem_of_cons in H1 as [->|H1]; [done|]. apply elem_of_cons in H2 as [->|H2]; [done|].
      apply Ha; [set_solver..|by apply Hx|by apply Hy]. }
    f_equal. apply IH; [|done..|by apply Permutation_cons_inv in Hp]. intros u v Hu Hv. apply Ha; set_solver.
Qed.
Lemma str_leb_refl a : str_leb a a = true.
Proof. induction a as [|x a IH]; cbn [str_leb]; [done|]. rewrite Z.eqb_refl, IH. apply orb_true_r. Qed.
