(* ===== verification/Hex.v ===== *)
(** * Hex: bytes as hexadecimal text *)
From S2P Require Import Prelude Text.

(** [{byte:02x}] *)
Definition hex_digit (n : Z) : Z := if n <? 10 then 48 + n else 87 + n.
Definition hex_byte (b : Z) : str := [hex_digit (b / 16); hex_digit (b mod 16)].
Definition hex (bs : bytes) : str := flat_map hex_byte bs.

Lemma nibbles_join h l : 0 ≤ h < 16 → 0 ≤ l < 16 → Z.lor (Z.shiftl h 4) l = 16 * h + l.
Proof.
  intros Hh Hl.
  assert (forallb (λ h, forallb (λ l, Z.lor (Z.shiftl h 4) l =? 16 * h + l) (seqZ 0 16))
            (seqZ 0 16) = true) as H by reflexivity.
  rewrite forallb_forall in H. specialize (H h). rewrite forallb_forall in H.
  apply Z.eqb_eq, H; apply list_elem_of_In, elem_of_seqZ; lia.
Qed.

Lemma hex_length bs : length (hex bs) = (length bs * 2)%nat.
Proof.
  induction bs as [|b bs IH]; [done|].
  change (hex (b :: bs)) with (hex_byte b ++ hex bs). rewrite length_app, IH. reflexivity.
Qed.

Lemma utf8_encode_ascii s : Forall (λ c, 0 ≤ c < 128) s → utf8_encode s = s.
Proof.
  induction 1 as [|c s Hc _ IH]; [done|]. unfold utf8_encode in *. cbn [flat_map]. rewrite IH.
  unfold utf8_char. by replace (c <? 128) with true by lia.
Qed.

Lemma utf8_ascii_inv s : Forall (λ b, 0 ≤ b < 128) (utf8_encode s) → utf8_encode s = s.
Proof.
  intros H. apply utf8_encode_ascii. induction s as [|c s IH]; [done|].
  unfold utf8_encode in H. cbn [flat_map] in H. apply Forall_app in H as [Hc Hs].
  constructor; [|by apply IH]. unfold utf8_char in Hc.
  destruct (c <? 0x80) eqn:E1; [by inversion Hc|].
  destruct_ifs; reflect_bools; inversion_clear Hc; dlia.
Qed.

Lemma hex_digit_ascii n : 0 ≤ n < 16 → 0 ≤ hex_digit n < 128.
Proof. unfold hex_digit. destruct (n <? 10) eqn:E; lia. Qed.
Lemma hex_ascii bs : all_bytes bs → Forall (λ c, 0 ≤ c < 128) (hex bs).
Proof.
  unfold is_u8. induction 1 as [|b bs Hb _ IH]; [constructor|].
  change (hex (b :: bs)) with (hex_digit (b / 16) :: hex_digit (b mod 16) :: hex bs).
  constructor; [apply hex_digit_ascii; dlia|]. constructor; [apply hex_digit_ascii; dlia|exact IH].
Qed.
