(* ===== verification/Core.v ===== *)
(** * Core: the value types and calendar of [tick-core]

    Models [crates/tick-core/src/lib.rs]: [Hns] durations and their display,
    the desired-intent queue, and the civil calendar arithmetic. *)
From S2P Require Import Prelude Text.

(** ** Durations in 100-nanosecond units

    [Hns] wraps a [u64]; a value is the [Z] it holds, [is_u64] its range. *)
Abbreviation Hns := Z (only parsing).

Definition HNS_PER_MILLISECOND : Z := 10000.
Definition HNS_PER_THOUSANDTH_MILLISECOND : Z := HNS_PER_MILLISECOND / 1000.

(** A [std::time::Duration] as its number of nanoseconds. *)
Abbreviation Duration := Z (only parsing).

Definition to_duration (h : Hns) : Duration := sat_mul 64 h 100.

Definition from_duration (d : Duration) : Hns := Z.min (d / 100) u64_max.

(** The characters written by [write!(cursor, "{whole}.{rem:04}")]. *)
Definition milliseconds_display (h : Hns) : str :=
  let whole := h / HNS_PER_MILLISECOND in
  let rem := h - whole * HNS_PER_MILLISECOND in
  show_u whole ++ [46] ++ pad_zero 4 (show_u rem).

(** Writes into a 32-byte buffer and returns the buffer and the number of
    bytes written; [None] is the panic of [expect] on a full buffer. *)
Definition write_milliseconds_bytes (h : Hns) (buffer : bytes) : option (bytes * nat) :=
  let out := milliseconds_display h in
  if decide (length out ≤ length buffer)%nat
  then Some (out ++ drop (length out) buffer, length out)
  else None.

(** [None] is a panic. *)
Definition format_milliseconds (h : Hns) : option str :=
  '(buffer, len) ← write_milliseconds_bytes h (replicate 32 0);
  utf8_decode (take len buffer).

Definition format_detailed (h : Hns) : str :=
  let whole := h / HNS_PER_MILLISECOND in
  let rem := h - whole * HNS_PER_MILLISECOND in
  show_u whole ++ [46] ++ pad_zero 4 (show_u rem) ++ lit " ms (" ++ show_u h ++ lit " HNS)".

(** [impl Display for Hns] *)
Definition hns_display (h : Hns) : str := show_u h ++ lit " HNS".

(** ** Status vocabulary *)

Module Lifecycle.
Inductive Lifecycle := Created | Running | Stopping | Stopped.
End Lifecycle.
Abbreviation Lifecycle := Lifecycle.Lifecycle.

Module Status.
Inductive Status :=
| Released | Active | Requested | Warning | Blocked | Error | Unknown | Unsupported.
End Status.
Abbreviation Status := Status.Status.
#[export] Instance Status_eq_dec : EqDecision Status.
Proof. solve_decision. Defined.

Module DesiredIntent.
Inductive DesiredIntent := Acquire | Release.
End DesiredIntent.
Abbreviation DesiredIntent := DesiredIntent.DesiredIntent.
#[export] Instance DesiredIntent_eq_dec : EqDecision DesiredIntent.
Proof. solve_decision. Defined.

(** [DesiredIntentQueue]: one slot, the latest request wins. *)
Record DesiredIntentQueue := mkIntentQueue { pending : option DesiredIntent }.

Definition intent_queue_new : DesiredIntentQueue := mkIntentQueue None.
Definition intent_request (q : DesiredIntentQueue) (i : DesiredIntent) : DesiredIntentQueue :=
  mkIntentQueue (Some i).
Definition intent_take (q : DesiredIntentQueue) : option DesiredIntent * DesiredIntentQueue :=
  (pending q, mkIntentQueue None).

Module CoreError.
Inductive CoreError :=
| InvalidLifecycleTransition | Unsupported | ObservationFailed (raw_status : Z).
End CoreError.
Abbreviation CoreError := CoreError.CoreError.

Definition core_error_display (e : CoreError) : str :=
  match e with
  | CoreError.InvalidLifecycleTransition => lit "invalid lifecycle transition"
  | CoreError.Unsupported => lit "operation unsupported by this skeleton"
  | CoreError.ObservationFailed raw_status =>
      lit "power observation failed with status " ++ show_u raw_status
  end.

(** ** The civil calendar *)

Definition is_leap_year (year : Z) : bool :=
  ((Z.rem year 4 =? 0) && negb (Z.rem year 100 =? 0)) || (Z.rem year 400 =? 0).

Definition days_in_month (year month : Z) : Z :=
  if (month =? 1) || (month =? 3) || (month =? 5) || (month =? 7) || (month =? 8)
     || (month =? 10) || (month =? 12) then 31
  else if (month =? 4) || (month =? 6) || (month =? 9) || (month =? 11) then 30
  else if (month =? 2) && is_leap_year year then 29
  else if month =? 2 then 28
  else 0.

(** [x.clamp(lo, hi)] *)
Definition clamp (x lo hi : Z) : Z := if x <? lo then lo else if hi <? x then hi else x.

Definition days_from_civil (year month day : Z) : Z :=
  let month := clamp month 1 12 in
  let day := clamp day 1 (days_in_month year month) in
  let adjusted_year := if month <=? 2 then year - 1 else year in
  let era := Z.quot (if 0 <=? adjusted_year then adjusted_year else adjusted_year - 399) 400 in
  let year_of_era := adjusted_year - era * 400 in
  let shifted_month := Z.rem (month + 9) 12 in
  let day_of_year := Z.quot (153 * shifted_month + 2) 5 + day - 1 in
  let day_of_era := year_of_era * 365 + Z.quot year_of_era 4 - Z.quot year_of_era 100 + day_of_year in
  era * 146097 + day_of_era - 719468.

Definition try_days_from_civil (year month day : Z) : option Z :=
  if negb ((1 <=? month) && (month <=? 12)) then None
  else if (day <? 1) || (days_in_month year month <? day) then None
  else Some (days_from_civil year month day).

Definition civil_from_days (days : Z) : Z * Z * Z :=
  let shifted := days + 719468 in
  let era := Z.quot (if 0 <=? shifted then shifted else shifted - 146096) 146097 in
  let day_of_era := shifted - era * 146097 in
  let year_of_era :=
    Z.quot (day_of_era - Z.quot day_of_era 1460 + Z.quot day_of_era 36524
            - Z.quot day_of_era 146096) 365 in
  let year := year_of_era + era * 400 in
  let day_of_year :=
    day_of_era - (365 * year_of_era + Z.quot year_of_era 4 - Z.quot year_of_era 100) in
  let shifted_month := Z.quot (5 * day_of_year + 2) 153 in
  let day := day_of_year - Z.quot (153 * shifted_month + 2) 5 + 1 in
  let month := if shifted_month <? 10 then shifted_month + 3 else shifted_month - 9 in
  (if month <=? 2 then year + 1 else year, month, day).

(** A formatted field never loses digits: [{:04}] and [{:02}] pad only. *)
Definition format_ymd (year month day : Z) : str :=
  let tail := [45] ++ pad_zero 2 (show_u month) ++ [45] ++ pad_zero 2 (show_u day) in
  if year <? 0 then [45] ++ pad_zero 4 (show_u (Z.abs year)) ++ tail
  else pad_zero 4 (show_u year) ++ tail.

(** ** Lemmas: calendar arithmetic *)

(** A civil date the calendar accepts. *)
Definition valid_civil (year month day : Z) : Prop :=
  1 ≤ month ≤ 12 ∧ 1 ≤ day ≤ days_in_month year month.

Lemma is_leap_year_mod y :
  is_leap_year y = true ↔ (y mod 4 = 0 ∧ y mod 100 ≠ 0) ∨ y mod 400 = 0.
Proof. unfold is_leap_year. dlia. Qed.

(** The truncating divisions of the code compute the floored era. *)
Lemma era_year (n : Z) : Z.quot (if 0 <=? n then n else n - 399) 400 = n / 400.
Proof. destruct (0 <=? n) eqn:Hn; dlia. Qed.

Lemma era_day (n : Z) : Z.quot (if 0 <=? n then n else n - 146096) 146097 = n / 146097.
Proof. destruct (0 <=? n) eqn:Hn; dlia. Qed.

(** The year of the era is recovered from the day of the era. *)
Lemma year_of_era_ok yoe doy :
  0 ≤ yoe < 400 → 0 ≤ doy ≤ 365 →
  (doy = 365 → (yoe + 1) mod 4 = 0 ∧ ((yoe + 1) mod 100 ≠ 0 ∨ (yoe + 1) mod 400 = 0)) →
  let doe := yoe * 365 + yoe / 4 - yoe / 100 + doy in
  (doe - doe / 1460 + doe / 36524 - doe / 146096) / 365 = yoe.
Proof.
  intros H1 H2 H3 doe.
  assert (∃ c q r, yoe = 100 * c + 4 * q + r ∧ (c = 0 ∨ c = 1 ∨ c = 2 ∨ c = 3)
    ∧ 0 ≤ q < 25 ∧ (r = 0 ∨ r = 1 ∨ r = 2 ∨ r = 3)) as (c & q & r & -> & Hc & Hq & Hr).
  { exists (yoe / 100), ((yoe mod 100) / 4), ((yoe mod 100) mod 4). dlia. }
  assert (Hl : doy = 365 → r = 3 ∧ (q < 24 ∨ c = 3)) by (clear doe; dlia). clear H3.
  assert (Hdoe : doe = (100 * c + 4 * q + r) * 365 + 25 * c + q - c + doy)
    by (subst doe; dlia).
  clearbody doe. clear H1.
  destruct Hc as [->|[->|[->| ->]]]; destruct Hr as [->|[->|[->| ->]]]; dlia.
Qed.

(** Month and day of the month are recovered from the day of the year. *)
Lemma month_day_ok sm d :
  0 ≤ sm ≤ 11 → 1 ≤ d ≤ 31 → (sm = 1 ∨ sm = 3 ∨ sm = 6 ∨ sm = 8 → d ≤ 30) →
  (sm = 11 → d ≤ 29) →
  let doy := (153 * sm + 2) / 5 + d - 1 in
  (5 * doy + 2) / 153 = sm ∧ doy - (153 * sm + 2) / 5 + 1 = d.
Proof.
  intros Hs Hd Hm Hf doy. subst doy.
  assert (sm = 0 ∨ sm = 1 ∨ sm = 2 ∨ sm = 3 ∨ sm = 4 ∨ sm = 5 ∨ sm = 6 ∨ sm = 7 ∨ sm = 8
    ∨ sm = 9 ∨ sm = 10 ∨ sm = 11) as Hc by lia.
  repeat destruct Hc as [->|Hc]; subst; dlia.
Qed.

(** The shifted month of the code and the length of each month in it. *)
Lemma valid_civil_shift y m d :
  valid_civil y m d →
  let sm := (m + 9) mod 12 in
  0 ≤ sm ≤ 11 ∧ 1 ≤ d ≤ 31 ∧ (sm = 1 ∨ sm = 3 ∨ sm = 6 ∨ sm = 8 → d ≤ 30) ∧
  (sm = 11 → d ≤ 29 ∧ (d = 29 → is_leap_year y = true)) ∧
  m = (if sm <? 10 then sm + 3 else sm - 9).
Proof.
  unfold valid_civil, days_in_month. intros [Hm Hd].
  assert (m = 1 ∨ m = 2 ∨ m = 3 ∨ m = 4 ∨ m = 5 ∨ m = 6 ∨ m = 7 ∨ m = 8 ∨ m = 9
    ∨ m = 10 ∨ m = 11 ∨ m = 12) as Hcases by lia. clear Hm.
  destruct (is_leap_year y) eqn:Hl;
  repeat (destruct Hcases as [->|Hcases]); subst; cbn in *;
    repeat split; intros; first [dlia | done | congruence].
Qed.

Lemma clamp_id x lo hi : lo ≤ x ≤ hi → clamp x lo hi = x.
Proof. unfold clamp. intros. destruct_ifs; reflect_bools; lia. Qed.

(** [days_from_civil] on a valid date, with floored divisions. *)
Lemma days_from_civil_valid y m d :
  valid_civil y m d →
  days_from_civil y m d =
    let ay := if m <=? 2 then y - 1 else y in
    let yoe := ay mod 400 in
    let doy := (153 * ((m + 9) mod 12) + 2) / 5 + d - 1 in
    (ay / 400) * 146097 + (yoe * 365 + yoe / 4 - yoe / 100 + doy) - 719468.
Proof.
  intros Hv. pose proof (valid_civil_shift y m d Hv) as Hs. cbn zeta in Hs.
  unfold valid_civil in Hv.
  unfold days_from_civil. rewrite (clamp_id m) by lia. rewrite clamp_id by lia.
  cbn zeta. rewrite era_year.
  set (ay := if m <=? 2 then y - 1 else y).
  replace (ay - ay / 400 * 400) with (ay mod 400) by dlia.
  rewrite Z.rem_mod_nonneg by lia. rewrite !Z.quot_div_nonneg by dlia. done.
Qed.

(** Every day of an era is a year of the era and a day of that year. *)
Lemma day_of_era_split doe :
  0 ≤ doe < 146097 →
  ∃ yoe doy, 0 ≤ yoe < 400 ∧ 0 ≤ doy ≤ 365 ∧
    (doy = 365 → (yoe + 1) mod 4 = 0 ∧ ((yoe + 1) mod 100 ≠ 0 ∨ (yoe + 1) mod 400 = 0)) ∧
    doe = yoe * 365 + yoe / 4 - yoe / 100 + doy.
Proof.
  intros Hd. set (c := Z.min (doe / 36524) 3). set (d1 := doe - 36524 * c).
  set (q := d1 / 1461). set (d2 := d1 - 1461 * q). set (r := Z.min (d2 / 365) 3).
  assert (Hc : 0 ≤ c ≤ 3 ∧ 0 ≤ d1 ≤ 36524 ∧ (d1 = 36524 → c = 3)) by (subst c d1; dlia).
  assert (Hq : 0 ≤ q ≤ 24 ∧ 0 ≤ d2 ≤ 1460 ∧ (q = 24 → d2 ≤ 1460) ∧ d1 = 1461 * q + d2)
    by (subst q d2; dlia).
  assert (Hr : 0 ≤ r ≤ 3 ∧ 0 ≤ d2 - 365 * r ≤ 365 ∧ (d2 - 365 * r = 365 → r = 3))
    by (subst r; dlia).
  assert (Hdoe : doe = 36524 * c + d1) by (subst d1; lia).
  clearbody c d1 q d2 r.
  exists (100 * c + 4 * q + r), (d2 - 365 * r).
  assert (Hy4 : (100 * c + 4 * q + r) / 4 = 25 * c + q) by dlia.
  assert (Hy100 : (100 * c + 4 * q + r) / 100 = c) by dlia.
  rewrite Hy4, Hy100. repeat split; try lia.
  - assert (r = 3) by lia. subst r. dlia.
  - destruct (Z.eq_dec c 3) as [->|]; [destruct (Z.eq_dec q 24) as [->|]|]; [right|left|left].
    + assert (r = 3) by lia. subst. done.
    + assert (r = 3) by lia. subst. dlia.
    + assert (r = 3) by lia. subst. assert (q ≠ 24) by lia. dlia.
Qed.

Lemma civil_from_days_floor n :
  civil_from_days n =
    let z := n + 719468 in
    let era := z / 146097 in
    let doe := z mod 146097 in
    let yoe := (doe - doe / 1460 + doe / 36524 - doe / 146096) / 365 in
    let doy := doe - (365 * yoe + yoe / 4 - yoe / 100) in
    let sm := (5 * doy + 2) / 153 in
    let month := if sm <? 10 then sm + 3 else sm - 9 in
    (if month <=? 2 then yoe + era * 400 + 1 else yoe + era * 400, month,
     doy - (153 * sm + 2) / 5 + 1).
Proof.
  unfold civil_from_days. rewrite era_day. cbn zeta.
  set (z := n + 719468).
  replace (z - z / 146097 * 146097) with (z mod 146097) by dlia.
  assert (Hd : 0 ≤ z mod 146097 < 146097) by dlia.
  set (doe := z mod 146097) in *. clearbody doe. clearbody z.
  rewrite (Z.quot_div_nonneg doe 1460), (Z.quot_div_nonneg doe 36524),
    (Z.quot_div_nonneg doe 146096) by lia.
  rewrite (Z.quot_div_nonneg (doe - _ + _ - _)) by dlia.
  destruct (day_of_era_split doe Hd) as (yoe & doy & Hy & Hdy & Hl & Hdoe).
  pose proof (year_of_era_ok yoe doy Hy Hdy Hl) as Hyoe. cbn zeta in Hyoe.
  rewrite <- Hdoe in Hyoe. rewrite Hyoe.
  rewrite (Z.quot_div_nonneg yoe 4), (Z.quot_div_nonneg yoe 100) by lia.
  replace (doe - (365 * yoe + yoe / 4 - yoe / 100)) with doy by lia.
  rewrite (Z.quot_div_nonneg (5 * doy + 2)) by lia.
  rewrite Z.quot_div_nonneg by dlia. done.
Qed.

(** The calendar in components: [days_from_civil] and [civil_from_days] are
    the two directions of this decomposition. *)
Lemma civil_from_days_parts era yoe sm d :
  0 ≤ yoe < 400 → 0 ≤ sm ≤ 11 → 1 ≤ d ≤ 31 →
  (sm = 1 ∨ sm = 3 ∨ sm = 6 ∨ sm = 8 → d ≤ 30) →
  (sm = 11 → d ≤ 29 ∧ (d = 29 →
     (yoe + 1) mod 4 = 0 ∧ ((yoe + 1) mod 100 ≠ 0 ∨ (yoe + 1) mod 400 = 0))) →
  let m := if sm <? 10 then sm + 3 else sm - 9 in
  civil_from_days (era * 146097
    + (yoe * 365 + yoe / 4 - yoe / 100 + ((153 * sm + 2) / 5 + d - 1)) - 719468) =
  (if m <=? 2 then yoe + era * 400 + 1 else yoe + era * 400, m, d).
Proof.
  intros Hy Hs Hd Hm Hf m. rewrite civil_from_days_floor. cbn zeta.
  set (doy := (153 * sm + 2) / 5 + d - 1).
  assert (Hdoy : 0 ≤ doy ≤ 365 ∧ (doy = 365 → sm = 11 ∧ d = 29)).
  { subst doy. clear -Hs Hd Hm Hf.
    assert (sm = 11 → d ≤ 29) as Hf' by tauto. clear Hf.
    dlia. }
  set (doe := yoe * 365 + yoe / 4 - yoe / 100 + doy).
  assert (Hdoe : 0 ≤ doe < 146097).
  { subst doe. assert (doy = 365 → yoe + 1 ≤ 400) by lia. clearbody doy.
    destruct Hdoy as [Hdoy _]. dlia. }
  replace (era * 146097 + doe - 719468 + 719468) with (doe + era * 146097) by lia.
  rewrite (Z.div_add doe era), (Z.mod_add doe era), (Z.div_small doe 146097), (Z.mod_small doe 146097) by lia.
  assert (Hyoe : (doe - doe / 1460 + doe / 36524 - doe / 146096) / 365 = yoe).
  { apply year_of_era_ok; [done|tauto|]. intros H365. tauto. }
  rewrite Hyoe. replace (doe - (365 * yoe + yoe / 4 - yoe / 100)) with doy by (subst doe; lia).
  destruct (month_day_ok sm d) as [Hsm Hday]; [done..|tauto|]. fold doy in Hsm, Hday.
  rewrite Hsm, Hday. subst m. by rewrite Z.add_0_l.
Qed.

(** Every day of a year is a shifted month and a day of it. *)
Lemma day_of_year_split doy :
  0 ≤ doy ≤ 365 →
  ∃ sm d, 0 ≤ sm ≤ 11 ∧ 1 ≤ d ≤ 31 ∧ (sm = 1 ∨ sm = 3 ∨ sm = 6 ∨ sm = 8 → d ≤ 30) ∧
    (sm = 11 → d ≤ 29 ∧ (d = 29 → doy = 365)) ∧ doy = (153 * sm + 2) / 5 + d - 1.
Proof.
  intros Hd. exists ((5 * doy + 2) / 153), (doy - (153 * ((5 * doy + 2) / 153) + 2) / 5 + 1).
  set (sm := (5 * doy + 2) / 153).
  assert (Hsm : 0 ≤ sm ≤ 11 ∧ 153 * sm ≤ 5 * doy + 2 < 153 * sm + 153) by (subst sm; dlia).
  clearbody sm. destruct Hsm as [Hs Hb].
  assert (sm = 0 ∨ sm = 1 ∨ sm = 2 ∨ sm = 3 ∨ sm = 4 ∨ sm = 5 ∨ sm = 6 ∨ sm = 7 ∨ sm = 8
    ∨ sm = 9 ∨ sm = 10 ∨ sm = 11) as Hc by lia. clear Hs.
  repeat destruct Hc as [->|Hc]; subst; dlia.
Qed.

(** The month and day of a shifted date are valid in the calendar year. *)
Lemma shift_valid_civil ay sm d :
  0 ≤ sm ≤ 11 → 1 ≤ d ≤ 31 → (sm = 1 ∨ sm = 3 ∨ sm = 6 ∨ sm = 8 → d ≤ 30) →
  (sm = 11 → d ≤ 29 ∧ (d = 29 → is_leap_year (ay + 1) = true)) →
  ∀ m, m = (if sm <? 10 then sm + 3 else sm - 9) →
  valid_civil (if m <=? 2 then ay + 1 else ay) m d ∧ (m + 9) mod 12 = sm ∧
  (if m <=? 2 then (if m <=? 2 then ay + 1 else ay) - 1
   else (if m <=? 2 then ay + 1 else ay)) = ay.
Proof.
  intros Hs Hd H30 Hf m Hm. unfold valid_civil, days_in_month.
  assert (sm = 0 ∨ sm = 1 ∨ sm = 2 ∨ sm = 3 ∨ sm = 4 ∨ sm = 5 ∨ sm = 6 ∨ sm = 7 ∨ sm = 8
    ∨ sm = 9 ∨ sm = 10 ∨ sm = 11) as Hc by lia. clear Hs.
  assert (Hleap : sm = 11 → d ≤ (if is_leap_year (ay + 1) then 29 else 28)).
  { intros E. destruct (Hf E) as [? H29]. destruct (is_leap_year (ay + 1)); [done|].
    assert (d ≠ 29) by (intros E'; discriminate (H29 E')). lia. }
  clear Hf. repeat destruct Hc as [->|Hc]; subst sm || idtac;
    match type of Hm with m = ?e => let v := eval vm_compute in e in change e with v in Hm end;
    subst m; cbn -[is_leap_year]; try specialize (Hleap eq_refl);
    destruct (is_leap_year (ay + 1));
    repeat split; first [done | lia].
Qed.

(** ** The properties of the calendar and of the displays *)

(** A valid date survives the trip through the day number: [civil_from_days]
    inverts [days_from_civil] on every date the calendar accepts. *)
Theorem civil_round_trip year month day :
  valid_civil year month day →
  civil_from_days (days_from_civil year month day) = (year, month, day).
Proof.
  intros Hv. rewrite days_from_civil_valid by done. cbn zeta.
  destruct (valid_civil_shift _ _ _ Hv) as (Hsm & Hd & H30 & Hfeb & Hm).
  set (sm := (month + 9) mod 12) in *.
  set (ay := if month <=? 2 then year - 1 else year).
  rewrite civil_from_days_parts; [|dlia|done..|].
  - rewrite <- Hm. subst ay. destruct (month <=? 2); repeat f_equal; dlia.
  - intros Hs. destruct (Hfeb Hs) as [? Hleap]. split; [done|]. intros H29.
    specialize (Hleap H29). apply is_leap_year_mod in Hleap.
    assert (Hay : ay = year - 1).
    { subst ay. rewrite Hs in Hm. cbn in Hm. subst month. done. }
    rewrite Hay. clear -Hleap. dlia.
Qed.

(** Every day number denotes a valid date, and that date's day number is the
    day number again: the other direction of the round trip, on all of [Z]. *)
Theorem days_round_trip days :
  let '(year, month, day) := civil_from_days days in
  valid_civil year month day ∧ try_days_from_civil year month day = Some days.
Proof.
  assert (Hd : 0 ≤ (days + 719468) mod 146097 < 146097) by dlia.
  destruct (day_of_era_split _ Hd) as (yoe & doy & Hy & Hdy & Hl & Hdoe).
  destruct (day_of_year_split _ Hdy) as (sm & d & Hsm & Hd31 & H30 & Hf & Hdoy).
  set (era := (days + 719468) / 146097).
  assert (Hdays : days = era * 146097
    + (yoe * 365 + yoe / 4 - yoe / 100 + ((153 * sm + 2) / 5 + d - 1)) - 719468).
  { rewrite <- Hdoy, <- Hdoe. subst era. dlia. }
  clearbody era. clear Hd Hdoe. subst days.
  rewrite civil_from_days_parts; [|done..|naive_solver].
  destruct (shift_valid_civil (yoe + era * 400) sm d Hsm Hd31 H30) with (m := if sm <? 10 then sm + 3 else sm - 9) as (Hv & Hm & Hay); [|done|].
  { intros Hs. destruct (Hf Hs) as [? H29]. split; [done|]. intros E.
    specialize (Hl (H29 E)). apply is_leap_year_mod. clear -Hl. dlia. }
  set (m := if sm <? 10 then sm + 3 else sm - 9) in *.
  replace (if m <=? 2 then yoe + era * 400 + 1 else yoe + era * 400)
    with (if m <=? 2 then (yoe + era * 400) + 1 else yoe + era * 400) by done.
  split; [done|]. unfold try_days_from_civil. pose proof Hv as [Hv1 Hv2].
  replace ((1 <=? m) && (m <=? 12)) with true by lia. cbn [negb].
  match goal with |- context [(d <? 1) || ?b] => replace ((d <? 1) || b) with false by lia end.
  rewrite days_from_civil_valid by done. cbn zeta. rewrite Hay, Hm. f_equal.
  clear -Hy. rewrite Z.div_add, Z.mod_add, Z.div_small, Z.mod_small by lia. lia.
Qed.

(** [try_days_from_civil] accepts exactly the dates of the calendar, and
    agrees with the clamping conversion on them. *)
Theorem try_days_exact year month day :
  (valid_civil year month day →
     try_days_from_civil year month day = Some (days_from_civil year month day)) ∧
  (¬ valid_civil year month day → try_days_from_civil year month day = None).
Proof.
  unfold try_days_from_civil, valid_civil. split; intros H; destruct_ifs; reflect_bools;
    try done; exfalso; lia.
Qed.

(** ** Lemmas: displays *)

Lemma display_parts h :
  0 ≤ h → let whole := h / HNS_PER_MILLISECOND in
  let rem := h - whole * HNS_PER_MILLISECOND in 0 ≤ whole ∧ 0 ≤ rem < 10000 ∧ h = whole * 10000 + rem.
Proof. unfold HNS_PER_MILLISECOND. intros. cbn zeta. dlia. Qed.

Lemma milliseconds_display_length h :
  is_u64 h → (length (milliseconds_display h) ≤ 32)%nat.
Proof.
  intros Hh. unfold milliseconds_display. unfold is_u64 in Hh.
  destruct (display_parts h) as (Hw & Hr & Heq); [lia|].
  set (w := h / HNS_PER_MILLISECOND) in *. set (r := h - _) in *.
  rewrite !length_app, pad_zero_length. cbn [length].
  assert (length (show_u r) ≤ 4)%nat by (apply show_u_length; lia).
  assert (length (show_u w) ≤ 16)%nat by (apply show_u_length; lia). lia.
Qed.

Definition is_ascii (c : Z) : Prop := 0 ≤ c < 128.

Lemma ascii_utf8 s : Forall is_ascii s → utf8_encode s = s ∧ utf8_decode s = Some s.
Proof.
  induction 1 as [|c s Hc _ [IHe IHd]]; [done|]. unfold is_ascii in Hc.
  cbn [utf8_encode flat_map utf8_decode].
  replace (c <? 0x80) with true by lia. rewrite IHd. fold (utf8_encode s). rewrite IHe.
  unfold utf8_char. replace (c <? 0x80) with true by lia. done.
Qed.

Lemma digit_ascii s : Forall (λ c, is_ascii_digit c = true) s → Forall is_ascii s.
Proof.
  intros H. apply (Forall_impl _ _ _ H). intros c. unfold is_ascii_digit, is_ascii. lia.
Qed.

Lemma milliseconds_display_ascii h : 0 ≤ h → Forall is_ascii (milliseconds_display h).
Proof.
  intros Hh. unfold milliseconds_display, pad_zero. destruct (display_parts h Hh) as (? & ? & _).
  rewrite !Forall_app. repeat split.
  - by apply digit_ascii, show_u_digits.
  - repeat constructor; done.
  - apply Forall_replicate. done.
  - apply digit_ascii, show_u_digits. lia.
Qed.

(** The 32-byte stack buffer always fits the display of a [u64], so neither
    [expect] of [format_milliseconds] can panic, and the text is the decimal
    display itself. *)
Theorem format_milliseconds_total h :
  is_u64 h → format_milliseconds h = Some (milliseconds_display h).
Proof.
  intros Hh. unfold format_milliseconds, write_milliseconds_bytes.
  pose proof (milliseconds_display_length h Hh).
  rewrite length_replicate, decide_True by done. cbn.
  rewrite take_app_length. apply ascii_utf8, milliseconds_display_ascii.
  unfold is_u64 in Hh. lia.
Qed.

Lemma civil_round_trip_witness :
  valid_civil 2024 2 29 ∧ civil_from_days (days_from_civil 2024 2 29) = (2024, 2, 29).
Proof.
  assert (H : valid_civil 2024 2 29) by (vm_compute; repeat split; discriminate).
  split; [exact H|]. apply (civil_round_trip 2024 2 29 H).
Defined.

Lemma format_milliseconds_total_witness :
  is_u64 156250 ∧ format_milliseconds 156250 = Some (lit "15.6250").
Proof.
  assert (H : is_u64 156250) by (unfold is_u64; lia).
  split; [exact H|]. rewrite (format_milliseconds_total 156250 H). reflexivity.
Defined.
