(* ===== verification/Policy.v ===== *)
(** * Policy: power decisions, capability tiers, responsiveness

    Models [crates/tick-policy/src/lib.rs]: [decide] and [ReasonSet], the tier
    evaluation, and the latency classifier [ResponsivenessTracker]. *)
From S2P Require Import Prelude Text Core.

(** ** Power policy *)

Module PowerState.
Inductive PowerState := Ac | Battery | BatterySaver | Unknown.
End PowerState.
Abbreviation PowerState := PowerState.PowerState.
#[export] Instance PowerState_eq_dec : EqDecision PowerState.
Proof. solve_decision. Defined.

Module PolicyReason.
Inductive PolicyReason :=
| NoEligibleProfile | EligibleProfile | BatteryRestricted | BatterySaverRestricted
| PowerUnknown | GloballyDisabled.
End PolicyReason.
Abbreviation PolicyReason := PolicyReason.PolicyReason.
#[export] Instance PolicyReason_eq_dec : EqDecision PolicyReason.
Proof. solve_decision. Defined.

Record PolicyInput := mkPolicyInput {
  enabled : bool;
  eligible_profile : bool;
  power : PowerState;
  battery_lockout_enabled : bool }.

Record PolicyDecision := mkDecision { status : Status; reason : PolicyReason }.

Definition decide (input : PolicyInput) : PolicyDecision :=
  if negb (enabled input) then mkDecision Status.Blocked PolicyReason.GloballyDisabled
  else if negb (eligible_profile input)
  then mkDecision Status.Released PolicyReason.NoEligibleProfile
  else match power input with
  | PowerState.Ac => mkDecision Status.Requested PolicyReason.EligibleProfile
  | PowerState.Battery =>
      if battery_lockout_enabled input
      then mkDecision Status.Blocked PolicyReason.BatteryRestricted
      else mkDecision Status.Requested PolicyReason.EligibleProfile
  | PowerState.BatterySaver =>
      if battery_lockout_enabled input
      then mkDecision Status.Blocked PolicyReason.BatterySaverRestricted
      else mkDecision Status.Requested PolicyReason.EligibleProfile
  | PowerState.Unknown => mkDecision Status.Blocked PolicyReason.PowerUnknown
  end.

(** [ReasonSet::from_reasons]: push each reason not already there. *)
Definition push_unique (unique : list PolicyReason) (reason : PolicyReason) :
    list PolicyReason :=
  if bool_decide (reason ∈ unique) then unique else unique ++ [reason].

Definition from_reasons (reasons : list PolicyReason) : list PolicyReason :=
  fold_left push_unique reasons [].

(** ** Capability tiers *)

Definition MAX_ANOMALIES_BEFORE_QUIESCENT : Z := 3.
Definition KERNEL_REJECTIONS_BEFORE_FLOOR : Z := 3.
Definition FALLBACK_FLOOR_HNS : Z := 10 * 1000.

Module OperatingTier.
Inductive OperatingTier :=
| Nominal | SurfaceDegraded | MetrologyDegraded (floored_hns : Z) | Quiescent.
End OperatingTier.
Abbreviation OperatingTier := OperatingTier.OperatingTier.
#[export] Instance OperatingTier_eq_dec : EqDecision OperatingTier.
Proof. solve_decision. Defined.

Module TierTransition.
Inductive TierTransition :=
| Stay | EnterSurfaceDegraded | EnterMetrologyDegraded (floored_hns : Z)
| EnterQuiescent | Recover.
End TierTransition.
Abbreviation TierTransition := TierTransition.TierTransition.
#[export] Instance TierTransition_eq_dec : EqDecision TierTransition.
Proof. solve_decision. Defined.

Record TierContext := mkTierContext {
  tray_surface_available : bool;
  ctx_kernel_rejected_requests : Z;
  ctx_unhandled_anomalies : Z;
  current_floor_hns : Z;
  nominally_recoverable : bool }.

Definition is_metrology_or_quiescent (t : OperatingTier) : bool :=
  match t with
  | OperatingTier.MetrologyDegraded _ | OperatingTier.Quiescent => true
  | _ => false
  end.
Definition is_degraded_tier (t : OperatingTier) : bool :=
  match t with
  | OperatingTier.SurfaceDegraded | OperatingTier.MetrologyDegraded _ => true
  | _ => false
  end.

Definition evaluate_tier (current : OperatingTier) (ctx : TierContext) : TierTransition :=
  if MAX_ANOMALIES_BEFORE_QUIESCENT <=? ctx_unhandled_anomalies ctx
  then TierTransition.EnterQuiescent
  else if negb (tray_surface_available ctx) && bool_decide (current = OperatingTier.Nominal)
  then TierTransition.EnterSurfaceDegraded
  else if (KERNEL_REJECTIONS_BEFORE_FLOOR <=? ctx_kernel_rejected_requests ctx)
          && negb (is_metrology_or_quiescent current)
  then TierTransition.EnterMetrologyDegraded FALLBACK_FLOOR_HNS
  else if is_degraded_tier current && nominally_recoverable ctx
          && (ctx_unhandled_anomalies ctx =? 0)
  then TierTransition.Recover
  else TierTransition.Stay.

Definition tier_allows_high_resolution (tier : OperatingTier) : bool :=
  match tier with
  | OperatingTier.Nominal | OperatingTier.SurfaceDegraded => true
  | _ => false
  end.

(** ** Responsiveness *)

Module ResponsivenessState.
Inductive ResponsivenessState := Normal | Elevated | Degraded.
End ResponsivenessState.
Abbreviation ResponsivenessState := ResponsivenessState.ResponsivenessState.
#[export] Instance ResponsivenessState_eq_dec : EqDecision ResponsivenessState.
Proof. solve_decision. Defined.

Definition LATENCY_BASELINE_SHIFT : Z := 3.
Definition ANOMALY_FACTOR_PERCENT : Z := 300.
Definition ANOMALY_ABSOLUTE_FLOOR_MS : Z := 250.
Definition ESCALATE_CONSECUTIVE_SAMPLES : Z := 3.
Definition RECOVER_CONSECUTIVE_SAMPLES : Z := 5.
Definition WORSENING_FACTOR_PERCENT : Z := 200.

Record ResponsivenessTracker := mkTracker {
  baseline_ms : Z;
  worst_ms : Z;
  anomalous_streak : Z;
  clean_streak : Z;
  seeded : bool;
  tracker_state : ResponsivenessState }.

Definition tracker_new : ResponsivenessTracker :=
  mkTracker 0 0 0 0 false ResponsivenessState.Normal.

(** The seeding branch of [observe] and the threshold it then uses. *)
Definition tracker_seed (t : ResponsivenessTracker) (latency_ms : Z) : ResponsivenessTracker :=
  if seeded t then t
  else mkTracker latency_ms (worst_ms t) (anomalous_streak t) (clean_streak t) true
         (tracker_state t).

Definition anomaly_threshold (t : ResponsivenessTracker) : Z :=
  Z.max (sat_mul 64 (baseline_ms t) ANOMALY_FACTOR_PERCENT / 100) ANOMALY_ABSOLUTE_FLOOR_MS.

Definition observe (t0 : ResponsivenessTracker) (latency_ms : Z) : ResponsivenessTracker :=
  let t := tracker_seed t0 latency_ms in
  if anomaly_threshold t <? latency_ms then
    let worsening := negb (worst_ms t =? 0)
      && (sat_mul 64 (worst_ms t) WORSENING_FACTOR_PERCENT / 100 <=? latency_ms) in
    let streak := sat_add 32 (anomalous_streak t) 1 in
    mkTracker (baseline_ms t) (Z.max (worst_ms t) latency_ms) streak 0 (seeded t)
      (if worsening || (ESCALATE_CONSECUTIVE_SAMPLES <=? streak)
       then ResponsivenessState.Degraded else ResponsivenessState.Elevated)
  else
    let weight := Z.shiftl 1 LATENCY_BASELINE_SHIFT - 1 in
    let baseline := Z.shiftr (sat_add 64 (sat_mul 64 (baseline_ms t) weight) latency_ms)
                             LATENCY_BASELINE_SHIFT in
    let clean := sat_add 32 (clean_streak t) 1 in
    if RECOVER_CONSECUTIVE_SAMPLES <=? clean
    then mkTracker baseline 0 0 clean (seeded t) ResponsivenessState.Normal
    else mkTracker baseline (worst_ms t) 0 clean (seeded t) (tracker_state t).

(** ** Properties of the policy *)

(** [decide] requests timing exactly when the profile is eligible and the
    power source permits it, and names the reason that blocks it otherwise;
    unknown power is always blocked. *)
Theorem decide_requests_iff input :
  (status (decide input) = Status.Requested ↔
     enabled input = true ∧ eligible_profile input = true ∧ power input ≠ PowerState.Unknown ∧
     (power input = PowerState.Ac ∨ battery_lockout_enabled input = false)) ∧
  (status (decide input) = Status.Requested ↔
     reason (decide input) = PolicyReason.EligibleProfile) ∧
  (status (decide input) = Status.Released ↔
     reason (decide input) = PolicyReason.NoEligibleProfile).
Proof. destruct input as [[] [] [] []]; cbn; repeat split; naive_solver. Qed.

Lemma from_reasons_acc reasons acc :
  NoDup acc →
  NoDup (fold_left push_unique reasons acc) ∧
  (∀ r, r ∈ fold_left push_unique reasons acc ↔ r ∈ acc ∨ r ∈ reasons) ∧
  (∃ l, fold_left push_unique reasons acc = acc ++ l ∧ l `sublist_of` reasons).
Proof.
  revert acc. induction reasons as [|r rs IH]; intros acc Hnd; cbn [fold_left].
  - split_and!; [done|set_solver|exists []; by rewrite app_nil_r].
  - unfold push_unique at 2 4 6. case_bool_decide as Hin.
    + destruct (IH acc Hnd) as (H1 & H2 & l & H3 & H4).
      split_and!; [done|set_solver|exists l; split; [done|by constructor]].
    + destruct (IH (acc ++ [r])) as (H1 & H2 & l & H3 & H4).
      { apply NoDup_app. split_and!; [done|set_solver|apply NoDup_singleton]. }
      split_and!; [done|set_solver|].
      exists (r :: l). rewrite H3, <- app_assoc. split; [done|by constructor].
Qed.

(** [ReasonSet::from_reasons] keeps each reason once, loses none, and keeps
    the order of first occurrence. *)
Theorem from_reasons_set reasons :
  NoDup (from_reasons reasons) ∧
  (∀ r, r ∈ from_reasons reasons ↔ r ∈ reasons) ∧
  from_reasons reasons `sublist_of` reasons.
Proof.
  destruct (from_reasons_acc reasons [] (NoDup_nil_2)) as (H1 & H2 & l & H3 & H4).
  unfold from_reasons. split_and!; [done|set_solver|by rewrite H3].
Qed.

(** ** Properties of the tracker *)

Definition tracker_wf (t : ResponsivenessTracker) : Prop :=
  is_u64 (baseline_ms t) ∧ is_u64 (worst_ms t) ∧ is_u32 (anomalous_streak t) ∧
  is_u32 (clean_streak t) ∧
  (worst_ms t = 0 ↔ tracker_state t = ResponsivenessState.Normal) ∧
  (anomalous_streak t = 0 ∨ clean_streak t = 0) ∧
  (ESCALATE_CONSECUTIVE_SAMPLES ≤ anomalous_streak t →
     tracker_state t = ResponsivenessState.Degraded) ∧
  (RECOVER_CONSECUTIVE_SAMPLES ≤ clean_streak t →
     tracker_state t = ResponsivenessState.Normal).

Lemma tracker_new_wf : tracker_wf tracker_new.
Proof.
  unfold tracker_wf, ESCALATE_CONSECUTIVE_SAMPLES, RECOVER_CONSECUTIVE_SAMPLES.
  cbn. unfold_ints. split_and!; try done; try lia; by left.
Qed.

Lemma tracker_seed_wf t l : tracker_wf t → is_u64 l → tracker_wf (tracker_seed t l).
Proof. unfold tracker_wf, tracker_seed. destruct (seeded t); cbn; tauto. Qed.

Lemma threshold_floor t : ANOMALY_ABSOLUTE_FLOOR_MS ≤ anomaly_threshold t.
Proof. unfold anomaly_threshold. lia. Qed.

Lemma observe_wf t l : tracker_wf t → is_u64 l → tracker_wf (observe t l).
Proof.
  intros Ht Hl. apply (tracker_seed_wf t l) in Ht; [|done].
  unfold observe. set (s := tracker_seed t l) in *. clearbody s.
  pose proof (threshold_floor s) as Hf. unfold ANOMALY_ABSOLUTE_FLOOR_MS in Hf.
  destruct Ht as (Hb & Hw & Ha & Hc & Hn & Hz & He & Hr).
  destruct (anomaly_threshold s <? l) eqn:Hth; reflect_bools.
  - unfold tracker_wf; cbn. split_and!; [done|unfold_ints; lia..| | | |].
    + destruct (_ || _); split; intros; (done || exfalso; unfold_ints; lia).
    + by right.
    + intros Hs. replace (ESCALATE_CONSECUTIVE_SAMPLES <=? _) with true by lia.
      by rewrite orb_true_r.
    + unfold RECOVER_CONSECUTIVE_SAMPLES. lia.
  - set (nb := Z.shiftr _ _).
    assert (Hnb : is_u64 nb).
    { subst nb. unfold LATENCY_BASELINE_SHIFT. rewrite Z.shiftr_div_pow2 by lia.
      change (Z.shiftl 1 3 - 1) with 7. unfold_ints. dlia. }
    clearbody nb.
    destruct (RECOVER_CONSECUTIVE_SAMPLES <=? _) eqn:Hc5; reflect_bools;
      unfold tracker_wf; cbn; split_and!; unfold ESCALATE_CONSECUTIVE_SAMPLES;
      try done; try (unfold_ints; lia); try tauto.
Qed.

Fixpoint observe_all (t : ResponsivenessTracker) (ls : list Z) : ResponsivenessTracker :=
  match ls with [] => t | l :: ls' => observe_all (observe t l) ls' end.

Lemma observe_all_wf t ls : tracker_wf t → Forall is_u64 ls → tracker_wf (observe_all t ls).
Proof.
  intros Ht Hls. revert t Ht. induction Hls; intros t Ht; [done|].
  cbn. by apply IHHls, observe_wf.
Qed.

(** Whether a sample counts as anomalous when it is observed. *)
Definition anomalous (t : ResponsivenessTracker) (l : Z) : bool :=
  anomaly_threshold (tracker_seed t l) <? l.

Fixpoint all_samples (b : bool) (t : ResponsivenessTracker) (ls : list Z) : Prop :=
  match ls with
  | [] => True
  | l :: ls' => anomalous t l = b ∧ all_samples b (observe t l) ls'
  end.

Lemma observe_anomalous t l :
  anomalous t l = true → anomalous_streak (observe t l) = sat_add 32 (anomalous_streak t) 1.
Proof.
  unfold anomalous, observe, tracker_seed. intros ->. by destruct (seeded t).
Qed.

Lemma observe_clean t l :
  anomalous t l = false → clean_streak (observe t l) = sat_add 32 (clean_streak t) 1.
Proof.
  unfold anomalous, observe. intros ->. destruct (_ <=? _); unfold tracker_seed;
    by destruct (seeded t).
Qed.

Lemma observe_all_anomalous ls t :
  is_u32 (anomalous_streak t) → all_samples true t ls → Z.of_nat (length ls) ≤ u32_max →
  Z.min (Z.of_nat (length ls)) u32_max ≤ anomalous_streak (observe_all t ls).
Proof.
  enough (∀ k, 0 ≤ k → k ≤ anomalous_streak t ≤ u32_max → all_samples true t ls →
    Z.min (k + Z.of_nat (length ls)) u32_max ≤ anomalous_streak (observe_all t ls)) as H.
  { intros Hu Ha Hl. specialize (H 0). unfold_ints. rewrite Z.add_0_l in H. apply H; lia || done. }
  revert t. induction ls as [|l ls IH]; intros t k Hk Ht Ha; cbn.
  - lia.
  - destruct Ha as [Ha Hs]. pose proof (observe_anomalous _ _ Ha) as Hstep.
    specialize (IH (observe t l) (Z.min (k + 1) u32_max)).
    rewrite Hstep in IH. unfold_ints. specialize (IH ltac:(lia) ltac:(lia) Hs). lia.
Qed.

Lemma observe_all_clean ls t k :
  0 ≤ k → k ≤ clean_streak t ≤ u32_max → all_samples false t ls →
  Z.min (k + Z.of_nat (length ls)) u32_max ≤ clean_streak (observe_all t ls).
Proof.
  revert t k. induction ls as [|l ls IH]; intros t k Hk Ht Ha; cbn.
  - lia.
  - destruct Ha as [Ha Hs]. pose proof (observe_clean _ _ Ha) as Hstep.
    specialize (IH (observe t l) (Z.min (k + 1) u32_max)).
    rewrite Hstep in IH. unfold_ints. specialize (IH ltac:(lia) ltac:(lia) Hs). lia.
Qed.

(** Hysteresis of the responsiveness classifier, from every state the tracker
    can reach: three consecutive anomalous samples end in [Degraded], and five
    consecutive clean samples end in [Normal] with the episode worst cleared. *)
Theorem tracker_hysteresis history samples :
  Forall is_u64 history → Forall is_u64 samples →
  let t := observe_all tracker_new history in
  (length samples = 3%nat → all_samples true t samples →
     tracker_state (observe_all t samples) = ResponsivenessState.Degraded) ∧
  (length samples = 5%nat → all_samples false t samples →
     tracker_state (observe_all t samples) = ResponsivenessState.Normal ∧
     worst_ms (observe_all t samples) = 0).
Proof.
  intros Hh Hs t. assert (Ht : tracker_wf t) by (apply observe_all_wf; [apply tracker_new_wf|done]).
  clearbody t. pose proof (observe_all_wf t samples Ht Hs) as (_ & _ & _ & _ & Hn & _ & He & Hr).
  destruct Ht as (_ & _ & Ha & Hc & _). split; intros Hl Hall.
  - apply He. pose proof (observe_all_anomalous samples t Ha Hall) as H. rewrite Hl in H.
    unfold ESCALATE_CONSECUTIVE_SAMPLES. unfold_ints. lia.
  - assert (RECOVER_CONSECUTIVE_SAMPLES ≤ clean_streak (observe_all t samples)) as H5.
    { pose proof (observe_all_clean samples t 0) as H. rewrite Hl in H.
      unfold RECOVER_CONSECUTIVE_SAMPLES. unfold_ints. specialize (H ltac:(lia) ltac:(lia) Hall). lia. }
    specialize (Hr H5). split; [done|]. by apply Hn.
Qed.

Lemma tracker_hysteresis_witness :
  let t := observe_all tracker_new [10; 12] in
  tracker_state (observe_all t [1000; 400; 1000]) = ResponsivenessState.Degraded ∧
  worst_ms (observe_all (observe_all tracker_new [10; 900; 900; 900]) [9; 9; 9; 9; 9]) = 0.
Proof.
  split.
  - apply (tracker_hysteresis [10; 12] [1000; 400; 1000]);
      [repeat constructor; done ..|vm_compute; auto].
  - apply (tracker_hysteresis [10; 900; 900; 900] [9; 9; 9; 9; 9]);
      [repeat constructor; done ..|vm_compute; auto 10].
Defined.
