(* ===== verification/Watchdog.v ===== *)
(** * Watchdog: the heartbeat monitor thread

    Models [crates/tick-watchdog/src/lib.rs].  The monitor thread, the UI thread
    that kicks the heartbeat and calls [shutdown], and the monotonic clock are
    interleaved by the step relation [step]; each constructor is one atomic
    action of the code (an atomic access, or a critical section under the
    latch's mutex).  [monitor_step] is the loop of [WatchdogHandle::spawn]. *)
From S2P Require Import Prelude.

Definition HEARTBEAT_INTERVAL_MS : Z := 1000.
Definition STALL_THRESHOLD_MS : Z := 4000.
Definition MAX_STALL_EPISODES : Z := 8.

(** The clock counts nanoseconds since [PROCESS_EPOCH]. *)
Definition monotonic_ms (now_ns : Z) : Z := Z.min (now_ns / 1000000) u64_max.

Module WatchdogVerdict.
Inductive WatchdogVerdict := Alive | Stalled (stall_ms : Z).
End WatchdogVerdict.
Abbreviation WatchdogVerdict := WatchdogVerdict.WatchdogVerdict.

Definition evaluate (now_ms last_kick_ms stall_threshold_ms : Z) : WatchdogVerdict :=
  let stall_ms := sat_sub now_ms last_kick_ms in
  if stall_threshold_ms <? stall_ms
  then WatchdogVerdict.Stalled stall_ms else WatchdogVerdict.Alive.

Record WatchdogConfig := mkWatchdogConfig {
  interval_ms : Z;
  stall_threshold_ms : Z }.

(** ** The shared state *)

(** [ShutdownLatch]: the atomic flag and the flag under the mutex. *)
Record ShutdownLatch := mkLatch { stop : bool; flag : bool }.

(** Where the monitor thread is. *)
Inductive MonitorPc :=
| AtIsStopped
| InWaitInterval (deadline_ns : Z)
| AtReadClock
| AtReadKick (now_ms : Z)
| AtMatch (verdict : WatchdogVerdict)
| AtFetchAdd (stall_ms : Z)
| AtCap (previous stall_ms : Z)
| Finished.

(** Where the UI thread is inside [kick] and [request_stop]. *)
Inductive UiPc := UiIdle | UiKick (now_ms : Z) | UiStop.

Record Watchdog := mkWatchdog {
  now_ns : Z;
  last_kick_ms : Z;
  latch : ShutdownLatch;
  stall_episodes : Z;
  stalled : bool;
  monitor : MonitorPc;
  ui : UiPc;
  calls : list Z;                   (* the arguments [on_stall] was called with *)
  verdicts : list WatchdogVerdict   (* every verdict reached, oldest first *) }.

Definition spawn (now_ns0 : Z) : Watchdog :=
  mkWatchdog now_ns0 (monotonic_ms now_ns0) (mkLatch false false) 0 false AtIsStopped UiIdle [] [].

(** ** One iteration of [wait_interval]'s loop, under the mutex *)

Module WaitResult.
Inductive WaitResult := StopRequested | Elapsed | Again.
End WaitResult.
Abbreviation WaitResult := WaitResult.WaitResult.

Definition wait_interval (l : ShutdownLatch) (now deadline : Z) : WaitResult :=
  if flag l then WaitResult.StopRequested
  else if deadline <=? now then WaitResult.Elapsed
  else WaitResult.Again.

Definition at_pc (s : Watchdog) (pc : MonitorPc) : Watchdog :=
  mkWatchdog (now_ns s) (last_kick_ms s) (latch s) (stall_episodes s) (stalled s) pc (ui s)
    (calls s) (verdicts s).

(** One atomic action of the monitor thread; [None] once it has finished. *)
Definition monitor_step (config : WatchdogConfig) (s : Watchdog) : option Watchdog :=
  match monitor s with
  | AtIsStopped =>
      Some (at_pc s (if stop (latch s) then Finished
                     else InWaitInterval (now_ns s + interval_ms config * 1000000)))
  | InWaitInterval deadline =>
      Some (at_pc s (match wait_interval (latch s) (now_ns s) deadline with
                     | WaitResult.StopRequested => Finished
                     | WaitResult.Elapsed => AtReadClock
                     | WaitResult.Again => InWaitInterval deadline
                     end))
  | AtReadClock => Some (at_pc s (AtReadKick (monotonic_ms (now_ns s))))
  | AtReadKick now_ms =>
      let verdict := evaluate now_ms (last_kick_ms s) (stall_threshold_ms config) in
      Some (mkWatchdog (now_ns s) (last_kick_ms s) (latch s) (stall_episodes s) (stalled s)
              (AtMatch verdict) (ui s) (calls s) (verdicts s ++ [verdict]))
  | AtMatch verdict =>
      match verdict with
      | WatchdogVerdict.Alive =>
          Some (mkWatchdog (now_ns s) (last_kick_ms s) (latch s) (stall_episodes s) false
                  AtIsStopped (ui s) (calls s) (verdicts s))
      | WatchdogVerdict.Stalled stall_ms =>
          if stalled s then Some (at_pc s AtIsStopped)
          else Some (mkWatchdog (now_ns s) (last_kick_ms s) (latch s) (stall_episodes s) true
                       (AtFetchAdd stall_ms) (ui s) (calls s) (verdicts s))
      end
  | AtFetchAdd stall_ms =>
      Some (mkWatchdog (now_ns s) (last_kick_ms s) (latch s) (wrap 32 (stall_episodes s + 1))
              (stalled s) (AtCap (stall_episodes s) stall_ms) (ui s) (calls s) (verdicts s))
  | AtCap previous stall_ms =>
      if MAX_STALL_EPISODES <=? previous
      then Some (mkWatchdog (now_ns s) (last_kick_ms s) (latch s)
                   (wrap 32 (stall_episodes s - 1)) (stalled s) Finished (ui s)
                   (calls s) (verdicts s))
      else Some (mkWatchdog (now_ns s) (last_kick_ms s) (latch s) (stall_episodes s)
                   (stalled s) AtIsStopped (ui s) (calls s ++ [stall_ms]) (verdicts s))
  | Finished => None
  end.

(** The UI thread: [kick] reads the clock, then stores; [request_stop] sets the
    flag under the mutex, then the atomic. *)
Definition with_ui (s : Watchdog) (u : UiPc) (kick : Z) (l : ShutdownLatch) : Watchdog :=
  mkWatchdog (now_ns s) kick l (stall_episodes s) (stalled s) (monitor s) u (calls s) (verdicts s).

Definition kick_read (s : Watchdog) : Watchdog :=
  with_ui s (UiKick (monotonic_ms (now_ns s))) (last_kick_ms s) (latch s).
Definition kick_store (s : Watchdog) (now_ms : Z) : Watchdog :=
  with_ui s UiIdle now_ms (latch s).
Definition request_stop_flag (s : Watchdog) : Watchdog :=
  with_ui s UiStop (last_kick_ms s) (mkLatch (stop (latch s)) true).
Definition request_stop_store (s : Watchdog) : Watchdog :=
  with_ui s UiIdle (last_kick_ms s) (mkLatch true (flag (latch s))).

Definition advance (s : Watchdog) (ns : Z) : Watchdog :=
  mkWatchdog (now_ns s + ns) (last_kick_ms s) (latch s) (stall_episodes s) (stalled s)
    (monitor s) (ui s) (calls s) (verdicts s).

Inductive step (config : WatchdogConfig) (s : Watchdog) : Watchdog → Prop :=
| step_monitor s' : monitor_step config s = Some s' → step config s s'
| step_clock ns : 0 ≤ ns → step config s (advance s ns)
| step_kick_read : ui s = UiIdle → step config s (kick_read s)
| step_kick_store now_ms : ui s = UiKick now_ms → step config s (kick_store s now_ms)
| step_stop_flag : ui s = UiIdle → step config s (request_stop_flag s)
| step_stop_store : ui s = UiStop → step config s (request_stop_store s).

Inductive reachable (config : WatchdogConfig) : Watchdog → Prop :=
| reach_spawn now : 0 ≤ now → reachable config (spawn now)
| reach_step s s' : reachable config s → step config s s' → reachable config s'.

(** [is_finished] and the monitor running alone for [n] of its steps. *)
Definition is_finished (s : Watchdog) : bool :=
  match monitor s with Finished => true | _ => false end.

Fixpoint run_monitor (config : WatchdogConfig) (n : nat) (s : Watchdog) : Watchdog :=
  match n with
  | O => s
  | S n' => match monitor_step config s with Some s' => run_monitor config n' s' | None => s end
  end.

(** ** The specification: one callback per episode

    An episode starts at a [Stalled] verdict that no earlier [Stalled] verdict
    precedes without an [Alive] one between them. *)
Fixpoint episode_starts (in_episode : bool) (vs : list WatchdogVerdict) : list Z :=
  match vs with
  | [] => []
  | WatchdogVerdict.Alive :: rest => episode_starts false rest
  | WatchdogVerdict.Stalled ms :: rest =>
      if in_episode then episode_starts true rest else ms :: episode_starts true rest
  end.

Fixpoint in_episode_after (in_episode : bool) (vs : list WatchdogVerdict) : bool :=
  match vs with
  | [] => in_episode
  | WatchdogVerdict.Alive :: rest => in_episode_after false rest
  | WatchdogVerdict.Stalled _ :: rest => in_episode_after true rest
  end.

Lemma episode_starts_snoc b vs v :
  episode_starts b (vs ++ [v]) =
    episode_starts b vs ++
    match v with
    | WatchdogVerdict.Alive => []
    | WatchdogVerdict.Stalled ms => if in_episode_after b vs then [] else [ms]
    end.
Proof.
  revert b. induction vs as [|[|ms] vs IH]; intros b; cbn; [by destruct v|by rewrite IH|].
  destruct b; cbn; by rewrite IH.
Qed.

Lemma in_episode_after_snoc b vs v :
  in_episode_after b (vs ++ [v]) =
    match v with WatchdogVerdict.Alive => false | WatchdogVerdict.Stalled _ => true end.
Proof. revert b. induction vs as [|[|ms] vs IH]; intros b; cbn; [by destruct v|by rewrite IH..]. Qed.

(** The verdicts the monitor has acted upon: all, except one being matched. *)
Definition pending (s : Watchdog) : list Z :=
  match monitor s with
  | AtFetchAdd ms | AtCap _ ms => [ms]
  | _ => []
  end.

(** The callbacks and the counter at each program point. *)
Definition inv_calls (s : Watchdog) : Prop :=
  (length (calls s) ≤ 8)%nat ∧
  stalled s = in_episode_after false
    (match monitor s with AtMatch _ => removelast (verdicts s) | _ => verdicts s end) ∧
  match monitor s with
  | AtMatch v => ∃ acted, verdicts s = acted ++ [v] ∧ episode_starts false acted = calls s
  | Finished => ∃ rest, episode_starts false (verdicts s) = calls s ++ rest ∧
      (length rest ≤ 1)%nat ∧ (rest = [] ∨ length (calls s) = 8%nat)
  | _ => episode_starts false (verdicts s) = calls s ++ pending s
  end ∧
  match monitor s with
  | AtCap previous _ => previous = Z.of_nat (length (calls s)) ∧ stall_episodes s = previous + 1
  | _ => stall_episodes s = Z.of_nat (length (calls s))
  end.

(** Every stall reported exceeds the threshold. *)
Definition inv_stalls (config : WatchdogConfig) (s : Watchdog) : Prop :=
  Forall (λ v, match v with
               | WatchdogVerdict.Alive => True
               | WatchdogVerdict.Stalled ms => stall_threshold_ms config < ms
               end) (verdicts s).

(** The monitor ends on a stop or on the ninth episode, nothing else. *)
Definition inv_latch (s : Watchdog) : Prop :=
  (stop (latch s) = true → flag (latch s) = true) ∧
  (ui s = UiStop → flag (latch s) = true) ∧
  (is_finished s = true → flag (latch s) = true ∨
     (8 < length (episode_starts false (verdicts s)))%nat).

Lemma inv_calls_frame s s' :
  monitor s' = monitor s → calls s' = calls s → verdicts s' = verdicts s →
  stalled s' = stalled s → stall_episodes s' = stall_episodes s →
  inv_calls s → inv_calls s'.
Proof. unfold inv_calls, pending. by intros -> -> -> -> ->. Qed.

Lemma inv_calls_monitor config s s' :
  inv_calls s → monitor_step config s = Some s' → inv_calls s'.
Proof.
  unfold inv_calls, monitor_step, at_pc, pending.
  destruct s as [now kick l ep st pc u cs vs]; cbn.
  intros (Hc & Hs & Hp & He) Hstep. destruct pc as [|d| |n|v|ms|prev ms|]; simplify_eq/=.
  - rewrite app_nil_r in Hp. destruct (stop l); cbn; split_and!; try done.
    + exists []. rewrite app_nil_r. cbn. auto.
    + by rewrite app_nil_r.
  - rewrite app_nil_r in Hp. unfold wait_interval.
    destruct (flag l); [|destruct (d <=? now)]; cbn; split_and!; try done.
    + exists []. rewrite app_nil_r. cbn. auto.
    + by rewrite app_nil_r.
    + by rewrite app_nil_r.
  - done.
  - rewrite app_nil_r in Hp. split_and!; try done.
    + by rewrite removelast_last.
    + by eexists.
  - destruct Hp as (acted & -> & Hp). rewrite removelast_last in *.
    destruct v as [|ms]; [|destruct (in_episode_after false acted) eqn:Ha]; simplify_eq/=;
      rewrite ?episode_starts_snoc, ?in_episode_after_snoc, ?Ha, ?app_nil_r; done.
  - split_and!; try done. unfold wrap. rewrite Z.mod_small; lia.
  - destruct He as [-> ->]. destruct (MAX_STALL_EPISODES <=? _) eqn:Hm; simplify_eq/=;
      unfold MAX_STALL_EPISODES in Hm; reflect_bools.
    + split_and!; try done.
      * exists [ms]. cbn. split_and!; [done|lia|right; lia].
      * unfold wrap. rewrite Z.mod_small; lia.
    + rewrite length_app; cbn. split_and!; [lia|done|by rewrite app_nil_r|lia].
Qed.

Lemma inv_calls_reachable config s : reachable config s → inv_calls s.
Proof.
  induction 1 as [now Hn|s s' _ IH Hs].
  - unfold inv_calls. cbn. split_and!; done || lia.
  - destruct Hs; [by eapply inv_calls_monitor|by eapply inv_calls_frame, IH ..].
Qed.

Lemma inv_stalls_reachable config s : reachable config s → inv_stalls config s.
Proof.
  unfold inv_stalls. induction 1 as [now Hn|s s' _ IH Hs]; [done|].
  destruct Hs as [s' Hs| | | | |]; cbn; try done.
  unfold monitor_step in Hs. repeat case_match; simplify_eq/=; try done.
  apply Forall_app. split; [done|]. constructor; [|done].
  unfold evaluate. destruct (_ <? _) eqn:?; reflect_bools; done.
Qed.

Lemma inv_latch_reachable config s : reachable config s → inv_latch s.
Proof.
  induction 1 as [now Hn|s s' Hr IH Hs]; [done|].
  pose proof (inv_calls_reachable _ _ Hr) as (Hc & _ & Hp & He).
  destruct IH as (H1 & H2 & H3).
  destruct Hs as [s' Hs|ns Hns|Hu|m Hu|Hu|Hu]; unfold inv_latch, is_finished in *; cbn in *;
    try tauto; [|split_and!; (done || tauto) ..].
  unfold monitor_step, wait_interval, at_pc in Hs.
  repeat case_match; simplify_eq/=; split_and!; try done; try assumption; try (intros; first [by auto|congruence|naive_solver congruence]).
  intros _. right. destruct He as [He _]. rewrite Hp, length_app. unfold pending.
  replace (monitor s) with (AtCap previous stall_ms). cbn.
  unfold MAX_STALL_EPISODES in *. reflect_bools. lia.
Qed.

Lemma episodes_above T b vs :
  Forall (λ v, match v with WatchdogVerdict.Alive => True
                          | WatchdogVerdict.Stalled ms => T < ms end) vs →
  Forall (λ ms, T < ms) (episode_starts b vs).
Proof.
  intros H. revert b. induction H as [|[|ms] vs Hv _ IH]; intros b; cbn; [done|done|].
  destruct b; [done|]. by constructor.
Qed.

(** ** Properties *)

(** C31: in every interleaving of the monitor, the UI thread and the clock, the
    stall callback has run exactly once for each of the first eight stall
    episodes the verdicts contain (one that is just being reported apart), with
    the stall time that started the episode, always above the threshold and
    never more than [MAX_STALL_EPISODES] times; the monitor has only ended
    because a stop was requested or because a ninth episode began. *)
Theorem watchdog_one_callback_per_episode config s :
  reachable config s →
  let episodes := episode_starts false (verdicts s) in
  calls s = take (length (calls s)) episodes ∧
  (length episodes ≤ S (length (calls s)))%nat ∧
  Z.of_nat (length (calls s)) ≤ MAX_STALL_EPISODES ∧
  Forall (λ ms, stall_threshold_ms config < ms) (calls s) ∧
  (is_finished s = true →
     calls s = take (Z.to_nat MAX_STALL_EPISODES) episodes ∧
     (flag (latch s) = true ∨ MAX_STALL_EPISODES < Z.of_nat (length episodes))).
Proof.
  intros Hr. pose proof (inv_calls_reachable _ _ Hr) as (Hc & _ & Hp & _).
  pose proof (inv_stalls_reachable _ _ Hr) as Hst. apply (episodes_above _ false) in Hst.
  destruct (inv_latch_reachable _ _ Hr) as (_ & _ & Hfin). cbv zeta.
  assert (∃ rest, episode_starts false (verdicts s) = calls s ++ rest ∧ (length rest ≤ 1)%nat ∧
    (is_finished s = true → rest = [] ∨ length (calls s) = 8%nat)) as (rest & He & Hl & Hf).
  { unfold pending, is_finished in *. destruct (monitor s);
      try (eexists; split; [exact Hp|]; cbn; split; [lia|done]).
    - destruct Hp as (acted & Hv & Hp). rewrite Hv, episode_starts_snoc, Hp.
      eexists. split; [done|]. split; [|done]. repeat case_match; cbn; lia.
    - naive_solver. }
  rewrite He in Hst |- *. rewrite take_app_length, length_app.
  unfold MAX_STALL_EPISODES. split_and!; [done|lia|lia|by apply Forall_app in Hst as []|].
  intros Hfi. rewrite He, length_app in Hfin. split.
  - destruct (Hf Hfi) as [-> | H8]; [by rewrite app_nil_r, take_ge|].
    by rewrite take_app_length'.
  - destruct (Hfin Hfi); [by left|right; lia].
Qed.

Lemma watchdog_one_callback_witness :
  let config := mkWatchdogConfig HEARTBEAT_INTERVAL_MS STALL_THRESHOLD_MS in
  let s := run_monitor config 6 (advance (run_monitor config 1 (spawn 0)) 5000000000) in
  reachable config s ∧ calls s = [5000] ∧ calls s = take (length (calls s)) (episode_starts false (verdicts s)).
Proof.
  intros config s.
  assert (Hr : reachable config s).
  { assert (∀ n t, reachable config t → reachable config (run_monitor config n t)) as Hrun.
    { induction n as [|n IH]; intros t Ht; cbn; [done|].
      destruct (monitor_step config t) eqn:Hs; [|done].
      eapply IH, reach_step, step_monitor, Hs; done. }
    apply Hrun. apply (reach_step config _ _ (Hrun 1%nat _ (reach_spawn config 0 (Z.le_refl 0)))).
    by apply step_clock. }
  split; [done|]. split; [reflexivity|].
  exact (proj1 (watchdog_one_callback_per_episode config s Hr)).
Defined.

Lemma run_monitor_step config n s s' :
  monitor_step config s = Some s' → run_monitor config (S n) s = run_monitor config n s'.
Proof. intros H. cbn. by rewrite H. Qed.

Lemma run_monitor_finished config n s :
  is_finished s = true → run_monitor config n s = s.
Proof. intros H. destruct n; cbn; [done|]. unfold is_finished, monitor_step in *. by destruct (monitor s). Qed.

(** How many steps the monitor is from its end once the flag is set, and the
    callbacks it may still run on the way. *)
Definition pc_rank (pc : MonitorPc) : nat :=
  match pc with
  | Finished => 0 | InWaitInterval _ => 1 | AtIsStopped => 2 | AtCap _ _ => 3
  | AtFetchAdd _ => 4 | AtMatch _ => 5 | AtReadKick _ => 6 | AtReadClock => 7
  end.
Definition may_call (pc : MonitorPc) : nat :=
  match pc with
  | Finished | InWaitInterval _ | AtIsStopped => 0
  | _ => 1
  end.

Lemma monitor_step_rank config s s' :
  flag (latch s) = true → monitor_step config s = Some s' →
  (pc_rank (monitor s') < pc_rank (monitor s))%nat ∧ latch s' = latch s ∧
  (length (calls s') + may_call (monitor s') ≤ length (calls s) + may_call (monitor s))%nat.
Proof.
  intros Hf Hs. unfold monitor_step, wait_interval, at_pc in Hs. rewrite Hf in Hs.
  repeat case_match; simplify_eq/=; rewrite ?length_app; cbn; split_and!; done || lia.
Qed.

(** [shutdown] is prompt: once the latch's flag is set, wherever the monitor
    is, it ends within seven of its own steps, whatever the clock reads, and
    runs the stall callback at most once more. *)
Theorem shutdown_ends_monitor config s :
  flag (latch s) = true →
  let s' := run_monitor config 7 s in
  is_finished s' = true ∧ (length (calls s') ≤ S (length (calls s)))%nat.
Proof.
  intros Hf. cbn zeta.
  enough (∀ n t, flag (latch t) = true → (pc_rank (monitor t) ≤ n)%nat →
    is_finished (run_monitor config n t) = true ∧
    (length (calls (run_monitor config n t)) ≤ length (calls t) + may_call (monitor t))%nat) as H.
  { destruct (H 7%nat s Hf) as [H1 H2]; [destruct (monitor s); cbn; lia|].
    split; [done|]. destruct (monitor s); cbn [may_call] in H2; lia. }
  induction n as [|n IH]; intros t Ht Hn; cbn [run_monitor].
  - unfold is_finished. destruct (monitor t); cbn in *; split; done || lia.
  - destruct (monitor_step config t) as [t'|] eqn:Hs.
    + destruct (monitor_step_rank _ _ _ Ht Hs) as (Hr & Hl & Hc).
      destruct (IH t') as [H1 H2]; [by rewrite Hl|lia|]. split; [done|lia].
    + unfold is_finished, monitor_step in *. repeat case_match; simplify_eq/=. split; [done|lia].
Qed.

Lemma shutdown_ends_monitor_witness :
  let s := request_stop_flag (spawn 0) in
  flag (latch s) = true ∧ is_finished (run_monitor (mkWatchdogConfig 1000 4000) 7 s) = true.
Proof.
  intros s. split; [reflexivity|].
  apply (shutdown_ends_monitor (mkWatchdogConfig 1000 4000) s). reflexivity.
Defined.

(** A stall is detected one interval after it can be seen: in a cycle that
    starts outside an episode with callbacks left and no stop requested, once
    [interval_ms] has passed the callback runs iff the heartbeat is then older
    than the threshold, with exactly its age, and the monitor is back in the
    wait; a heartbeat within the threshold runs nothing. *)
Theorem watchdog_cycle_detects config s ns :
  reachable config s → monitor s = AtIsStopped → flag (latch s) = false → stalled s = false →
  (length (calls s) < 8)%nat → interval_ms config * 1000000 ≤ ns →
  let t := run_monitor config 6 (advance (run_monitor config 1 s) ns) in
  let age := sat_sub (monotonic_ms (now_ns s + ns)) (last_kick_ms s) in
  calls t = calls s ++ (if stall_threshold_ms config <? age then [age] else []) ∧
  stalled t = (stall_threshold_ms config <? age).
Proof.
  intros Hr Hm Hf Hst Hc Hns.
  destruct (inv_calls_reachable _ _ Hr) as (_ & _ & _ & He). rewrite Hm in He.
  destruct (inv_latch_reachable _ _ Hr) as (Hsf & _ & _).
  assert (stop (latch s) = false) as Hstop.
  { destruct (stop (latch s)); [|done]. rewrite Hsf in Hf; done. }
  destruct s as [now kick [sp fl] ep st pc u cs vs]; cbn in *. subst.
  set (ep := Z.of_nat (length cs)) in *.
  assert (Hel : (now + interval_ms config * 1000000 <=? now + ns) = true) by lia.
  assert (Hep : (MAX_STALL_EPISODES <=? ep) = false) by (unfold MAX_STALL_EPISODES; lia).
  clearbody ep. unfold monitor_step, advance, at_pc, wait_interval, evaluate; cbn.
  rewrite Hel; cbn. destruct (_ <? _) eqn:Hthr; cbn.
  - by rewrite Hep.
  - by rewrite app_nil_r.
Qed.

Lemma watchdog_cycle_detects_witness :
  calls (run_monitor (mkWatchdogConfig 1000 4000) 6
    (advance (run_monitor (mkWatchdogConfig 1000 4000) 1 (spawn 0)) 4001000000)) = [] ++ [4001].
Proof.
  apply (watchdog_cycle_detects (mkWatchdogConfig 1000 4000) (spawn 0) 4001000000);
    [by apply reach_spawn|reflexivity|reflexivity|reflexivity|cbn; lia|cbn; lia].
Defined.
