(* ===== verification/Privacy.v ===== *)
(** * Privacy: detection and redaction of identity patterns

    Models [crates/tick-diagnostics/src/privacy.rs].  The scanners work on the
    UTF-8 bytes of the text ([text.as_bytes()]); positions are byte offsets.
    Each scanner is a body, what one iteration does at [index], run by
    [scan_loop]; a Rust panic is the [Err] of a [Fault]. *)
From S2P Require Import Prelude Text.

Inductive Fault := IndexOutOfBounds | NotCharBoundary | OutOfFuel.
#[export] Instance Fault_eq_dec : EqDecision Fault.
Proof. solve_decision. Defined.

Definition PII_SCAN_ENABLED : bool := true.
Definition MAX_PII_FINDINGS : nat := 32.

Module PiiKind.
Inductive PiiKind :=
| UserProfilePath | MachineName | EnvironmentVariable | IpAddress | EmailAddress
| WindowsAccountName.
End PiiKind.
Abbreviation PiiKind := PiiKind.PiiKind.
#[export] Instance PiiKind_eq_dec : EqDecision PiiKind.
Proof. solve_decision. Defined.

Record PiiFinding := mkFinding { finding_kind : PiiKind; field : str; offset : nat }.
Record PiiSpan := mkSpan { span_start : nat; span_end : nat; span_kind : PiiKind }.

(** ** Byte classes *)

Definition is_ascii_whitespace (b : Z) : bool :=
  (b =? 32) || (b =? 9) || (b =? 10) || (b =? 12) || (b =? 13).
Definition is_ascii_alphanumeric (b : Z) : bool := is_ascii_alphabetic b || is_ascii_digit b.

Definition one_of (cs : string) (b : Z) : bool := existsb (Z.eqb b) (lit cs).

Definition is_segment_byte (b : Z) : bool :=
  negb (is_ascii_whitespace b) && negb (one_of "'<>|?*:;" b || (b =? 34)).
Definition is_ident_byte (b : Z) : bool := is_ascii_alphanumeric b || one_of "_-." b.
Definition is_local_byte (b : Z) : bool :=
  is_ascii_alphanumeric b || one_of "._%+-=!#$'*/?^`{|}~&" b.
Definition is_domain_byte (b : Z) : bool := is_ascii_alphanumeric b || (b =? 45).

Definition eq_ignore_ascii_case (a b : bytes) : bool :=
  bytes_eqb (map to_ascii_lower a) (map to_ascii_lower b).

(** ** The loops the scanners share *)

(** [while i < len && p(bytes[i]) { i += 1 }], and with at most [k] steps. *)
Fixpoint run_length (p : Z → bool) (bs : bytes) : nat :=
  match bs with
  | [] => 0
  | b :: rest => if p b then S (run_length p rest) else 0
  end.
Definition while_up (p : Z → bool) (bs : bytes) (i : nat) : nat :=
  (i + run_length p (drop i bs))%nat.

(** [while i > low && p(bytes[i - 1]) { i -= 1 }] *)
Fixpoint while_down (p : Z → bool) (bs : bytes) (low i : nat) : nat :=
  match i with
  | O => O
  | S j => if (low <? i)%nat && p (byte_at bs j) then while_down p bs low j else i
  end.

(** What an iteration does: move on by one, or push a span and jump. *)
Inductive Iteration := Next | Push (span : PiiSpan) (index : nat).

Fixpoint scan_loop (fuel : nat) (body : nat → result Fault Iteration) (len cap : nat)
    (index : nat) (spans : list PiiSpan) : result Fault (list PiiSpan) :=
  if (index <? len)%nat then
    match fuel with
    | O => Err OutOfFuel
    | S fuel' =>
        match body index with
        | Err e => Err e
        | Ok Next => scan_loop fuel' body len cap (S index) spans
        | Ok (Push span index') =>
            let spans' := spans ++ [span] in
            if (cap <=? length spans')%nat then Ok spans'
            else scan_loop fuel' body len cap index' spans'
        end
    end
  else Ok spans.

Definition scan (body : nat → result Fault Iteration) (bs : bytes) (cap : nat)
    (spans : list PiiSpan) : result Fault (list PiiSpan) :=
  scan_loop (length bs) body (length bs) cap 0 spans.

(** ** The scanners *)

Definition user_profile_base (bs : bytes) (index : nat) : option nat :=
  let len := length bs in
  if ((index + 9 <=? len)%nat && is_ascii_alphabetic (byte_at bs index)
      && (byte_at bs (index + 1) =? 58) && (byte_at bs (index + 2) =? 92)
      && eq_ignore_ascii_case (slice bs (index + 3) (index + 9)) (lit "users\"))%bool
  then Some (index + 9)%nat
  else if ((index + 7 <=? len)%nat && (byte_at bs index =? 92)
      && eq_ignore_ascii_case (slice bs (index + 1) (index + 7)) (lit "users\"))%bool
  then Some (index + 7)%nat
  else None.

Definition user_profile_body (bs : bytes) (index : nat) : result Fault Iteration :=
  match user_profile_base bs index with
  | None => Ok Next
  | Some base_end =>
      let stop := while_up is_segment_byte bs base_end in
      let stop := while_down (one_of "\/.,") bs index stop in
      Ok (Push (mkSpan index stop PiiKind.UserProfilePath) stop)
  end.

Definition scan_user_profile_path (bs : bytes) (spans : list PiiSpan) (cap : nat) :=
  scan (user_profile_body bs) bs cap spans.

Definition machine_name_body (bs : bytes) (index : nat) : result Fault Iteration :=
  let len := length bs in
  if ((index + 12 <=? len)%nat
      && eq_ignore_ascii_case (slice bs index (index + 12)) (lit "COMPUTERNAME")
      && ((index =? 0)%nat || negb (byte_at bs (index - 1) =? 37)))%bool
  then
    let stop := if ((index + 12 <? len)%nat && (byte_at bs (index + 12) =? 37))%bool
                then (index + 13)%nat else (index + 12)%nat in
    Ok (Push (mkSpan index stop PiiKind.MachineName) stop)
  else if ((index + 2 <? len)%nat && (byte_at bs index =? 92)
      && (byte_at bs (index + 1) =? 92) && is_ident_byte (byte_at bs (index + 2)))%bool
  then
    let stop := while_up is_ident_byte bs (index + 2) in
    Ok (Push (mkSpan index stop PiiKind.MachineName) stop)
  else Ok Next.

Definition scan_machine_name (bs : bytes) (spans : list PiiSpan) (cap : nat) :=
  scan (machine_name_body bs) bs cap spans.

(** The inner loop of the percent scanner: up to the closing percent sign, a
    whitespace byte or 65 bytes. *)
Fixpoint env_end (fuel : nat) (bs : bytes) (index stop : nat) : nat :=
  match fuel with
  | O => stop
  | S fuel' =>
      if ((stop <? length bs)%nat && negb (byte_at bs stop =? 37))%bool then
        if (is_ascii_whitespace (byte_at bs stop) || (64 <? stop - index)%nat)%bool then stop
        else env_end fuel' bs index (S stop)
      else stop
  end.

Definition environment_variable_body (bs : bytes) (index : nat) : result Fault Iteration :=
  if negb (byte_at bs index =? 37) then Ok Next
  else
    let stop := env_end (length bs) bs index (index + 1) in
    if ((stop <? length bs)%nat && (byte_at bs stop =? 37) && (index + 1 <? stop)%nat)%bool
    then Ok (Push (mkSpan index (stop + 1) PiiKind.EnvironmentVariable) (stop + 1))
    else Ok Next.

Definition scan_environment_variable (bs : bytes) (spans : list PiiSpan) (cap : nat) :=
  scan (environment_variable_body bs) bs cap spans.

(** The octet loop: the end of [octets] more octets from [position], if valid. *)
Fixpoint ip_octets (octets : nat) (bs : bytes) (position : nat) : option nat :=
  match octets with
  | O => Some position
  | S more =>
      let digit_count := Nat.min 3 (run_length is_ascii_digit (drop position bs)) in
      let stop := (position + digit_count)%nat in
      if (digit_count =? 0)%nat then None
      else if ((stop <? length bs)%nat && is_ascii_digit (byte_at bs stop))%bool then None
      else match more with
           | O => Some stop
           | _ => if ((stop <? length bs)%nat && (byte_at bs stop =? 46))%bool
                  then ip_octets more bs (S stop) else None
           end
  end.

Definition digit_or_dot (b : Z) : bool := is_ascii_digit b || (b =? 46).

Definition ip_address_body (bs : bytes) (index : nat) : result Fault Iteration :=
  if negb (is_ascii_digit (byte_at bs index)) then Ok Next
  else match ip_octets 4 bs index with
  | None => Ok Next
  | Some stop =>
      let before_ok := ((index =? 0)%nat || negb (digit_or_dot (byte_at bs (index - 1))))%bool in
      let after_ok := ((length bs <=? stop)%nat || negb (digit_or_dot (byte_at bs stop)))%bool in
      if (before_ok && after_ok)%bool
      then Ok (Push (mkSpan index stop PiiKind.IpAddress) stop) else Ok Next
  end.

Definition scan_ip_address (bs : bytes) (spans : list PiiSpan) (cap : nat) :=
  scan (ip_address_body bs) bs cap spans.

Fixpoint has_double_dot (bs : bytes) : bool :=
  match bs with
  | a :: ((b :: _) as rest) => ((a =? 46) && (b =? 46)) || has_double_dot rest
  | _ => false
  end.

Definition email_address_body (bs : bytes) (index : nat) : result Fault Iteration :=
  if negb (byte_at bs index =? 64) then Ok Next
  else
    let start := while_down is_local_byte bs 0 index in
    if (start =? index)%nat then Ok Next
    else
      let stop := while_up (λ b, is_domain_byte b || (b =? 46)) bs (index + 1) in
      let domain := slice bs (index + 1) stop in
      let has_dot := existsb (Z.eqb 46) domain in
      let ends_clean := negb (length domain =? 0)%nat
        && negb (byte_at domain 0 =? 46)
        && negb (byte_at domain (length domain - 1) =? 46)
        && negb (has_double_dot domain) in
      if has_dot && ends_clean
      then Ok (Push (mkSpan start stop PiiKind.EmailAddress) stop) else Ok Next.

Definition scan_email_address (bs : bytes) (spans : list PiiSpan) (cap : nat) :=
  scan (email_address_body bs) bs cap spans.

(** [bytes[domain_start - 1]] is read without a check: a domain that starts the
    text indexes out of bounds. *)
Definition windows_account_body (bs : bytes) (index : nat) : result Fault Iteration :=
  if negb (byte_at bs index =? 92) then Ok Next
  else if ((0 <? index)%nat && (byte_at bs (index - 1) =? 92))%bool then Ok Next
  else
    let domain_start := while_down is_ident_byte bs 0 index in
    if (domain_start =? index)%nat then Ok Next
    else match domain_start with
    | O => Err IndexOutOfBounds
    | S before =>
        if ((byte_at bs before =? 92) || (byte_at bs before =? 58))%bool then Ok Next
        else
          let stop := while_up is_ident_byte bs (index + 1) in
          if (stop =? index + 1)%nat then Ok Next
          else if eq_ignore_ascii_case (slice bs domain_start index) (lit "users") then Ok Next
          else Ok (Push (mkSpan domain_start stop PiiKind.WindowsAccountName) stop)
    end.

Definition scan_windows_account_name (bs : bytes) (spans : list PiiSpan) (cap : nat) :=
  scan (windows_account_body bs) bs cap spans.

(** ** Collection, merging and redaction *)

(** The stable sort by start, longest first. *)
Definition span_le (l r : PiiSpan) : bool :=
  (span_start l <? span_start r)%nat ||
  ((span_start l =? span_start r)%nat && (span_end r <=? span_end l)%nat).
Fixpoint insert_span (s : PiiSpan) (l : list PiiSpan) : list PiiSpan :=
  match l with
  | [] => [s]
  | h :: t => if span_le s h then s :: l else h :: insert_span s t
  end.
Definition sort_spans (l : list PiiSpan) : list PiiSpan := foldr insert_span [] l.

Fixpoint merge_spans (cap : nat) (merged spans : list PiiSpan) : list PiiSpan :=
  match spans with
  | [] => merged
  | span :: rest =>
      if match last merged with Some l => (span_start span <? span_end l)%nat | None => false end
      then merge_spans cap merged rest
      else
        let merged' := merged ++ [span] in
        if (cap <=? length merged')%nat then merged' else merge_spans cap merged' rest
  end.

Definition collect_spans (text : str) : result Fault (list PiiSpan) :=
  let bs := utf8_encode text in
  let cap := MAX_PII_FINDINGS in
  spans ← scan_user_profile_path bs [] cap;
  spans ← scan_machine_name bs spans cap;
  spans ← scan_environment_variable bs spans cap;
  spans ← scan_ip_address bs spans cap;
  spans ← scan_email_address bs spans cap;
  spans ← scan_windows_account_name bs spans cap;
  Ok (merge_spans cap [] (sort_spans spans)).

Definition finding_of (field : str) (s : PiiSpan) : PiiFinding :=
  mkFinding (span_kind s) field (span_start s).

Definition scan_for_pii (field text : str) : result Fault (list PiiFinding) :=
  map (finding_of field) <$> collect_spans text.

Definition is_char_boundary (bs : bytes) (i : nat) : bool :=
  (i =? length bs)%nat || ((i <? length bs)%nat && negb (is_cont (byte_at bs i))).

Definition REDACTED : bytes := lit "[redacted]".

(** [String::replace_range], on the UTF-8 bytes. *)
Definition replace_range (bs : bytes) (a b : nat) (by_ : bytes) : result Fault bytes :=
  if negb ((a <=? b)%nat && (b <=? length bs)%nat) then Err IndexOutOfBounds
  else if (is_char_boundary bs a && is_char_boundary bs b)%bool
  then Ok (take a bs ++ by_ ++ drop b bs)
  else Err NotCharBoundary.

Fixpoint redact_rev (spans : list PiiSpan) (bs : bytes) : result Fault bytes :=
  match spans with
  | [] => Ok bs
  | s :: rest => replace_range bs (span_start s) (span_end s) REDACTED ≫= redact_rev rest
  end.

(** [sanitize_pii]; the sanitized text is given by its UTF-8 bytes. *)
Definition sanitize_pii_bytes (field text : str) : result Fault (bytes * list PiiFinding) :=
  spans ← collect_spans text;
  if (length spans =? 0)%nat then Ok (utf8_encode text, [])
  else
    sanitized ← redact_rev (reverse spans) (utf8_encode text);
    Ok (sanitized, map (finding_of field) spans).

Definition sanitize_pii (field text : str) : result Fault (str * list PiiFinding) :=
  r ← sanitize_pii_bytes field text;
  t ← ok_or (utf8_decode (fst r)) NotCharBoundary;
  Ok (t, snd r).

(** ** UTF-8 boundaries *)

Abbreviation scalars := (Forall (λ c, is_scalar c = true)).

Lemma byte_at_app_l a b i : (i < length a)%nat → byte_at (a ++ b) i = byte_at a i.
Proof. intros. unfold byte_at. by rewrite app_nth1. Qed.
Lemma byte_at_app_r a b i : (length a ≤ i)%nat → byte_at (a ++ b) i = byte_at b (i - length a).
Proof. intros. unfold byte_at. by rewrite app_nth2. Qed.

Lemma byte_at_slice bs a b i :
  (b ≤ length bs)%nat → (a + i < b)%nat → byte_at (slice bs a b) i = byte_at bs (a + i).
Proof.
  intros. unfold byte_at, slice. rewrite !nth_lookup, lookup_take_lt by lia.
  by rewrite lookup_drop.
Qed.

Lemma utf8_char_head c :
  is_scalar c = true → ∃ b t, utf8_char c = b :: t ∧ is_cont b = false ∧
    (b < 128 → t = []) ∧ Forall (λ x, 128 ≤ x) t.
Proof.
  intros Hc. assert (0 ≤ c ≤ 0x10FFFF) by (unfold is_scalar in Hc; lia).
  unfold utf8_char. destruct_ifs; reflect_bools; eexists _, _; split_and!; try done;
    try (unfold is_cont; dlia); repeat constructor; dlia.
Qed.

Lemma utf8_head_not_cont text :
  scalars text → utf8_encode text ≠ [] → is_cont (byte_at (utf8_encode text) 0) = false.
Proof.
  intros H Hn. destruct H as [|c t Hc _]; [done|].
  destruct (utf8_char_head c Hc) as (b & r & Hb & Hcont & _). cbn [utf8_encode flat_map].
  unfold utf8_encode. cbn. by rewrite Hb.
Qed.

Lemma utf8_after_ascii text i :
  scalars text → (i < length (utf8_encode text))%nat → byte_at (utf8_encode text) i < 128 →
  is_char_boundary (utf8_encode text) i = true ∧ is_char_boundary (utf8_encode text) (S i) = true.
Proof.
  intros H Hi Hb. split.
  { unfold is_char_boundary, is_cont. replace (0x80 <=? _) with false by lia.
    cbn. apply orb_true_iff. right. rewrite andb_true_r. by apply Nat.ltb_lt. }
  revert i Hi Hb. induction H as [|c t Hc Ht IH]; intros i Hi Hb; [cbn in Hi; lia|].
  change (utf8_encode (c :: t)) with (utf8_char c ++ utf8_encode t) in *.
  destruct (utf8_char_head c Hc) as (b & r & Hu & _ & Hasc & Hr). rewrite Hu in *.
  destruct (decide (i < length (b :: r))%nat) as [Hlt|Hge].
  - rewrite byte_at_app_l in Hb by done. destruct i as [|i].
    + rewrite (Hasc Hb) in *. cbn [app]. unfold is_char_boundary. cbn.
      destruct (utf8_encode t) as [|b' t'] eqn:Ht'; [done|]. cbn.
      pose proof (utf8_head_not_cont t Ht) as Hh. rewrite Ht' in Hh.
      unfold byte_at in *. cbn in Hh |- *. by rewrite Hh.
    + exfalso. cbn in Hlt, Hb. unfold byte_at in Hb. cbn in Hb.
      rewrite Forall_forall in Hr. assert (Hin : nth i r 0 ∈ r).
      { apply list_elem_of_In, nth_In. lia. }
      specialize (Hr _ Hin). lia.
  - rewrite byte_at_app_r in Hb by lia. rewrite length_app in Hi.
    specialize (IH (i - length (b :: r))%nat ltac:(lia) Hb).
    unfold is_char_boundary in *. rewrite length_app, byte_at_app_r by lia.
    replace (S i - length (b :: r))%nat with (S (i - length (b :: r))) by lia.
    revert IH. destruct (Nat.eqb_spec (S (i - length (b :: r))) (length (utf8_encode t))) as [He|Hne].
    + intros _. apply orb_true_iff. left. apply Nat.eqb_eq. lia.
    + cbn [orb]. intros [Hlt' Hc']%andb_prop. apply Nat.ltb_lt in Hlt'.
      apply orb_true_iff. right. apply andb_true_iff. split; [apply Nat.ltb_lt; lia|done].
Qed.

(** ** The shared loops *)

Lemma byte_at_drop bs i : byte_at bs i = match drop i bs with b :: _ => b | [] => 0 end.
Proof.
  unfold byte_at. rewrite nth_lookup. destruct (drop i bs) as [|b t] eqn:H.
  - assert (length (drop i bs) = 0)%nat as Hl by by rewrite H. rewrite length_drop in Hl.
    by rewrite lookup_ge_None_2 by lia.
  - rewrite <- (Nat.add_0_r i), <- lookup_drop, H. done.
Qed.

Lemma run_length_spec p bs :
  (run_length p bs ≤ length bs)%nat ∧
  (∀ k, (k < run_length p bs)%nat → p (byte_at bs k) = true) ∧
  ((run_length p bs < length bs)%nat → p (byte_at bs (run_length p bs)) = false).
Proof.
  induction bs as [|b t (H1 & H2 & H3)]; cbn; [split_and!; intros; lia|].
  destruct (p b) eqn:Hb; split_and!; try lia.
  - intros [|k] Hk; [done|]. apply H2. lia.
  - intros Hl. apply H3. lia.
  - intros _. done.
Qed.

Lemma while_up_spec p bs i :
  let j := while_up p bs i in
  (i ≤ j)%nat ∧ ((i ≤ length bs)%nat → (j ≤ length bs)%nat) ∧
  (∀ k, (i ≤ k < j)%nat → p (byte_at bs k) = true) ∧
  ((j < length bs)%nat → p (byte_at bs j) = false).
Proof.
  intros j. subst j. unfold while_up.
  destruct (run_length_spec p (drop i bs)) as (H1 & H2 & H3). rewrite length_drop in *.
  assert (Hb : ∀ k, byte_at (drop i bs) k = byte_at bs (i + k)).
  { intros k. unfold byte_at. by rewrite !nth_lookup, lookup_drop. }
  split_and!; [lia|lia| |].
  - intros k Hk. specialize (H2 (k - i)%nat ltac:(lia)). rewrite Hb in H2.
    by replace (i + (k - i))%nat with k in H2 by lia.
  - intros Hl. rewrite <- Hb. apply H3. lia.
Qed.

Lemma while_down_spec p bs low i :
  let j := while_down p bs low i in
  (j ≤ i)%nat ∧ ((low ≤ i)%nat → (low ≤ j)%nat) ∧
  (∀ k, (j ≤ k < i)%nat → p (byte_at bs k) = true) ∧
  ((low < j)%nat → p (byte_at bs (j - 1)) = false).
Proof.
  cbv zeta. induction i as [|i (H1 & H2 & H3 & H4)]; cbn [while_down]; [split_and!; intros; lia|].
  destruct (Nat.ltb_spec low (S i)) as [Hl|Hl]; cbn [andb].
  - destruct (p (byte_at bs i)) eqn:Hp; split_and!; try lia.
    + intros k Hk. destruct (decide (k = i)) as [->|]; [done|]. apply H3. lia.
    + exact H4.
    + intros _. by replace (S i - 1)%nat with i by lia.
  - split_and!; intros; lia.
Qed.

(** Every byte class of the scanners but [is_segment_byte] is ASCII. *)
Ltac eval_lits :=
  repeat match goal with
  | H : context [lit ?s] |- _ => let l := eval vm_compute in (lit s) in change (lit s) with l in H
  | |- context [lit ?s] => let l := eval vm_compute in (lit s) in change (lit s) with l
  end.
Ltac byte_class :=
  unfold is_ident_byte, is_local_byte, is_domain_byte, is_segment_byte, is_ascii_alphanumeric,
    is_ascii_alphabetic, is_ascii_upper, is_ascii_lower, is_ascii_digit, is_ascii_whitespace,
    one_of, to_ascii_lower in *;
  eval_lits; cbn [existsb] in *; try (destruct_ifs; lia); lia.

Lemma ident_ascii b : is_ident_byte b = true → 0 ≤ b < 128.
Proof. intros. byte_class. Qed.
Lemma local_ascii b : is_local_byte b = true → 0 ≤ b < 128.
Proof. intros. byte_class. Qed.
Lemma domain_ascii b : is_domain_byte b || (b =? 46) = true → 0 ≤ b < 128.
Proof. intros. byte_class. Qed.
Lemma digit_ascii_byte b : is_ascii_digit b = true → 0 ≤ b < 128.
Proof. intros. byte_class. Qed.
Lemma alpha_ascii b : is_ascii_alphabetic b = true → b < 128.
Proof. intros. byte_class. Qed.
Lemma not_segment_ascii b : is_segment_byte b = false → 0 ≤ b < 128.
Proof. intros. byte_class. Qed.
Lemma trimmed_ascii b : one_of "\/.," b = true → b = 92 ∨ b = 47 ∨ b = 46 ∨ b = 44.
Proof. intros. byte_class. Qed.

Lemma slice_ci_byte bs a b l k :
  eq_ignore_ascii_case (slice bs a b) l = true → (b ≤ length bs)%nat → (a + k < b)%nat →
  to_ascii_lower (byte_at bs (a + k)) = to_ascii_lower (byte_at l k).
Proof.
  unfold eq_ignore_ascii_case. rewrite bytes_eqb_spec. intros He Hb Hk.
  rewrite <- (byte_at_slice bs a b k) by lia. unfold byte_at.
  by rewrite <- !(map_nth to_ascii_lower _ 0), He.
Qed.

Lemma lower_ascii b c : to_ascii_lower b = c → 0 ≤ c < 128 → 0 ≤ b < 128.
Proof. unfold to_ascii_lower, is_ascii_upper. intros. destruct_ifs; lia. Qed.

(** ** What the scanners report *)

Definition span_ok (bs : bytes) (s : PiiSpan) : Prop :=
  (span_start s < span_end s ≤ length bs)%nat ∧
  is_char_boundary bs (span_start s) = true ∧ is_char_boundary bs (span_end s) = true.

(** A body that pushes well formed spans and always moves forward. *)
Definition body_ok (bs : bytes) (body : nat → result Fault Iteration) : Prop :=
  ∀ index s j, (index < length bs)%nat → body index = Ok (Push s j) →
    span_ok bs s ∧ (index < j)%nat.
Definition body_total (bs : bytes) (body : nat → result Fault Iteration) : Prop :=
  ∀ index, (index < length bs)%nat → is_ok (body index) = true.

Lemma scan_loop_ok bs body cap fuel index spans :
  body_ok bs body → (length bs - index ≤ fuel)%nat → Forall (span_ok bs) spans →
  match scan_loop fuel body (length bs) cap index spans with
  | Ok r => Forall (span_ok bs) r
  | Err e => ∃ i, (i < length bs)%nat ∧ body i = Err e
  end.
Proof.
  intros Hb. revert index spans. induction fuel as [|fuel IH]; intros index spans Hf Hs; cbn [scan_loop].
  - destruct (Nat.ltb_spec index (length bs)); [lia|done].
  - destruct (Nat.ltb_spec index (length bs)) as [Hi|]; [|done].
    destruct (body index) as [[|s j]|e] eqn:He; [apply IH; [lia|done]| |by exists index].
    destruct (Hb _ _ _ Hi He) as [Hok Hj].
    assert (Forall (span_ok bs) (spans ++ [s])) by (apply Forall_app; auto).
    destruct (_ <=? _)%nat; [done|]. apply IH; [lia|done].
Qed.

Lemma scan_ok bs body cap spans :
  body_ok bs body → Forall (span_ok bs) spans →
  match scan body bs cap spans with
  | Ok r => Forall (span_ok bs) r
  | Err e => ∃ i, (i < length bs)%nat ∧ body i = Err e
  end.
Proof. intros. apply scan_loop_ok; [done|lia|done]. Qed.

Lemma scan_total bs body cap spans :
  body_ok bs body → body_total bs body → Forall (span_ok bs) spans →
  ∃ r, scan body bs cap spans = Ok r ∧ Forall (span_ok bs) r.
Proof.
  intros Hb Ht Hs. pose proof (scan_ok bs body cap spans Hb Hs) as H.
  destruct (scan body bs cap spans) as [r|e]; [by exists r|].
  destruct H as (i & Hi & He). specialize (Ht i Hi). by rewrite He in Ht.
Qed.

Section Bodies.
Context (text : str) (Htext : scalars text).
Let bs := utf8_encode text.

(** An ASCII byte is a character of its own. *)
Lemma ascii_boundaries i :
  (i < length bs)%nat → byte_at bs i < 128 →
  is_char_boundary bs i = true ∧ is_char_boundary bs (S i) = true.
Proof. by apply utf8_after_ascii. Qed.

Lemma boundary_end i : i = length bs → is_char_boundary bs i = true.
Proof. intros ->. unfold is_char_boundary. by rewrite Nat.eqb_refl. Qed.

(** A span that starts and ends with ASCII bytes is well formed. *)
Lemma span_ascii a b k :
  (a < b ≤ length bs)%nat → byte_at bs a < 128 → byte_at bs (b - 1) < 128 →
  span_ok bs (mkSpan a b k).
Proof.
  intros Hab Ha Hb. split; [done|]. split.
  - apply ascii_boundaries; [cbn; lia|done].
  - cbn. replace b with (S (b - 1)) by lia. apply ascii_boundaries; [lia|done].
Qed.

Lemma user_profile_base_ok index base :
  user_profile_base bs index = Some base →
  (index + 2 ≤ base ≤ length bs)%nat ∧ byte_at bs index < 128 ∧
  to_ascii_lower (byte_at bs (base - 2)) = 115.
Proof.
  unfold user_profile_base. intros H. destruct_ifs; reflect_bools; simplify_eq;
    repeat match goal with H : (_ <=? _)%nat = true |- _ => apply Nat.leb_le in H end.
  - split_and!; [lia|lia| |].
    + by apply alpha_ascii.
    + replace (index + 9 - 2)%nat with ((index + 3) + 4)%nat by lia.
      by erewrite slice_ci_byte by (done || lia).
  - split_and!; [lia|lia|lia|].
    replace (index + 7 - 2)%nat with ((index + 1) + 4)%nat by lia.
    by erewrite slice_ci_byte by (done || lia).
Qed.

Lemma user_profile_ok : body_ok bs (user_profile_body bs).
Proof.
  intros index s j Hi. unfold user_profile_body.
  destruct (user_profile_base bs index) as [base|] eqn:Hb; [|done].
  destruct (user_profile_base_ok _ _ Hb) as (Hbase & Ha & Hs). intros [= <- <-].
  set (e := while_up is_segment_byte bs base).
  destruct (while_up_spec is_segment_byte bs base) as (U1 & U2 & _ & U4). fold e in U1, U2, U4.
  set (t := while_down (one_of "\/.,") bs index e).
  destruct (while_down_spec (one_of "\/.,") bs index e) as (D1 & D2 & D3 & _).
  fold t in D1, D2, D3.
  assert (Ht : (base - 2 < t)%nat).
  { destruct (decide (base - 2 < t)%nat) as [|Hn]; [done|exfalso].
    specialize (D3 (base - 2)%nat ltac:(lia)). apply trimmed_ascii in D3.
    destruct D3 as [D|[D|[D|D]]]; rewrite D in Hs; done. }
  split; [|lia]. split; [cbn; lia|]. split; cbn.
  - apply ascii_boundaries; [done|done].
  - destruct (decide (t = length bs)) as [|Hne]; [by apply boundary_end|].
    apply ascii_boundaries; [lia|]. destruct (decide (t = e)) as [->|Hte].
    + pose proof (not_segment_ascii _ (U4 ltac:(lia))). lia.
    + specialize (D3 t ltac:(lia)). apply trimmed_ascii in D3. lia.
Qed.

Lemma machine_name_ok : body_ok bs (machine_name_body bs).
Proof.
  intros index s j Hi. unfold machine_name_body.
  destruct (_ && _ && _) eqn:Hc.
  - reflect_bools. apply Nat.leb_le in H.
    assert (Hasc : ∀ k, (k < 12)%nat → byte_at bs (index + k) < 128).
    { intros k Hk. eapply lower_ascii; [eapply slice_ci_byte; [done|lia|lia]|].
      do 12 (destruct k as [|k]; [by vm_compute|]). lia. }
    intros [= <- <-]. split; [|destruct (_ && _); lia].
    apply span_ascii; [|by rewrite <- (Nat.add_0_r index); apply Hasc; lia|].
    + destruct (_ && _) eqn:E; [|lia]. reflect_bools. apply Nat.ltb_lt in H2. lia.
    + destruct (_ && _) eqn:E; reflect_bools.
      * replace (index + 13 - 1)%nat with (index + 12)%nat by lia. lia.
      * replace (index + 12 - 1)%nat with (index + 11)%nat by lia. apply Hasc. lia.
  - destruct (_ && _ && _ && _) eqn:Hd; [|done]. clear Hc. reflect_bools.
    apply Nat.ltb_lt in H. intros [= <- <-].
    destruct (while_up_spec is_ident_byte bs (index + 2)) as (U1 & U2 & U3 & _).
    set (e := while_up is_ident_byte bs (index + 2)) in *.
    assert (He : (index + 2 < e)%nat).
    { subst e. unfold while_up. rewrite <- Nat.add_0_r at 1. apply Nat.add_lt_mono_l.
      rewrite byte_at_drop in H0. destruct (drop (index + 2) bs); [done|]. cbn. rewrite H0. lia. }
    split; [|lia]. apply span_ascii; [lia|lia|].
    specialize (U3 (e - 1)%nat ltac:(lia)). by apply ident_ascii.
Qed.

Lemma env_end_spec fuel index stop :
  (index < stop)%nat → (stop ≤ env_end fuel bs index stop)%nat.
Proof.
  revert stop. induction fuel as [|fuel IH]; intros stop Hs; cbn; [done|].
  destruct_ifs; try done. etransitivity; [|apply IH]; lia.
Qed.

Lemma environment_variable_ok : body_ok bs (environment_variable_body bs).
Proof.
  intros index s j Hi. unfold environment_variable_body.
  destruct (negb _) eqn:Hp; [done|]. reflect_bools.
  pose proof (env_end_spec (length bs) index (index + 1) ltac:(lia)) as He.
  set (e := env_end _ _ _ _) in *. destruct (_ && _ && _) eqn:Hc; [|done].
  reflect_bools. apply Nat.ltb_lt in H, H0. intros [= <- <-].
  split; [|lia]. apply span_ascii; [lia|lia|].
  replace (e + 1 - 1)%nat with e by lia. lia.
Qed.

Lemma ip_octets_spec n position stop :
  ip_octets (S n) bs position = Some stop → (position ≤ length bs)%nat →
  (position < stop ≤ length bs)%nat ∧ is_ascii_digit (byte_at bs (stop - 1)) = true.
Proof.
  revert position. induction n as [|n IH]; intros position H Hp; cbn [ip_octets] in H;
    destruct (run_length_spec is_ascii_digit (drop position bs)) as (R1 & R2 & _);
    rewrite length_drop in R1; set (d := Nat.min 3 _) in *;
    destruct (Nat.eqb_spec d 0) as [|Hd]; try done;
    destruct (_ && _) eqn:Hn; try done.
  - injection H as <-. split; [lia|].
    specialize (R2 (d - 1)%nat ltac:(lia)). unfold byte_at in *.
    rewrite nth_lookup, lookup_drop, <- nth_lookup in R2.
    by replace (position + d - 1)%nat with (position + (d - 1))%nat by lia.
  - destruct (_ && _) eqn:Hdot in H; [|done]. reflect_bools. apply Nat.ltb_lt in H0.
    destruct (IH _ H) as [H2 H3]; [lia|]. split; [lia|done].
Qed.

Lemma ip_address_ok : body_ok bs (ip_address_body bs).
Proof.
  intros index s j Hi. unfold ip_address_body.
  destruct (negb _) eqn:Hp; [done|]. reflect_bools.
  destruct (ip_octets 4 bs index) as [stop|] eqn:Ho; [|done].
  destruct (ip_octets_spec 3 _ _ Ho) as [Hs Hd]; [lia|].
  destruct (_ && _); [|done]. intros [= <- <-]. split; [|lia].
  apply digit_ascii_byte in Hp, Hd. apply span_ascii; lia.
Qed.

Lemma email_address_ok : body_ok bs (email_address_body bs).
Proof.
  intros index s j Hi. unfold email_address_body.
  destruct (negb _) eqn:Hp; [done|]. reflect_bools.
  destruct (while_down_spec is_local_byte bs 0 index) as (D1 & _ & D3 & _).
  set (start := while_down _ _ _ _) in *. destruct (Nat.eqb_spec start index) as [|Hne]; [done|].
  set (p := λ b, is_domain_byte b || (b =? 46)).
  destruct (while_up_spec p bs (index + 1)) as (U1 & U2 & U3 & _).
  set (stop := while_up _ _ _) in *. destruct (_ && (_ && _)) eqn:Hc; [|done].
  intros [= <- <-]. reflect_bools.
  assert (Hlt : (index + 1 < stop)%nat).
  { match goal with H : (length _ =? 0)%nat = false |- _ => apply Nat.eqb_neq in H;
      unfold slice in H; rewrite length_take in H end. lia. }
  split; [|lia]. apply span_ascii; [lia| |].
  - specialize (D3 start ltac:(lia)). apply local_ascii in D3. lia.
  - specialize (U3 (stop - 1)%nat ltac:(lia)). apply domain_ascii in U3. lia.
Qed.

Lemma windows_account_ok : body_ok bs (windows_account_body bs).
Proof.
  intros index s j Hi. unfold windows_account_body.
  destruct (negb _) eqn:Hp; [done|]. destruct (_ && _); [done|].
  destruct (while_down_spec is_ident_byte bs 0 index) as (D1 & _ & D3 & _).
  set (start := while_down _ _ _ _) in *. destruct (Nat.eqb_spec start index) as [|Hne]; [done|].
  destruct start as [|before] eqn:Hst; [done|]. destruct (_ || _); [done|].
  destruct (while_up_spec is_ident_byte bs (index + 1)) as (U1 & U2 & U3 & _).
  set (stop := while_up _ _ _) in *. destruct (Nat.eqb_spec stop (index + 1)) as [|Hne2]; [done|].
  destruct (eq_ignore_ascii_case _ _); [done|]. intros [= <- <-]. split; [|lia].
  apply span_ascii; [lia| |].
  - apply ident_ascii. apply (D3 (S before)). lia.
  - apply ident_ascii. apply U3. lia.
Qed.

(** The bodies that never index out of bounds. *)
Lemma totals : body_total bs (user_profile_body bs) ∧ body_total bs (machine_name_body bs) ∧
  body_total bs (environment_variable_body bs) ∧ body_total bs (ip_address_body bs) ∧
  body_total bs (email_address_body bs).
Proof.
  split_and!; intros index _;
    unfold user_profile_body, machine_name_body, environment_variable_body, ip_address_body,
      email_address_body; repeat case_match; done.
Qed.

(** The positions at which the account scanner reads before the text. *)
Definition account_at_start (bs : bytes) (i : nat) : Prop :=
  (0 < i < length bs)%nat ∧ byte_at bs i = 92 ∧ byte_at bs (i - 1) ≠ 92 ∧
  ∀ k, (k < i)%nat → is_ident_byte (byte_at bs k) = true.

Lemma windows_account_fault index e :
  (index < length bs)%nat →
  windows_account_body bs index = Err e ↔ e = IndexOutOfBounds ∧ account_at_start bs index.
Proof.
  intros Hi. unfold windows_account_body, account_at_start.
  destruct (while_down_spec is_ident_byte bs 0 index) as (D1 & _ & D3 & D4).
  set (start := while_down _ _ _ _) in *.
  destruct (negb _) eqn:Hp; reflect_bools; [naive_solver|].
  destruct ((0 <? index)%nat && _) eqn:Hb; reflect_bools.
  { split; [done|]. intros (_ & _ & _ & Hn & _). lia. }
  destruct (Nat.eqb_spec start index) as [He|Hne].
  { split; [done|]. intros (_ & (H1 & _) & _ & _ & H2). exfalso.
    rewrite He in D4. rewrite H2 in D4 by lia. by specialize (D4 ltac:(lia)). }
  destruct start as [|before] eqn:Hst.
  - split; [intros [= <-]; split; [done|]|by intros [-> _]].
    split_and!; [lia|lia|done|destruct Hb as [Hb|Hb]; [apply Nat.ltb_ge in Hb|]; lia|].
    intros k Hk. apply D3. lia.
  - split; [|].
    + repeat case_match; done.
    + intros (_ & _ & _ & _ & H2). exfalso. specialize (D4 ltac:(lia)).
      rewrite H2 in D4; [done|lia].
Qed.

End Bodies.

(** ** Merging *)

Fixpoint separated (pos : nat) (l : list PiiSpan) : Prop :=
  match l with
  | [] => True
  | s :: rest => (pos ≤ span_start s)%nat ∧ separated (span_end s) rest
  end.

Lemma separated_snoc pos l s :
  separated pos l → (match last l with Some x => span_end x | None => pos end ≤ span_start s)%nat →
  separated pos (l ++ [s]).
Proof.
  revert pos. induction l as [|x l IH]; intros pos; cbn [separated app]; [cbn; auto|].
  intros [H1 H2] H3. split; [done|]. apply IH; [done|].
  rewrite last_cons in H3. destruct (last l); exact H3.
Qed.

Lemma merge_spans_spec (P : PiiSpan → Prop) cap merged spans :
  Forall P spans → Forall P merged → separated 0 merged → (length merged < cap)%nat →
  let r := merge_spans cap merged spans in
  Forall P r ∧ separated 0 r ∧ (length r ≤ cap)%nat.
Proof.
  intros Hs. revert merged. induction Hs as [|s spans Hs _ IH]; intros merged Hm Hsep Hl; cbn [merge_spans].
  - split_and!; [done|done|lia].
  - destruct (match last merged with Some l => _ | None => _ end) eqn:Hlast; [by apply IH|].
    assert (Hsnoc : separated 0 (merged ++ [s])).
    { apply separated_snoc; [done|]. destruct (last merged); [by apply Nat.ltb_ge in Hlast|lia]. }
    assert (Forall P (merged ++ [s])) by (apply Forall_app; auto).
    destruct (Nat.leb_spec cap (length (merged ++ [s]))) as [Hc|Hc].
    + rewrite length_app in *. cbn in *. split_and!; [done|done|lia].
    + by apply IH.
Qed.

Lemma insert_span_Forall P s l : P s → Forall P l → Forall P (insert_span s l).
Proof.
  intros Hs. induction 1 as [|h t Hh Ht IH]; cbn; [by repeat constructor|].
  destruct (span_le s h); repeat constructor; done.
Qed.
Lemma sort_spans_Forall P l : Forall P l → Forall P (sort_spans l).
Proof. induction 1; cbn; [done|]. by apply insert_span_Forall. Qed.

(** ** Redaction *)

(** The text with each span replaced, built from left to right. *)
Fixpoint redacted (pos : nat) (spans : list PiiSpan) (bs : bytes) : bytes :=
  match spans with
  | [] => drop pos bs
  | s :: rest => slice bs pos (span_start s) ++ REDACTED ++ redacted (span_end s) rest bs
  end.

Lemma slice_drop bs a b : (a ≤ b)%nat → slice bs a b ++ drop b bs = drop a bs.
Proof.
  intros. unfold slice. rewrite <- (take_drop (b - a) (drop a bs)) at 2.
  rewrite drop_drop. by replace (a + (b - a))%nat with b by lia.
Qed.

Lemma take_slice bs a b : (a ≤ b)%nat → take a bs ++ slice bs a b = take b bs.
Proof. intros. unfold slice. rewrite take_take_drop. f_equal. lia. Qed.

(** The first byte after position [pos] of the redacted rest is no continuation. *)
Lemma redacted_boundary bs pos spans x :
  is_char_boundary bs pos = true → (pos ≤ length bs)%nat → separated pos spans →
  Forall (span_ok bs) spans → length x = pos →
  is_char_boundary (x ++ redacted pos spans bs) pos = true.
Proof.
  intros Hb Hl Hs Hok Hx. unfold is_char_boundary in Hb |- *.
  rewrite length_app, byte_at_app_r, Hx, Nat.sub_diag by lia.
  assert (Hd : ∀ k, byte_at (drop pos bs) k = byte_at bs (pos + k)).
  { intros k. unfold byte_at. by rewrite !nth_lookup, lookup_drop. }
  destruct spans as [|s rest]; cbn [redacted].
  - rewrite length_drop, Hd, Nat.add_0_r.
    destruct (Nat.eqb_spec pos (length bs)) as [He|Hne]; cbn [orb] in Hb.
    + apply orb_true_iff. left. apply Nat.eqb_eq. lia.
    + apply orb_true_iff. right. by replace (pos + (length bs - pos))%nat with (length bs) by lia.
  - destruct Hs as [Hs _]. apply Forall_cons in Hok as [(Hse & _) _].
    apply orb_true_iff. right. apply andb_true_iff. rewrite length_app, length_app. split.
    { change (length REDACTED) with 10%nat. apply Nat.ltb_lt. lia. }
    destruct (decide (pos = span_start s)) as [He|Hne].
    + unfold slice. by rewrite He, Nat.sub_diag.
    + rewrite byte_at_app_l by (rewrite slice_length; lia).
      rewrite byte_at_slice, Nat.add_0_r by lia.
      destruct (Nat.eqb_spec pos (length bs)) as [|]; [lia|]. cbn in Hb.
      by apply andb_prop in Hb as [_ ?].
Qed.

Lemma redact_rev_app a b bs : redact_rev (a ++ b) bs = redact_rev a bs ≫= redact_rev b.
Proof.
  revert bs. induction a as [|s a IH]; intros bs; cbn [redact_rev app]; [done|].
  unfold mbind, result_bind. destruct (replace_range _ _ _ _); [apply IH|done].
Qed.

Lemma redact_rev_spec bs spans pos :
  (pos ≤ length bs)%nat → separated pos spans → Forall (span_ok bs) spans →
  redact_rev (reverse spans) bs = Ok (take pos bs ++ redacted pos spans bs).
Proof.
  revert pos. induction spans as [|s rest IH]; intros pos Hp Hs Hok; cbn [redacted].
  - cbn. by rewrite take_drop.
  - destruct Hs as [Hs Hsep]. apply Forall_cons in Hok as [(Hse & Hb1 & Hb2) Hok].
    rewrite reverse_cons, redact_rev_app, (IH (span_end s)) by (done || lia).
    cbn [mbind result_bind redact_rev]. unfold replace_range.
    set (y := take (span_end s) bs ++ redacted (span_end s) rest bs).
    assert (Ht : length (take (span_end s) bs) = span_end s) by (rewrite length_take; lia).
    assert (Hy : (span_end s ≤ length y)%nat) by (subst y; rewrite length_app; lia).
    rewrite (proj2 (Nat.leb_le _ _)), (proj2 (Nat.leb_le _ _)) by lia. cbn [andb negb].
    replace (is_char_boundary y (span_end s)) with true
      by (symmetry; apply redacted_boundary; done || lia).
    replace (is_char_boundary y (span_start s)) with true.
    + cbn [andb mbind result_bind]. f_equal. subst y.
      rewrite take_app_le, take_take, Nat.min_l by lia.
      rewrite drop_app_length' by done. by rewrite (app_assoc (take pos bs)), take_slice by lia.
    + unfold is_char_boundary in Hb1 |- *. subst y. rewrite byte_at_app_l by lia.
      destruct (Nat.eqb_spec (span_start s) (length bs)); [lia|]. cbn in Hb1.
      apply andb_prop in Hb1 as [_ Hc]. symmetry. apply orb_true_iff. right.
      apply andb_true_iff. split; [apply Nat.ltb_lt; lia|].
      replace (byte_at (take (span_end s) bs) (span_start s)) with (byte_at bs (span_start s)); [done|].
      unfold byte_at. by rewrite !nth_lookup, lookup_take_lt by lia.
Qed.

(** A text splits at every character boundary of its bytes. *)
Lemma boundary_split text i :
  scalars text → (i ≤ length (utf8_encode text))%nat →
  is_char_boundary (utf8_encode text) i = true →
  ∃ a b, scalars a ∧ scalars b ∧ take i (utf8_encode text) = utf8_encode a ∧
    drop i (utf8_encode text) = utf8_encode b.
Proof.
  intros H. revert i. induction H as [|c t Hc Ht IH]; intros i Hi Hb.
  - exists [], []. cbn in Hi. replace i with 0%nat by lia. done.
  - change (utf8_encode (c :: t)) with (utf8_char c ++ utf8_encode t) in *.
    destruct (decide (i = 0)%nat) as [->|Hn].
    { exists [], (c :: t). split_and!; [done|by constructor|done|done]. }
    destruct (utf8_char_head c Hc) as (b & r & Hu & _ & Hasc & Hr).
    destruct (decide (i < length (utf8_char c))%nat) as [Hlt|Hge].
    + exfalso. rewrite Hu in *. unfold is_char_boundary in Hb. rewrite length_app in Hb.
      destruct (Nat.eqb_spec i (length (b :: r) + length (utf8_encode t))); [lia|].
      cbn [orb] in Hb. apply andb_prop in Hb as [_ Hb].
      rewrite byte_at_app_l in Hb by done. destruct i as [|i]; [done|].
      assert (Hx : is_cont (byte_at (b :: r) (S i)) = true); [|by rewrite Hx in Hb].
      assert (Hall : Forall (λ x, is_cont x = true) r).
      { clear -Hu Hc. assert (0 ≤ c ≤ 0x10FFFF) by (unfold is_scalar in Hc; lia).
        unfold utf8_char in Hu. destruct_ifs; simplify_eq/=; repeat constructor;
          unfold is_cont; dlia. }
      change (byte_at (b :: r) (S i)) with (nth i r 0).
      rewrite Forall_forall in Hall. apply Hall, list_elem_of_In, nth_In. cbn in Hlt. lia.
    + rewrite length_app in Hi. destruct (IH (i - length (utf8_char c))%nat) as (a & b' & Ha & Hb' & H1 & H2).
      { lia. }
      { unfold is_char_boundary in *. rewrite length_app, byte_at_app_r in Hb by lia.
        destruct (Nat.eqb_spec (i - length (utf8_char c)) (length (utf8_encode t))); [done|].
        destruct (Nat.eqb_spec i (length (utf8_char c) + length (utf8_encode t))); [lia|].
        cbn [orb] in *. apply andb_prop in Hb as [_ Hb]. apply andb_true_iff.
        split; [apply Nat.ltb_lt; lia|done]. }
      exists (c :: a), b'. split_and!; [by constructor|done| |].
      * rewrite take_app_ge by lia. change (utf8_encode (c :: a)) with (utf8_char c ++ utf8_encode a).
        by rewrite H1.
      * by rewrite drop_app_ge by lia.
Qed.

Lemma utf8_encode_app a b : utf8_encode (a ++ b) = utf8_encode a ++ utf8_encode b.
Proof. unfold utf8_encode. by rewrite flat_map_app. Qed.

Lemma is_char_boundary_drop bs p i :
  (p ≤ i ≤ length bs)%nat → is_char_boundary bs i = true →
  is_char_boundary (drop p bs) (i - p) = true.
Proof.
  unfold is_char_boundary. intros Hp Hb. rewrite length_drop.
  assert (Hd : byte_at (drop p bs) (i - p) = byte_at bs i).
  { unfold byte_at. rewrite !nth_lookup, lookup_drop. by replace (p + (i - p))%nat with i by lia. }
  rewrite Hd. destruct (Nat.eqb_spec i (length bs)) as [He|Hne]; cbn [orb] in Hb; apply orb_true_iff.
  - left. apply Nat.eqb_eq. lia.
  - right. apply andb_prop in Hb as [_ Hb]. apply andb_true_iff. split; [apply Nat.ltb_lt; lia|done].
Qed.

(** What is left of a text after redaction is again a text. *)
Lemma redacted_text text spans pos :
  scalars text → (pos ≤ length (utf8_encode text))%nat →
  is_char_boundary (utf8_encode text) pos = true → separated pos spans →
  Forall (span_ok (utf8_encode text)) spans →
  ∃ t, scalars t ∧ redacted pos spans (utf8_encode text) = utf8_encode t.
Proof.
  intros Ht. revert pos. induction spans as [|s rest IH]; intros pos Hp Hb Hs Hok; cbn [redacted].
  - destruct (boundary_split text pos Ht Hp Hb) as (_ & t & _ & ? & _ & ?). eauto.
  - destruct Hs as [Hs Hsep]. apply Forall_cons in Hok as [(Hse & Hb1 & Hb2) Hok].
    destruct (IH (span_end s) ltac:(lia) Hb2 Hsep Hok) as (t2 & Hs2 & ->).
    destruct (boundary_split text pos Ht Hp Hb) as (_ & d & _ & Hd & _ & Hdrop).
    assert (Hb' : is_char_boundary (utf8_encode d) (span_start s - pos) = true).
    { rewrite <- Hdrop. apply is_char_boundary_drop; [lia|done]. }
    destruct (boundary_split d (span_start s - pos) Hd) as (t1 & _ & Hs1 & _ & Htake & _);
      [rewrite <- Hdrop, length_drop; lia|done|].
    exists (t1 ++ lit "[redacted]" ++ t2). split.
    + apply Forall_app. split; [done|]. apply Forall_app. split; [|done]. by repeat constructor.
    + rewrite !utf8_encode_app, <- Htake, <- Hdrop. done.
Qed.

(** ** Properties *)

(** The first five scanners never fail: only the last one decides. *)
Lemma collect_spans_last text :
  scalars text →
  let bs := utf8_encode text in
  ∃ spans, Forall (span_ok bs) spans ∧
    collect_spans text =
      (spans ← scan_windows_account_name bs spans MAX_PII_FINDINGS;
       Ok (merge_spans MAX_PII_FINDINGS [] (sort_spans spans))).
Proof.
  intros Ht bs. unfold collect_spans. fold bs.
  destruct (totals text) as (T1 & T2 & T3 & T4 & T5).
  set (cap := MAX_PII_FINDINGS).
  destruct (scan_total bs _ cap [] (user_profile_ok text Ht) T1 (Forall_nil_2 _)) as (r1 & E1 & F1).
  destruct (scan_total bs _ cap r1 (machine_name_ok text Ht) T2 F1) as (r2 & E2 & F2).
  destruct (scan_total bs _ cap r2 (environment_variable_ok text Ht) T3 F2) as (r3 & E3 & F3).
  destruct (scan_total bs _ cap r3 (ip_address_ok text Ht) T4 F3) as (r4 & E4 & F4).
  destruct (scan_total bs _ cap r4 (email_address_ok text Ht) T5 F4) as (r5 & E5 & F5).
  exists r5. split; [done|].
  unfold scan_user_profile_path, scan_machine_name, scan_environment_variable, scan_ip_address,
    scan_email_address.
  subst bs. rewrite E1. cbn [mbind result_bind]. rewrite E2. cbn [mbind result_bind].
  rewrite E3. cbn [mbind result_bind]. rewrite E4. cbn [mbind result_bind].
  by rewrite E5.
Qed.

Lemma collect_spans_spec text :
  scalars text →
  match collect_spans text with
  | Ok spans => separated 0 spans ∧ Forall (span_ok (utf8_encode text)) spans ∧
      (length spans ≤ MAX_PII_FINDINGS)%nat
  | Err e => e = IndexOutOfBounds ∧ ∃ i, account_at_start (utf8_encode text) i
  end.
Proof.
  intros Ht. destruct (collect_spans_last text Ht) as (r5 & F5 & ->).
  pose proof (scan_ok _ _ MAX_PII_FINDINGS r5 (windows_account_ok text Ht) F5) as H.
  unfold scan_windows_account_name. destruct (scan _ _ _ r5) as [r6|e]; cbn [mbind result_bind].
  - apply sort_spans_Forall in H.
    destruct (merge_spans_spec _ MAX_PII_FINDINGS [] (sort_spans r6) H) as (M1 & M2 & M3);
      [done|done|unfold MAX_PII_FINDINGS; cbn; lia|done].
  - destruct H as (i & Hi & He). apply (windows_account_fault text) in He as [-> He]; eauto.
Qed.

Lemma start_boundary text : scalars text → is_char_boundary (utf8_encode text) 0 = true.
Proof.
  intros Ht. unfold is_char_boundary.
  destruct (Nat.eqb_spec 0 (length (utf8_encode text))) as [|Hn]; [done|].
  rewrite utf8_head_not_cont by (done || (intros E; by rewrite E in Hn)).
  rewrite (proj2 (Nat.ltb_lt _ _)) by lia. done.
Qed.

Lemma sanitize_pii_result field text :
  scalars text →
  let bs := utf8_encode text in
  match sanitize_pii field text with
  | Ok (t, findings) => ∃ spans,
      collect_spans text = Ok spans ∧ findings = map (finding_of field) spans ∧
      utf8_encode t = redacted 0 spans bs ∧ separated 0 spans ∧ Forall (span_ok bs) spans ∧
      (length spans ≤ MAX_PII_FINDINGS)%nat
  | Err e => e = IndexOutOfBounds ∧ ∃ i, account_at_start bs i
  end.
Proof.
  intros Ht bs. unfold sanitize_pii, sanitize_pii_bytes.
  pose proof (collect_spans_spec text Ht) as H.
  destruct (collect_spans text) as [spans|e] eqn:Hc; cbn [mbind result_bind]; [|done].
  destruct H as (H1 & H2 & H3). fold bs in H2 |- *.
  destruct (redacted_text text spans 0 Ht) as (t & Hst & Hred);
    [lia|by apply start_boundary|done|done|].
  fold bs in Hred. destruct spans as [|s rest].
  - cbn [length Nat.eqb fst snd ok_or mbind result_bind]. subst bs.
    rewrite utf8_decode_encode by done. cbn. exists []. by split_and!.
  - cbn [length Nat.eqb]. rewrite (redact_rev_spec bs (s :: rest) 0) by (done || lia).
    rewrite take_0, Hred. cbn [fst snd app mbind result_bind].
    rewrite utf8_decode_encode by done. cbn [ok_or mbind result_bind].
    exists (s :: rest). by split_and!.
Qed.

(** C33: redaction of any text.  When [sanitize_pii] returns, its text is the
    input with every reported span, and nothing else, replaced by [[redacted]];
    the spans are at most [MAX_PII_FINDINGS], in order, disjoint, non-empty and
    on character boundaries, so [replace_range] never panics, and the findings
    are exactly theirs.  The only failure is the out-of-bounds read of the
    account scanner. *)
Theorem sanitize_pii_redacts field text :
  scalars text →
  let bs := utf8_encode text in
  match sanitize_pii field text with
  | Ok (t, findings) => ∃ spans,
      collect_spans text = Ok spans ∧ findings = map (finding_of field) spans ∧
      utf8_encode t = redacted 0 spans bs ∧ separated 0 spans ∧ Forall (span_ok bs) spans ∧
      (length spans ≤ MAX_PII_FINDINGS)%nat
  | Err e => e = IndexOutOfBounds ∧ ∃ i, account_at_start bs i
  end.
Proof. exact (sanitize_pii_result field text). Qed.

Lemma sanitize_pii_redacts_witness :
  let text := lit "path C:\Users\kai ip 10.0.0.1" in
  scalars text ∧
  match sanitize_pii (lit "details") text with
  | Ok (t, findings) => t = lit "path [redacted] ip [redacted]" ∧ (length findings ≤ 32)%nat
  | Err _ => False
  end.
Proof.
  intros text. assert (Hs : scalars text) by (repeat constructor). split; [done|].
  pose proof (sanitize_pii_redacts (lit "details") text Hs) as H. revert H.
  vm_compute (sanitize_pii _ _). intros (spans & _ & Hf & _ & _ & _ & Hl). split; [reflexivity|].
  rewrite Hf, length_map. exact Hl.
Defined.

Lemma account_at_start_scan bs cap i k index spans :
  account_at_start bs i → (index + k = i)%nat →
  ∀ fuel, (k < fuel)%nat →
  windows_account_body bs i = Err IndexOutOfBounds →
  scan_loop fuel (windows_account_body bs) (length bs) cap index spans = Err IndexOutOfBounds.
Proof.
  intros Ha. revert index. induction k as [|k IH]; intros index Hk fuel Hf Hb;
    destruct fuel as [|fuel]; try lia; cbn [scan_loop]; pose proof Ha as (Hi & H92 & _ & Hid);
    rewrite (proj2 (Nat.ltb_lt _ _)) by lia.
  - rewrite Nat.add_0_r in Hk. by rewrite Hk, Hb.
  - assert (Hn : windows_account_body bs index = Ok Next).
    { unfold windows_account_body. specialize (Hid index ltac:(lia)).
      destruct (byte_at bs index =? 92) eqn:E; [|done]. reflect_bools. by rewrite E in Hid. }
    rewrite Hn. apply IH; [lia|lia|done].
Qed.

(** The scan panics exactly on the texts that begin with an account name:
    identifier bytes from the first byte of the text up to a backslash, such as
    [CORP\alice].  The account scanner then reads the byte before the text. *)
Theorem sanitize_pii_panics field text :
  scalars text →
  (∃ i, account_at_start (utf8_encode text) i) ↔
  sanitize_pii field text = Err IndexOutOfBounds.
Proof.
  intros Ht. split.
  - intros [i Hi]. pose proof Hi as (Hl & _). unfold sanitize_pii, sanitize_pii_bytes.
    destruct (collect_spans_last text Ht) as (spans & _ & ->).
    unfold scan_windows_account_name, scan.
    rewrite (account_at_start_scan _ MAX_PII_FINDINGS i i 0 spans); [done|done|lia|lia|].
    apply windows_account_fault; [lia|done].
  - unfold sanitize_pii, sanitize_pii_bytes. pose proof (collect_spans_spec text Ht) as H.
    destruct (collect_spans text) as [spans|e]; cbn [mbind result_bind]; [|by destruct H].
    destruct H as (H1 & H2 & H3). intros He. exfalso.
    destruct (length spans =? 0)%nat; cbn [mbind result_bind fst snd] in He.
    + rewrite utf8_decode_encode in He by done. done.
    + rewrite (redact_rev_spec _ spans 0) in He by (done || lia). cbn [mbind result_bind fst snd] in He.
      by destruct (utf8_decode _).
Qed.

Lemma sanitize_pii_panics_witness :
  sanitize_pii (lit "details") (lit "CORP\alice logged on") = Err IndexOutOfBounds.
Proof.
  apply (sanitize_pii_panics (lit "details") (lit "CORP\alice logged on")); [by repeat constructor|].
  exists 4%nat. split_and!; [lia|vm_compute; lia|reflexivity|done|].
  intros k Hk. do 4 (destruct k as [|k]; [reflexivity|]). lia.
Defined.
