(* ===== verification/Diagnostics.v ===== *)
(** * Diagnostics: the bounded event store and its hash chain

    Models the first part of [crates/tick-diagnostics/src/lib.rs]: the labels,
    [truncate_utf8], [sanitize], the outcome heuristics, the hash chain
    ([compute_entry_hash], [verify_event_chain]) and [DiagnosticStore].  A
    critical section of the store's mutex is one step; [elapsed] readings of
    the clock are arguments, in nanoseconds.  SHA-256 is a parameter. *)
From S2P Require Import Prelude Text Core Privacy.

Class Sha256 := sha256 : bytes → bytes.

Definition DEFAULT_MAX_EVENTS : nat := 512.
Definition HARD_MAX_EVENTS : nat := 512.
Definition MAX_FIELD_LENGTH : Z := 160.
Definition MAX_RENDERED_EVENT_BYTES : Z := 1024.
Definition GENESIS_HASH_SEED : bytes := lit "TrueTick-Genesis-v1".
Definition genesis_hash `{Sha256} : bytes := sha256 GENESIS_HASH_SEED.

(** ** Categories *)

Module EventCategory.
Inductive EventCategory := Startup | Timer | Power | UI | Schedule | System.
End EventCategory.
Abbreviation EventCategory := EventCategory.EventCategory.

Definition event_category_as_str (c : EventCategory) : str :=
  match c with
  | EventCategory.Startup => lit "Startup"
  | EventCategory.Timer => lit "Timer"
  | EventCategory.Power => lit "Power"
  | EventCategory.UI => lit "UI"
  | EventCategory.Schedule => lit "Schedule"
  | EventCategory.System => lit "System"
  end.

Definition from_event_name (name : str) : EventCategory :=
  let lower := lowercase name in
  let starts := existsb (λ p, starts_with lower (lit p)) in
  let has := existsb (λ p, contains lower (lit p)) in
  if starts ["startup"; "lifecycle"; "portable"; "config"] || has ["single_instance"; "slot"]
  then EventCategory.Startup
  else if starts ["timer"; "ownership"; "handoff"; "verification"; "resolution"]
  then EventCategory.Timer
  else if starts ["power"] || has ["battery"; "ac_online"]
  then EventCategory.Power
  else if starts ["ui"; "tray"; "menu"; "command"; "window"; "grid"]
  then EventCategory.UI
  else if starts ["schedule"; "duration"; "pause"; "cancel"]
  then EventCategory.Schedule
  else EventCategory.System.

(** ** Bounded fields *)

(** The longest prefix of whole characters within [maximum_bytes]. *)
Fixpoint take_bytes (value : str) (maximum_bytes : Z) : str :=
  match value with
  | [] => []
  | c :: rest =>
      if utf8_len c <=? maximum_bytes
      then c :: take_bytes rest (maximum_bytes - utf8_len c) else []
  end.

Definition truncate_utf8 (value : str) (maximum_bytes : Z) : str :=
  if str_len value <=? maximum_bytes then value
  else take_bytes value maximum_bytes ++ lit "...".

Definition sanitize_char (c : Z) : Z :=
  if (c =? 13) || (c =? 10) || (c =? 9) then 32 else if is_control c then 63 else c.
Definition sanitize (value : str) : str :=
  truncate_utf8 (map sanitize_char value) MAX_FIELD_LENGTH.

(** ** Records *)

Module Evidence.
Inductive Evidence := NotCollected | Unsupported | Inconclusive.
End Evidence.
Abbreviation Evidence := Evidence.Evidence.

Record StatusRecord := mkStatusRecord { record_status : Status; evidence : Evidence }.

Definition status_label (s : Status) : str :=
  match s with
  | Status.Released => lit "Released"
  | Status.Active => lit "Active"
  | Status.Requested => lit "Requested"
  | Status.Warning => lit "Warning"
  | Status.Blocked => lit "Blocked"
  | Status.Error => lit "Error"
  | Status.Unknown => lit "Unknown"
  | Status.Unsupported => lit "Unsupported"
  end.
Definition evidence_label (e : Evidence) : str :=
  match e with
  | Evidence.NotCollected => lit "NotCollected"
  | Evidence.Unsupported => lit "Unsupported"
  | Evidence.Inconclusive => lit "Inconclusive"
  end.
Definition format_status (r : StatusRecord) : str :=
  lit "status=" ++ status_label (record_status r) ++ lit ", evidence=" ++ evidence_label (evidence r).

Module DiagnosticPhase.
Inductive DiagnosticPhase :=
| Begin | Observe | Decide | Acquire | Release | Verify | Handoff | Timer | Render | Persist
| Shutdown | Complete.
End DiagnosticPhase.
Abbreviation DiagnosticPhase := DiagnosticPhase.DiagnosticPhase.

Module DiagnosticSource.
Inductive DiagnosticSource :=
| TrayCommand | PowerEvent | Startup | Pause | Resume | Handoff | Shutdown | Policy | Ownership
| Platform | Native | Timer | Diagnostic | Internal.
End DiagnosticSource.
Abbreviation DiagnosticSource := DiagnosticSource.DiagnosticSource.

Module DiagnosticOutcome.
Inductive DiagnosticOutcome :=
| InProgress | Completed | Degraded | Failed | Cancelled | Suppressed | TimedOut | Unverified.
End DiagnosticOutcome.
Abbreviation DiagnosticOutcome := DiagnosticOutcome.DiagnosticOutcome.

Definition phase_label (p : DiagnosticPhase) : str :=
  match p with
  | DiagnosticPhase.Begin => lit "Begin"
  | DiagnosticPhase.Observe => lit "Observe"
  | DiagnosticPhase.Decide => lit "Decide"
  | DiagnosticPhase.Acquire => lit "Acquire"
  | DiagnosticPhase.Release => lit "Release"
  | DiagnosticPhase.Verify => lit "Verify"
  | DiagnosticPhase.Handoff => lit "Handoff"
  | DiagnosticPhase.Timer => lit "Timer"
  | DiagnosticPhase.Render => lit "Render"
  | DiagnosticPhase.Persist => lit "Persist"
  | DiagnosticPhase.Shutdown => lit "Shutdown"
  | DiagnosticPhase.Complete => lit "Complete"
  end.
Definition source_label (s : DiagnosticSource) : str :=
  match s with
  | DiagnosticSource.TrayCommand => lit "TrayCommand"
  | DiagnosticSource.PowerEvent => lit "PowerEvent"
  | DiagnosticSource.Startup => lit "Startup"
  | DiagnosticSource.Pause => lit "Pause"
  | DiagnosticSource.Resume => lit "Resume"
  | DiagnosticSource.Handoff => lit "Handoff"
  | DiagnosticSource.Shutdown => lit "Shutdown"
  | DiagnosticSource.Policy => lit "Policy"
  | DiagnosticSource.Ownership => lit "Ownership"
  | DiagnosticSource.Platform => lit "Platform"
  | DiagnosticSource.Native => lit "Native"
  | DiagnosticSource.Timer => lit "Timer"
  | DiagnosticSource.Diagnostic => lit "Diagnostic"
  | DiagnosticSource.Internal => lit "Internal"
  end.
Definition outcome_label (o : DiagnosticOutcome) : str :=
  match o with
  | DiagnosticOutcome.InProgress => lit "InProgress"
  | DiagnosticOutcome.Completed => lit "Completed"
  | DiagnosticOutcome.Degraded => lit "Degraded"
  | DiagnosticOutcome.Failed => lit "Failed"
  | DiagnosticOutcome.Cancelled => lit "Cancelled"
  | DiagnosticOutcome.Suppressed => lit "Suppressed"
  | DiagnosticOutcome.TimedOut => lit "TimedOut"
  | DiagnosticOutcome.Unverified => lit "Unverified"
  end.

Record NativeOutcome := mkNative {
  ntstatus : option Z;
  win32_last_error : option Z;
  requested_hns : option Z;
  selected_hns : option Z;
  effective_hns : option Z }.
Definition native_default : NativeOutcome := mkNative None None None None None.

Record OperationContext := mkContext {
  operation_id : Z;
  parent_operation_id : option Z;
  correlation_id : Z }.

Record DiagnosticRecord := mkRecord {
  context : OperationContext;
  phase : DiagnosticPhase;
  source : DiagnosticSource;
  outcome : DiagnosticOutcome;
  native : NativeOutcome }.

(** [DiagnosticEvent]: the operation ids, phase, source, outcome and native
    fields are kept together as the record they were copied from. *)
Record DiagnosticEvent := mkEvent {
  sequence : Z;
  elapsed : Z;
  event_record : DiagnosticRecord;
  name : str;
  details : str;
  prev_hash : bytes;
  entry_hash : bytes }.

(** ** The hash chain *)

Definition compute_entry_hash `{Sha256} (prev : bytes) (seq timestamp_nanos : Z)
    (nm dt : str) : bytes :=
  sha256 (prev ++ le_bytes 8 seq ++ le_bytes 16 timestamp_nanos ++ utf8_encode nm ++ utf8_encode dt).

Definition expected_hash `{Sha256} (e : DiagnosticEvent) : bytes :=
  compute_entry_hash (prev_hash e) (sequence e) (elapsed e) (name e) (details e).

Module ChainError.
Inductive ChainError := EntryHashMismatch | PreviousHashLinkMismatch.
End ChainError.
Abbreviation ChainError := ChainError.ChainError.

Fixpoint verify_from `{Sha256} (index : nat) (previous : option DiagnosticEvent)
    (events : list DiagnosticEvent) : result (nat * ChainError) unit :=
  match events with
  | [] => Ok tt
  | event :: rest =>
      if negb (bytes_eqb (entry_hash event) (expected_hash event))
      then Err (index, ChainError.EntryHashMismatch)
      else if match previous with
              | Some p => (sequence event =? sat_add 64 (sequence p) 1)
                          && negb (bytes_eqb (entry_hash p) (prev_hash event))
              | None => false
              end
      then Err (index, ChainError.PreviousHashLinkMismatch)
      else verify_from (S index) (Some event) rest
  end.

Definition verify_event_chain `{Sha256} (events : list DiagnosticEvent)
    : result (nat * ChainError) unit :=
  verify_from 0 None events.

(** ** The store *)

Record StoreState := mkStore {
  maximum_events : nat;              (* of [StoreInner], fixed at construction *)
  next_sequence : Z;
  next_operation_id : Z;
  events : list DiagnosticEvent;
  truncation_recorded : bool;
  last_entry_hash : bytes;
  coalesced_details : option str }.

Definition store_new `{Sha256} (maximum : nat) : StoreState :=
  mkStore (Nat.max 2 (Nat.min maximum HARD_MAX_EVENTS)) 1 1 [] false genesis_hash None.

Definition allocate_operation (s : StoreState) (parent : option OperationContext)
    : OperationContext * StoreState :=
  let id := next_operation_id s in
  (mkContext id (operation_id <$> parent) (match parent with Some p => correlation_id p | None => id end),
   mkStore (maximum_events s) (next_sequence s) (sat_add 64 id 1) (events s)
     (truncation_recorded s) (last_entry_hash s) (coalesced_details s)).
Definition begin_operation (s : StoreState) := allocate_operation s None.
Definition child_operation (s : StoreState) (parent : OperationContext) :=
  allocate_operation s (Some parent).

(** [derive_outcome]: whole-word tokens of the lower-cased name and details. *)
Fixpoint split_by_acc (p : Z → bool) (acc s : str) : list str :=
  match s with
  | [] => [reverse acc]
  | c :: rest => if p c then reverse acc :: split_by_acc p [] rest
                 else split_by_acc p (c :: acc) rest
  end.
Definition tokens (value : str) : list str :=
  List.filter (λ t, negb (Nat.eqb (length t) 0))
    (split_by_acc (λ c, negb (is_ascii_alphanumeric c)) [] value).

Definition derive_outcome (nm dt : str) : DiagnosticOutcome :=
  let value := lowercase (nm ++ lit " " ++ dt) in
  let ts := tokens value in
  let has := λ w, existsb (str_eqb (lit w)) ts in
  if has "timedout" || has "timeout" then DiagnosticOutcome.TimedOut
  else if has "suppressed" then DiagnosticOutcome.Suppressed
  else if contains value (lit "cancel") then DiagnosticOutcome.Cancelled
  else if has "unverified" || has "uncertain" then DiagnosticOutcome.Unverified
  else if has "degraded" then DiagnosticOutcome.Degraded
  else
    let no_error := existsb (λ w, contains value (lit w))
      ["error=none"; "errors=none"; "errors.cleared"; "error=0"; "errors=0"] in
    if negb no_error && (has "error" || has "errors" || has "failed")
    then DiagnosticOutcome.Failed
    else if has "started" || has "pending" then DiagnosticOutcome.InProgress
    else DiagnosticOutcome.Completed.

(** ** Recording *)

Definition rsplit_once_str (s sep : str) : option (str * str) :=
  let fix go (k : nat) :=
    match k with
    | O => if starts_with s sep then Some ([], drop (length sep) s) else None
    | S j => if starts_with (drop k s) sep
             then Some (take k s, drop (k + length sep) s) else go j
    end
  in go (length s).

Definition REPEAT : str := lit " repeat_count=".

(** [coalesce_repeated_layout_event]: the new state when the event was folded
    into the last one. *)
Definition coalesce_repeated_layout_event (s : StoreState) (nm dt : str) : option StoreState :=
  match reverse (events s) with
  | [] => None
  | event :: older =>
      if negb (str_eqb (name event) nm) then None
      else
        let existing := details event in
        let parsed := rsplit_once_str existing REPEAT in
        let '(base, previous_count) :=
          match parsed with
          | Some (b, count) => (b, default 1 (parse_u 32 count))
          | None => (existing, 1)
          end in
        let provenance_ok := match parsed with
          | None => true
          | Some _ => bool_decide (coalesced_details s = Some existing)
          end in
        if negb (str_eqb base dt) || negb provenance_ok then None
        else
          let next_count := Z.min (sat_add 32 previous_count 1) 999999 in
          let next_details := truncate_utf8 (base ++ REPEAT ++ show_u next_count) MAX_FIELD_LENGTH in
          let event' := mkEvent (sequence event) (elapsed event) (event_record event) (name event)
                          next_details (prev_hash event) (entry_hash event) in
          Some (mkStore (maximum_events s) (next_sequence s) (next_operation_id s)
                  (reverse older ++ [event']) (truncation_recorded s) (last_entry_hash s)
                  (Some next_details))
  end.

Definition remove_at {A} (i : nat) (l : list A) : list A := take i l ++ drop (S i) l.

(** The tail of [record_with_context]: a hashed event is pushed. *)
Definition push_event `{Sha256} (s : StoreState) (at_front : bool) (record : DiagnosticRecord)
    (now : Z) (nm dt : str) : StoreState :=
  let hash := compute_entry_hash (last_entry_hash s) (next_sequence s) now nm dt in
  let event := mkEvent (next_sequence s) now record nm dt (last_entry_hash s) hash in
  mkStore (maximum_events s) (sat_add 64 (next_sequence s) 1) (next_operation_id s)
    (if at_front then event :: events s else events s ++ [event])
    (truncation_recorded s || at_front) hash (coalesced_details s).

Definition with_events (s : StoreState) (l : list DiagnosticEvent) : StoreState :=
  mkStore (maximum_events s) (next_sequence s) (next_operation_id s) l
    (truncation_recorded s) (last_entry_hash s) (coalesced_details s).
Definition clear_coalesced (s : StoreState) : StoreState :=
  mkStore (maximum_events s) (next_sequence s) (next_operation_id s) (events s)
    (truncation_recorded s) (last_entry_hash s) None.

Definition truncation_marker (record : DiagnosticRecord) : DiagnosticRecord :=
  mkRecord (context record) DiagnosticPhase.Complete DiagnosticSource.Diagnostic
    DiagnosticOutcome.Completed native_default.

(** The eviction block: drop the oldest event after the truncation marker, and
    insert the marker the first time. *)
Definition make_room `{Sha256} (s : StoreState) (record : DiagnosticRecord) (now : Z) : StoreState :=
  if (maximum_events s <=? length (events s))%nat then
    let s := with_events s (remove_at (if truncation_recorded s then 1 else 0) (events s)) in
    let s :=
      if truncation_recorded s then s
      else push_event s true (truncation_marker record) now (lit "diagnostic.log_truncated")
             (lit "retaining newest " ++ show_u (Z.of_nat (maximum_events s - 1)) ++ lit " events") in
    if (maximum_events s <=? length (events s))%nat
    then with_events s (remove_at 1 (events s)) else s
  else s.

Definition clean_details (dt : str) : result Fault str :=
  let sanitized := sanitize dt in
  if PII_SCAN_ENABLED then
    '(redacted_text, findings) ← sanitize_pii (lit "details") sanitized;
    if (length findings =? 0)%nat then Ok redacted_text
    else Ok (truncate_utf8 (redacted_text ++ lit " pii_redacted=" ++
               show_u (Z.of_nat (length findings))) MAX_FIELD_LENGTH)
  else Ok sanitized.

Definition LAYOUT_ERROR : str := lit "diagnostic.layout.error".

(** The effect of the record once name and details are clean. *)
Definition record_clean `{Sha256} (s : StoreState) (record : DiagnosticRecord)
    (marker_now now : Z) (nm dt : str) : StoreState :=
  match (if str_eqb nm LAYOUT_ERROR then coalesce_repeated_layout_event s nm dt else None) with
  | Some s' => s'
  | None => push_event (make_room (clear_coalesced s) record marker_now) false record now nm dt
  end.

Definition record_with_context `{Sha256} (s : StoreState) (record : DiagnosticRecord)
    (marker_now now : Z) (nm dt : str) : result Fault StoreState :=
  dt' ← clean_details dt;
  Ok (record_clean s record marker_now now (sanitize nm) dt').

Definition record_with_outcome `{Sha256} (s : StoreState) (marker_now now : Z) (nm dt : str)
    (o : DiagnosticOutcome) : result Fault StoreState :=
  let '(ctx, s) := begin_operation s in
  let value := lowercase (nm ++ lit " " ++ dt) in
  let ph := if existsb (λ w, contains value (lit w)) ["window"; "layout"; "render"; "dpi"]
            then DiagnosticPhase.Render else DiagnosticPhase.Complete in
  record_with_context s (mkRecord ctx ph DiagnosticSource.Internal o native_default)
    marker_now now nm dt.

Definition record_event `{Sha256} (s : StoreState) (marker_now now : Z) (nm dt : str)
    : result Fault StoreState :=
  record_with_outcome s marker_now now nm dt (derive_outcome nm dt).

Definition record_verification `{Sha256} (s : StoreState) (ctx : OperationContext)
    (src : DiagnosticSource) (o : DiagnosticOutcome) (marker_now now : Z) (nm dt : str)
    : result Fault StoreState :=
  record_with_context s (mkRecord ctx DiagnosticPhase.Verify src o native_default)
    marker_now now nm dt.

(** ** The invariant of the store *)

Section StoreProofs.
Context `{Sha256}.

Record chain_ok (s : StoreState) : Prop := {
  chain_next : 1 ≤ next_sequence s ≤ u64_max;
  chain_hash : ∀ e, e ∈ events s → entry_hash e = expected_hash e;
  chain_link : ∀ e e', e ∈ events s → e' ∈ events s →
    sequence e' = sequence e + 1 → prev_hash e' = entry_hash e;
  chain_last : ∀ e, e ∈ events s → sequence e < next_sequence s ∧
    (sequence e = next_sequence s - 1 → entry_hash e = last_entry_hash s) }.

Lemma chain_ok_sub s l :
  chain_ok s → (∀ e, e ∈ l → e ∈ events s) → chain_ok (with_events s l).
Proof.
  intros [? ? ? Hla] Hl. split; cbn; [done|eauto..|]. intros e He. apply Hla, Hl, He.
Qed.

Lemma chain_ok_clear s : chain_ok s → chain_ok (clear_coalesced s).
Proof. intros []. by split. Qed.

Lemma chain_ok_push s front record now nm dt :
  chain_ok s → next_sequence s < u64_max → chain_ok (push_event s front record now nm dt).
Proof.
  intros [Hn Hh Hl Hla] Hmax. unfold push_event.
  set (ev := mkEvent _ _ _ _ _ _ _).
  assert (Hin : ∀ e, e ∈ (if front then ev :: events s else events s ++ [ev]) ↔
    e = ev ∨ e ∈ events s) by (intros e; destruct front; set_solver).
  split; cbn.
  - unfold_ints. lia.
  - intros e [-> | He]%Hin; [done|by apply Hh].
  - intros e e' He He'. apply Hin in He, He'. destruct He as [-> | He], He' as [-> | He'].
    + cbn. lia.
    + cbn. destruct (Hla _ He'). lia.
    + cbn. intros Hs. symmetry. apply Hla; [done|lia].
    + by apply Hl.
  - intros e He. apply Hin in He. destruct He as [-> | He]; cbn.
    + unfold_ints. split; [lia|done].
    + destruct (Hla _ He). unfold_ints. lia.
Qed.

Lemma remove_at_elem {A} i (l : list A) x : x ∈ remove_at i l → x ∈ l.
Proof.
  unfold remove_at. rewrite elem_of_app. intros [Hx|Hx].
  - rewrite <- (take_drop i l). set_solver.
  - rewrite <- (take_drop (S i) l). set_solver.
Qed.

Lemma chain_ok_make_room s record now :
  chain_ok s → next_sequence s < u64_max → chain_ok (make_room s record now).
Proof.
  intros Hs Hn. unfold make_room. destruct (_ <=? _)%nat; [|done].
  assert (chain_ok (with_events s (remove_at (if truncation_recorded s then 1 else 0) (events s)))) as H1.
  { apply chain_ok_sub; [done|]. intros e. apply remove_at_elem. }
  set (s1 := with_events _ _) in *. cbv zeta. set (s2 := if truncation_recorded s1 then _ else _).
  assert (chain_ok s2) as H2.
  { subst s2. destruct (truncation_recorded s1); [done|]. by apply chain_ok_push. }
  destruct (_ <=? _)%nat; [|done]. apply chain_ok_sub; [done|]. intros e. apply remove_at_elem.
Qed.

Lemma verify_from_ok n previous l :
  (∀ e, e ∈ l → entry_hash e = expected_hash e) →
  (∀ e e', e ∈ option_list previous ++ l → e' ∈ l →
     sequence e' = sequence e + 1 → prev_hash e' = entry_hash e) →
  (∀ e, e ∈ option_list previous ++ l → sequence e < u64_max) →
  verify_from n previous l = Ok tt.
Proof.
  revert n previous. induction l as [|e l IH]; intros n previous Hh Hl Hs; cbn [verify_from]; [done|].
  rewrite (proj2 (bytes_eqb_spec _ _)) by (apply Hh; set_solver). cbn [negb].
  destruct previous as [p|]; cbn [option_list] in *.
  - destruct (_ && _) eqn:Hc.
    + exfalso. apply andb_prop in Hc as [Hq Hb]. apply Z.eqb_eq in Hq.
      assert (sequence p < u64_max) by (apply Hs; set_solver).
      rewrite (Hl p e) in Hb; [|set_solver..|unfold_ints; lia].
      by rewrite (proj2 (bytes_eqb_spec _ _)) in Hb.
    + apply IH; [set_solver|intros; apply Hl; set_solver|intros; apply Hs; set_solver].
  - apply IH; [set_solver|intros; apply Hl; set_solver|intros; apply Hs; set_solver].
Qed.

Lemma chain_ok_verifies s : chain_ok s → verify_event_chain (events s) = Ok tt.
Proof.
  intros [Hn Hh Hl Hla]. apply verify_from_ok; cbn [option_list app]; [done|done|].
  intros e He. destruct (Hla e He). lia.
Qed.

(** ** Refinement: what the ring buffer retains of the log *)

Record Input := mkInput {
  in_record : DiagnosticRecord; in_marker_now : Z; in_now : Z; in_name : str; in_details : str }.

Definition record_input (s : StoreState) (i : Input) : StoreState :=
  record_clean s (in_record i) (in_marker_now i) (in_now i) (in_name i) (in_details i).
Definition record_all (s : StoreState) (l : list Input) : StoreState := fold_left record_input l s.

Definition payload (e : DiagnosticEvent) : DiagnosticRecord * Z * str * str :=
  (event_record e, elapsed e, name e, details e).
Definition in_payload (i : Input) : DiagnosticRecord * Z * str * str :=
  (in_record i, in_now i, in_name i, in_details i).

(** The retained events: the whole log, or the marker and its newest part. *)
Definition retains (s : StoreState) (log : list Input) : Prop :=
  (2 ≤ maximum_events s)%nat ∧
  if truncation_recorded s then
    (maximum_events s ≤ length log)%nat ∧
    ∃ marker rest, events s = marker :: rest ∧ name marker = lit "diagnostic.log_truncated" ∧
      map payload rest = drop (length log - (maximum_events s - 1)) (map in_payload log)
  else map payload (events s) = map in_payload log ∧ (length log ≤ maximum_events s)%nat.

Definition store_ok (s : StoreState) (log : list Input) : Prop :=
  chain_ok s ∧ retains s log ∧
  next_sequence s = 1 + Z.of_nat (length log) + (if truncation_recorded s then 1 else 0).

Lemma drop_snoc {A} k (l : list A) x : (k ≤ length l)%nat → drop k (l ++ [x]) = drop k l ++ [x].
Proof. intros. by rewrite drop_app_le. Qed.

Lemma retains_push s log record mnow i :
  retains s log →
  retains (push_event (make_room (clear_coalesced s) record mnow) false (in_record i) (in_now i)
             (in_name i) (in_details i)) (log ++ [i]).
Proof.
  intros [Hm Hr]. unfold make_room. cbn [maximum_events events truncation_recorded clear_coalesced].
  pose proof (length_map in_payload log) as Hlog.
  assert (Hlog' : length (map in_payload log) = length log) by apply length_map.
  destruct (truncation_recorded s) eqn:Ht.
  - destruct Hr as (Hlen & marker & rest & Hev & Hnm & Hpay).
    assert (Hrest : length rest = (maximum_events s - 1)%nat).
    { rewrite <- (length_map payload rest), Hpay, length_drop. lia. }
    assert (Hlen' : length (events s) = maximum_events s) by (rewrite Hev; cbn; lia).
    destruct rest as [|r0 rest]; [cbn in Hrest; lia|]. cbn in Hrest.
    rewrite (proj2 (Nat.leb_le _ _)) by lia. cbn [with_events truncation_recorded maximum_events events clear_coalesced].
    rewrite Ht. cbn [events with_events maximum_events clear_coalesced]. rewrite Hev.
    change (remove_at 1 (marker :: r0 :: rest)) with (marker :: rest).
    rewrite (proj2 (Nat.leb_gt _ _)) by (cbn; lia).
    split; [done|]. cbn. rewrite Ht. cbn. rewrite length_app; cbn. split; [lia|].
    exists marker, (rest ++ [mkEvent (next_sequence s) (in_now i) (in_record i) (in_name i)
      (in_details i) (last_entry_hash s) (compute_entry_hash (last_entry_hash s)
        (next_sequence s) (in_now i) (in_name i) (in_details i))]).
    split_and!; [done|done|]. rewrite !map_app. cbn [map]. rewrite drop_snoc by (rewrite Hlog'; lia). f_equal. cbn [map] in Hpay.
    replace (length log + 1 - (maximum_events s - 1))%nat
      with (length log - (maximum_events s - 1) + 1)%nat by lia.
    by rewrite <- drop_drop, <- Hpay.
  - destruct Hr as [Hpay Hlen].
    assert (Hev : length (events s) = length log) by by rewrite <- (length_map payload), Hpay.
    destruct (Nat.leb_spec (maximum_events s) (length (events s))) as [Hfull|Hroom].
    + destruct (events s) as [|e0 [|e1 rest]] eqn:He; cbn in Hfull, Hev; try lia.
      cbn [with_events truncation_recorded maximum_events events clear_coalesced].
      rewrite Ht. cbn [push_event with_events events maximum_events clear_coalesced].
      change (remove_at 0 (e0 :: e1 :: rest)) with (e1 :: rest).
      rewrite (proj2 (Nat.leb_le _ _)) by (cbn; lia).
      change (remove_at 1 (?a :: e1 :: rest)) with (a :: rest).
      split; [done|]. cbn. rewrite orb_true_r. cbn. rewrite length_app; cbn. split; [lia|].
      eexists _, _. split_and!; [reflexivity|done|]. rewrite !map_app. cbn [map].
      replace (length log + 1 - (maximum_events s - 1))%nat with 2%nat by lia.
      rewrite drop_snoc by (rewrite Hlog'; lia). by rewrite <- Hpay.
    + split; [done|]. cbn. rewrite Ht. cbn. rewrite !map_app, length_app, Hpay. cbn. split; [done|lia].
Qed.

Lemma make_room_counters s record now :
  chain_ok s → next_sequence s < u64_max →
  let s' := make_room s record now in
  next_sequence s' + (if truncation_recorded s then 1 else 0) =
    next_sequence s + (if truncation_recorded s' then 1 else 0).
Proof.
  intros [Hn _ _ _] Hm. unfold make_room. cbv zeta.
  destruct (_ <=? _)%nat; [|lia]. cbn [with_events truncation_recorded].
  destruct (truncation_recorded s) eqn:Ht; destruct (_ <=? _)%nat; cbn; rewrite ?Ht; cbn;
    rewrite ?orb_true_r; unfold_ints; lia.
Qed.

Lemma store_ok_record s log i :
  store_ok s log → in_name i ≠ LAYOUT_ERROR → Z.of_nat (length log) + 4 ≤ u64_max →
  store_ok (record_input s i) (log ++ [i]).
Proof.
  intros (Hc & Hr & Hn) Hname Hlen. unfold record_input, record_clean.
  replace (str_eqb (in_name i) LAYOUT_ERROR) with false
    by (symmetry; unfold str_eqb; by apply bool_decide_eq_false).
  assert (Hnext : next_sequence s < u64_max - 1) by (destruct (truncation_recorded s); lia).
  pose proof (chain_ok_clear s Hc) as Hcl.
  pose proof (chain_ok_make_room (clear_coalesced s) (in_record i) (in_marker_now i) Hcl
    ltac:(cbn; lia)) as Hroom.
  pose proof (make_room_counters (clear_coalesced s) (in_record i) (in_marker_now i) Hcl
    ltac:(cbn; lia)) as Hcount. cbn [clear_coalesced truncation_recorded next_sequence] in Hcount.
  set (s' := make_room _ _ _) in *. assert (next_sequence s' < u64_max).
  { destruct (truncation_recorded s), (truncation_recorded s'); lia. }
  split; [by apply chain_ok_push|]. split; [by apply retains_push|].
  cbn. rewrite orb_false_r, length_app. cbn.
  destruct (truncation_recorded s), (truncation_recorded s'); unfold_ints; lia.
Qed.

Lemma store_ok_new maximum : store_ok (store_new maximum) [].
Proof.
  split; [|split; [|done]].
  - split; cbn; [unfold_ints; lia|set_solver..].
  - split; cbn; [lia|split; [done|lia]].
Qed.

Lemma store_ok_all s log l :
  store_ok s log → Forall (λ i, in_name i ≠ LAYOUT_ERROR) l →
  Z.of_nat (length log + length l) + 4 ≤ u64_max →
  store_ok (record_all s l) (log ++ l).
Proof.
  intros Hs Hl. revert s log Hs. induction Hl as [|i l Hi _ IH]; intros s log Hs Hlen.
  - by rewrite app_nil_r.
  - cbn [record_all fold_left length] in *. replace (log ++ i :: l) with ((log ++ [i]) ++ l)
      by by rewrite <- app_assoc.
    apply IH; [apply store_ok_record; [done|done|lia]|rewrite length_app; cbn; lia].
Qed.

Lemma record_all_maximum s l : maximum_events (record_all s l) = maximum_events s.
Proof.
  revert s. induction l as [|i l IH]; intros s; cbn; [done|]. unfold record_all in IH. rewrite IH.
  unfold record_input, record_clean, make_room, coalesce_repeated_layout_event.
  repeat case_match; simplify_eq/=; done.
Qed.


(** ** Coalescing *)

Lemma utf8_encode_inj a b : scalars a → scalars b → utf8_encode a = utf8_encode b → a = b.
Proof.
  intros Ha Hb He. apply (f_equal utf8_decode) in He. rewrite !utf8_decode_encode in He by done.
  by injection He.
Qed.

Lemma verify_from_app n previous a e :
  verify_from n previous a = Ok tt → entry_hash e ≠ expected_hash e →
  verify_from n previous (a ++ [e]) = Err ((n + length a)%nat, ChainError.EntryHashMismatch).
Proof.
  intros Ha He. revert n previous Ha. induction a as [|x a IH]; intros n previous Ha; cbn in Ha |- *.
  - destruct (bytes_eqb _ _) eqn:Hb; [by apply bytes_eqb_spec in Hb|]. cbn. by rewrite Nat.add_0_r.
  - destruct (negb _); [done|]. destruct (match previous with Some _ => _ | None => _ end); [done|].
    rewrite IH by done. by rewrite Nat.add_succ_r.
Qed.

(** A repeated layout error breaks the hash chain.  Folding the repeat into
    the last event rewrites its details and keeps its hash, so the next
    verification of an untampered store reports a mismatch at that event. *)
Theorem coalescing_breaks_chain s older event record mnow now :
  (∀ a b, sha256 a = sha256 b → a = b) →
  chain_ok s → reverse (events s) = event :: older → name event = LAYOUT_ERROR →
  scalars (details event) → str_len (details event) ≤ 140 →
  rsplit_once_str (details event) REPEAT = None →
  verify_event_chain (events s) = Ok tt ∧
  verify_event_chain (events (record_clean s record mnow now LAYOUT_ERROR (details event)))
    = Err (length older, ChainError.EntryHashMismatch).
Proof.
  intros Hinj Hc Hrev Hname Hsc Hlen Hsplit. split; [by apply chain_ok_verifies|].
  assert (Hev : events s = reverse older ++ [event]).
  { by rewrite <- (reverse_involutive (events s)), Hrev, reverse_cons. }
  unfold record_clean. rewrite (proj2 (str_eqb_spec _ _)) by done.
  unfold coalesce_repeated_layout_event. rewrite Hrev, Hname.
  rewrite (proj2 (str_eqb_spec _ _)) by done. cbn [negb]. rewrite Hsplit.
  rewrite (proj2 (str_eqb_spec _ _)) by done. cbn [negb orb events].
  change (Z.min (sat_add 32 1 1) 999999) with 2. change (show_u 2) with (lit "2").
  assert (Htr : truncate_utf8 (details event ++ REPEAT ++ lit "2") MAX_FIELD_LENGTH
    = details event ++ REPEAT ++ lit "2").
  { unfold truncate_utf8. rewrite str_len_app. change (str_len (REPEAT ++ lit "2")) with 15.
    unfold MAX_FIELD_LENGTH. by rewrite (proj2 (Z.leb_le _ _)) by lia. }
  rewrite Htr. unfold verify_event_chain.
  rewrite <- (length_reverse older), <- (Nat.add_0_l (length (reverse older))).
  apply verify_from_app.
  - destruct Hc as [Hn Hh Hl Hla]. apply verify_from_ok; cbn [option_list app].
    + intros e He. apply Hh. rewrite Hev. set_solver.
    + intros e e' He He'. apply Hl; rewrite Hev; set_solver.
    + intros e He. destruct (Hla e); [rewrite Hev; set_solver|lia].
  - cbn [entry_hash]. unfold expected_hash, compute_entry_hash.
    cbn [entry_hash prev_hash sequence elapsed name details]. rewrite (chain_hash s Hc event)
      by (rewrite Hev; set_solver).
    unfold expected_hash, compute_entry_hash. rewrite Hname. intros Heq%Hinj.
    do 4 apply app_inv_head in Heq. apply utf8_encode_inj in Heq; [|done|].
    + rewrite <- (app_nil_r (details event)) in Heq at 1. by apply app_inv_head in Heq.
    + apply Forall_app. split; [done|]. by repeat constructor.
Qed.

End StoreProofs.

(** ** Witnesses, with the identity for the hash *)

Definition sample_record : DiagnosticRecord :=
  mkRecord (mkContext 1 None 1) DiagnosticPhase.Observe DiagnosticSource.Internal
    DiagnosticOutcome.Completed native_default.
Definition sample_input (nm : string) (n : Z) : Input :=
  mkInput sample_record n n (lit nm) (show_u n).


Lemma coalescing_breaks_chain_witness :
  let s := @record_input id (@store_new id 8) (sample_input "diagnostic.layout.error" 5) in
  @verify_event_chain id (events (@record_clean id s sample_record 6 6 LAYOUT_ERROR (lit "5")))
    = Err (0%nat, ChainError.EntryHashMismatch).
Proof.
  intros s.
  apply (@coalescing_breaks_chain id s [] (nth 0 (events s) (mkEvent 0 0 sample_record [] [] [] []))
           sample_record 6 6); try reflexivity.
  - done.
  - exact (@chain_ok_push id (@store_new id 8) false sample_record 5 LAYOUT_ERROR (lit "5")
             (proj1 (@store_ok_new id 8)) eq_refl).
  - by repeat constructor.
  - done.
Defined.
