(* ===== verification/Grid.v ===== *)
(** * Grid: row selection and report formats of the diagnostics

    Models the second part of [crates/tick-diagnostics/src/lib.rs]: the display
    limit and row range parsers, the selections over a snapshot, the grid rows,
    and the TSV, CSV and single-line renderings.  [usize] is a 64-bit [Z]. *)
From S2P Require Import Prelude Text Core Privacy Diagnostics.

Definition REPORT_COLUMNS : list str :=
  [lit "Row"; lit "Sequence"; lit "Elapsed"; lit "Operation"; lit "Parent"; lit "Correlation";
   lit "Phase"; lit "Source"; lit "Outcome"; lit "Event"; lit "Details"].

Definition MAX_TSV_ROWS : nat := HARD_MAX_EVENTS.
Definition MAX_TSV_BYTES : Z :=
  Z.of_nat (length REPORT_COLUMNS) * (MAX_FIELD_LENGTH + 3) * Z.of_nat MAX_TSV_ROWS
  + Z.of_nat MAX_TSV_ROWS * 2 + 256.
Definition MAX_CSV_ROWS : nat := MAX_TSV_ROWS.
Definition MAX_CSV_BYTES : Z :=
  Z.of_nat (length REPORT_COLUMNS) * (MAX_FIELD_LENGTH * 2 + 3) * Z.of_nat MAX_CSV_ROWS
  + Z.of_nat MAX_CSV_ROWS * 2 + 256.

Definition snapshot_is_truncated (evs : list DiagnosticEvent) : bool :=
  match evs with
  | [] => false
  | e :: _ => str_eqb (name e) (lit "diagnostic.log_truncated")
  end.

Definition retention_summary (retained_rows retention_cap : Z) (truncated : bool) : str :=
  lit "retained_events=" ++ show_u retained_rows ++ lit " retention_cap=" ++
  show_u retention_cap ++ lit " truncated=" ++ show_bool truncated.

(** ** The display limit *)

Module DisplayLimitError.
Inductive DisplayLimitError := Empty | Negative | Zero | Malformed | OutOfRange | TooLong.
End DisplayLimitError.
Abbreviation DisplayLimitError := DisplayLimitError.DisplayLimitError.

Definition display_limit_error_display (e : DisplayLimitError) : str :=
  match e with
  | DisplayLimitError.Empty => lit "enter a positive row count"
  | DisplayLimitError.Negative => lit "negative rows are not allowed"
  | DisplayLimitError.Zero => lit "row count must be positive"
  | DisplayLimitError.Malformed => lit "use a positive whole number"
  | DisplayLimitError.OutOfRange =>
      lit "row count must be at most " ++ show_u (Z.of_nat HARD_MAX_EVENTS)
  | DisplayLimitError.TooLong => lit "the row count is too long"
  end.

Definition is_empty (s : str) : bool := match s with [] => true | _ => false end.

Definition parse_display_limit (input0 : str) : result DisplayLimitError Z :=
  let input := trim input0 in
  if is_empty input then Err DisplayLimitError.Empty
  else if 64 <? str_len input then Err DisplayLimitError.TooLong
  else if starts_with input (lit "-") then Err DisplayLimitError.Negative
  else if negb (forallb is_ascii_digit input) then Err DisplayLimitError.Malformed
  else match parse_u 64 input with
  | None => Err DisplayLimitError.Malformed
  | Some limit =>
      if limit =? 0 then Err DisplayLimitError.Zero
      else if Z.of_nat HARD_MAX_EVENTS <? limit then Err DisplayLimitError.OutOfRange
      else Ok limit
  end.

(** ** Row selections *)

Record RowSelection := mkRows { sel_start : Z; sel_end : Z }.
#[export] Instance RowSelection_eq_dec : EqDecision RowSelection.
Proof. solve_decision. Defined.

Definition select_all (retained_rows : Z) : RowSelection :=
  if retained_rows =? 0 then mkRows 0 0 else mkRows 1 retained_rows.

Definition latest_row_selection (display_limit retained_rows : Z) : RowSelection :=
  if retained_rows =? 0 then select_all 0
  else
    let visible_rows :=
      Z.min (Z.max 1 (Z.min display_limit (Z.of_nat HARD_MAX_EVENTS))) retained_rows in
    mkRows (sat_add 64 (sat_sub retained_rows visible_rows) 1) retained_rows.

Definition row_count (s : RowSelection) : Z :=
  if (sel_start s =? 0) || (sel_end s <? sel_start s) then 0
  else sat_add 64 (sat_sub (sel_end s) (sel_start s)) 1.
Definition selection_is_empty (s : RowSelection) : bool := row_count s =? 0.
Definition is_all (s : RowSelection) (retained_rows : Z) : bool :=
  bool_decide (s = select_all retained_rows).

Module RowSelectionError.
Inductive RowSelectionError :=
| Malformed | Negative | Zero | Reversed | OutOfRange (retained_rows : Z) | TooLong.
End RowSelectionError.
Abbreviation RowSelectionError := RowSelectionError.RowSelectionError.

Definition row_selection_error_display (e : RowSelectionError) : str :=
  match e with
  | RowSelectionError.Malformed => lit "use a row number or start-end"
  | RowSelectionError.Negative => lit "negative rows are not allowed"
  | RowSelectionError.Zero => lit "row numbers start at 1"
  | RowSelectionError.Reversed => lit "the range must be in ascending order"
  | RowSelectionError.OutOfRange n => lit "row must be between 1 and " ++ show_u n
  | RowSelectionError.TooLong => lit "the range is too long"
  end.

Definition parse_row_number (value0 : str) : result RowSelectionError Z :=
  let value := trim value0 in
  if is_empty value then Err RowSelectionError.Malformed
  else if starts_with value (lit "-") then Err RowSelectionError.Negative
  else if str_eqb value (lit "0") then Err RowSelectionError.Zero
  else if negb (forallb is_ascii_digit value) then Err RowSelectionError.Malformed
  else match parse_u 64 value with
  | None => Err RowSelectionError.Malformed
  | Some number => if number =? 0 then Err RowSelectionError.Zero else Ok number
  end.

Definition parse_row_selection (input0 : str) (retained_rows : Z)
    : result RowSelectionError RowSelection :=
  let input := trim input0 in
  if 64 <? str_len input then Err RowSelectionError.TooLong
  else if is_empty input || str_eq_ignore_case input (lit "all") then Ok (select_all retained_rows)
  else if starts_with input (lit "-") then Err RowSelectionError.Negative
  else match split_char 45 input with
  | [] => Err RowSelectionError.Malformed
  | [first] =>
      row ← parse_row_number first;
      if retained_rows <? row then Err (RowSelectionError.OutOfRange retained_rows)
      else Ok (mkRows row row)
  | [first; second] =>
      start ← parse_row_number first;
      stop ← parse_row_number second;
      if stop <? start then Err RowSelectionError.Reversed
      else if (retained_rows <? start) || (retained_rows <? stop)
      then Err (RowSelectionError.OutOfRange retained_rows)
      else Ok (mkRows start stop)
  | _ => Err RowSelectionError.Malformed
  end.

(** ** Rows *)

Definition native_details (n : NativeOutcome) : str :=
  lit "ntstatus=" ++ show_opt show_i (ntstatus n) ++
  lit " win32_last_error=" ++ show_opt show_u (win32_last_error n) ++
  lit " requested_hns=" ++ show_opt show_u (requested_hns n) ++
  lit " selected_hns=" ++ show_opt show_u (selected_hns n) ++
  lit " effective_hns=" ++ show_opt show_u (effective_hns n).

Definition as_millis (nanos : Z) : Z := nanos / 1000000.

(** A [DiagnosticGridRow] is its list of cells. *)
Definition diagnostic_grid_row (row_position : Z) (e : DiagnosticEvent) : list str :=
  let r := event_record e in
  let dt := if is_empty (details e) then native_details (native r)
            else details e ++ lit " " ++ native_details (native r) in
  [show_u row_position; show_u (sequence e);
   lit "+" ++ show_u (as_millis (elapsed e)) ++ lit "ms";
   show_u (operation_id (context r)); show_opt show_u (parent_operation_id (context r));
   show_u (correlation_id (context r)); phase_label (phase r); source_label (source r);
   outcome_label (outcome r); name e; truncate_utf8 dt MAX_FIELD_LENGTH].

Definition enumerate {A} (l : list A) : list (Z * A) := zip (seqZ 0 (Z.of_nat (length l))) l.

(** [.skip(start - 1).take(row_count)] of an enumerated snapshot. *)
Definition visible {A} (l : list A) (s : RowSelection) : list A :=
  take (Z.to_nat (row_count s)) (drop (Z.to_nat (sat_sub (sel_start s) 1)) l).

Definition diagnostic_grid_rows (evs : list DiagnosticEvent) (s : RowSelection) : list (list str) :=
  if selection_is_empty s then []
  else map (λ '(index, e), diagnostic_grid_row (sat_add 64 index 1) e) (visible (enumerate evs) s).

Definition mem_z (z : Z) (l : list Z) : bool := existsb (Z.eqb z) l.

Definition diagnostic_grid_rows_for_sequences (evs : list DiagnosticEvent) (sequences : list Z)
    : list (list str) :=
  map (λ '(index, e), diagnostic_grid_row (sat_add 64 index 1) e)
    (List.filter (λ '(_, e), mem_z (sequence e) sequences) (enumerate evs)).

Definition selected_event_sequences (evs : list DiagnosticEvent) (s : RowSelection) : list Z :=
  if selection_is_empty s then [] else map sequence (visible evs s).

(** [sort_unstable] and [dedup] of positions. *)
Fixpoint insert_z (z : Z) (l : list Z) : list Z :=
  match l with
  | [] => [z]
  | h :: t => if z <=? h then z :: l else h :: insert_z z t
  end.
Definition sort_z (l : list Z) : list Z := foldr insert_z [] l.
Fixpoint dedup (l : list Z) : list Z :=
  match l with
  | a :: ((b :: _) as rest) => if a =? b then dedup rest else a :: dedup rest
  | _ => l
  end.

Definition selected_event_sequences_for_positions (evs : list DiagnosticEvent)
    (visible_selection : RowSelection) (positions : list Z) : list Z :=
  omap (λ position,
    let row := sat_add 64 (sel_start visible_selection) position in
    if (0 <? row) && (row <=? sel_end visible_selection)
    then sequence <$> evs !! Z.to_nat (sat_sub row 1) else None)
  (dedup (sort_z positions)).

Definition selected_event_sequences_for_sequences (evs : list DiagnosticEvent) (sequences : list Z)
    : list Z :=
  map sequence (List.filter (λ e, mem_z (sequence e) sequences) evs).

Definition visible_positions_for_sequences (evs : list DiagnosticEvent)
    (visible_selection : RowSelection) (sequences : list Z) : list Z :=
  if selection_is_empty visible_selection then []
  else omap (λ '(index, e),
    if mem_z (sequence e) sequences
    then Some (sat_sub index (sat_sub (sel_start visible_selection) 1)) else None)
    (visible (enumerate evs) visible_selection).

Fixpoint position_of (sequence0 : Z) (index : Z) (evs : list DiagnosticEvent) : option Z :=
  match evs with
  | [] => None
  | e :: rest => if sequence e =? sequence0 then Some index
                 else position_of sequence0 (index + 1) rest
  end.

Fixpoint consecutive (l : list Z) : bool :=
  match l with
  | a :: ((b :: _) as rest) => (b =? sat_add 64 a 1) && consecutive rest
  | _ => true
  end.

Definition row_selection_for_sequences (evs : list DiagnosticEvent) (sequences : list Z)
    : option RowSelection :=
  match sequences with
  | [] => None
  | _ =>
      positions ← mapM (λ z, (λ i, sat_add 64 i 1) <$> position_of z 0 evs) sequences;
      match head positions, last positions with
      | Some first, Some lst =>
          if consecutive positions then Some (mkRows first lst) else None
      | _, _ => None
      end
  end.

(** ** Reports *)

Definition CRLF : str := [13; 10].

Definition cell (row : list str) (index : nat) : str := default [] (row !! index).

Definition report_line (sep : str) (f : str → str) (row : list str) : str :=
  join sep (map (λ index, f (cell row index)) (seq 0 (length REPORT_COLUMNS))) ++ CRLF.

Definition format_tsv (rows : list (list str)) : str :=
  join [9] REPORT_COLUMNS ++ CRLF ++
  concat (map (report_line [9] sanitize) (take MAX_TSV_ROWS rows)).

(** [char::is_alphabetic] is a Unicode table of the standard library. *)
Class UnicodeAlphabetic := char_is_alphabetic : Z → bool.

Definition needs_formula_neutralization `{UnicodeAlphabetic} (field : str) : bool :=
  match trim_start_matches is_whitespace field with
  | [] => false
  | c :: rest =>
      (c =? 61) || (c =? 64) ||
      (((c =? 43) || (c =? 45)) && match rest with d :: _ => char_is_alphabetic d | [] => false end)
  end.

Definition csv_special (c : Z) : bool := (c =? 44) || (c =? 34) || (c =? 10) || (c =? 13).

Definition csv_field `{UnicodeAlphabetic} (cell0 : str) : str :=
  let field := truncate_utf8 cell0 MAX_FIELD_LENGTH in
  let neutral := needs_formula_neutralization field in
  if negb (existsb csv_special field || neutral) then field
  else [34] ++ (if neutral then [39] else []) ++
       flat_map (λ c, if c =? 34 then [34; 34] else [c]) field ++ [34].

Definition format_csv `{UnicodeAlphabetic} (rows : list (list str)) : str :=
  join [44] REPORT_COLUMNS ++ CRLF ++
  concat (map (report_line [44] csv_field) (take MAX_CSV_ROWS rows)).

Definition pad_left (k : nat) (s : str) : str := replicate (k - length s) 32 ++ s.

Definition format_event (e : DiagnosticEvent) : str :=
  let r := event_record e in
  let n := native r in
  truncate_utf8
    (lit "#" ++ pad_zero 6 (show_u (sequence e)) ++
     lit " +" ++ pad_left 8 (show_u (as_millis (elapsed e))) ++ lit "ms op=" ++
     show_u (operation_id (context r)) ++ lit " parent=" ++
     show_opt show_u (parent_operation_id (context r)) ++ lit " corr=" ++
     show_u (correlation_id (context r)) ++ lit " phase=" ++ phase_label (phase r) ++
     lit " source=" ++ source_label (source r) ++ lit " outcome=" ++ outcome_label (outcome r) ++
     lit " native_ntstatus=" ++ show_opt show_i (ntstatus n) ++
     lit " native_win32=" ++ show_opt show_u (win32_last_error n) ++
     lit " requested_hns=" ++ show_opt show_u (requested_hns n) ++
     lit " selected_hns=" ++ show_opt show_u (selected_hns n) ++
     lit " effective_hns=" ++ show_opt show_u (effective_hns n) ++ lit " " ++ name e ++
     (if is_empty (details e) then [] else lit " " ++ details e))
    MAX_RENDERED_EVENT_BYTES.

(** ** A CSV reader (RFC 4180), the specification of [format_csv] *)

Fixpoint read_quoted (s : str) : option (str * str) :=
  match s with
  | [] => None
  | c :: t =>
      if c =? 34 then
        match t with
        | d :: t' => if d =? 34 then (λ '(f, r), (34 :: f, r)) <$> read_quoted t' else Some ([], t)
        | [] => Some ([], [])
        end
      else (λ '(f, r), (c :: f, r)) <$> read_quoted t
  end.
Fixpoint read_plain (s : str) : str * str :=
  match s with
  | [] => ([], [])
  | c :: t => if csv_special c then ([], s) else let '(f, r) := read_plain t in (c :: f, r)
  end.
Definition read_field (s : str) : option (str * str) :=
  match s with
  | c :: t => if c =? 34 then read_quoted t else Some (read_plain s)
  | [] => Some ([], [])
  end.
(** [n] fields separated by commas and ended by a line break. *)
Fixpoint read_record (n : nat) (s : str) : option (list str * str) :=
  match n with
  | O => None
  | S n' =>
      '(f, rest) ← read_field s;
      match rest with
      | 44 :: rest' => '(fs, r) ← read_record n' rest'; Some (f :: fs, r)
      | 13 :: 10 :: rest' => Some ([f], rest')
      | _ => None
      end
  end.
Fixpoint read_records (rows n : nat) (s : str) : option (list (list str)) :=
  match rows with
  | O => match s with [] => Some [] | _ => None end
  | S rows' => '(fs, rest) ← read_record n s; cons fs <$> read_records rows' n rest
  end.

Section Csv.
Context `{UnicodeAlphabetic}.

(** What a reader gets for a cell: the bounded cell, marked as text when it
    looks like a formula. *)
Definition csv_value (cell0 : str) : str :=
  let field := truncate_utf8 cell0 MAX_FIELD_LENGTH in
  (if needs_formula_neutralization field then [39] else []) ++ field.

Lemma read_quoted_spec f rest :
  match rest with 34 :: _ => False | _ => True end →
  read_quoted (flat_map (λ c, if c =? 34 then [34; 34] else [c]) f ++ 34 :: rest) = Some (f, rest).
Proof.
  intros Hr. induction f as [|c f IH]; cbn [flat_map app].
  - cbn. destruct rest as [|d rest]; [done|]. destruct (d =? 34) eqn:E; [|done].
    apply Z.eqb_eq in E. by subst d.
  - destruct (c =? 34) eqn:E; cbn [app read_quoted].
    + apply Z.eqb_eq in E. subst c. cbn. by rewrite IH.
    + rewrite E, IH. done.
Qed.

Lemma read_plain_spec f rest :
  existsb csv_special f = false → match rest with c :: _ => csv_special c = true | [] => True end →
  read_plain (f ++ rest) = (f, rest).
Proof.
  intros Hf Hr. induction f as [|c f IH]; cbn [app read_plain].
  - destruct rest as [|d rest]; [done|]. cbn. by rewrite Hr.
  - cbn in Hf. apply orb_false_iff in Hf as [Hc Hf]. rewrite Hc. by rewrite (IH Hf).
Qed.

Definition after_field (rest : str) : Prop :=
  match rest with c :: _ => c = 44 ∨ c = 13 | [] => False end.

Lemma read_field_plain f rest :
  existsb csv_special f = false → after_field rest → read_field (f ++ rest) = Some (f, rest).
Proof.
  intros Hf Hr. destruct rest as [|d rest]; [done|].
  pose proof (read_plain_spec f (d :: rest) Hf) as Hp.
  rewrite <- Hp by (destruct Hr; by subst d). unfold read_field.
  destruct f as [|c f]; cbn [app].
  - destruct (d =? 34) eqn:E; [|done]. cbn in Hr. lia.
  - cbn in Hf. apply orb_false_iff in Hf as [Hc _]. destruct (c =? 34) eqn:E; [|done].
    unfold csv_special in Hc. rewrite E in Hc. lia.
Qed.

Lemma read_csv_field c rest :
  after_field rest → read_field (csv_field c ++ rest) = Some (csv_value c, rest).
Proof.
  intros Hr. unfold csv_field, csv_value.
  set (f := truncate_utf8 c MAX_FIELD_LENGTH).
  destruct (needs_formula_neutralization f) eqn:Hn; rewrite ?orb_true_r, ?orb_false_r; cbn [negb].
  - rewrite <- !app_assoc. cbn [app read_field]. cbn [read_quoted].
    change (34 =? 34) with true. change (39 =? 34) with false. cbn [read_quoted].
    rewrite read_quoted_spec; [done|]. destruct rest as [|d rest]; [done|].
    destruct Hr; by subst d.
  - destruct (existsb csv_special f) eqn:Hs; cbn [negb].
    + rewrite <- !app_assoc. cbn [app read_field]. change (34 =? 34) with true. cbv iota.
      rewrite read_quoted_spec; [done|]. destruct rest as [|d rest]; [done|]. destruct Hr; by subst d.
    + by apply read_field_plain.
Qed.

Lemma read_record_join {A} (enc val : A → str) (l : list A) n rest :
  (∀ a r, after_field r → a ∈ l → read_field (enc a ++ r) = Some (val a, r)) →
  l ≠ [] → (length l ≤ n)%nat →
  read_record n (join [44] (map enc l) ++ CRLF ++ rest) = Some (map val l, rest).
Proof.
  revert n. induction l as [|a l IH]; intros n Hf Hne Hn; [done|].
  destruct n as [|n]; [cbn in Hn; lia|]. destruct l as [|b l].
  - cbn [map join read_record]. rewrite Hf; [|by right|set_solver]. done.
  - change (join [44] (map enc (a :: b :: l)) ++ CRLF ++ rest)
      with ((enc a ++ [44] ++ join [44] (map enc (b :: l))) ++ CRLF ++ rest).
    rewrite <- !app_assoc. cbn [read_record].
    rewrite Hf; [|by left|set_solver]. cbn [mbind option_bind app].
    rewrite IH; [done|intros; apply Hf; [done|set_solver]|done|cbn in *; lia].
Qed.

Lemma csv_value_safe c : needs_formula_neutralization (csv_value c) = false.
Proof.
  unfold csv_value. set (f := truncate_utf8 c MAX_FIELD_LENGTH).
  destruct (needs_formula_neutralization f) eqn:Hn; [|done]. cbn. done.
Qed.

(** A CSV report reads back.  A reader that follows RFC 4180 recovers from
    [format_csv] exactly the column names and, for each of the first
    [MAX_CSV_ROWS] rows, its cells (bounded to [MAX_FIELD_LENGTH] bytes, a cell
    that looks like a formula marked as text); no recovered cell starts a
    spreadsheet formula. *)
Theorem format_csv_reads_back rows :
  let shown := map (λ row, map (λ i, csv_value (cell row i)) (seq 0 11)) (take MAX_CSV_ROWS rows) in
  read_records (S (length shown)) 11 (format_csv rows) = Some (REPORT_COLUMNS :: shown) ∧
  ∀ row c, row ∈ shown → c ∈ row → needs_formula_neutralization c = false.
Proof.
  intros shown. split.
  - unfold format_csv. cbn [read_records].
    rewrite <- (map_id REPORT_COLUMNS) at 1.
    rewrite (read_record_join id id); [|..|done|done].
    + rewrite map_id. cbn [mbind option_bind]. subst shown.
      induction (take MAX_CSV_ROWS rows) as [|row l IH]; [done|].
      cbn [map concat length read_records]. unfold report_line at 1. rewrite <- app_assoc.
      change (length REPORT_COLUMNS) with 11%nat.
      rewrite (read_record_join (λ i, csv_field (cell row i)) (λ i, csv_value (cell row i)));
        [|intros; by apply read_csv_field|done|done].
      cbn [mbind option_bind]. destruct (read_records _ _ _) eqn:E in IH; [|done].
      rewrite E. cbn in IH |- *. congruence.
    + intros a r Hr Ha. apply read_field_plain; [|done].
      assert (Forall (λ c, existsb csv_special c = false) REPORT_COLUMNS) as Hall
        by (repeat constructor).
      rewrite Forall_forall in Hall. by apply Hall.
  - intros row c Hrow Hc. subst shown. apply list_elem_of_fmap in Hrow as (r & -> & _).
    apply list_elem_of_fmap in Hc as (i & -> & _). apply csv_value_safe.
Qed.

End Csv.

(** ** Row ranges *)

Lemma parse_row_number_ok s n : parse_row_number s = Ok n → 1 ≤ n.
Proof.
  unfold parse_row_number. destruct_ifs; try done. destruct (parse_u 64 (trim s)) as [x|] eqn:Hp; [|done].
  apply parse_u_bound in Hp. destruct (x =? 0) eqn:Hx; [done|]. intros [= <-]. reflect_bools. lia.
Qed.

Lemma parse_row_number_show n : 1 ≤ n < 2 ^ 64 → parse_row_number (show_u n) = Ok n.
Proof.
  intros Hn. unfold parse_row_number.
  pose proof (show_u_digits n ltac:(lia)) as Hd.
  assert (trim (show_u n) = show_u n) as -> by (apply trim_matches_none; auto with tick).
  pose proof (parse_show 64 n ltac:(lia)) as Hp.
  destruct (show_u_cons n) as (c & t & Hs). rewrite Hs in *. cbn [is_empty].
  assert (Hc : is_ascii_digit c = true) by by inversion Hd.
  replace (starts_with (c :: t) (lit "-")) with false.
  2:{ change (lit "-") with [45]. cbn [starts_with]. symmetry. apply andb_false_iff. left.
      unfold is_ascii_digit in Hc. lia. }
  destruct (str_eqb (c :: t) (lit "0")) eqn:E0.
  { apply str_eqb_spec in E0. rewrite E0 in Hp. vm_compute in Hp. simplify_eq. lia. }
  rewrite (digits_forallb _ Hd). cbn [negb]. rewrite Hp.
  by replace (n =? 0) with false by lia.
Qed.

Lemma range_text a b :
  0 ≤ a < 2 ^ 64 → 0 ≤ b < 2 ^ 64 →
  let input := show_u a ++ lit "-" ++ show_u b in
  trim input = input ∧ str_len input ≤ 64.
Proof.
  intros Ha Hb. cbv zeta. pose proof (show_u_digits a ltac:(lia)). pose proof (show_u_digits b ltac:(lia)).
  split.
  - apply trim_matches_none. rewrite !Forall_app. split_and!; auto with tick. by repeat constructor.
  - rewrite !str_len_app, (digits_str_len (show_u a)), (digits_str_len (show_u b)) by done. change (str_len (lit "-")) with 1.
    pose proof (show_u_length a 19 ltac:(change (10 ^ Z.of_nat 20) with (10^20); lia)). pose proof (show_u_length b 19 ltac:(change (10 ^ Z.of_nat 20) with (10^20); lia)). lia.
Qed.

Lemma digit_head s t :
  Forall (λ d, is_ascii_digit d = true) s → s ≠ [] →
  is_empty (s ++ t) = false ∧ starts_with (s ++ t) (lit "-") = false ∧
  str_eq_ignore_case (s ++ t) (lit "all") = false.
Proof.
  intros Hd Hs. destruct Hd as [|c s Hc Hd]; [done|]. split_and!; [done| |].
  - change (lit "-") with [45]. cbn [starts_with]. apply andb_false_iff. left. unfold is_ascii_digit in Hc. lia.
  - unfold str_eq_ignore_case, str_eqb. apply bool_decide_eq_false.
    change (lowercase (lit "all")) with [97; 108; 108]. cbn [app lowercase map].
    intros [= E _]. unfold to_ascii_lower, is_ascii_upper, is_ascii_digit in *. destruct_ifs; lia.
Qed.

Lemma parse_range a b n :
  1 ≤ a ≤ b → b ≤ n → n < 2 ^ 64 →
  parse_row_selection (show_u a ++ lit "-" ++ show_u b) n = Ok (mkRows a b).
Proof.
  intros Ha Hb Hn. unfold parse_row_selection.
  destruct (range_text a b) as [-> Hl]; [lia|lia|]. rewrite (proj2 (Z.ltb_ge _ _)) by done.
  pose proof (show_u_digits a ltac:(lia)) as Hda.
  assert (Hne : show_u a ≠ []) by (destruct (show_u_cons a) as (? & ? & ->); done).
  destruct (digit_head (show_u a) (lit "-" ++ show_u b) Hda Hne) as (-> & -> & ->). cbn [orb].
  change (lit "-" ++ show_u b) with (45 :: show_u b).
  rewrite split_char_app, split_char_none by (apply digits_no; auto with tick lia; done).
  rewrite !parse_row_number_show by lia. cbn [mbind result_bind].
  rewrite !(proj2 (Z.ltb_ge _ _)) by lia. done.
Qed.

Lemma parse_single a n :
  1 ≤ a ≤ n → n < 2 ^ 64 → parse_row_selection (show_u a) n = Ok (mkRows a a).
Proof.
  intros Ha Hn. unfold parse_row_selection. pose proof (show_u_digits a ltac:(lia)) as Hda.
  assert (trim (show_u a) = show_u a) as -> by (apply trim_matches_none; auto with tick).
  rewrite digits_str_len by done. pose proof (show_u_length a 19 ltac:(change (10 ^ Z.of_nat 20) with (10 ^ 20); lia)).
  rewrite (proj2 (Z.ltb_ge _ _)) by lia.
  assert (Hne : show_u a ≠ []) by (destruct (show_u_cons a) as (? & ? & ->); done).
  destruct (digit_head (show_u a) [] Hda Hne) as (H1 & H2 & H3). rewrite app_nil_r in *.
  rewrite H1, H2, H3. cbn [orb].
  rewrite split_char_none by (apply digits_no; done).
  rewrite parse_row_number_show by lia. cbn [mbind result_bind].
  by rewrite (proj2 (Z.ltb_ge _ _)) by lia.
Qed.

(** The row range parser.  What it accepts is the whole snapshot or a range
    inside it, for any input; and it accepts every range inside the snapshot in
    the form [start-end], and every single row, as exactly that range. *)
Theorem parse_row_selection_exact input n :
  0 ≤ n < 2 ^ 64 →
  (∀ s, parse_row_selection input n = Ok s → s = select_all n ∨ 1 ≤ sel_start s ≤ sel_end s ≤ n) ∧
  (∀ a b, 1 ≤ a ≤ b → b ≤ n →
     parse_row_selection (show_u a ++ lit "-" ++ show_u b) n = Ok (mkRows a b)) ∧
  (∀ a, 1 ≤ a ≤ n → parse_row_selection (show_u a) n = Ok (mkRows a a)).
Proof.
  intros Hn. split_and!.
  - intros s. unfold parse_row_selection. destruct (_ <? _); [done|].
    destruct (_ || _); [intros [= <-]; by left|]. destruct (starts_with _ _); [done|].
    destruct (split_char _ _) as [|f [|g [|h l]]]; try done.
    + destruct (parse_row_number f) as [r|] eqn:E; cbn [mbind result_bind]; [|done].
      apply parse_row_number_ok in E. destruct (_ <? _) eqn:Hr; [done|].
      intros [= <-]. reflect_bools. right. cbn. lia.
    + destruct (parse_row_number f) as [r|] eqn:E; cbn [mbind result_bind]; [|done].
      destruct (parse_row_number g) as [r'|] eqn:E'; cbn [mbind result_bind]; [|done].
      apply parse_row_number_ok in E, E'. destruct (_ <? _) eqn:Hr; [done|].
      destruct (_ || _) eqn:Ho; [done|]. intros [= <-]. reflect_bools. right. cbn. lia.
  - intros a b Ha Hb. apply parse_range; lia.
  - intros a Ha. apply parse_single; lia.
Qed.

Lemma parse_row_selection_exact_witness :
  (0 ≤ 512 < 2 ^ 64) ∧ parse_row_selection (lit "7-42") 512 = Ok (mkRows 7 42) ∧
  parse_row_selection (lit " 2 - 4 ") 4 = Ok (mkRows 2 4).
Proof.
  split; [lia|]. split; [|reflexivity].
  apply (proj1 (proj2 (parse_row_selection_exact (lit "7-42") 512 ltac:(lia))) 7 42); lia.
Defined.

(** ** Selections by sequence number *)

Lemma position_of_app z i pre e post :
  z ∉ map sequence pre → sequence e = z →
  position_of z i (pre ++ e :: post) = Some (i + Z.of_nat (length pre)).
Proof.
  revert i. induction pre as [|x pre IH]; intros i Hz He; cbn [app position_of length].
  - rewrite (proj2 (Z.eqb_eq _ _)) by done. f_equal. lia.
  - cbn in Hz. destruct (sequence x =? z) eqn:E; [apply Z.eqb_eq in E; set_solver|].
    rewrite IH by set_solver. f_equal. lia.
Qed.

Lemma positions_of_run evs pre sub post :
  evs = pre ++ sub ++ post → NoDup (map sequence evs) → Z.of_nat (length evs) < 2 ^ 64 →
  mapM (λ z, (λ i, sat_add 64 i 1) <$> position_of z 0 evs) (map sequence sub) =
    Some (seqZ (Z.of_nat (length pre) + 1) (Z.of_nat (length sub))).
Proof.
  intros He Hnd Hlen. revert pre He. induction sub as [|e sub IH]; intros pre He; [done|].
  cbn [map mapM length]. rewrite He at 1. cbn [app].
  rewrite (position_of_app _ _ pre e (sub ++ post)); [|..|done].
  - cbn [fmap option_fmap mbind option_bind].
    rewrite (IH (pre ++ [e])) by (by rewrite He, <- app_assoc). cbn.
    rewrite (seqZ_cons (Z.of_nat (length pre) + 1)) by lia. rewrite length_app. cbn [length].
    f_equal. f_equal.
    + rewrite He, !length_app in Hlen. cbn [length] in Hlen. unfold_ints. lia.
    + f_equal; lia.
  - intros Hin. rewrite He, map_app in Hnd. apply NoDup_app in Hnd as (_ & Hd & _).
    apply (Hd _ Hin). cbn. set_solver.
Qed.

Lemma consecutive_seqZ a n : 0 ≤ a → a + n < 2 ^ 64 → consecutive (seqZ a n) = true.
Proof.
  intros Ha. destruct (decide (0 ≤ n)) as [Hn|Hn]; [|by rewrite seqZ_nil by lia].
  revert a Ha. pattern n. apply natlike_ind; [done| |done]. clear n Hn.
  intros n Hn IH a Ha Hlt. rewrite seqZ_cons, Z.pred_succ by lia.
  specialize (IH (Z.succ a) ltac:(lia) ltac:(lia)).
  destruct (decide (n = 0)) as [->|]; [done|]. rewrite (seqZ_cons (Z.succ a)) in * by lia.
  change ((Z.succ a =? sat_add 64 a 1) && consecutive (Z.succ a :: seqZ (Z.succ (Z.succ a)) (Z.pred n))
    = true). rewrite IH, andb_true_r. unfold_ints. apply Z.eqb_eq. lia.
Qed.

Lemma last_seqZ a n : 0 < n → last (seqZ a n) = Some (a + n - 1).
Proof.
  intros Hn. rewrite last_lookup, length_seqZ, lookup_seqZ. split; [f_equal|]; lia.
Qed.

(** Selections survive the trip through event sequence numbers: from the
    sequences of a range of the snapshot [row_selection_for_sequences] finds
    the same range, and [latest_row_selection] selects exactly the newest rows
    up to the limit. *)
Theorem selection_round_trip evs s limit :
  NoDup (map sequence evs) → Z.of_nat (length evs) < 2 ^ 64 - 1 → 0 ≤ limit →
  (1 ≤ sel_start s ≤ sel_end s → sel_end s ≤ Z.of_nat (length evs) →
   row_selection_for_sequences evs (selected_event_sequences evs s) = Some s) ∧
  let n := Z.of_nat (length evs) in
  let k := Z.min (Z.max 1 (Z.min limit 512)) n in
  selected_event_sequences evs (latest_row_selection limit n) =
    drop (Z.to_nat (n - k)) (map sequence evs).
Proof.
  intros Hnd Hlen Hlim. split.
  - intros Hs He. destruct s as [a b]; cbn in *.
    assert (Hrc : row_count (mkRows a b) = b - a + 1).
    { unfold row_count; cbn. replace (_ || _) with false by lia. unfold_ints. lia. }
    unfold selected_event_sequences, selection_is_empty. rewrite Hrc.
    replace (b - a + 1 =? 0) with false by lia. unfold visible. rewrite Hrc. cbn [sel_start].
    replace (sat_sub a 1) with (a - 1) by (unfold_ints; lia).
    set (pre := take (Z.to_nat (a - 1)) evs). set (sub := take _ (drop _ evs)).
    assert (Hsub : length sub = Z.to_nat (b - a + 1)).
    { subst sub. rewrite length_take, length_drop. lia. }
    assert (Hpre : length pre = Z.to_nat (a - 1)) by (subst pre; rewrite length_take; lia).
    assert (Hsplit : evs = pre ++ sub ++ drop (Z.to_nat (b - a + 1)) (drop (Z.to_nat (a - 1)) evs)).
    { subst pre sub. by rewrite take_drop, take_drop. }
    clearbody pre sub. pose proof (positions_of_run evs pre sub (drop (Z.to_nat (b - a + 1)) (drop (Z.to_nat (a - 1)) evs)))
      as Hpos. rewrite Hsub, Hpre in Hpos.
    destruct sub as [|e sub']; [cbn in Hsub; lia|]. unfold row_selection_for_sequences.
    cbn [map]. cbn [map] in Hpos. rewrite Hpos by (done || lia).
    cbn [mbind option_bind].
    replace (Z.of_nat (Z.to_nat (b - a + 1))) with (b - a + 1) by lia.
    replace (Z.of_nat (Z.to_nat (a - 1)) + 1) with a by lia.
    rewrite last_seqZ, consecutive_seqZ by lia. rewrite seqZ_cons by lia. cbn.
    do 2 f_equal. lia.
  - cbv zeta. unfold latest_row_selection, HARD_MAX_EVENTS.
    set (n := Z.of_nat (length evs)) in *. destruct (Z.eqb_spec n 0) as [Hz|Hz].
    + destruct evs; [change (map sequence []) with (@nil Z); by rewrite drop_nil|cbn in n; lia].
    + change (Z.of_nat 512) with 512. set (k := Z.min _ n).
      assert (Hk : 1 ≤ k ≤ n) by lia. clearbody k.
      unfold selected_event_sequences, selection_is_empty, visible, row_count.
      replace (sat_add 64 (sat_sub n k) 1) with (n - k + 1) by (unfold_ints; lia).
      cbn [sel_start sel_end]. replace ((n - k + 1 =? 0) || (n <? n - k + 1)) with false by lia.
      replace (sat_add 64 (sat_sub n (n - k + 1)) 1) with k by (unfold_ints; lia).
      replace (k =? 0) with false by lia.
      replace (sat_sub (n - k + 1) 1) with (n - k) by (unfold_ints; lia).
      rewrite take_ge by (rewrite length_drop; lia).
      by rewrite skipn_map.
Qed.

Lemma selection_round_trip_witness :
  let evs := events (@record_all id (@store_new id 8)
               [sample_input "a" 1; sample_input "b" 2; sample_input "c" 3]) in
  row_selection_for_sequences evs (selected_event_sequences evs (mkRows 2 3)) = Some (mkRows 2 3).
Proof.
  intros evs. apply (selection_round_trip evs (mkRows 2 3) 0); try done.
  by vm_compute; repeat (constructor; [set_solver|]); constructor.
Defined.
