(* ===== verification/Retention.v ===== *)
(** * Retention: daily logs and anomaly snapshots

    Models [crates/tick-diagnostics/src/retention.rs] and [recorder.rs].  A
    directory is the list of its entries as [read_dir] yields them; whether a
    removal succeeds is an oracle on names, and a pass returns the names it
    removed.  SHA-256 is a parameter. *)
From S2P Require Import Prelude Text Core Order Hex Privacy Diagnostics Grid.

(** ** Daily logs ([retention.rs]) *)

Definition LOG_RETENTION_DAYS : Z := 30.
Definition MAX_RETAINED_LOG_FILES : nat := 64.

Record LogRetentionReport := mkLogReport { examined : Z; removed : Z; retained : Z }.

Fixpoint digits_u16 (value : Z) (bs : bytes) : option Z :=
  match bs with
  | [] => Some value
  | b :: rest => v ← checked_mul 16 value 10; v ← checked_add 16 v (b - 48); digits_u16 v rest
  end.
Definition digits (bs : bytes) : option Z :=
  if forallb is_ascii_digit bs then digits_u16 0 bs else None.

Definition daily_log_date_from_name (nm : str) : option (Z * Z * Z) :=
  stem0 ← strip_prefix nm (lit "true-tick-");
  stem ← strip_suffix stem0 (lit ".csv");
  if negb (str_len stem =? 10) then None
  else
    let bs := utf8_encode stem in
    if negb (byte_at bs 4 =? 45) || negb (byte_at bs 7 =? 45) then None
    else
      year ← digits (slice bs 0 4);
      month ← digits (slice bs 5 7);
      day ← digits (slice bs 8 10);
      if negb ((1 <=? month) && (month <=? 12)) || negb ((1 <=? day) && (day <=? 31)) then None
      else Some (year, month, day).

Definition utc_day_to_unix_seconds (year month day : Z) : option Z :=
  days ← try_days_from_civil year month day;
  Some (wrap 64 (wrap 64 days * 86400)).

(** An entry: its name, when it is valid UTF-8, and whether it is a file. *)
Record DirEntry := mkEntry { entry_name : option str; entry_is_file : bool }.

Definition candidate_of (e : DirEntry) : option (Z * str) :=
  if negb (entry_is_file e) then None
  else
    nm ← entry_name e;
    '(year, month, day) ← daily_log_date_from_name nm;
    day_unix ← utc_day_to_unix_seconds year month day;
    Some (day_unix, nm).



Section Purge.
(** [remove_file(path).is_ok()] *)
Context (can_remove : str → bool).

Fixpoint purge_expired (cutoff : Z) (candidates : list (Z * str))
    : list str * list (Z * str) :=
  match candidates with
  | [] => ([], [])
  | (day_unix, path) :: rest =>
      let '(gone, kept) := purge_expired cutoff rest in
      if (day_unix <? cutoff) && can_remove path then (path :: gone, kept)
      else (gone, (day_unix, path) :: kept)
  end.

Definition purge_overflow (kept : list (Z * str)) : list str * list (Z * str) :=
  let overflow := (length kept - MAX_RETAINED_LOG_FILES)%nat in
  (List.filter can_remove (map snd (take overflow kept)), drop overflow kept).

(** The pass over a directory that could be read: the report and the removed
    names, in order. *)
Definition purge_expired_logs (entries : list DirEntry) (now_unix_seconds : Z)
    : LogRetentionReport * list str :=
  let candidates := sort_by (λ a b, fst a <=? fst b) (omap candidate_of entries) in
  let retention_cutoff := sat_sub now_unix_seconds (LOG_RETENTION_DAYS * 86400) in
  let '(gone, kept) := purge_expired retention_cutoff candidates in
  let '(gone', kept') := purge_overflow kept in
  (mkLogReport (Z.of_nat (length candidates)) (Z.of_nat (length (gone ++ gone')))
     (Z.of_nat (length kept')), gone ++ gone').

End Purge.

(** ** Anomaly snapshots ([recorder.rs]) *)

Definition MAX_SNAPSHOT_DETAIL_BYTES : Z := 1024.
Definition MAX_SNAPSHOT_EVENTS : nat := 64.
Definition MAX_RETAINED_SNAPSHOTS : nat := 16.
Definition MAX_TELEMETRY_DIRECTORY_BYTES : Z := 8 * 1024 * 1024.

Record EnvironmentSnapshot := mkEnv {
  os_major : Z; os_minor : Z; os_build : Z; os_ubr : Z; cpu_arch : Z; processor_count : Z;
  ac_line_status : Z; battery_percent : Z; uptime_ms : Z }.

Record RetentionReport := mkReport {
  snap_examined : Z; snap_removed : Z; bytes_removed : Z; retained_bytes : Z }.

Definition retention_report_summary (r : RetentionReport) : str :=
  lit "retention examined=" ++ show_u (snap_examined r) ++ lit " removed=" ++
  show_u (snap_removed r) ++ lit " bytes_removed=" ++ show_u (bytes_removed r) ++
  lit " retained_bytes=" ++ show_u (retained_bytes r).

Module FailureVector.
Inductive FailureVector :=
| Panic | WatchdogStall | PostconditionUnverified | ConfigCorruption | LogWriteFailure
| SessionMarkerCorruption | Unknown.
End FailureVector.
Abbreviation FailureVector := FailureVector.FailureVector.

Definition failure_vector_as_str (v : FailureVector) : str :=
  match v with
  | FailureVector.Panic => lit "Panic"
  | FailureVector.WatchdogStall => lit "WatchdogStall"
  | FailureVector.PostconditionUnverified => lit "PostconditionUnverified"
  | FailureVector.ConfigCorruption => lit "ConfigCorruption"
  | FailureVector.LogWriteFailure => lit "LogWriteFailure"
  | FailureVector.SessionMarkerCorruption => lit "SessionMarkerCorruption"
  | FailureVector.Unknown => lit "Unknown"
  end.

Record AnomalySnapshot := mkSnapshot {
  vector : FailureVector;
  detail : str;
  environment : EnvironmentSnapshot;
  recent_events : list DiagnosticEvent;
  snapshot_digest : str }.

Definition LF : str := [10].

Definition sha256_hex `{Sha256} (bs : bytes) : str := hex (sha256 bs).

Definition is_snapshot_file_name (nm : str) : bool :=
  starts_with nm (lit "anomaly-") && ends_with nm (lit ".recorder").

Definition environment_lines (e : EnvironmentSnapshot) : str :=
  lit "os_major=" ++ show_u (os_major e) ++ LF ++
  lit "os_minor=" ++ show_u (os_minor e) ++ LF ++
  lit "os_build=" ++ show_u (os_build e) ++ LF ++
  lit "os_ubr=" ++ show_u (os_ubr e) ++ LF ++
  lit "cpu_arch=" ++ show_u (cpu_arch e) ++ LF ++
  lit "processor_count=" ++ show_u (processor_count e) ++ LF ++
  lit "ac_line_status=" ++ show_u (ac_line_status e) ++ LF ++
  lit "battery_percent=" ++ show_u (battery_percent e) ++ LF ++
  lit "uptime_ms=" ++ show_u (uptime_ms e) ++ LF.

Definition serialize_snapshot (s : AnomalySnapshot) : str :=
  lit "[snapshot]" ++ LF ++
  lit "vector=" ++ failure_vector_as_str (vector s) ++ LF ++
  lit "detail=" ++ detail s ++ LF ++
  lit "event_count=" ++ show_u (Z.of_nat (length (recent_events s))) ++ LF ++
  lit "[environment]" ++ LF ++ environment_lines (environment s) ++
  lit "[events]" ++ LF ++
  concat (map (λ '(index, e), lit "event[" ++ show_u index ++ lit "]=" ++ format_event e ++ LF)
            (enumerate (recent_events s))) ++
  lit "[digest]" ++ LF ++
  lit "sha256=" ++ snapshot_digest s ++ LF.

Definition build_snapshot `{Sha256} (v : FailureVector) (dt : str) (env : EnvironmentSnapshot)
    (evs : list DiagnosticEvent) : AnomalySnapshot :=
  let bounded_detail := truncate_utf8 dt MAX_SNAPSHOT_DETAIL_BYTES in
  let recent := drop (length evs - MAX_SNAPSHOT_EVENTS) evs in
  let snapshot := mkSnapshot v bounded_detail env recent [] in
  mkSnapshot v bounded_detail env recent (sha256_hex (utf8_encode (serialize_snapshot snapshot))).

(** A regular file of the telemetry directory. *)
Record Candidate := mkCandidate { cand_name : str; modified : Z; size : Z }.

Definition candidate_le (a b : Candidate) : bool :=
  (modified a <? modified b) ||
  ((modified a =? modified b) && str_leb (cand_name a) (cand_name b)).

Definition sum_sizes (l : list Candidate) : Z := foldr (λ c acc, size c + acc) 0 l.

Section Snapshots.
(** [remove_file] of a snapshot succeeds. *)
Context (can_remove : str → bool).

(** The loop: delete the oldest while over a bound; [None] when a removal
    fails.  It gives what is left, the bytes left and what was removed. *)
Fixpoint retention_loop (candidates : list Candidate) (total_bytes : Z)
    : option (list Candidate * Z * list Candidate) :=
  match candidates with
  | [] => Some ([], total_bytes, [])
  | c :: rest =>
      if (MAX_RETAINED_SNAPSHOTS <? length candidates)%nat
         || (MAX_TELEMETRY_DIRECTORY_BYTES <? total_bytes)
      then
        if can_remove (cand_name c) then
          '(kept, total, gone) ← retention_loop rest (sat_sub total_bytes (size c));
          Some (kept, total, c :: gone)
        else None
      else Some (candidates, total_bytes, [])
  end.

Definition enforce_snapshot_retention (files : list Candidate)
    : option (RetentionReport * list Candidate * list Candidate) :=
  let candidates :=
    sort_by candidate_le (List.filter (λ c, is_snapshot_file_name (cand_name c)) files) in
  '(kept, total, gone) ← retention_loop candidates (sum_sizes candidates);
  Some (mkReport (Z.of_nat (length candidates)) (Z.of_nat (length gone)) (sum_sizes gone) total,
        kept, gone).

End Snapshots.




(** ** Properties of the log purge *)

Lemma purge_expired_spec can cutoff l gone kept :
  purge_expired can cutoff l = (gone, kept) →
  gone ++ map snd kept ≡ₚ map snd l ∧ kept `sublist_of` l ∧
  (∀ x, x ∈ l → fst x < cutoff → can (snd x) = true → snd x ∈ gone) ∧
  (∀ p, p ∈ gone → ∃ d, (d, p) ∈ l ∧ d < cutoff ∧ can p = true) ∧
  (∀ x, x ∈ kept → cutoff ≤ fst x ∨ can (snd x) = false).
Proof.
  revert gone kept. induction l as [|[d p] l IH]; intros gone kept H; cbn [purge_expired] in H.
  - simplify_eq. split_and!; [done|done|set_solver..].
  - destruct (purge_expired can cutoff l) as [g k] eqn:E.
    destruct (IH _ _ eq_refl) as (I1 & I2 & I3 & I4 & I5).
    destruct (_ && _) eqn:Hc; simplify_eq; reflect_bools; cbn [map snd app fst].
    + split_and!.
      * by rewrite I1.
      * by constructor.
      * intros [d' p'] [Hx|Hx]%elem_of_cons Hd Hr; [simplify_eq; set_solver|].
        apply elem_of_cons. right. by apply (I3 (d', p')).
      * intros p' [->|Hp]%elem_of_cons; [exists d; set_solver|].
        destruct (I4 _ Hp) as (d' & Hin & ?). exists d'. set_solver.
      * done.
    + split_and!.
      * rewrite <- Permutation_middle. by rewrite I1.
      * by constructor.
      * intros x [->|Hx]%elem_of_cons Hd Hr; [|by apply I3].
        cbn in Hd, Hr. destruct Hc as [Hc|Hc]; [reflect_bools; lia|congruence].
      * intros p' Hp. destruct (I4 _ Hp) as (d' & Hin & ?). exists d'. set_solver.
      * intros x [->|Hx]%elem_of_cons; [|by apply I5]. cbn.
        destruct Hc as [Hc|Hc]; [reflect_bools; lia|by right].
Qed.

(** A name of a daily log with its day, as the pass reads it. *)
Definition is_log (entries : list DirEntry) (d : Z) (p : str) : Prop :=
  ∃ e, e ∈ entries ∧ candidate_of e = Some (d, p).

Lemma candidates_in entries d p :
  (d, p) ∈ omap candidate_of entries ↔ is_log entries d p.
Proof. rewrite list_elem_of_omap. unfold is_log. naive_solver. Qed.

Lemma purge_expired_all cutoff l :
  purge_expired (λ _, true) cutoff l =
    (map snd (List.filter (λ x, fst x <? cutoff) l), List.filter (λ x, negb (fst x <? cutoff)) l).
Proof.
  induction l as [|[d p] l IH]; cbn; [done|]. rewrite IH. by destruct (d <? cutoff).
Qed.

Lemma filter_partition_perm {A} (f : A → bool) l :
  List.filter f l ++ List.filter (λ x, negb (f x)) l ≡ₚ l.
Proof.
  induction l as [|x l IH]; cbn; [done|]. destruct (f x); cbn.
  - by rewrite IH.
  - by rewrite <- Permutation_middle, IH.
Qed.

Lemma filter_true {A} (l : list A) : List.filter (λ _, true) l = l.
Proof. induction l as [|x l IH]; cbn; [done|]. by rewrite IH. Qed.

Definition day_le (a b : Z * str) : bool := fst a <=? fst b.
Lemma day_le_total a b : day_le a b = false → day_le b a = true.
Proof. unfold day_le. lia. Qed.
Lemma day_le_trans a b c : day_le a b = true → day_le b c = true → day_le a c = true.
Proof. unfold day_le. lia. Qed.

(** A retention pass in which every removal succeeds.  It removes daily logs
    only, splits the ones it found into removed and kept without losing any,
    keeps at most [MAX_RETAINED_LOG_FILES], none of them expired, never removes
    a log newer than one it keeps, and never removes an unexpired log while
    fewer than the cap are kept; the report counts exactly this. *)
Theorem purge_keeps_newest entries now :
  let '(report, gone) := purge_expired_logs (λ _, true) entries now in
  let cutoff := sat_sub now (LOG_RETENTION_DAYS * 86400) in
  ∃ dropped kept,
    gone = map snd dropped ∧ dropped ++ kept ≡ₚ omap candidate_of entries ∧
    (length kept ≤ MAX_RETAINED_LOG_FILES)%nat ∧
    (∀ d p, (d, p) ∈ kept → cutoff ≤ d) ∧
    (∀ x y, x ∈ dropped → y ∈ kept → fst x ≤ fst y) ∧
    (∀ d p, (d, p) ∈ dropped → cutoff ≤ d → length kept = MAX_RETAINED_LOG_FILES) ∧
    removed report = Z.of_nat (length dropped) ∧ retained report = Z.of_nat (length kept) ∧
    examined report = removed report + retained report.
Proof.
  unfold purge_expired_logs. set (c := sort_by _ _).
  assert (Hc : c ≡ₚ omap candidate_of entries) by apply sort_by_perm.
  assert (Hs : sorted_by day_le c) by (apply sort_by_sorted; [apply day_le_total|apply day_le_trans]).
  cbv zeta. set (cutoff := sat_sub _ _). clearbody c.
  rewrite purge_expired_all. unfold purge_overflow. rewrite filter_true.
  set (old := List.filter (λ x, fst x <? cutoff) c).
  set (new := List.filter (λ x, negb (fst x <? cutoff)) c).
  set (o := (length new - MAX_RETAINED_LOG_FILES)%nat).
  assert (Hnew : ∀ x, x ∈ new → cutoff ≤ fst x).
  { intros x Hx. apply list_elem_of_In, filter_In in Hx as [_ Hx]. reflect_bools. done. }
  assert (Hold : ∀ x, x ∈ old → fst x < cutoff).
  { intros x Hx. apply list_elem_of_In, filter_In in Hx as [_ Hx]. reflect_bools. done. }
  assert (Hsn : sorted_by day_le (take o new ++ drop o new)) by (rewrite take_drop; by apply filter_sorted).
  assert (Hperm : old ++ new ≡ₚ c) by apply filter_partition_perm.
  exists (old ++ take o new), (drop o new). split_and!.
  - by rewrite map_app.
  - by rewrite <- app_assoc, take_drop, Hperm.
  - rewrite length_drop. lia.
  - intros d p Hin. apply (Hnew (d, p)). rewrite <- (take_drop o new). set_solver.
  - intros x y [Hx|Hx]%elem_of_app Hy.
    + specialize (Hold _ Hx). assert (cutoff ≤ fst y); [|lia].
      apply Hnew. rewrite <- (take_drop o new). set_solver.
    + pose proof (sorted_by_app _ _ _ Hsn x y Hx Hy) as H. unfold day_le in H. lia.
  - intros d p [Hx|Hx]%elem_of_app Hd; [specialize (Hold _ Hx); cbn in Hold; lia|].
    assert (0 < length (take o new))%nat by (destruct (take o new); [set_solver|cbn; lia]).
    rewrite length_take in H. rewrite length_drop. lia.
  - cbn. by rewrite !length_app, !length_map.
  - done.
  - cbn. rewrite !length_app, !length_map, <- (Permutation_length Hperm), length_app.
    rewrite length_take, length_drop. lia.
Qed.

(** ** Properties of the snapshot retention *)

Lemma candidate_le_total a b : candidate_le a b = false → candidate_le b a = true.
Proof.
  unfold candidate_le. intros H. apply orb_false_iff in H as [H1 H2].
  destruct (modified b <? modified a) eqn:E; [done|]. cbn. rewrite (proj2 (Z.eqb_eq _ _)) in H2 by lia.
  rewrite (proj2 (Z.eqb_eq _ _)) by lia. cbn in H2 |- *. by apply str_leb_total.
Qed.

Lemma candidate_le_trans a b c :
  candidate_le a b = true → candidate_le b c = true → candidate_le a c = true.
Proof.
  unfold candidate_le. intros H1 H2. apply orb_prop in H1, H2.
  destruct H1 as [H1|[H1 H1']%andb_prop], H2 as [H2|[H2 H2']%andb_prop].
  - replace (modified a <? modified c) with true by lia. done.
  - replace (modified a <? modified c) with true by lia. done.
  - replace (modified a <? modified c) with true by lia. done.
  - replace (modified a =? modified c) with true by lia.
    rewrite (str_leb_trans _ _ _ H1' H2'). apply orb_true_r.
Qed.

Definition over_bounds (l : list Candidate) : Prop :=
  (MAX_RETAINED_SNAPSHOTS < length l)%nat ∨ MAX_TELEMETRY_DIRECTORY_BYTES < sum_sizes l.

Lemma sum_sizes_nonneg l : Forall (λ c, 0 ≤ size c) l → 0 ≤ sum_sizes l.
Proof. unfold sum_sizes. induction 1; cbn; lia. Qed.

Lemma retention_loop_spec can l kept total gone :
  Forall (λ c, 0 ≤ size c) l → retention_loop can l (sum_sizes l) = Some (kept, total, gone) →
  l = gone ++ kept ∧ total = sum_sizes kept ∧ ¬ over_bounds kept ∧
  (∀ a c b, gone = a ++ c :: b → over_bounds (c :: b ++ kept)) ∧
  Forall (λ c, can (cand_name c) = true) gone.
Proof.
  intros Hl. revert kept total gone. induction Hl as [|c l Hc Hl IH]; intros kept total gone H;
    cbn [retention_loop] in H.
  - simplify_eq. split_and!; [done|done| |by intros []|done].
    unfold over_bounds, MAX_RETAINED_SNAPSHOTS, MAX_TELEMETRY_DIRECTORY_BYTES. cbn. lia.
  - destruct (_ || _) eqn:Hb.
    + destruct (can (cand_name c)) eqn:Hcan; [|done].
      pose proof (sum_sizes_nonneg l Hl) as Hnn.
      change (sum_sizes (c :: l)) with (size c + sum_sizes l) in H.
      replace (sat_sub (size c + sum_sizes l) (size c)) with (sum_sizes l) in H
        by (unfold sat_sub; lia).
      destruct (retention_loop can l (sum_sizes l)) as [[[k t] g]|] eqn:E; [|done].
      cbn in H. simplify_eq. destruct (IH _ _ _ eq_refl) as (I1 & I2 & I3 & I4 & I5).
      split_and!; [by rewrite I1|done|done| |by constructor].
      intros a c' b Hg. destruct a as [|a0 a]; cbn in Hg; simplify_eq.
      * unfold over_bounds. apply orb_prop in Hb as [Hb|Hb]; [left|right].
        -- by apply Nat.ltb_lt.
        -- by apply Z.ltb_lt.
      * by eapply I4.
    + simplify_eq. split_and!; [done|done| |by intros []|done].
      apply orb_false_iff in Hb as [Hb1 Hb2]. apply Nat.ltb_ge in Hb1. apply Z.ltb_ge in Hb2.
      unfold over_bounds. cbn [length] in *. lia.
Qed.

(** A snapshot retention pass that completes.  Among the snapshot files it
    removes a prefix of the order oldest first, so nothing kept is older than
    anything removed; what it keeps is within both bounds; it stops as soon as
    the bounds hold (each removal was made while they did not); and the report
    gives exactly the counts and sizes. *)
Theorem snapshot_retention_bounds can files report kept gone :
  Forall (λ c, 0 ≤ size c) files →
  enforce_snapshot_retention can files = Some (report, kept, gone) →
  gone ++ kept ≡ₚ List.filter (λ c, is_snapshot_file_name (cand_name c)) files ∧
  (length kept ≤ MAX_RETAINED_SNAPSHOTS)%nat ∧ sum_sizes kept ≤ MAX_TELEMETRY_DIRECTORY_BYTES ∧
  (∀ x y, x ∈ gone → y ∈ kept → candidate_le x y = true) ∧
  (∀ a c b, gone = a ++ c :: b → over_bounds (c :: b ++ kept)) ∧
  report = mkReport (Z.of_nat (length (gone ++ kept))) (Z.of_nat (length gone))
             (sum_sizes gone) (sum_sizes kept).
Proof.
  intros Hpos. unfold enforce_snapshot_retention. set (c := sort_by _ _).
  assert (Hperm : c ≡ₚ List.filter (λ c, is_snapshot_file_name (cand_name c)) files)
    by apply sort_by_perm.
  assert (Hs : sorted_by candidate_le c)
    by (apply sort_by_sorted; [apply candidate_le_total|apply candidate_le_trans]).
  assert (Hc : Forall (λ c, 0 ≤ size c) c).
  { rewrite Hperm, Forall_forall. rewrite Forall_forall in Hpos. intros x Hx. apply Hpos.
    apply list_elem_of_In, filter_In in Hx as [Hx _]. by apply list_elem_of_In. }
  clearbody c. destruct (retention_loop can c (sum_sizes c)) as [[[k t] g]|] eqn:E; [|done].
  cbn. intros [= <- <- <-]. destruct (retention_loop_spec _ _ _ _ _ Hc E) as (I1 & I2 & I3 & I4 & _).
  unfold over_bounds in I3. split_and!; [by rewrite <- I1|lia|lia| |done|by rewrite I2, I1].
  rewrite I1 in Hs. by apply sorted_by_app.
Qed.

Lemma snapshot_retention_bounds_witness :
  let f n := mkCandidate (lit "anomaly-" ++ show_u n ++ lit ".recorder") n (1024 * 1024) in
  let files := map f (seqZ 1 10) in
  ∃ r k, enforce_snapshot_retention (λ _, true) files = Some (r, k, [f 1; f 2]) ∧
    sum_sizes k ≤ MAX_TELEMETRY_DIRECTORY_BYTES.
Proof.
  intros f files. eexists _, _. split; [vm_compute; reflexivity|].
  eapply (snapshot_retention_bounds (λ _, true) files _ _ [f 1; f 2]);
    [by repeat constructor|vm_compute; reflexivity].
Defined.
