(* ===== verification/Platform.v ===== *)
(** * Platform: the timer-resolution adapter

    Models [crates/tick-platform-windows/src/lib.rs] (its [cfg(windows)] code).
    [TimerPlatform] is the trait; [WindowsTimerPlatform] implements it over the
    two native calls, which are the parameter [NtKernel].  Every method is a
    state passing computation; the diagnostics store receives each [log] call
    as a [LogCall], and [native_calls] records the [NtSetTimerResolution] calls
    made (it exists only for the theorems). *)
From S2P Require Import Prelude Text Core Privacy Diagnostics.

(** ** Bounds, queries and observations *)

Module KernelSettleProbeOutcome.
Inductive KernelSettleProbeOutcome := Restored | ExternalTiming.
End KernelSettleProbeOutcome.
Abbreviation KernelSettleProbeOutcome := KernelSettleProbeOutcome.KernelSettleProbeOutcome.

Record KernelSettleProbe := mkProbe {
  probe_outcome : KernelSettleProbeOutcome;
  before_effective : Z;
  after_effective : Z }.

Record TimerBounds := mkBounds { minimum_interval : Z; maximum_interval : Z }.

Module TimerError.
Inductive TimerError :=
| Unsupported | InvalidInterval | InvalidStateTransition
| QueryFailed (raw_status : Z)
| RequestFailed (raw_status : Z)
| ReleaseFailed (raw_status : Z)
| PostconditionUnverified (raw_status reported_current : Z).
End TimerError.
Abbreviation TimerError := TimerError.TimerError.

(** [{error:?}] *)
Definition timer_error_debug (e : TimerError) : str :=
  match e with
  | TimerError.Unsupported => lit "Unsupported"
  | TimerError.InvalidInterval => lit "InvalidInterval"
  | TimerError.InvalidStateTransition => lit "InvalidStateTransition"
  | TimerError.QueryFailed s => lit "QueryFailed { raw_status: " ++ show_i s ++ lit " }"
  | TimerError.RequestFailed s => lit "RequestFailed { raw_status: " ++ show_i s ++ lit " }"
  | TimerError.ReleaseFailed s => lit "ReleaseFailed { raw_status: " ++ show_i s ++ lit " }"
  | TimerError.PostconditionUnverified s c =>
      lit "PostconditionUnverified { raw_status: " ++ show_i s ++
      lit ", reported_current: Hns(" ++ show_u c ++ lit ") }"
  end.

Definition numeric_interval (b : TimerBounds) : Z * Z :=
  if minimum_interval b <=? maximum_interval b
  then (minimum_interval b, maximum_interval b)
  else (maximum_interval b, minimum_interval b).

Definition smallest_supported_boundary (b : TimerBounds) : result TimerError Z :=
  let '(lower, _) := numeric_interval b in
  if (lower =? 0) || (u32_max <? lower) then Err TimerError.InvalidInterval else Ok lower.

Definition validate_interval (b : TimerBounds) (interval : Z) : result TimerError unit :=
  let '(lower, upper) := numeric_interval b in
  if (interval =? 0) || (u32_max <? interval) || (interval <? lower) || (upper <? interval)
  then Err TimerError.InvalidInterval else Ok tt.

Record TimerQuery := mkQuery {
  bounds : TimerBounds; query_current : Z; query_status : Z }.

Definition resolve_request (q : TimerQuery) (requested : Z) : result TimerError Z :=
  selected ← (if requested =? 0 then smallest_supported_boundary (bounds q) else Ok requested);
  _ ← validate_interval (bounds q) selected;
  Ok selected.

Definition HARDWARE_TIMER_TOLERANCE_HNS : Z := 100.

Record TimerObservation := mkObservation {
  obs_requested : Z; reported_current : Z; raw_status : Z }.

Definition is_satisfied (o : TimerObservation) : bool :=
  (reported_current o <=? obs_requested o) ||
  (sat_sub (reported_current o) (obs_requested o) <=? HARDWARE_TIMER_TOLERANCE_HNS).
Definition is_finer_than_requested (o : TimerObservation) : bool :=
  reported_current o <? obs_requested o.

Definition effective_relation (effective requested : Z) : str :=
  if effective <? requested then lit "finer"
  else if effective =? requested then lit "equal"
  else if sat_sub effective requested <=? HARDWARE_TIMER_TOLERANCE_HNS then lit "satisfied"
  else lit "unverified".
Definition observation_effective_relation (o : TimerObservation) : str :=
  effective_relation (reported_current o) (obs_requested o).

(** ** The trait *)

Class TimerPlatform (P : Type) := {
  set_operation_context : option (Z * option Z * Z) → P → P;
  query : Z → comp P TimerError TimerQuery;
  resolve : Z → comp P TimerError Z;
  preflight : Z → comp P TimerError TimerQuery;
  request : Z → comp P TimerError TimerObservation;
  release : Z → comp P TimerError TimerObservation;
  attempt_kernel_settle_probe : Z → comp P TimerError KernelSettleProbe }.

(** The default body of [resolve]. *)
Definition default_resolve {P} (query : Z → comp P TimerError TimerQuery) (requested : Z)
    : comp P TimerError Z :=
  q ← query requested;
  lift (resolve_request q requested).

(** ** Sampling *)

Definition VERIFICATION_SAMPLE_COUNT : nat := 3.

Definition median_of_three (a b c : Z) : Z :=
  if b <? a then (if c <? b then b else if c <? a then c else a)
  else (if c <? a then a else if c <? b then c else b).

Definition sample_satisfies_tolerance (reported requested : Z) : bool :=
  (reported <=? requested) || (sat_sub reported requested <=? HARDWARE_TIMER_TOLERANCE_HNS).

(** The samples of the successful queries, in order. *)
Fixpoint collect_samples {P} (query : Z → comp P TimerError TimerQuery) (n : nat) (interval : Z)
    : comp P TimerError (list Z) :=
  match n with
  | O => mret []
  | S n' =>
      r ← attempt (query interval);
      rest ← collect_samples query n' interval;
      mret (match r with Ok q => query_current q :: rest | Err _ => rest end)
  end.

Definition median_of_samples (samples : list Z) (interval : Z) : option Z :=
  match samples with
  | [a; b] =>
      match sample_satisfies_tolerance a interval, sample_satisfies_tolerance b interval with
      | true, false => Some a
      | false, true => Some b
      | true, true => Some (Z.min a b)
      | false, false => None
      end
  | [a; b; c] => Some (median_of_three a b c)
  | _ => None
  end.

Definition sample_interval_median {P} (query : Z → comp P TimerError TimerQuery) (interval : Z)
    : comp P TimerError (option Z) :=
  samples ← collect_samples query VERIFICATION_SAMPLE_COUNT interval;
  mret (median_of_samples samples interval).

(** ** The native calls *)

(** [NtQueryTimerResolution] gives (status, minimum, maximum, current);
    [NtSetTimerResolution] takes the desired resolution and the set flag and
    gives (status, current). *)
Class NtKernel (K : Type) := {
  nt_query_timer_resolution : K → (Z * Z * Z * Z) * K;
  nt_set_timer_resolution : Z → bool → K → (Z * Z) * K }.

Definition STATUS_SUCCESS : Z := 0.

Definition native_resolution_values (minimum maximum current : Z) : TimerBounds * Z :=
  (mkBounds minimum maximum, current).

Definition native_desired {S} (interval : Z) : comp S TimerError Z :=
  if interval <=? u32_max then mret interval else fail TimerError.InvalidInterval.

(** ** What the diagnostics store is told *)

Inductive LogCall :=
| RecordWithContext (record : DiagnosticRecord) (name details : str)
| RecordWithOutcome (name details : str) (outcome : DiagnosticOutcome).

(** [value.parse::<i64>()] *)
Definition parse_i64 (s : str) : option Z :=
  match s with
  | 45 :: (_ :: _) as t =>
      match digits_value 0 (tail t) with
      | Some v => if v <=? 2 ^ 63 then Some (- v) else None
      | None => None
      end
  | _ => match parse_u 64 s with
         | Some v => if v <? 2 ^ 63 then Some v else None
         | None => None
         end
  end.

Fixpoint find_map {A B} (f : A → option B) (l : list A) : option B :=
  match l with
  | [] => None
  | x :: rest => match f x with Some y => Some y | None => find_map f rest end
  end.

Definition native_detail (dt key : str) : option Z :=
  find_map (λ field,
    '(field_key, value) ← split_once 61 field;
    if str_eqb field_key key then parse_i64 value else None) (split_whitespace dt).

Definition try_i32 (v : Z) : option Z :=
  if (- 2 ^ 31 <=? v) && (v <? 2 ^ 31) then Some v else None.
Definition try_u32 (v : Z) : option Z := if (0 <=? v) && (v <=? u32_max) then Some v else None.

Definition native_outcome (nm dt : str) : NativeOutcome :=
  let status := native_detail dt (lit "raw_status") in
  let is_nt := contains nm (lit "Nt") || starts_with nm (lit "timer.") in
  mkNative
    (if is_nt then status ≫= try_i32 else None)
    (if negb is_nt then status ≫= try_u32 else None)
    (wrap 64 <$> native_detail dt (lit "requested_hns"))
    (wrap 64 <$> native_detail dt (lit "selected_hns"))
    (wrap 64 <$> native_detail dt (lit "effective_hns")).

Definition log_call (ctx : option (Z * option Z * Z)) (nm dt : str) : LogCall :=
  let has := λ w, contains nm (lit w) in
  match ctx with
  | Some (operation, parent, correlation) =>
      RecordWithContext
        (mkRecord (mkContext operation parent correlation)
           (if has "release" then DiagnosticPhase.Release
            else if has "request" then DiagnosticPhase.Acquire
            else DiagnosticPhase.Observe)
           DiagnosticSource.Native
           (if has "error" || has "rejected" then DiagnosticOutcome.Failed
            else DiagnosticOutcome.Completed)
           (native_outcome nm dt)) nm dt
  | None =>
      RecordWithOutcome nm dt
        (if has "error" || has "rejected" || has "invalid" || has "unsupported" || has "failed"
         then DiagnosticOutcome.Failed
         else if has "unverified" then DiagnosticOutcome.Unverified
         else DiagnosticOutcome.Completed)
  end.

(** ** The Windows implementation *)

Record WindowsTimerPlatform (K : Type) := mkPlatform {
  kernel : K;
  requested : option Z;
  has_diagnostics : bool;
  operation_context : option (Z * option Z * Z);
  log_calls : list LogCall;
  native_calls : list (bool * Z) (* the set flag and the status of each set call *) }.
Arguments mkPlatform {K}.
Arguments kernel {K}. Arguments requested {K}. Arguments has_diagnostics {K}.
Arguments operation_context {K}. Arguments log_calls {K}. Arguments native_calls {K}.

Section Windows.
Context {K : Type} `{NtKernel K}.
Abbreviation W := (WindowsTimerPlatform K).
Abbreviation M := (comp W TimerError).

Definition with_diagnostics (k : K) : W := mkPlatform k None true None [] [].

Definition log (nm : string) (dt : str) : M unit :=
  modify (λ p, mkPlatform (kernel p) (requested p) (has_diagnostics p) (operation_context p)
    (log_calls p ++ if has_diagnostics p then [log_call (operation_context p) (lit nm) dt] else [])
    (native_calls p)).

Definition set_requested (r : option Z) : M unit :=
  modify (λ p, mkPlatform (kernel p) r (has_diagnostics p) (operation_context p) (log_calls p)
    (native_calls p)).

Definition call_query : M (Z * Z * Z * Z) := fun p =>
  let '(r, k) := nt_query_timer_resolution (kernel p) in
  (Ok r, mkPlatform k (requested p) (has_diagnostics p) (operation_context p) (log_calls p)
           (native_calls p)).

Definition call_set (desired : Z) (set : bool) : M (Z * Z) := fun p =>
  let '((status, current), k) := nt_set_timer_resolution desired set (kernel p) in
  (Ok (status, current),
   mkPlatform k (requested p) (has_diagnostics p) (operation_context p) (log_calls p)
     (native_calls p ++ [(set, status)])).

Definition query_resolution : M (TimerBounds * Z) :=
  '(status, minimum, maximum, current) ← call_query;
  if negb (status =? STATUS_SUCCESS) then fail (TimerError.QueryFailed status)
  else mret (native_resolution_values minimum maximum current).

Definition query_current_resolution : M Z :=
  '(_, current) ← query_resolution;
  mret current.

Definition kv (key : string) (v : str) : str := lit key ++ lit "=" ++ v.
Definition interval_details (interval : Z) : str :=
  kv "requested_hns" (show_u interval) ++ lit " " ++
  kv "requested_ms" (default [] (format_milliseconds interval)).

Definition windows_query (interval : Z) : M TimerQuery :=
  _ ← log "timer.query" (interval_details interval);
  values ← attempt query_resolution;
  match values with
  | Err error =>
      _ ← log "native.NtQueryTimerResolution.error" (kv "error" (timer_error_debug error));
      fail error
  | Ok (bs, current) =>
      _ ← log "native.NtQueryTimerResolution.result"
        (lit "raw_status=0 minimum_hns=" ++ show_u (minimum_interval bs) ++
         lit " maximum_hns=" ++ show_u (maximum_interval bs) ++
         lit " current_hns=" ++ show_u current);
      mret (mkQuery bs current STATUS_SUCCESS)
  end.

Definition selection_prefix (requested0 : Z) (q : TimerQuery) : str :=
  kv "mode" (if requested0 =? 0 then lit "automatic" else lit "fixed") ++
  lit " raw_status=" ++ show_i (query_status q) ++
  lit " raw_minimum_hns=" ++ show_u (minimum_interval (bounds q)) ++
  lit " raw_maximum_hns=" ++ show_u (maximum_interval (bounds q)).

Definition windows_resolve (requested0 : Z) : M Z :=
  q ← windows_query requested0;
  match resolve_request q requested0 with
  | Ok interval =>
      _ ← log "timer.selection"
        (selection_prefix requested0 q ++ lit " selected_hns=" ++ show_u interval ++
         lit " requested_hns=" ++ show_u requested0 ++
         lit " effective_hns=" ++ show_u (query_current q) ++
         lit " effective_relation=" ++ effective_relation (query_current q) interval);
      mret interval
  | Err error =>
      _ ← log "timer.selection.rejected"
        (selection_prefix requested0 q ++ lit " requested_hns=" ++ show_u requested0 ++
         lit " effective_hns=" ++ show_u (query_current q) ++
         lit " effective_relation=" ++ effective_relation (query_current q) requested0 ++
         lit " error=" ++ timer_error_debug error);
      fail error
  end.

Definition windows_preflight (interval : Z) : M TimerQuery :=
  _ ← log "timer.preflight" (interval_details interval);
  q ← windows_query interval;
  match validate_interval (bounds q) interval with
  | Err error =>
      _ ← log "timer.preflight.invalid" (kv "error" (timer_error_debug error));
      fail error
  | Ok _ =>
      _ ← log "timer.preflight.accepted" (lit "interval within native bounds");
      mret q
  end.

Definition observation_details (o : TimerObservation) (relation : string) : str :=
  kv "requested_hns" (show_u (obs_requested o)) ++
  lit " effective_hns=" ++ show_u (reported_current o) ++
  lit " effective_relation=" ++ lit relation.

Definition set_result_details (status interval current : Z) : str :=
  kv "raw_status" (show_i status) ++ lit " requested_hns=" ++ show_u interval ++
  lit " effective_hns=" ++ show_u current ++
  lit " effective_relation=" ++ effective_relation current interval.

(** The rollback of a request whose effect could not be verified. *)
Definition rollback (status interval desired current : Z) (o : TimerObservation)
    : M TimerObservation :=
  _ ← log "timer.postcondition.unverified" (observation_details o "unverified");
  '(rollback_status, rollback_current) ← call_set desired false;
  _ ← set_requested None;
  _ ← log "native.NtSetTimerResolution.postcondition_rollback"
    (kv "raw_status" (show_i status) ++ lit " requested_hns=" ++ show_u interval ++
     lit " effective_hns=" ++ show_u current ++
     lit " rollback_status=" ++ show_i rollback_status ++
     lit " rollback_effective_hns=" ++ show_u rollback_current);
  fail (TimerError.PostconditionUnverified status (reported_current o)).

Definition windows_request (interval : Z) : M TimerObservation :=
  _ ← log "native.NtSetTimerResolution.request"
    (kv "desired_hns" (show_u interval) ++ lit " set=true");
  _ ← windows_preflight interval;
  desired ← native_desired interval;
  '(status, current) ← call_set desired true;
  _ ← log "native.NtSetTimerResolution.result" (set_result_details status interval current);
  if negb (status =? STATUS_SUCCESS) then fail (TimerError.RequestFailed status)
  else
    sampled_current ← sample_interval_median windows_query interval;
    _ ← log "timer.postcondition.sampled"
      (kv "requested_hns" (show_u interval) ++
       lit " sampled_effective_hns=" ++ show_u (default 0 sampled_current) ++
       lit " sample_count=" ++ show_u (Z.of_nat VERIFICATION_SAMPLE_COUNT));
    let o := mkObservation interval (default current sampled_current) status in
    _ ← set_requested (Some interval);
    if bool_decide (sampled_current = None) || negb (is_satisfied o)
    then rollback status interval desired current o
    else
      _ ← (if is_finer_than_requested o
           then log "timer.postcondition.finer_than_requested" (observation_details o "finer")
           else log "timer.postcondition.verified" (observation_details o "equal"));
      mret o.

Definition apply_release_outcome (interval status effective : Z) : M TimerObservation :=
  if negb (status =? STATUS_SUCCESS) then fail (TimerError.ReleaseFailed status)
  else _ ← set_requested None; mret (mkObservation interval effective status).

Definition windows_release (interval : Z) : M TimerObservation :=
  _ ← log "native.NtSetTimerResolution.release"
    (kv "desired_hns" (show_u interval) ++ lit " set=false");
  p ← get;
  _ ← (if bool_decide (requested p = Some interval) then mret tt
       else log "timer.release.restorative"
              (kv "tracked_hns" (show_u (default 0 (requested p))) ++
               lit " requested_hns=" ++ show_u interval ++ lit " action=restorative_release"));
  desired ← native_desired interval;
  '(status, current) ← call_set desired false;
  _ ← log "native.NtSetTimerResolution.release_result" (set_result_details status interval current);
  apply_release_outcome interval status current.

Definition windows_settle_probe (interval : Z) : M KernelSettleProbe :=
  _ ← log "kernel.self_heal.settle_probe"
    (kv "candidate_hns" (show_u interval) ++ lit " set=false");
  before_effective ← query_current_resolution;
  desired ← native_desired interval;
  '(status, current) ← call_set desired false;
  _ ← log "native.NtSetTimerResolution.settle_probe"
    (kv "raw_status" (show_i status) ++ lit " candidate_hns=" ++ show_u interval ++
     lit " effective_hns=" ++ show_u current ++ lit " set=false");
  if negb (status =? STATUS_SUCCESS) then
    _ ← log "kernel.self_heal.settle_probe.failed" (kv "raw_status" (show_i status));
    fail (TimerError.ReleaseFailed status)
  else
    after_effective ← query_current_resolution;
    _ ← log "kernel.self_heal.settle_probe.result"
      (kv "before_hns" (show_u before_effective) ++ lit " immediate_hns=" ++ show_u current ++
       lit " after_hns=" ++ show_u after_effective ++ lit " outcome=" ++
       (if before_effective <? after_effective then lit "restored" else lit "external_timing"));
    if before_effective <? after_effective then
      _ ← set_requested None;
      mret (mkProbe KernelSettleProbeOutcome.Restored before_effective after_effective)
    else mret (mkProbe KernelSettleProbeOutcome.ExternalTiming before_effective after_effective).

#[export] Instance windows_timer_platform : TimerPlatform W := {
  set_operation_context := λ ctx p,
    mkPlatform (kernel p) (requested p) (has_diagnostics p) ctx (log_calls p) (native_calls p);
  query := windows_query;
  resolve := windows_resolve;
  preflight := windows_preflight;
  request := windows_request;
  release := windows_release;
  attempt_kernel_settle_probe := windows_settle_probe }.

End Windows.

(** ** What the adapter promises its client

    [held p] says whether the process holds a resolution request: the last
    successful set call was a request. *)

Class TimerPlatformLaws (P : Type) `{TimerPlatform P} := {
  held : P → bool;
  context_held ctx p : held (set_operation_context ctx p) = held p;
  query_held i p : held (query i p).2 = held p;
  resolve_held i p : held (resolve i p).2 = held p;
  preflight_held i p : held (preflight i p).2 = held p;
  request_spec i p :
    let '(r, p') := request i p in
    match r with
    | Ok o => held p' = true ∧ obs_requested o = i ∧ is_satisfied o = true
    | Err (TimerError.PostconditionUnverified _ _) => True
    | Err _ => held p' = held p
    end;
  release_spec i p :
    let '(r, p') := release i p in
    match r with
    | Ok o => held p' = false ∧ obs_requested o = i
    | Err e => held p' = held p ∧
        match e with TimerError.PostconditionUnverified _ _ => False | _ => True end
    end;
  probe_spec i p :
    let '(r, p') := attempt_kernel_settle_probe i p in
    match r with
    | Ok _ => held p' = false
    | Err _ => held p' = held p ∨ held p' = false
    end }.

Section WindowsLaws.
Context {K : Type} `{NtKernel K}.
Abbreviation W := (WindowsTimerPlatform K).
Implicit Types p : W.

Definition holds (calls : list (bool * Z)) : bool :=
  fold_left (λ h '(set, status), if status =? STATUS_SUCCESS then set else h) calls false.

Lemma holds_snoc calls set status :
  holds (calls ++ [(set, status)]) = if status =? STATUS_SUCCESS then set else holds calls.
Proof. unfold holds. by rewrite fold_left_app. Qed.

(** What the theorems watch of the adapter. *)
Definition seen p : list (bool * Z) * option Z := (native_calls p, requested p).
Abbreviation quiet := (keeps seen).

Lemma quiet_log nm dt : quiet (log nm dt).
Proof. done. Qed.
Lemma quiet_call_query : quiet call_query.
Proof. intros p. unfold call_query. by destruct (nt_query_timer_resolution _). Qed.
#[local] Hint Resolve quiet_log quiet_call_query : tick.

Lemma quiet_query_resolution : quiet query_resolution.
Proof.
  unfold query_resolution. apply keeps_bind; [apply quiet_call_query|].
  intros [[[status mn] mx] cur]. destruct (negb _); auto with tick.
Qed.
#[local] Hint Resolve quiet_query_resolution : tick.

Lemma quiet_current : quiet query_current_resolution.
Proof. apply keeps_bind; [apply quiet_query_resolution|]. intros [? ?]. auto with tick. Qed.

Lemma quiet_query i : quiet (windows_query i).
Proof.
  unfold windows_query. repeat (apply keeps_bind; [auto with tick|intros]).
  case_match; [|by auto with tick]. case_match. auto with tick.
Qed.
#[local] Hint Resolve quiet_query : tick.

Lemma quiet_resolve i : quiet (windows_resolve i).
Proof.
  unfold windows_resolve. apply keeps_bind; [auto with tick|]. intros q.
  destruct (resolve_request q i); auto with tick.
Qed.
Lemma quiet_preflight i : quiet (windows_preflight i).
Proof.
  unfold windows_preflight. repeat (apply keeps_bind; [auto with tick|intros]).
  destruct (validate_interval _ _); auto with tick.
Qed.

(** ** Step rules *)

Lemma log_wp nm dt p (Q : result TimerError unit → W → Prop) :
  (∀ p', seen p' = seen p → Q (Ok tt) p') → wp (log nm dt) p Q.
Proof. intros HQ. unfold log. wp_step. by apply HQ. Qed.
Lemma requested_wp r p (Q : result TimerError unit → W → Prop) :
  (∀ p', seen p' = (native_calls p, r) → Q (Ok tt) p') → wp (set_requested r) p Q.
Proof. intros HQ. unfold set_requested. wp_step. by apply HQ. Qed.
Lemma desired_wp i p (Q : result TimerError Z → W → Prop) :
  (i ≤ u32_max → Q (Ok i) p) → Q (Err TimerError.InvalidInterval) p → wp (native_desired i) p Q.
Proof. unfold native_desired. intros HQ He. destruct (Z.leb_spec i u32_max); [by apply HQ|done]. Qed.
Lemma call_set_wp desired set p (Q : result TimerError (Z * Z) → W → Prop) :
  (∀ status current p', seen p' = (native_calls p ++ [(set, status)], requested p) →
     Q (Ok (status, current)) p') →
  wp (call_set desired set) p Q.
Proof.
  intros HQ. unfold wp, call_set. destruct (nt_set_timer_resolution _ _ _) as [[status current] k].
  cbn. by apply HQ.
Qed.

(** Sampling swallows the errors of its queries. *)
Lemma samples_wp n i p (Q : result TimerError (list Z) → W → Prop) :
  (∀ l p', seen p' = seen p → Q (Ok l) p') →
  wp (collect_samples windows_query n i) p Q.
Proof.
  revert p Q. induction n as [|n IH]; intros p Q HQ; cbn [collect_samples]; [by apply HQ|].
  wp_step. wp_step. apply (keeps_wp seen); [auto with tick|]. intros r p' Hp'.
  wp_step. apply IH. intros l p2 Hp2. wp_step. apply HQ. by rewrite Hp2.
Qed.
Lemma sample_wp i p (Q : result TimerError (option Z) → W → Prop) :
  (∀ o p', seen p' = seen p → Q (Ok o) p') →
  wp (sample_interval_median windows_query i) p Q.
Proof. intros HQ. unfold sample_interval_median. wp_step. apply samples_wp. intros. by apply HQ. Qed.

(** The errors of the steps before the set call. *)
Definition query_error (e : TimerError) : Prop :=
  match e with TimerError.QueryFailed _ | TimerError.InvalidInterval => True | _ => False end.

Tactic Notation "log_step" ident(q) ident(L) := wp_step; apply log_wp; intros q L.

Lemma call_query_wp p (Q : result TimerError (Z * Z * Z * Z) → W → Prop) :
  (∀ r p', seen p' = seen p → Q (Ok r) p') → wp call_query p Q.
Proof.
  intros HQ. unfold wp, call_query. destruct (nt_query_timer_resolution _) as [r k]. by apply HQ.
Qed.

Lemma query_resolution_wp p (Q : result TimerError (TimerBounds * Z) → W → Prop) :
  (∀ r p', seen p' = seen p → match r with Ok _ => True | Err e => query_error e end → Q r p') →
  wp query_resolution p Q.
Proof.
  intros HQ. unfold query_resolution. wp_step. apply call_query_wp.
  intros [[[status mn] mx] cur] p' Hp'. destruct (negb _); wp_step; by apply HQ.
Qed.

Lemma query_wp i p (Q : result TimerError TimerQuery → W → Prop) :
  (∀ r p', seen p' = seen p → match r with Ok _ => True | Err e => query_error e end → Q r p') →
  wp (windows_query i) p Q.
Proof.
  intros HQ. unfold windows_query. log_step q0 L0. wp_step. wp_step.
  apply query_resolution_wp. intros [[bs cur]|e] q1 L1 He; log_step q2 L2; wp_step;
    (apply HQ; [by rewrite L2, L1, L0|done]).
Qed.

Lemma preflight_wp i p (Q : result TimerError TimerQuery → W → Prop) :
  (∀ r p', seen p' = seen p →
     match r with Ok q => validate_interval (bounds q) i = Ok tt | Err e => query_error e end →
     Q r p') →
  wp (windows_preflight i) p Q.
Proof.
  intros HQ. unfold windows_preflight. log_step q0 L0. wp_step. apply query_wp.
  intros [q|e] q1 L1 He; [|apply HQ; [by rewrite L1, L0|done]].
  destruct (validate_interval (bounds q) i) as [[]|e] eqn:Hv; log_step q2 L2; wp_step;
    (apply HQ; [by rewrite L2, L1, L0|]); [done|].
  unfold validate_interval in Hv. destruct (numeric_interval _), (_ || _); by simplify_eq.
Qed.

Lemma validate_positive b i : 0 ≤ i → validate_interval b i = Ok tt → 1 ≤ i ≤ u32_max.
Proof.
  unfold validate_interval. destruct (numeric_interval b). intros Hi.
  destruct (_ || _) eqn:E; [done|]. intros _. lia.
Qed.

(** Everything one [request] does to the native state and what it reports. *)
Definition request_post (i : Z) (p : W) (r : result TimerError TimerObservation) (p' : W) : Prop :=
  match r with
  | Ok o => seen p' = (native_calls p ++ [(true, STATUS_SUCCESS)], Some i) ∧
      obs_requested o = i ∧ is_satisfied o = true ∧ i ≤ u32_max
  | Err (TimerError.PostconditionUnverified _ _) =>
      ∃ status, seen p' = (native_calls p ++ [(true, STATUS_SUCCESS); (false, status)], None)
  | Err (TimerError.RequestFailed status) =>
      status ≠ STATUS_SUCCESS ∧ seen p' = (native_calls p ++ [(true, status)], requested p)
  | Err e => query_error e ∧ seen p' = seen p
  end.

Lemma windows_request_wp i p : wp (windows_request i) p (request_post i p).
Proof.
  unfold windows_request. log_step q0 L0. wp_step. apply preflight_wp.
  intros [qu|e] q1 L1 Hq.
  2:{ destruct e; try done; (split; [done|]; by rewrite L1, L0). }
  wp_step. apply desired_wp; [intros Hi|split; [done|by rewrite L1, L0]].
  wp_step. apply call_set_wp. intros status current q2 L2. log_step q3 L3.
  rewrite L0 in L1. injection L1 as N1 R1. rewrite N1, R1 in L2.
  destruct (status =? STATUS_SUCCESS) eqn:Hst; cbn [negb]; reflect_bools.
  2:{ wp_step. split; [done|]. by rewrite L3, L2. }
  subst status. wp_step. apply sample_wp. intros sampled q4 L4. log_step q5 L5.
  rewrite L4, L3, L2 in L5. injection L5 as N5 R5.
  wp_step. apply requested_wp. intros q6 L6. rewrite N5 in L6.
  set (o := mkObservation i (default current sampled) STATUS_SUCCESS).
  destruct (bool_decide (sampled = None) || negb (is_satisfied o)) eqn:Hbad.
  - unfold rollback. log_step q7 L7. rewrite L6 in L7. injection L7 as N7 R7.
    wp_step. apply call_set_wp. intros st cur q8 L8. rewrite N7 in L8. injection L8 as N8 R8.
    wp_step. apply requested_wp. intros q9 L9. log_step q10 L10. wp_step.
    exists st. by rewrite L10, L9, N8, <- app_assoc.
  - apply orb_false_iff in Hbad as [_ Hsat]. apply negb_false_iff in Hsat.
    destruct (is_finer_than_requested o); log_step q7 L7; wp_step; (split; [by rewrite L7, L6|done]).
Qed.

Definition release_post (i : Z) (p : W) (r : result TimerError TimerObservation) (p' : W) : Prop :=
  match r with
  | Ok o => seen p' = (native_calls p ++ [(false, STATUS_SUCCESS)], None) ∧ obs_requested o = i
  | Err (TimerError.ReleaseFailed status) =>
      status ≠ STATUS_SUCCESS ∧ seen p' = (native_calls p ++ [(false, status)], requested p)
  | Err e => e = TimerError.InvalidInterval ∧ seen p' = seen p
  end.

Lemma windows_release_wp i p : wp (windows_release i) p (release_post i p).
Proof.
  unfold windows_release. log_step q0 L0. wp_step. wp_step. wp_step.
  assert (Hlog : ∀ (Q : result TimerError unit → W → Prop) q,
    (∀ q', seen q' = seen q → Q (Ok tt) q') →
    wp (if bool_decide (requested q0 = Some i) then mret tt
        else log "timer.release.restorative"
          (kv "tracked_hns" (show_u (default 0 (requested q0))) ++
           lit " requested_hns=" ++ show_u i ++ lit " action=restorative_release")) q Q).
  { intros Q q HQ. case_bool_decide; [by apply HQ|by apply log_wp]. }
  apply Hlog. intros q1 L1. wp_step. apply desired_wp; [intros _|split; [done|by rewrite L1, L0]].
  rewrite L0 in L1. injection L1 as N1 R1.
  wp_step. apply call_set_wp. intros status current q2 L2. log_step q3 L3.
  rewrite L2, N1, R1 in L3. injection L3 as N3 R3.
  unfold apply_release_outcome. destruct (status =? STATUS_SUCCESS) eqn:Hst; cbn [negb]; reflect_bools.
  - subst status. wp_step. apply requested_wp. intros q4 L4. wp_step.
    split; [by rewrite L4, N3|done].
  - wp_step. split; [done|]. unfold seen. by rewrite N3, R3.
Qed.

Lemma windows_probe_wp i p :
  wp (windows_settle_probe i) p (λ r p',
    match r with
    | Ok _ => holds (native_calls p') = false
    | Err _ => holds (native_calls p') = holds (native_calls p) ∨ holds (native_calls p') = false
    end).
Proof.
  unfold windows_settle_probe. log_step q0 L0. injection L0 as N0 _.
  wp_step. apply (keeps_wp seen); [apply quiet_current|]. intros r q1 [= N1 _].
  destruct r as [before|e]; [|left; by rewrite N1, N0].
  wp_step. apply desired_wp; [intros _|left; by rewrite N1, N0].
  wp_step. apply call_set_wp. intros status current q2 [= N2 _]. log_step q3 L3.
  injection L3 as N3 _. destruct (status =? STATUS_SUCCESS) eqn:Hst; cbn [negb].
  - assert (Hn : holds (native_calls q3) = false) by by rewrite N3, N2, holds_snoc, Hst.
    wp_step. apply (keeps_wp seen); [apply quiet_current|]. intros r q4 [= N4 _].
    destruct r as [after|e]; [|right; by rewrite N4]. log_step q5 L5. injection L5 as N5 _.
    destruct (before <? after).
    + wp_step. apply requested_wp. intros q6 [= N6 _]. wp_step. by rewrite N6, N5, N4.
    + wp_step. by rewrite N5, N4.
  - log_step q4 L4. injection L4 as N4 _. wp_step. left.
    by rewrite N4, N3, N2, holds_snoc, Hst, N1, N0.
Qed.

Lemma seen_calls p p' : seen p' = seen p → native_calls p' = native_calls p.
Proof. by intros [= ? ?]. Qed.

#[export] Program Instance windows_laws : TimerPlatformLaws W := {
  held := λ p, holds (native_calls p) }.
Next Obligation. done. Qed.
Next Obligation. intros i p. cbn. by rewrite (seen_calls _ _ (quiet_query i p)). Qed.
Next Obligation. intros i p. cbn. by rewrite (seen_calls _ _ (quiet_resolve i p)). Qed.
Next Obligation. intros i p. cbn. by rewrite (seen_calls _ _ (quiet_preflight i p)). Qed.
Next Obligation.
  intros i p. pose proof (windows_request_wp i p) as Hw. unfold wp in Hw. cbn.
  destruct (windows_request i p) as [[o|e] p']; cbn in Hw.
  - destruct Hw as ([= -> _] & ? & ? & _). by rewrite holds_snoc.
  - destruct e; cbn in Hw; try done; destruct Hw as [Hs [= -> _]]; try done.
    rewrite holds_snoc. by rewrite (proj2 (Z.eqb_neq _ _)).
Qed.
Next Obligation.
  intros i p. pose proof (windows_release_wp i p) as Hw. unfold wp in Hw. cbn.
  destruct (windows_release i p) as [[o|e] p']; cbn in Hw.
  - destruct Hw as ([= -> _] & ?). by rewrite holds_snoc.
  - destruct e; cbn in Hw; destruct Hw as [Hs [= -> _]]; try done.
    rewrite holds_snoc. by rewrite (proj2 (Z.eqb_neq _ _)).
Qed.
Next Obligation.
  intros i p. pose proof (windows_probe_wp i p) as Hw. unfold wp in Hw. cbn.
  by destruct (windows_settle_probe i p).
Qed.

(** ** Properties of the adapter *)

(** C2: a resolution request, whatever the kernel answers.  It succeeds only
    after exactly one accepted set call, with an observation within tolerance of
    the interval; an effect that could not be verified is always followed by
    the releasing call before the error is reported; every other failure leaves
    no accepted set call behind.  The tracked interval is set exactly on
    success. *)
Theorem windows_request_exact i p :
  let '(r, p') := windows_request i p in
  match r with
  | Ok o => native_calls p' = native_calls p ++ [(true, STATUS_SUCCESS)] ∧ requested p' = Some i ∧
      obs_requested o = i ∧ reported_current o ≤ i + HARDWARE_TIMER_TOLERANCE_HNS ∧ i ≤ u32_max
  | Err (TimerError.PostconditionUnverified _ _) => requested p' = None ∧
      ∃ status, native_calls p' = native_calls p ++ [(true, STATUS_SUCCESS); (false, status)]
  | Err (TimerError.RequestFailed status) => requested p' = requested p ∧
      status ≠ STATUS_SUCCESS ∧ native_calls p' = native_calls p ++ [(true, status)]
  | Err e => query_error e ∧ requested p' = requested p ∧ native_calls p' = native_calls p
  end.
Proof.
  pose proof (windows_request_wp i p) as Hw. unfold wp in Hw.
  destruct (windows_request i p) as [[o|e] p']; cbn in Hw.
  - destruct Hw as ([= -> ->] & <- & Hs & Hi). split_and!; try done.
    unfold is_satisfied, HARDWARE_TIMER_TOLERANCE_HNS, sat_sub in *. lia.
  - destruct e; cbn in Hw; try done.
    7: { destruct Hw as [st [= -> ->]]. split; [done|]. by exists st. }
    all: destruct Hw as [? [= -> ->]]; done.
Qed.

End WindowsLaws.

Lemma numeric_interval_min_max b :
  numeric_interval b = (Z.min (minimum_interval b) (maximum_interval b),
                        Z.max (minimum_interval b) (maximum_interval b)).
Proof. unfold numeric_interval. destruct (Z.leb_spec (minimum_interval b) (maximum_interval b)); f_equal; lia. Qed.

(** Resolving a request against the native bounds.  The order in which the
    kernel reports the bounds does not matter; a resolved interval is a positive
    32-bit value inside them; the automatic request (zero) gives the smallest
    supported one and a fixed request gives itself. *)
Theorem resolve_request_in_bounds q requested0 :
  0 ≤ minimum_interval (bounds q) → 0 ≤ maximum_interval (bounds q) → 0 ≤ requested0 →
  let lo := Z.min (minimum_interval (bounds q)) (maximum_interval (bounds q)) in
  let hi := Z.max (minimum_interval (bounds q)) (maximum_interval (bounds q)) in
  let swapped := mkQuery (mkBounds (maximum_interval (bounds q)) (minimum_interval (bounds q)))
                   (query_current q) (query_status q) in
  resolve_request q requested0 = resolve_request swapped requested0 ∧
  ∀ s, resolve_request q requested0 = Ok s ↔
    1 ≤ s ≤ u32_max ∧ lo ≤ s ≤ hi ∧ s = (if requested0 =? 0 then lo else requested0).
Proof.
  intros Hmn Hmx Hr. cbv zeta.
  unfold resolve_request, smallest_supported_boundary, validate_interval.
  rewrite !numeric_interval_min_max. cbn [bounds minimum_interval maximum_interval].
  rewrite (Z.min_comm (maximum_interval _)), (Z.max_comm (maximum_interval _)).
  split; [done|]. intros s.
  set (lo := Z.min _ _) in *. set (hi := Z.max _ _) in *.
  assert (0 ≤ lo ≤ hi) by lia. clearbody lo hi.
  destruct (requested0 =? 0) eqn:E; reflect_bools.
  - destruct ((lo =? 0) || (u32_max <? lo)) eqn:E1; cbn [mbind result_bind].
    { split; [done|]. intros. unfold u32_max in *. lia. }
    replace (_ || _) with false by lia. cbn [mbind result_bind].
    split; [intros [= <-]|intros (_ & _ & ->)]; [unfold u32_max in *; lia|done].
  - cbn [mbind result_bind]. destruct (_ || _) eqn:E1; cbn [mbind result_bind].
    + split; [done|]. intros. unfold u32_max in *. lia.
    + split; [intros [= <-]|intros (_ & _ & ->)]; [unfold u32_max in *; lia|done].
Qed.

Lemma resolve_request_in_bounds_witness :
  resolve_request (mkQuery (mkBounds 156250 5000) 9966 0) 0 = Ok 5000.
Proof.
  apply (proj2 (resolve_request_in_bounds (mkQuery (mkBounds 156250 5000) 9966 0) 0
    ltac:(cbn; lia) ltac:(cbn; lia) ltac:(lia)) 5000). cbn. unfold u32_max. lia.
Defined.

(** The verified value of three samples cannot be moved across the tolerance
    by one outlier.  With three successful reads the result is one of them and
    satisfies the tolerance exactly when at least two of them do; with two the
    result, when there is one, satisfies it; with fewer there is none. *)
Theorem median_majority samples interval m :
  median_of_samples samples interval = Some m →
  let ok := λ s, sample_satisfies_tolerance s interval in
  m ∈ samples ∧ (length samples = 2 ∨ length samples = 3)%nat ∧
  (length samples = 2%nat → ok m = true) ∧
  (length samples = 3%nat → (ok m = true ↔ (2 ≤ length (List.filter ok samples))%nat)).
Proof.
  intros H ok.
  destruct samples as [|a [|b [|c [|d l]]]]; cbn [median_of_samples] in H; try done.
  - cbn [length]. change (sample_satisfies_tolerance a interval) with (ok a) in H.
    change (sample_satisfies_tolerance b interval) with (ok b) in H.
    assert (Hmin : ok a = true → ok b = true → ok (Z.min a b) = true).
    { intros ? ?. by destruct (Z.min_spec a b) as [[_ ->]|[_ ->]]. }
    destruct (ok a) eqn:Ha, (ok b) eqn:Hb; simplify_eq; split_and!; auto; try set_solver; try done.
    destruct (Z.min_spec a b) as [[_ ->]|[_ ->]]; set_solver.
  - injection H as <-. cbn [length List.filter].
    assert (Hmono : ∀ x y, x ≤ y → ok y = true → ok x = true).
    { intros x y. unfold ok, sample_satisfies_tolerance, HARDWARE_TIMER_TOLERANCE_HNS, sat_sub. lia. }
    unfold median_of_three. split_and!; [destruct_ifs; set_solver|auto|done|intros _].
    pose proof (Hmono a b). pose proof (Hmono b a). pose proof (Hmono a c). pose proof (Hmono c a).
    pose proof (Hmono b c). pose proof (Hmono c b).
    destruct_ifs; reflect_bools; destruct (ok a), (ok b), (ok c); cbn [length];
      split; intros; try lia; try done; exfalso; intuition lia.
Qed.

Lemma median_majority_witness :
  5000 ∈ [4966; 90000; 5000] ∧ sample_satisfies_tolerance 5000 5000 = true.
Proof.
  pose proof (median_majority [4966; 90000; 5000] 5000 5000 eq_refl) as (H & _ & _ & H3).
  split; [exact H|]. apply H3; [reflexivity|vm_compute; lia].
Defined.

(** ** A concrete kernel, for the witnesses

    One client at a time: a request sets the current resolution to the desired
    one, a release returns it to the default.  Every call succeeds. *)
Definition single_client_kernel : NtKernel Z := {|
  nt_query_timer_resolution := λ current, ((STATUS_SUCCESS, 156250, 5000, current), current);
  nt_set_timer_resolution := λ desired set _,
    let current := if set then desired else 156250 in ((STATUS_SUCCESS, current), current) |}.
