(* ===== verification/Ownership.v ===== *)
(** * Ownership: the serialized bookkeeping of the timer request

    Models [crates/tick-ownership/src/lib.rs].  [TimerController] is generic in
    its platform, as in the code: its theorems use only [TimerPlatform] and
    [TimerPlatformLaws], which [Platform] discharges for the Windows adapter. *)
From S2P Require Import Prelude Text Core Diagnostics Platform.

Definition KERNEL_SETTLE_HIGH_RESOLUTION_THRESHOLD_HNS : Z := HNS_PER_MILLISECOND.
Definition KERNEL_SETTLE_PROBE_CANDIDATE_INTERVAL_HNS : Z := HNS_PER_MILLISECOND / 2.
Definition SETTLE_PROBE_ATTEMPTS : Z := 3.
Definition SETTLE_PROBE_SPACING_MS : Z := 250.

Definition settle_probe_budget_remaining (attempts_used : Z) : Z :=
  sat_sub SETTLE_PROBE_ATTEMPTS attempts_used.

Module SettleProbeOutcome.
Inductive SettleProbeOutcome :=
| Resolved (freed_hns : Z) | ExternalClientConfirmed | Exhausted.
End SettleProbeOutcome.
Abbreviation SettleProbeOutcome := SettleProbeOutcome.SettleProbeOutcome.

Module SettleProbeStep.
Inductive SettleProbeStep :=
| NotApplicable | Retry (budget_remaining : Z) | Settled (outcome : SettleProbeOutcome).
End SettleProbeStep.
Abbreviation SettleProbeStep := SettleProbeStep.SettleProbeStep.

(** ** The ownership state machine *)

Module OwnershipState.
Inductive OwnershipState := Released | Owned | Uncertain.
End OwnershipState.
Abbreviation OwnershipState := OwnershipState.OwnershipState.
#[export] Instance OwnershipState_eq_dec : EqDecision OwnershipState.
Proof. solve_decision. Defined.

Module Transition.
Inductive Transition := Acquire | Release.
End Transition.
Abbreviation Transition := Transition.Transition.

(** [Ownership::apply]: the new state and whether it changed.  The code's result
    type allows an error that no branch returns. *)
Definition apply (s : OwnershipState) (t : Transition) : result CoreError (OwnershipState * bool) :=
  match s, t with
  | OwnershipState.Released, Transition.Acquire => Ok (OwnershipState.Owned, true)
  | OwnershipState.Owned, Transition.Release
  | OwnershipState.Uncertain, Transition.Release => Ok (OwnershipState.Released, true)
  | OwnershipState.Owned, Transition.Acquire
  | OwnershipState.Uncertain, Transition.Acquire
  | OwnershipState.Released, Transition.Release => Ok (s, false)
  end.

Definition ownership_status (s : OwnershipState) : Status :=
  match s with
  | OwnershipState.Released => Status.Released
  | OwnershipState.Owned => Status.Active
  | OwnershipState.Uncertain => Status.Unknown
  end.

Module Verification.
Inductive Verification := NotCollected | Verified | FinerThanRequested | Unverified.
End Verification.
Abbreviation Verification := Verification.Verification.
#[export] Instance Verification_eq_dec : EqDecision Verification.
Proof. solve_decision. Defined.

Record TimingSnapshot := mkTiming {
  snap_requested : option Z;
  snap_selected : option Z;
  snap_effective : option Z;
  snap_minimum : option Z;
  snap_maximum : option Z;
  snap_raw_status : option Z }.
Definition timing_default : TimingSnapshot := mkTiming None None None None None None.

Definition snapshot_effective_relation (s : TimingSnapshot) : option str :=
  let boundary := match snap_selected s with Some b => Some b | None => snap_requested s end in
  match boundary, snap_effective s with
  | Some r, Some e =>
      if e <? r then Some (lit "finer")
      else if e =? r then Some (lit "equal") else Some (lit "unverified")
  | _, _ => None
  end.

Definition invalidate_effective (s : TimingSnapshot) : TimingSnapshot :=
  mkTiming (snap_requested s) (snap_selected s) None (snap_minimum s) (snap_maximum s) None.

Definition verification_for_observation (o : TimerObservation) : Verification :=
  if is_finer_than_requested o then Verification.FinerThanRequested else Verification.Verified.

Definition settle_probe_no_change (attempts_consumed : Z) : SettleProbeStep :=
  let budget_remaining := settle_probe_budget_remaining attempts_consumed in
  if budget_remaining =? 0 then SettleProbeStep.Settled SettleProbeOutcome.Exhausted
  else SettleProbeStep.Retry budget_remaining.

(** ** The controller *)

Record TimerController (P : Type) := mkController {
  platform : P;
  ownership : OwnershipState;
  requested_interval : Z;
  selected_interval : option Z;
  release_boundary : option Z;
  verification : Verification;
  observation : option TimerObservation;
  snapshot : TimingSnapshot }.
Arguments mkController {P}.
Arguments platform {P}. Arguments ownership {P}. Arguments requested_interval {P}.
Arguments selected_interval {P}. Arguments release_boundary {P}. Arguments verification {P}.
Arguments observation {P}. Arguments snapshot {P}.

Section Controller.
Context {P : Type} `{TimerPlatform P}.
Abbreviation C := (TimerController P).
Abbreviation M := (comp C TimerError).

Definition new (p : P) (interval : Z) : C :=
  mkController p OwnershipState.Released interval None None Verification.NotCollected None
    timing_default.

(** Field assignments. *)
Definition set_platform (p : P) (c : C) : C :=
  mkController p (ownership c) (requested_interval c) (selected_interval c) (release_boundary c)
    (verification c) (observation c) (snapshot c).
Definition set_ownership (s : OwnershipState) (c : C) : C :=
  mkController (platform c) s (requested_interval c) (selected_interval c) (release_boundary c)
    (verification c) (observation c) (snapshot c).
Definition set_requested_interval (i : Z) (c : C) : C :=
  mkController (platform c) (ownership c) i (selected_interval c) (release_boundary c)
    (verification c) (observation c) (snapshot c).
Definition set_selected (s : option Z) (c : C) : C :=
  mkController (platform c) (ownership c) (requested_interval c) s (release_boundary c)
    (verification c) (observation c) (snapshot c).
Definition set_boundary (b : option Z) (c : C) : C :=
  mkController (platform c) (ownership c) (requested_interval c) (selected_interval c) b
    (verification c) (observation c) (snapshot c).
Definition set_verification (v : Verification) (c : C) : C :=
  mkController (platform c) (ownership c) (requested_interval c) (selected_interval c)
    (release_boundary c) v (observation c) (snapshot c).
Definition set_observed (o : option TimerObservation) (s : TimingSnapshot) (c : C) : C :=
  mkController (platform c) (ownership c) (requested_interval c) (selected_interval c)
    (release_boundary c) (verification c) o s.

(** A call of a platform method. *)
Definition on_platform {A} (m : comp P TimerError A) : M A := fun c =>
  let '(r, p) := m (platform c) in (r, set_platform p c).

Definition controller_set_context (ctx : option (Z * option Z * Z)) (c : C) : C :=
  set_platform (set_operation_context ctx (platform c)) c.

Definition selected_for_query : M Z :=
  c ← get;
  match release_boundary c with
  | Some interval => mret interval
  | None =>
      match selected_interval c with
      | Some interval => mret interval
      | None =>
          interval ← on_platform (resolve (requested_interval c));
          _ ← modify (set_selected (Some interval));
          mret interval
      end
  end.

Definition record_query (interval current status : Z) : M unit :=
  modify (λ c, set_observed (Some (mkObservation interval current status))
    (mkTiming (Some interval) (snap_selected (snapshot c)) (Some current)
       (snap_minimum (snapshot c)) (snap_maximum (snapshot c)) (Some status)) c).

Definition invalidate_query : M unit :=
  modify (λ c, set_observed None (invalidate_effective (snapshot c)) c).

(** [match m { Ok(x) => x, Err(error) => { self.invalidate_query(); return Err(error) } }] *)
Definition or_invalidate {A} (m : M A) : M A :=
  r ← attempt m;
  match r with
  | Ok x => mret x
  | Err error => _ ← invalidate_query; fail error
  end.

Definition set_snapshot_bounds (selected : option Z) (bs : TimerBounds) : M unit :=
  modify (λ c, set_observed (observation c)
    (mkTiming (snap_requested (snapshot c)) selected (snap_effective (snapshot c))
       (Some (minimum_interval bs)) (Some (maximum_interval bs)) (snap_raw_status (snapshot c))) c).

Definition set_snapshot_selected (selected : option Z) : M unit :=
  modify (λ c, set_observed (observation c)
    (mkTiming (snap_requested (snapshot c)) selected (snap_effective (snapshot c))
       (snap_minimum (snapshot c)) (snap_maximum (snapshot c)) (snap_raw_status (snapshot c))) c).

Definition controller_query : M TimerObservation :=
  interval ← or_invalidate selected_for_query;
  q ← or_invalidate (on_platform (query interval));
  c ← get;
  _ ← set_snapshot_bounds
        (match selected_interval c with Some s => Some s | None => release_boundary c end) (bounds q);
  _ ← record_query interval (query_current q) (query_status q);
  mret (mkObservation interval (query_current q) (query_status q)).

Definition observe_current (boundary : Z) : M TimerObservation :=
  c ← get;
  if negb (bool_decide (release_boundary c = Some boundary)) then fail TimerError.InvalidInterval
  else
    q ← or_invalidate (on_platform (query boundary));
    _ ← set_snapshot_bounds (Some boundary) (bounds q);
    _ ← record_query boundary (query_current q) (query_status q);
    mret (mkObservation boundary (query_current q) (query_status q)).

Definition apply_transition (t : Transition) : M unit :=
  c ← get;
  match apply (ownership c) t with
  | Ok (s, _) => modify (set_ownership s)
  | Err _ => fail TimerError.InvalidStateTransition
  end.

Definition start : M Verification :=
  c ← get;
  if negb (bool_decide (ownership c = OwnershipState.Released))
     || bool_decide (verification c = Verification.Unverified)
  then mret (verification c)
  else
    interval ← or_invalidate (on_platform (resolve (requested_interval c)));
    _ ← modify (set_selected (Some interval));
    _ ← modify (set_boundary None);
    q ← or_invalidate (on_platform (preflight interval));
    _ ← set_snapshot_bounds (Some interval) (bounds q);
    _ ← record_query interval (query_current q) (query_status q);
    r ← attempt (on_platform (request interval));
    match r with
    | Err error =>
        _ ← match error with
            | TimerError.PostconditionUnverified status current =>
                _ ← set_snapshot_selected (Some interval);
                _ ← record_query interval current status;
                _ ← modify (set_ownership OwnershipState.Uncertain);
                modify (set_verification Verification.Unverified)
            | _ => mret tt
            end;
        fail error
    | Ok o =>
        _ ← set_snapshot_selected (Some interval);
        _ ← record_query (obs_requested o) (reported_current o) (raw_status o);
        _ ← apply_transition Transition.Acquire;
        _ ← modify (set_verification (verification_for_observation o));
        mret (verification_for_observation o)
    end.

Definition stop : M bool :=
  c ← get;
  if bool_decide (ownership c = OwnershipState.Released) then mret false
  else
    interval ← lift (ok_or (selected_interval c) TimerError.InvalidInterval);
    r ← attempt (on_platform (release interval));
    match r with
    | Err error => _ ← modify (set_verification Verification.Unverified); fail error
    | Ok o =>
        _ ← set_snapshot_selected (Some interval);
        _ ← record_query (obs_requested o) (reported_current o) (raw_status o);
        _ ← apply_transition Transition.Release;
        _ ← modify (set_verification Verification.NotCollected);
        _ ← modify (set_boundary (Some interval));
        _ ← modify (set_selected None);
        mret true
    end.

Definition clamp_requested_interval_floor (floor : Z) (c : C) : C :=
  let c := if requested_interval c <? floor then set_requested_interval floor c else c in
  if match selected_interval c with Some v => v <? floor | None => false end
  then set_selected None c else c.

Definition clear_release_boundary (c : C) : C :=
  set_observed (observation c)
    (mkTiming (snap_requested (snapshot c)) None (snap_effective (snapshot c))
       (snap_minimum (snapshot c)) (snap_maximum (snapshot c)) (snap_raw_status (snapshot c)))
    (set_boundary None c).

Definition attempt_startup_kernel_settle_probe (attempts_used : Z) : M SettleProbeStep :=
  c ← get;
  match snap_effective (snapshot c) with
  | None => mret SettleProbeStep.NotApplicable
  | Some effective =>
      if negb (bool_decide (ownership c = OwnershipState.Released))
      then mret SettleProbeStep.NotApplicable
      else if KERNEL_SETTLE_HIGH_RESOLUTION_THRESHOLD_HNS <? effective
      then mret (SettleProbeStep.Settled SettleProbeOutcome.ExternalClientConfirmed)
      else if settle_probe_budget_remaining attempts_used =? 0
      then mret (SettleProbeStep.Settled SettleProbeOutcome.Exhausted)
      else
        let attempts_consumed := sat_add 32 attempts_used 1 in
        r ← attempt (on_platform
              (attempt_kernel_settle_probe KERNEL_SETTLE_PROBE_CANDIDATE_INTERVAL_HNS));
        match r with
        | Err _ => mret (settle_probe_no_change attempts_consumed)
        | Ok probe =>
            _ ← record_query KERNEL_SETTLE_PROBE_CANDIDATE_INTERVAL_HNS (after_effective probe) 0;
            _ ← modify (set_boundary None);
            _ ← modify (set_selected None);
            mret match probe_outcome probe with
            | KernelSettleProbeOutcome.Restored =>
                if before_effective probe <? after_effective probe
                then SettleProbeStep.Settled (SettleProbeOutcome.Resolved
                       (sat_sub (after_effective probe) (before_effective probe)))
                else settle_probe_no_change attempts_consumed
            | KernelSettleProbeOutcome.ExternalTiming =>
                SettleProbeStep.Settled SettleProbeOutcome.ExternalClientConfirmed
            end
        end
  end.

Definition controller_status (c : C) : Status := ownership_status (ownership c).

(** ** The operations a client can call, as actions *)

Inductive Action :=
| DoContext (ctx : option (Z * option Z * Z))
| DoQuery
| DoObserve (boundary : Z)
| DoStart
| DoStop
| DoClamp (floor : Z)
| DoClear
| DoProbe (attempts_used : Z).

Definition act (a : Action) (c : C) : C :=
  match a with
  | DoContext ctx => controller_set_context ctx c
  | DoQuery => (controller_query c).2
  | DoObserve b => (observe_current b c).2
  | DoStart => (start c).2
  | DoStop => (stop c).2
  | DoClamp f => clamp_requested_interval_floor f c
  | DoClear => clear_release_boundary c
  | DoProbe n => (attempt_startup_kernel_settle_probe n c).2
  end.
Definition run (c : C) (l : list Action) : C := fold_left (λ c a, act a c) l c.

End Controller.

(** ** What the controller promises

    The abstract state is the kernel's: whether this process holds a request.
    [Released] means it does not and [Owned] that it does. *)

Section Tracking.
Context {P : Type} `{TimerPlatformLaws P}.
Abbreviation C := (TimerController P).
Implicit Types c : C.

Definition view c : OwnershipState * Verification * bool :=
  (ownership c, verification c, held (platform c)).

Definition tracks c : Prop :=
  match ownership c with
  | OwnershipState.Released => held (platform c) = false ∧ verification c = Verification.NotCollected
  | OwnershipState.Owned => held (platform c) = true ∧ verification c ≠ Verification.NotCollected
  | OwnershipState.Uncertain => verification c = Verification.Unverified
  end.

Lemma tracks_view c c' : view c' = view c → tracks c → tracks c'.
Proof. unfold tracks. by intros [= -> -> ->]. Qed.

Abbreviation still := (keeps view).

Lemma on_platform_wp {A} (m : comp P TimerError A) c (Q : result TimerError A → C → Prop) :
  wp m (platform c) (λ r p, Q r (set_platform p c)) → wp (on_platform m) c Q.
Proof. unfold wp, on_platform. by destruct (m (platform c)). Qed.

Lemma still_platform {A} (m : comp P TimerError A) :
  (∀ p, held (m p).2 = held p) → still (on_platform m).
Proof.
  intros Hm c. unfold on_platform, view. specialize (Hm (platform c)).
  destruct (m (platform c)) as [r p]. cbn in *. by rewrite Hm.
Qed.
Lemma still_query i : still (on_platform (query i)).
Proof. apply still_platform, query_held. Qed.
Lemma still_resolve i : still (on_platform (resolve i)).
Proof. apply still_platform, resolve_held. Qed.
Lemma still_preflight i : still (on_platform (preflight i)).
Proof. apply still_platform, preflight_held. Qed.
Lemma still_get : still (get : comp C TimerError C).
Proof. done. Qed.
Lemma still_record i cur st : still (record_query i cur st : comp C TimerError unit).
Proof. done. Qed.
Lemma still_invalidate : still (invalidate_query : comp C TimerError unit).
Proof. done. Qed.
Lemma still_bounds s b : still (set_snapshot_bounds s b : comp C TimerError unit).
Proof. done. Qed.
Lemma still_snapshot s : still (set_snapshot_selected s : comp C TimerError unit).
Proof. done. Qed.
Lemma still_selected s : still (modify (set_selected s) : comp C TimerError unit).
Proof. done. Qed.
Lemma still_boundary s : still (modify (set_boundary s) : comp C TimerError unit).
Proof. done. Qed.
#[local] Hint Resolve still_query still_resolve still_preflight still_get still_record
  still_invalidate still_bounds still_snapshot still_selected still_boundary : tick.

Lemma still_or_invalidate {A} (m : comp C TimerError A) : still m → still (or_invalidate m).
Proof.
  intros Hm. unfold or_invalidate. apply keeps_bind; [auto with tick|]. intros [x|e]; auto with tick.
Qed.
#[local] Hint Resolve still_or_invalidate : tick.

Lemma still_selected_for_query : still selected_for_query.
Proof.
  unfold selected_for_query. apply keeps_bind; [auto with tick|]. intros c.
  destruct (release_boundary c); [auto with tick|]. destruct (selected_interval c); auto with tick.
Qed.
#[local] Hint Resolve still_selected_for_query : tick.

Lemma still_controller_query : still controller_query.
Proof. unfold controller_query. repeat (apply keeps_bind; [auto with tick|intros]). auto with tick. Qed.
Lemma still_observe b : still (observe_current b).
Proof.
  unfold observe_current. apply keeps_bind; [auto with tick|]. intros c. destruct (negb _); [auto with tick|].
  repeat (apply keeps_bind; [auto with tick|intros]). auto with tick.
Qed.

(** A step that leaves the view as it is: what follows may assume just that. *)
Ltac still_step c' Hc :=
  rewrite wp_bind; apply (keeps_wp view); [auto with tick|]; intros ? c' Hc.

Lemma modify_wp (g : C → C) c (Q : result TimerError unit → C → Prop) :
  Q (Ok tt) (g c) → wp (modify g) c Q.
Proof. done. Qed.

(** [start] and [stop], by cases of their results. *)
Definition start_post c (r : result TimerError Verification) c' : Prop :=
  match r with
  | Ok v =>
      if bool_decide (ownership c = OwnershipState.Released)
         && negb (bool_decide (verification c = Verification.Unverified))
      then view c' = (OwnershipState.Owned, v, true) ∧ v ≠ Verification.NotCollected ∧
        v ≠ Verification.Unverified
      else c' = c ∧ v = verification c
  | Err e => view c' = view c ∨
      (ownership c = OwnershipState.Released ∧ ownership c' = OwnershipState.Uncertain ∧
       verification c' = Verification.Unverified ∧
       ∃ status current, e = TimerError.PostconditionUnverified status current)
  end.

Definition stop_post c (r : result TimerError bool) c' : Prop :=
  match r with
  | Ok true => ownership c ≠ OwnershipState.Released ∧
      view c' = (OwnershipState.Released, Verification.NotCollected, false) ∧
      selected_interval c' = None ∧ release_boundary c' = selected_interval c
  | Ok false => c' = c ∧ ownership c = OwnershipState.Released
  | Err _ => ownership c' = ownership c ∧ ownership c ≠ OwnershipState.Released ∧
      selected_interval c' = selected_interval c ∧
      held (platform c') = held (platform c) ∧
      (view c' = view c ∨ verification c' = Verification.Unverified)
  end.

(** Calls of the platform's fallible methods, by their laws. *)
Lemma request_wp i c (Q : result TimerError TimerObservation → C → Prop) :
  (∀ o p, held p = true → is_satisfied o = true → Q (Ok o) (set_platform p c)) →
  (∀ e p, (held p = held (platform c) ∨ ∃ st cur, e = TimerError.PostconditionUnverified st cur) →
     Q (Err e) (set_platform p c)) →
  wp (on_platform (request i)) c Q.
Proof.
  intros Hok Herr. apply on_platform_wp. unfold wp. pose proof (request_spec i (platform c)) as Hr.
  destruct (request i (platform c)) as [[o|e] p]; cbn.
  - destruct Hr as (? & _ & ?). by apply Hok.
  - apply Herr. destruct e; eauto.
Qed.
Lemma release_wp i c (Q : result TimerError TimerObservation → C → Prop) :
  (∀ o p, held p = false → Q (Ok o) (set_platform p c)) →
  (∀ e p, held p = held (platform c) → Q (Err e) (set_platform p c)) →
  wp (on_platform (release i)) c Q.
Proof.
  intros Hok Herr. apply on_platform_wp. unfold wp. pose proof (release_spec i (platform c)) as Hr.
  destruct (release i (platform c)) as [[o|e] p]; cbn.
  - destruct Hr as (? & _). by apply Hok.
  - destruct Hr as (? & _). by apply Herr.
Qed.

Lemma or_invalidate_wp {A} (m : comp C TimerError A) c (Q : result TimerError A → C → Prop) :
  still m → (∀ x c', view c' = view c → Q (Ok x) c') → (∀ e c', view c' = view c → Q (Err e) c') →
  wp (or_invalidate m) c Q.
Proof.
  intros Hm Hok Herr. apply (keeps_wp view); [by apply still_or_invalidate|]. intros [x|e] c' Hc; auto.
Qed.

Lemma start_wp c : wp start c (start_post c).
Proof.
  unfold start. wp_step. wp_step. unfold start_post.
  destruct (bool_decide (ownership c = OwnershipState.Released)) eqn:Ho; cbn [negb andb orb];
    [|by wp_step].
  destruct (bool_decide (verification c = Verification.Unverified)) eqn:Hv; cbn [negb andb orb];
    [by wp_step|]. apply bool_decide_eq_true in Ho.
  wp_step. apply or_invalidate_wp; [auto with tick| |by left]. intros i c1 V1.
  still_step c2 V2. destruct r as [[]|e]; [|left; by rewrite V2].
  still_step c3 V3. destruct r as [[]|e]; [|left; by rewrite V3, V2].
  wp_step. apply or_invalidate_wp; [auto with tick| |intros e c4 V4; left; by rewrite V4, V3, V2].
  intros q c4 V4. still_step c5 V5. destruct r as [[]|e]; [|left; by rewrite V5, V4, V3, V2].
  still_step c6 V6. destruct r as [[]|e]; [|left; by rewrite V6, V5, V4, V3, V2].
  assert (V : view c6 = view c) by by rewrite V6, V5, V4, V3, V2. clear V1 V2 V3 V4 V5 V6.
  wp_step. wp_step. apply request_wp.
  - intros o p Hp _. unfold apply_transition, set_snapshot_selected, record_query.
    repeat wp_step. cbn. injection V as Vo _ _. rewrite Vo, Ho. cbn. repeat wp_step. cbn.
    split; [unfold view; cbn; by rewrite Hp|]. unfold verification_for_observation. by destruct (is_finer_than_requested o).
  - intros e p He. assert (Hsame : held p = held (platform c6) →
      view (set_platform p c6) = view c) by (intros Hp; rewrite <- V; unfold view; cbn; by rewrite Hp).
    destruct e; cbn; try (wp_step; wp_step; wp_step; left; apply Hsame; destruct He as [|(? & ? & ?)]; done).
    unfold set_snapshot_selected, record_query. repeat wp_step. right. cbn. split_and!; eauto.
Qed.

Lemma stop_wp c : wp stop c (stop_post c).
Proof.
  unfold stop. wp_step. wp_step. case_bool_decide as Ho; [by wp_step|].
  wp_step. wp_step. unfold ok_or. destruct (selected_interval c) as [i|] eqn:Hs.
  2:{ cbn. split_and!; auto. }
  wp_step. wp_step. apply release_wp.
  - intros o p Hp. unfold apply_transition, set_snapshot_selected, record_query.
    repeat wp_step. cbn. destruct (ownership c) eqn:Hoc; [done|..]; cbn; repeat wp_step;
      (split_and!; [by rewrite Hoc|unfold view; cbn; by rewrite Hp|done|cbn; by rewrite Hs]).
  - intros e p Hp. repeat wp_step. cbn. split_and!; auto.
Qed.

(** The settle probe runs only while released, and can only lose the request. *)
Lemma probe_wp n c :
  wp (attempt_startup_kernel_settle_probe n) c (λ r c',
    ownership c' = ownership c ∧ verification c' = verification c ∧
    (held (platform c') = held (platform c) ∨
       ownership c = OwnershipState.Released ∧ held (platform c') = false)).
Proof.
  unfold attempt_startup_kernel_settle_probe. wp_step. wp_step.
  destruct (snap_effective (snapshot c)) as [eff|]; [|wp_step; auto].
  case_bool_decide as Ho; cbn [negb]; [|wp_step; auto].
  destruct (_ <? eff); [wp_step; auto|]. destruct (_ =? 0); [wp_step; auto|].
  wp_step. wp_step. apply on_platform_wp. unfold wp at 1.
  pose proof (probe_spec KERNEL_SETTLE_PROBE_CANDIDATE_INTERVAL_HNS (platform c)) as Hp.
  destruct (attempt_kernel_settle_probe _ _) as [[pr|e] p]; cbn.
  - unfold record_query. repeat wp_step. cbn. auto.
  - wp_step. cbn. destruct Hp; auto.
Qed.

Lemma act_tracks a c : tracks c → tracks (act a c).
Proof.
  intros Ht. destruct a; cbn [act].
  - eapply tracks_view, Ht. unfold view, controller_set_context. cbn. by rewrite context_held.
  - eapply tracks_view, Ht. apply still_controller_query.
  - eapply tracks_view, Ht. apply still_observe.
  - pose proof (start_wp c) as Hw. unfold wp in Hw. destruct (start c) as [[v|e] c']; cbn in *.
    + destruct (_ && _); [|by destruct Hw as [-> _]]. destruct Hw as ([= Ho Hv Hh] & Hn & _).
      unfold tracks. rewrite Ho, Hv. done.
    + destruct Hw as [Hw|(_ & Ho & Hv & _)]; [by eapply tracks_view|]. unfold tracks. by rewrite Ho.
  - pose proof (stop_wp c) as Hw. unfold wp in Hw. destruct (stop c) as [[[]|e] c']; cbn in *.
    + destruct Hw as (_ & [= Ho Hv Hh] & _). unfold tracks. by rewrite Ho.
    + by destruct Hw as [-> _].
    + destruct Hw as (Ho & Hn & _ & Hh & Hv). destruct Hv as [Hv|Hv]; [by eapply tracks_view|].
      unfold tracks in *. rewrite Ho, Hh, Hv. destruct (ownership c); naive_solver.
  - unfold clamp_requested_interval_floor. destruct (_ <? floor), (match _ with Some _ => _ | None => _ end);
      exact Ht.
  - exact Ht.
  - pose proof (probe_wp attempts_used c) as Hw. unfold wp in Hw. destruct Hw as (Ho & Hv & Hh).
    unfold tracks in *. rewrite Ho, Hv. destruct (ownership c); destruct Hh as [Hh|[? Hh]]; rewrite ?Hh; naive_solver.
Qed.

Lemma run_tracks l c : tracks c → tracks (run c l).
Proof.
  revert c. induction l as [|a l IH]; intros c Ht; cbn; [done|]. by apply IH, act_tracks.
Qed.

(** C1: the controller's state is the kernel's.  From a platform that holds no
    request, after any sequence of operations in any order with any kernel
    answers: [Released] means this process holds no resolution request (nothing
    leaks) and [Owned] that it holds one; only an unverified request leaves
    [Uncertain], and then its verification is [Unverified]. *)
Theorem ownership_tracks_kernel p interval l :
  held p = false →
  let c := run (new p interval) l in
  (ownership c = OwnershipState.Released → held (platform c) = false) ∧
  (ownership c = OwnershipState.Owned → held (platform c) = true) ∧
  (ownership c = OwnershipState.Uncertain → verification c = Verification.Unverified) ∧
  (ownership c = OwnershipState.Released ↔ verification c = Verification.NotCollected).
Proof.
  intros Hp c. assert (Ht : tracks c) by by apply run_tracks.
  clearbody c. unfold tracks in Ht. destruct (ownership c).
  - destruct Ht. by split_and!.
  - destruct Ht as [? Hn]. split_and!; done.
  - rewrite Ht. by split_and!.
Qed.

(** Acquiring and releasing.  [start] on a released controller either ends
    owned with the request held and verified, or fails leaving ownership as it
    was, except for an unverified request, which ends [Uncertain]; on any other
    controller it changes nothing.  [stop] either ends released with nothing
    held, remembering the released interval as the boundary, or fails keeping
    ownership and the selected interval, so that it can be retried. *)
Theorem start_stop_exact c :
  start_post c (start c).1 (start c).2 ∧ stop_post c (stop c).1 (stop c).2.
Proof. split; [apply start_wp|apply stop_wp]. Qed.


(** The startup loop: probe again while the step says so, counting attempts. *)
Fixpoint settle_loop (fuel : nat) (attempts_used : Z) c : option SettleProbeStep * C :=
  match fuel with
  | O => (None, c)
  | S fuel' =>
      let '(r, c') := attempt_startup_kernel_settle_probe attempts_used c in
      match r with
      | Ok (SettleProbeStep.Retry _) => settle_loop fuel' (attempts_used + 1) c'
      | Ok step => (Some step, c')
      | Err _ => (None, c')
      end
  end.

Lemma no_change_step n :
  0 ≤ n → settle_probe_no_change n =
    if n <? SETTLE_PROBE_ATTEMPTS then SettleProbeStep.Retry (SETTLE_PROBE_ATTEMPTS - n)
    else SettleProbeStep.Settled SettleProbeOutcome.Exhausted.
Proof.
  intros Hn. unfold settle_probe_no_change, settle_probe_budget_remaining, SETTLE_PROBE_ATTEMPTS, sat_sub.
  destruct (Z.ltb_spec n 3).
  - replace (_ =? 0) with false by lia. f_equal. lia.
  - replace (_ =? 0) with true by lia. done.
Qed.

(** What one probe step can be. *)
Definition probe_step_ok (n : Z) c (step : SettleProbeStep) c' : Prop :=
  match step with
  | SettleProbeStep.NotApplicable => c' = c ∧
      (snap_effective (snapshot c) = None ∨ ownership c ≠ OwnershipState.Released)
  | SettleProbeStep.Retry b => b = SETTLE_PROBE_ATTEMPTS - (n + 1) ∧ 0 < b
  | SettleProbeStep.Settled (SettleProbeOutcome.Resolved freed) => 0 < freed
  | SettleProbeStep.Settled SettleProbeOutcome.ExternalClientConfirmed => True
  | SettleProbeStep.Settled SettleProbeOutcome.Exhausted => SETTLE_PROBE_ATTEMPTS ≤ n + 1
  end.

Lemma probe_step_wp n c :
  0 ≤ n < u32_max →
  wp (attempt_startup_kernel_settle_probe n) c (λ r c', ∃ step, r = Ok step ∧ probe_step_ok n c step c').
Proof.
  intros Hn. unfold attempt_startup_kernel_settle_probe. wp_step. wp_step.
  assert (Hno : ∀ c', probe_step_ok n c (settle_probe_no_change (sat_add 32 n 1)) c').
  { intros c'. replace (sat_add 32 n 1) with (n + 1) by (unfold_ints; lia). rewrite no_change_step by lia.
    unfold probe_step_ok, SETTLE_PROBE_ATTEMPTS. destruct (Z.ltb_spec (n + 1) 3); lia. }
  destruct (snap_effective (snapshot c)) as [eff|] eqn:He; [|wp_step; eexists; split; [done|]; cbn; auto].
  case_bool_decide as Ho; cbn [negb]; [|wp_step; eexists; split; [done|]; cbn; auto].
  destruct (_ <? eff); [wp_step; by eexists|].
  destruct (settle_probe_budget_remaining n =? 0) eqn:Hb.
  { wp_step. eexists. split; [done|]. unfold settle_probe_budget_remaining, sat_sub in Hb. cbn. lia. }
  wp_step. wp_step. apply on_platform_wp. unfold wp at 1.
  destruct (attempt_kernel_settle_probe _ _) as [[pr|e] p]; cbn [fst snd].
  - unfold record_query. repeat wp_step. eexists. split; [done|].
    destruct (probe_outcome pr); [|done]. destruct (_ <? _) eqn:Hlt; [|done].
    reflect_bools. cbn. unfold sat_sub. lia.
  - wp_step. by eexists.
Qed.

(** The startup settle probe ends.  Starting with no attempt used, the retry
    loop reaches a terminal step within [SETTLE_PROBE_ATTEMPTS] attempts on any
    platform; it does not apply only while owned or unobserved, and a token it
    reports as freed moved the resolution coarser by a positive amount. *)
Theorem settle_probe_ends c :
  ∃ step c', settle_loop (Z.to_nat SETTLE_PROBE_ATTEMPTS) 0 c = (Some step, c') ∧
  match step with
  | SettleProbeStep.NotApplicable => True
  | SettleProbeStep.Retry _ => False
  | SettleProbeStep.Settled (SettleProbeOutcome.Resolved freed) => 0 < freed
  | SettleProbeStep.Settled _ => True
  end.
Proof.
  assert (∀ fuel n c, 0 ≤ n → Z.of_nat fuel + n = 3 → (0 < fuel)%nat →
    ∃ step c', settle_loop fuel n c = (Some step, c') ∧
      match step with
      | SettleProbeStep.Retry _ => False
      | SettleProbeStep.Settled (SettleProbeOutcome.Resolved freed) => 0 < freed
      | _ => True
      end) as Hl.
  { clear c. induction fuel as [|fuel IH]; intros n c Hn Hf Hpos; [lia|]. cbn [settle_loop].
    pose proof (probe_step_wp n c ltac:(unfold_ints; lia)) as Hw. unfold wp in Hw.
    destruct (attempt_startup_kernel_settle_probe n c) as [r c']. cbn in Hw.
    destruct Hw as (step & -> & Hs). destruct step as [|b|o]; cbn in Hs.
    - by eexists _, _.
    - unfold SETTLE_PROBE_ATTEMPTS in Hs. apply IH; lia.
    - eexists _, _. split; [done|]. by destruct o. }
  destruct (Hl 3%nat 0 c) as (step & c' & Hs & Hp); [lia|lia|lia|].
  exists step, c'. split; [done|]. by destruct step.
Qed.

End Tracking.

(** ** Witnesses, on the Windows adapter over a single client kernel *)

#[local] Existing Instance single_client_kernel.

Lemma ownership_tracks_kernel_witness :
  let c := run (new (with_diagnostics 156250) 0) [DoQuery; DoStart; DoStop; DoStart] in
  ownership c = OwnershipState.Owned ∧ held (platform c) = true.
Proof.
  intros c. split; [vm_compute; reflexivity|].
  apply (ownership_tracks_kernel (with_diagnostics 156250) 0 [DoQuery; DoStart; DoStop; DoStart]);
    vm_compute; reflexivity.
Defined.

