(* ===== verification/Wire.v ===== *)
(** * Wire: the IPC protocol

    Models [crates/tick-ipc/src/lib.rs] up to the pipe transport: CRC-32, the
    session token, frames, responses, payloads, errors and the per-process rate
    limiter.  Buffers are lists of bytes; [Instant]s are nanoseconds. *)
From S2P Require Import Prelude Text Hex Core.

Definition MAGIC_BYTES : bytes := [0x54; 0x54; 0x49; 0x50].
Definition PROTOCOL_VERSION : Z := 1.
Definition MAX_PAYLOAD_LEN : nat := 256.
Definition MIN_INTERVAL_HNS : Z := 5000.
Definition MAX_INTERVAL_HNS : Z := 156250.
Definition SYMBOLIC_RESOLUTION_HNS : Z := 5000.
Definition TOKEN_LEN : nat := 32.
Definition TOKEN_FILE_NAME : str := lit "ipc-token".
Definition PIPE_NAME : str := lit "\\.\pipe\TrueTick-Ipc-v1".
Definition SCHEDULE_TAG_START : Z := 1.
Definition SCHEDULE_TAG_STOP : Z := 2.
Definition SCHEDULE_TAG_PAUSE : Z := 3.
Definition MAX_REQUESTS_PER_SECOND : nat := 10.
Definition RATE_LIMIT_WINDOW : Z := 1000000000.
Definition MAX_TRACKED_PIDS : nat := 64.

(** ** CRC-32 *)

(** One turn of the bit loop. *)
Definition crc_bit (crc : Z) : Z :=
  let mask := wrap 32 (- Z.land crc 1) in
  Z.lxor (Z.shiftr crc 1) (Z.land 0xEDB88320 mask).
Definition crc_byte (crc byte : Z) : Z := Nat.iter 8 crc_bit (Z.lxor crc byte).
Definition crc32 (data : bytes) : Z := Z.lxor (fold_left crc_byte data 0xFFFFFFFF) 0xFFFFFFFF.

(** ** The session token *)

Record SessionToken := mkToken { token_bytes : bytes }.
#[export] Instance SessionToken_eq_dec : EqDecision SessionToken.
Proof. solve_decision. Defined.
Definition token_wf (t : SessionToken) : Prop :=
  length (token_bytes t) = TOKEN_LEN ∧ all_bytes (token_bytes t).

(** The constant-time comparison. *)
Fixpoint diff_bytes (diff : Z) (a b : bytes) : Z :=
  match a, b with
  | x :: a', y :: b' => diff_bytes (Z.lor diff (Z.lxor x y)) a' b'
  | _, _ => diff
  end.
Definition matches (t candidate : SessionToken) : bool :=
  diff_bytes 0 (token_bytes t) (token_bytes candidate) =? 0.

Definition to_hex (t : SessionToken) : str := hex (token_bytes t).

(** [Self::generate_ephemeral]: the entropy source of the system fills the
    buffer, or fails. *)
Definition generate_ephemeral {E} (fill_os_entropy : result E bytes) : result E SessionToken :=
  bs ← fill_os_entropy; Ok (mkToken bs).

Definition hex_nibble (byte : Z) : option Z :=
  if (48 <=? byte) && (byte <=? 57) then Some (byte - 48)
  else if (97 <=? byte) && (byte <=? 102) then Some (byte - 97 + 10)
  else None.

Module CommandVerb.
Inductive CommandVerb := QueryStatus | RequestAcquire | RequestRelease | ScheduleAction | CancelSchedule.
End CommandVerb.
Abbreviation CommandVerb := CommandVerb.CommandVerb.
#[export] Instance CommandVerb_eq_dec : EqDecision CommandVerb.
Proof. solve_decision. Defined.

Definition from_u32 (value : Z) : option CommandVerb :=
  if value =? 1 then Some CommandVerb.QueryStatus
  else if value =? 2 then Some CommandVerb.RequestAcquire
  else if value =? 3 then Some CommandVerb.RequestRelease
  else if value =? 4 then Some CommandVerb.ScheduleAction
  else if value =? 5 then Some CommandVerb.CancelSchedule
  else None.
Definition to_u32 (v : CommandVerb) : Z :=
  match v with
  | CommandVerb.QueryStatus => 1 | CommandVerb.RequestAcquire => 2
  | CommandVerb.RequestRelease => 3 | CommandVerb.ScheduleAction => 4
  | CommandVerb.CancelSchedule => 5
  end.

(** ** Errors *)

Module IpcError.
Inductive IpcError :=
| InvalidMagic
| UnsupportedVersion (found : Z)
| PayloadTooLarge (length : Z)
| PayloadTruncated
| InvalidCommandVerb (verb : Z)
| IntervalOutOfBounds (requested : Z)
| CrcMismatch (expected calculated : Z)
| UnauthorizedToken
| RateLimitExceeded (pid : Z)
| MalformedToken
| MalformedResponse
| TransportIo (raw_os_error : Z)
| Unsupported
| ScheduleOutOfBounds (seconds : Z)
| TrailingBytes (expected found : Z)
| ScheduleIdMismatch (provided : Z).
End IpcError.
Abbreviation IpcError := IpcError.IpcError.

(** [{n:08X}] *)
Definition hex_digit_upper (n : Z) : Z := if n <? 10 then 48 + n else 55 + n.
Definition show_hex32 (n : Z) : str :=
  map (λ k, hex_digit_upper ((n / 16 ^ k) mod 16)) [7; 6; 5; 4; 3; 2; 1; 0].

Definition ipc_error_display (e : IpcError) : str :=
  match e with
  | IpcError.InvalidMagic => lit "invalid IPC magic header bytes"
  | IpcError.UnsupportedVersion found => lit "unsupported protocol version: " ++ show_u found
  | IpcError.PayloadTooLarge n => lit "payload exceeds limit: " ++ show_u n ++ lit " bytes"
  | IpcError.PayloadTruncated => lit "frame data truncated before completion"
  | IpcError.InvalidCommandVerb verb => lit "unknown or invalid command verb: " ++ show_u verb
  | IpcError.IntervalOutOfBounds r =>
      lit "requested interval " ++ show_u r ++ lit " HNS is out of bounds"
  | IpcError.CrcMismatch expected calculated =>
      lit "CRC32 mismatch (expected " ++ show_hex32 expected ++ lit ", calculated " ++
      show_hex32 calculated ++ lit ")"
  | IpcError.UnauthorizedToken => lit "invalid or unauthorized session token"
  | IpcError.RateLimitExceeded pid => lit "rate limit exceeded for client PID " ++ show_u pid
  | IpcError.MalformedToken => lit "malformed session token encoding"
  | IpcError.MalformedResponse => lit "malformed IPC response frame"
  | IpcError.TransportIo c => lit "IPC transport I/O failure, OS error code " ++ show_i c
  | IpcError.Unsupported => lit "operation is not supported on this platform"
  | IpcError.ScheduleOutOfBounds s =>
      lit "schedule delay " ++ show_u s ++ lit " seconds is outside 10 to 86400"
  | IpcError.TrailingBytes expected found =>
      lit "frame carries " ++ show_u found ++ lit " bytes, expected " ++ show_u expected
  | IpcError.ScheduleIdMismatch provided =>
      lit "schedule action id " ++ show_u provided ++ lit " does not match the active schedule"
  end.

Definition code (e : IpcError) : Z :=
  match e with
  | IpcError.InvalidMagic => 1
  | IpcError.UnsupportedVersion _ => 2
  | IpcError.PayloadTooLarge _ => 3
  | IpcError.PayloadTruncated => 4
  | IpcError.InvalidCommandVerb _ => 5
  | IpcError.IntervalOutOfBounds _ => 6
  | IpcError.CrcMismatch _ _ => 7
  | IpcError.UnauthorizedToken => 8
  | IpcError.RateLimitExceeded _ => 9
  | IpcError.MalformedToken => 10
  | IpcError.MalformedResponse => 11
  | IpcError.TransportIo _ => 12
  | IpcError.Unsupported => 13
  | IpcError.ScheduleOutOfBounds _ => 14
  | IpcError.TrailingBytes _ _ => 15
  | IpcError.ScheduleIdMismatch _ => 16
  end.

Definition wire_param (e : IpcError) : Z :=
  match e with
  | IpcError.UnsupportedVersion found => found
  | IpcError.PayloadTooLarge n => wrap 32 n
  | IpcError.InvalidCommandVerb verb => verb
  | IpcError.IntervalOutOfBounds r => wrap 32 r
  | IpcError.CrcMismatch expected _ => expected
  | IpcError.RateLimitExceeded pid => pid
  | IpcError.TransportIo c => wrap 32 c
  | IpcError.ScheduleOutOfBounds s => s
  | IpcError.TrailingBytes expected _ => wrap 32 expected
  | IpcError.ScheduleIdMismatch provided => provided
  | IpcError.InvalidMagic | IpcError.PayloadTruncated | IpcError.UnauthorizedToken
  | IpcError.MalformedToken | IpcError.MalformedResponse | IpcError.Unsupported => 0
  end.

Definition from_code_param (c param : Z) : option IpcError :=
  if c =? 1 then Some IpcError.InvalidMagic
  else if c =? 2 then Some (IpcError.UnsupportedVersion (wrap 16 param))
  else if c =? 3 then Some (IpcError.PayloadTooLarge param)
  else if c =? 4 then Some IpcError.PayloadTruncated
  else if c =? 5 then Some (IpcError.InvalidCommandVerb param)
  else if c =? 6 then Some (IpcError.IntervalOutOfBounds param)
  else if c =? 7 then Some (IpcError.CrcMismatch param 0)
  else if c =? 8 then Some IpcError.UnauthorizedToken
  else if c =? 9 then Some (IpcError.RateLimitExceeded param)
  else if c =? 10 then Some IpcError.MalformedToken
  else if c =? 11 then Some IpcError.MalformedResponse
  else if c =? 12 then Some (IpcError.TransportIo (as_i32 param))
  else if c =? 13 then Some IpcError.Unsupported
  else if c =? 14 then Some (IpcError.ScheduleOutOfBounds param)
  else if c =? 15 then Some (IpcError.TrailingBytes param 0)
  else if c =? 16 then Some (IpcError.ScheduleIdMismatch param)
  else None.
Definition from_code (c : Z) : option IpcError := from_code_param c 0.

(** [From<std::io::Error>], from the raw code the error carries, if any. *)
Definition ipc_error_of_io (raw_os_error : option Z) : IpcError :=
  IpcError.TransportIo (default (-1) raw_os_error).

Definition validate_interval_hns (interval_hns : Z) : result IpcError Z :=
  if interval_hns =? SYMBOLIC_RESOLUTION_HNS then Ok interval_hns
  else if (MIN_INTERVAL_HNS <=? interval_hns) && (interval_hns <=? MAX_INTERVAL_HNS)
  then Ok interval_hns
  else Err (IpcError.IntervalOutOfBounds interval_hns).

(** ** Hexadecimal tokens *)

Fixpoint hex_pairs (bs : bytes) : result IpcError bytes :=
  match bs with
  | [] => Ok []
  | h :: l :: rest =>
      high ← ok_or (hex_nibble h) IpcError.MalformedToken;
      low ← ok_or (hex_nibble l) IpcError.MalformedToken;
      out ← hex_pairs rest;
      Ok (Z.lor (Z.shiftl high 4) low :: out)
  | [_] => Ok []
  end.

Definition from_hex (text : str) : result IpcError SessionToken :=
  let bs := utf8_encode text in
  if negb (length bs =? TOKEN_LEN * 2)%nat then Err IpcError.MalformedToken
  else out ← hex_pairs bs; Ok (mkToken out).

(** What [write_token_file] writes and [read_token_file] makes of a file. *)
Definition token_file_text (t : SessionToken) : str := to_hex t.
Definition read_token_text (text : str) : result IpcError SessionToken :=
  from_hex (trim_end_matches (λ c, (c =? 13) || (c =? 10)) text).

(** ** Frames *)

Record IpcFrame := mkFrame { frame_token : SessionToken; verb : CommandVerb; payload : bytes }.

Definition frame_new (t : SessionToken) (v : CommandVerb) (p : bytes) : result IpcError IpcFrame :=
  if (MAX_PAYLOAD_LEN <? length p)%nat
  then Err (IpcError.PayloadTooLarge (Z.of_nat (length p)))
  else Ok (mkFrame t v p).

Definition frame_body (f : IpcFrame) : bytes :=
  MAGIC_BYTES ++ le_bytes 2 PROTOCOL_VERSION ++
  le_bytes 2 (wrap 16 (Z.of_nat (length (payload f)))) ++
  token_bytes (frame_token f) ++ le_bytes 4 (to_u32 (verb f)) ++ payload f.

Definition serialize (f : IpcFrame) : bytes :=
  frame_body f ++ le_bytes 4 (crc32 (frame_body f)).

Definition MIN_FRAME_SIZE : nat := 4 + 2 + 2 + TOKEN_LEN + 4 + 4.

Definition deserialize (data : bytes) : result IpcError IpcFrame :=
  if (length data <? MIN_FRAME_SIZE)%nat then Err IpcError.PayloadTruncated
  else if negb (bytes_eqb (slice data 0 4) MAGIC_BYTES) then Err IpcError.InvalidMagic
  else
    let version := le_value (slice data 4 6) in
    if negb (version =? PROTOCOL_VERSION) then Err (IpcError.UnsupportedVersion version)
    else
      let payload_len := Z.to_nat (le_value (slice data 6 8)) in
      if (MAX_PAYLOAD_LEN <? payload_len)%nat
      then Err (IpcError.PayloadTooLarge (Z.of_nat payload_len))
      else
        let expected_total_len := (4 + 2 + 2 + TOKEN_LEN + 4 + payload_len + 4)%nat in
        if (length data <? expected_total_len)%nat then Err IpcError.PayloadTruncated
        else if (expected_total_len <? length data)%nat
        then Err (IpcError.TrailingBytes (Z.of_nat expected_total_len) (Z.of_nat (length data)))
        else
          let body_len := (4 + 2 + 2 + TOKEN_LEN + 4 + payload_len)%nat in
          let expected_crc := le_value (slice data body_len (body_len + 4)) in
          let calculated_crc := crc32 (take body_len data) in
          if negb (calculated_crc =? expected_crc)
          then Err (IpcError.CrcMismatch expected_crc calculated_crc)
          else
            let verb_raw := le_value (slice data 40 44) in
            v ← ok_or (from_u32 verb_raw) (IpcError.InvalidCommandVerb verb_raw);
            Ok (mkFrame (mkToken (slice data 8 40)) v (slice data 44 (44 + payload_len))).

(** ** Responses and payloads *)

Module IpcResponse.
Inductive IpcResponse :=
| Status (text : str)
| Acquired (effective_hns : Z)
| Released
| Scheduled (action_id : Z)
| Cancelled
| Error (error : IpcError).
End IpcResponse.
Abbreviation IpcResponse := IpcResponse.IpcResponse.

Definition encode_response (r : IpcResponse) : bytes :=
  match r with
  | IpcResponse.Status text => 1 :: utf8_encode text
  | IpcResponse.Acquired hns => 2 :: le_bytes 8 hns
  | IpcResponse.Released => [3]
  | IpcResponse.Scheduled id => 4 :: le_bytes 4 id
  | IpcResponse.Cancelled => [5]
  | IpcResponse.Error e => 6 :: le_bytes 4 (code e) ++ le_bytes 4 (wire_param e)
  end.

Definition decode_response (bs : bytes) : result IpcError IpcResponse :=
  match bs with
  | [] => Err IpcError.MalformedResponse
  | tag :: p =>
      if tag =? 1 then
        text ← ok_or (utf8_decode p) IpcError.MalformedResponse; Ok (IpcResponse.Status text)
      else if tag =? 2 then
        if (length p =? 8)%nat then Ok (IpcResponse.Acquired (le_value p))
        else Err IpcError.MalformedResponse
      else if tag =? 3 then
        if (length p =? 0)%nat then Ok IpcResponse.Released else Err IpcError.MalformedResponse
      else if tag =? 4 then
        if (length p =? 4)%nat then Ok (IpcResponse.Scheduled (le_value p))
        else Err IpcError.MalformedResponse
      else if tag =? 5 then
        if (length p =? 0)%nat then Ok IpcResponse.Cancelled else Err IpcError.MalformedResponse
      else if tag =? 6 then
        if (length p =? 8)%nat then
          e ← ok_or (from_code_param (le_value (slice p 0 4)) (le_value (slice p 4 8)))
                    IpcError.MalformedResponse;
          Ok (IpcResponse.Error e)
        else Err IpcError.MalformedResponse
      else Err IpcError.MalformedResponse
  end.

Definition encode_interval_payload (interval_hns : Z) : result IpcError bytes :=
  validated ← validate_interval_hns interval_hns;
  Ok (le_bytes 8 validated).

Module ScheduleActionKind.
Inductive ScheduleActionKind := Start | Stop | Pause.
End ScheduleActionKind.
Abbreviation ScheduleActionKind := ScheduleActionKind.ScheduleActionKind.

Definition schedule_tag (k : ScheduleActionKind) : Z :=
  match k with
  | ScheduleActionKind.Start => SCHEDULE_TAG_START
  | ScheduleActionKind.Stop => SCHEDULE_TAG_STOP
  | ScheduleActionKind.Pause => SCHEDULE_TAG_PAUSE
  end.
Definition encode_schedule_payload (k : ScheduleActionKind) (seconds : Z) : bytes :=
  schedule_tag k :: le_bytes 4 seconds.

(** ** The rate limiter *)

Record PidRecord := mkPid { pid : Z; timestamps : list Z; last_seen : Z }.
Definition PidRateLimiter : Type := list PidRecord.
Definition limiter_new : PidRateLimiter := [].

(** [now.checked_sub(RATE_LIMIT_WINDOW).unwrap_or(now)] *)
Definition window_cutoff (now : Z) : Z :=
  if RATE_LIMIT_WINDOW <=? now then now - RATE_LIMIT_WINDOW else now.

Definition retain (cutoff : Z) (ts : list Z) : list Z := List.filter (λ t, cutoff <? t) ts.

Definition older (a b : PidRecord) : bool :=
  (last_seen a <? last_seen b) || ((last_seen a =? last_seen b) && (pid a <? pid b)).

(** The first minimum and the list without it. *)
Fixpoint min_record (best : PidRecord) (l : list PidRecord) : PidRecord :=
  match l with
  | [] => best
  | r :: rest => min_record (if older r best then r else best) rest
  end.
Fixpoint remove_record (m : PidRecord) (l : PidRateLimiter) : PidRateLimiter :=
  match l with
  | [] => []
  | x :: t => if (pid x =? pid m) && (last_seen x =? last_seen m) then t else x :: remove_record m t
  end.
Definition evict_least_recently_seen (l : PidRateLimiter) : PidRateLimiter :=
  match l with
  | [] => []
  | r :: rest => remove_record (min_record r rest) l
  end.

Definition tracked (l : PidRateLimiter) (p : Z) : bool := existsb (λ r, pid r =? p) l.

(** Find or create the record. *)
Definition ensure_record (l : PidRateLimiter) (p now : Z) : PidRateLimiter :=
  if tracked l p then l
  else (if (MAX_TRACKED_PIDS <=? length l)%nat then evict_least_recently_seen l else l)
       ++ [mkPid p [] now].

(** The update of the first record of the caller. *)
Fixpoint touch (l : PidRateLimiter) (p now : Z) : result IpcError unit * PidRateLimiter :=
  match l with
  | [] => (Ok tt, [])
  | r :: rest =>
      if pid r =? p then
        let ts := retain (window_cutoff now) (timestamps r) in
        if (MAX_REQUESTS_PER_SECOND <=? length ts)%nat
        then (Err (IpcError.RateLimitExceeded p), mkPid p ts now :: rest)
        else (Ok tt, mkPid p (ts ++ [now]) now :: rest)
      else let '(r', l') := touch rest p now in (r', r :: l')
  end.

Definition check_and_record (l : PidRateLimiter) (p now : Z)
    : result IpcError unit * PidRateLimiter :=
  touch (ensure_record l p now) p now.

Definition prune_idle_callers (l : PidRateLimiter) (now : Z) : PidRateLimiter :=
  List.filter (λ r, negb (Nat.eqb (length (timestamps r)) 0))
    (map (λ r, mkPid (pid r) (retain (window_cutoff now) (timestamps r)) (last_seen r)) l).

Definition active_caller_count (l : PidRateLimiter) : nat := length l.


(** ** Frames: round trip *)

Definition frame_wf (f : IpcFrame) : Prop :=
  token_wf (frame_token f) ∧ (length (payload f) ≤ MAX_PAYLOAD_LEN)%nat ∧ all_bytes (payload f).

Lemma to_u32_bound v : 1 ≤ to_u32 v ≤ 5.
Proof. destruct v; cbn; lia. Qed.
Lemma from_to_u32 v : from_u32 (to_u32 v) = Some v.
Proof. by destruct v. Qed.
Lemma from_u32_some z v : from_u32 z = Some v → z = to_u32 v.
Proof. unfold from_u32. intros H. destruct_ifs; simplify_eq; reflect_bools; cbn; lia. Qed.

Lemma slice_app_l (a b : bytes) i j :
  (j ≤ length a)%nat → slice (a ++ b) i j = slice a i j.
Proof.
  intros Hj. unfold slice. destruct (decide (i ≤ length a)%nat).
  - rewrite drop_app_le by lia. rewrite take_app_le; [done|]. rewrite length_drop. lia.
  - replace (j - i)%nat with 0%nat by lia. done.
Qed.
Lemma slice_app_r (a b : bytes) i j :
  (length a ≤ i)%nat → slice (a ++ b) i j = slice b (i - length a) (j - length a).
Proof.
  intros Hi. unfold slice. rewrite drop_app_ge by done. f_equal. lia.
Qed.
Lemma slice_all (a : bytes) n : n = length a → slice a 0 n = a.
Proof. intros ->. unfold slice. rewrite drop_0, Nat.sub_0_r. apply firstn_all. Qed.
Lemma slice_join (a : bytes) i j k :
  (i ≤ j ≤ k)%nat → (k ≤ length a)%nat → slice a i j ++ slice a j k = slice a i k.
Proof.
  intros H Hk. unfold slice. replace (drop j a) with (drop (j - i) (drop i a))
    by (rewrite drop_drop; f_equal; lia).
  replace (k - i)%nat with ((j - i) + (k - j))%nat by lia.
  rewrite <- (take_drop (j - i) (drop i a)) at 3.
  rewrite take_app_ge by (rewrite length_take, length_drop; lia).
  f_equal. rewrite length_take, length_drop, Nat.min_l by lia. f_equal. lia.
Qed.

Definition all_bytesb (bs : bytes) : bool := forallb (λ b, (0 <=? b) && (b <? 256)) bs.
Lemma all_bytesb_spec bs : all_bytesb bs = true → all_bytes bs.
Proof.
  unfold all_bytesb. rewrite forallb_forall, Forall_forall. intros H b Hb.
  apply list_elem_of_In, H, andb_prop in Hb. unfold is_u8. lia.
Qed.

(** ** CRC-32 *)

Definition CRC_POLY : Z := 0xEDB88320.

Lemma lxor_u32 a b : is_u32 a → is_u32 b → is_u32 (Z.lxor a b).
Proof.
  unfold is_u32. intros Ha Hb. assert (0 ≤ Z.lxor a b) by (apply Z.lxor_nonneg; lia).
  split; [done|]. destruct (decide (Z.lxor a b = 0)) as [->|]; [lia|].
  apply Z.log2_lt_pow2; [lia|]. pose proof (Z.log2_lxor a b ltac:(lia) ltac:(lia)).
  assert (∀ z, 0 ≤ z < 2 ^ 32 → Z.log2 z < 32) as Hlog.
  { intros z Hz. destruct (decide (z = 0)) as [->|]; [done|]. apply Z.log2_lt_pow2; lia. }
  pose proof (Hlog a Ha). pose proof (Hlog b Hb). lia.
Qed.

(** The branch-free step is the shift, with the polynomial on an odd value. *)
Lemma crc_bit_cases c :
  crc_bit c = if Z.odd c then Z.lxor (c / 2) CRC_POLY else c / 2.
Proof.
  unfold crc_bit. rewrite (Z.shiftr_div_pow2 c 1) by lia. change (2 ^ 1) with 2.
  replace (Z.land c 1) with (Z.b2z (Z.odd c)).
  - destruct (Z.odd c); cbn [Z.b2z].
    + change (Z.land 0xEDB88320 (wrap 32 (- (1)))) with CRC_POLY. done.
    + change (Z.land 0xEDB88320 (wrap 32 (- 0))) with 0. apply Z.lxor_0_r.
  - change (Z.land c 1) with (Z.land c (Z.ones 1)). rewrite Z.land_ones by lia. change (2 ^ 1) with 2. rewrite Zmod_odd.
    by destruct (Z.odd c).
Qed.

Lemma half_u32 c : is_u32 c → 0 ≤ c / 2 < 2 ^ 31.
Proof. unfold is_u32. intros. split; [apply Z.div_pos; lia|apply Z.div_lt_upper_bound; lia]. Qed.

Lemma crc_bit_bound c : is_u32 c → is_u32 (crc_bit c).
Proof.
  intros Hc. rewrite crc_bit_cases. pose proof (half_u32 c Hc).
  destruct (Z.odd c); [apply lxor_u32|]; unfold is_u32, CRC_POLY in *; lia.
Qed.

(** Bit 31 of the result tells which branch was taken, so the step inverts. *)
Definition crc_unbit (d : Z) : Z :=
  if Z.testbit d 31 then 2 * Z.lxor d CRC_POLY + 1 else 2 * d.

Lemma crc_unbit_bit c : is_u32 c → crc_unbit (crc_bit c) = c.
Proof.
  intros Hc. pose proof (half_u32 c Hc) as Hh. rewrite crc_bit_cases. unfold crc_unbit.
  assert (Z.testbit (c / 2) 31 = false) as Ht.
  { destruct (decide (c / 2 = 0)) as [->|]; [done|].
    apply Z.bits_above_log2; [lia|]. apply Z.log2_lt_pow2; lia. }
  pose proof (Zdiv2_odd_eqn c) as Hodd. rewrite Z.div2_div in Hodd.
  destruct (Z.odd c).
  - rewrite Z.lxor_spec, Ht. change (Z.testbit CRC_POLY 31) with true. cbn [xorb].
    rewrite Z.lxor_assoc, Z.lxor_nilpotent, Z.lxor_0_r. lia.
  - rewrite Ht. lia.
Qed.

Lemma crc_iter_bound n c : is_u32 c → is_u32 (Nat.iter n crc_bit c).
Proof. intros Hc. induction n as [|n IH]; [done|]. cbn [Nat.iter]. by apply crc_bit_bound. Qed.

Lemma crc_iter_inj n c d :
  is_u32 c → is_u32 d → Nat.iter n crc_bit c = Nat.iter n crc_bit d → c = d.
Proof.
  intros Hc Hd. induction n as [|n IH]; [done|]. cbn [Nat.iter]. intros H.
  apply IH. rewrite <- (crc_unbit_bit (Nat.iter n crc_bit c)) by (by apply crc_iter_bound).
  rewrite <- (crc_unbit_bit (Nat.iter n crc_bit d)) by (by apply crc_iter_bound).
  by f_equal.
Qed.

Lemma u8_u32 b : is_u8 b → is_u32 b.
Proof. unfold is_u8, is_u32. lia. Qed.

Lemma crc_byte_eq c b : crc_byte c b = Nat.iter 8 crc_bit (Z.lxor c b).
Proof. reflexivity. Qed.

Lemma crc_byte_bound c b : is_u32 c → is_u8 b → is_u32 (crc_byte c b).
Proof. intros. apply crc_iter_bound, lxor_u32; auto using u8_u32. Qed.

Lemma lxor_cancel_l a b c : Z.lxor a b = Z.lxor a c → b = c.
Proof.
  intros H. rewrite <- (Z.lxor_0_l b), <- (Z.lxor_0_l c), <- (Z.lxor_nilpotent a).
  by rewrite !Z.lxor_assoc, H.
Qed.

Lemma crc_byte_inj_byte c b1 b2 :
  is_u32 c → is_u8 b1 → is_u8 b2 → crc_byte c b1 = crc_byte c b2 → b1 = b2.
Proof.
  intros Hc H1 H2 H. rewrite !crc_byte_eq in H. apply (crc_iter_inj 8) in H; [|apply lxor_u32; auto using u8_u32..].
  by eapply lxor_cancel_l.
Qed.
Lemma crc_byte_inj_crc c1 c2 b :
  is_u32 c1 → is_u32 c2 → is_u8 b → crc_byte c1 b = crc_byte c2 b → c1 = c2.
Proof.
  intros Hc H1 H2 H. rewrite !crc_byte_eq in H. apply (crc_iter_inj 8) in H; [|apply lxor_u32; auto using u8_u32..].
  rewrite (Z.lxor_comm c1), (Z.lxor_comm c2) in H. by eapply lxor_cancel_l.
Qed.

Section FoldBytes.
(** A checksum that folds a step injective in each argument. *)
Variable step : Z → Z → Z.
Hypothesis step_bound : ∀ c b, is_u32 c → is_u8 b → is_u32 (step c b).
Hypothesis step_inj_byte : ∀ c b1 b2,
  is_u32 c → is_u8 b1 → is_u8 b2 → step c b1 = step c b2 → b1 = b2.
Hypothesis step_inj_crc : ∀ c1 c2 b,
  is_u32 c1 → is_u32 c2 → is_u8 b → step c1 b = step c2 b → c1 = c2.

Lemma fold_bound data c : all_bytes data → is_u32 c → is_u32 (fold_left step data c).
Proof.
  intros Hd. revert c. induction Hd as [|b data Hb _ IH]; intros c Hc; [done|].
  cbn [fold_left]. apply IH, step_bound; done.
Qed.
Lemma fold_inj data c1 c2 :
  all_bytes data → is_u32 c1 → is_u32 c2 →
  fold_left step data c1 = fold_left step data c2 → c1 = c2.
Proof.
  intros Hd. revert c1 c2. induction Hd as [|b data Hb _ IH]; intros c1 c2 H1 H2; [done|].
  cbn [fold_left]. intros H. apply IH in H; [|by apply step_bound..].
  by eapply step_inj_crc.
Qed.
Lemma fold_one_byte pre b1 b2 post c :
  all_bytes (pre ++ b1 :: post) → is_u8 b2 → is_u32 c →
  fold_left step (pre ++ b1 :: post) c = fold_left step (pre ++ b2 :: post) c → b1 = b2.
Proof.
  intros Hall H2 Hc H. apply Forall_app in Hall as [Hpre Hpost].
  inversion_clear Hpost as [|?? H1 Hpost']. rewrite !fold_left_app in H.
  cbn [fold_left] in H. pose proof (fold_bound pre _ Hpre Hc) as Hb.
  apply fold_inj in H; [|done|by apply step_bound..].
  by eapply step_inj_byte.
Qed.
End FoldBytes.

Lemma crc_init_u32 : is_u32 0xFFFFFFFF.
Proof. unfold is_u32. lia. Qed.

Lemma crc32_bound data : all_bytes data → is_u32 (crc32 data).
Proof. intros. apply lxor_u32; [apply fold_bound; [apply crc_byte_bound|done|]|]; apply crc_init_u32. Qed.

(** Two buffers that differ in one byte have different checksums. *)
Lemma crc32_one_byte pre b1 b2 post :
  all_bytes (pre ++ b1 :: post) → is_u8 b2 →
  crc32 (pre ++ b1 :: post) = crc32 (pre ++ b2 :: post) → b1 = b2.
Proof.
  intros Hall H2 H. unfold crc32 in H.
  rewrite (Z.lxor_comm (fold_left _ (pre ++ b1 :: _) _)) in H.
  rewrite (Z.lxor_comm (fold_left _ (pre ++ b2 :: _) _)) in H. apply lxor_cancel_l in H.
  exact (fold_one_byte crc_byte crc_byte_bound crc_byte_inj_byte crc_byte_inj_crc
           pre b1 b2 post _ Hall H2 crc_init_u32 H).
Qed.

(** ** Frames *)

Lemma frame_body_length f : token_wf (frame_token f) →
  length (frame_body f) = (44 + length (payload f))%nat.
Proof.
  intros [Ht _]. unfold frame_body. rewrite !length_app, !le_bytes_length, Ht. reflexivity.
Qed.
Lemma serialize_length f : token_wf (frame_token f) →
  length (serialize f) = (48 + length (payload f))%nat.
Proof.
  intros Ht. unfold serialize. rewrite length_app, frame_body_length, le_bytes_length by done. lia.
Qed.
Lemma frame_body_all f : frame_wf f → all_bytes (frame_body f).
Proof.
  intros ([_ Ht] & _ & Hp). unfold frame_body. rewrite !Forall_app. split_and!; auto with tick.
  unfold MAGIC_BYTES, is_u8. repeat constructor; lia.
Qed.

Lemma slice_field (a b c : bytes) i j :
  i = length a → j = (length a + length b)%nat → slice (a ++ b ++ c) i j = b.
Proof.
  intros -> ->. rewrite slice_app_r, slice_app_l, Nat.sub_diag, slice_all by lia. done.
Qed.

(** Field by field, a buffer that starts with a body. *)
Lemma frame_fields f post : frame_wf f →
  let d := frame_body f ++ post in
  slice d 0 4 = MAGIC_BYTES ∧ le_value (slice d 4 6) = PROTOCOL_VERSION ∧
  le_value (slice d 6 8) = Z.of_nat (length (payload f)) ∧
  slice d 8 40 = token_bytes (frame_token f) ∧ le_value (slice d 40 44) = to_u32 (verb f) ∧
  slice d 44 (44 + length (payload f)) = payload f.
Proof.
  intros ([Ht _] & Hp & _) d. subst d. unfold TOKEN_LEN, MAX_PAYLOAD_LEN in *.
  pose proof (to_u32_bound (verb f)) as Hv. unfold frame_body.
  remember (wrap 16 (Z.of_nat (length (payload f)))) as w eqn:Hw.
  rewrite wrap_id in Hw by lia.
  set (V := le_bytes 2 PROTOCOL_VERSION). set (L := le_bytes 2 w).
  set (C := le_bytes 4 (to_u32 (verb f))). set (T := token_bytes (frame_token f)) in *.
  assert (length V = 2%nat ∧ length L = 2%nat ∧ length C = 4%nat ∧ length MAGIC_BYTES = 4%nat)
    as (HV & HL & HC & HM) by (subst V L C; by rewrite !le_bytes_length).
  pose proof (slice_field [] MAGIC_BYTES (V ++ L ++ T ++ C ++ payload f ++ post) 0 4) as H0.
  pose proof (slice_field MAGIC_BYTES V (L ++ T ++ C ++ payload f ++ post) 4 6) as H1.
  pose proof (slice_field (MAGIC_BYTES ++ V) L (T ++ C ++ payload f ++ post) 6 8) as H2.
  pose proof (slice_field (MAGIC_BYTES ++ V ++ L) T (C ++ payload f ++ post) 8 40) as H3.
  pose proof (slice_field (MAGIC_BYTES ++ V ++ L ++ T) C (payload f ++ post) 40 44) as H4.
  pose proof (slice_field (MAGIC_BYTES ++ V ++ L ++ T ++ C) (payload f) post 44
                (44 + length (payload f))) as H5.
  rewrite <- ?app_assoc, ?length_app in *. cbn [app length] in H0.
  rewrite H0, H1, H2, H3, H4, H5 by lia. subst V L C.
  rewrite !le_value_bytes by (unfold PROTOCOL_VERSION; lia). done.
Qed.

Lemma serialize_split f post : serialize f ++ post = frame_body f ++ (le_bytes 4 (crc32 (frame_body f)) ++ post).
Proof. unfold serialize. by rewrite app_assoc. Qed.

Lemma deserialize_serialize f : frame_wf f → deserialize (serialize f) = Ok f.
Proof.
  intros Hf. pose proof Hf as (Ht & Hp & _). unfold deserialize.
  rewrite serialize_length by done. pose proof (frame_body_length f Ht) as Hlen.
  replace (_ <? MIN_FRAME_SIZE)%nat with false by (unfold MIN_FRAME_SIZE, TOKEN_LEN; symmetry; apply Nat.ltb_ge; lia).
  unfold serialize. set (c := le_bytes 4 (crc32 (frame_body f))).
  destruct (frame_fields f c Hf) as (H0 & H1 & H2 & H3 & H4 & H5).
  rewrite H0, H1, H2, Nat2Z.id.
  rewrite (proj2 (bytes_eqb_spec _ _) eq_refl), Z.eqb_refl. cbn [negb].
  rewrite (proj2 (Nat.ltb_ge _ _) Hp). unfold TOKEN_LEN.
  change (4 + 2 + 2 + 32 + 4 + length (payload f) + 4)%nat
    with (44 + length (payload f) + 4)%nat.
  change (4 + 2 + 2 + 32 + 4 + length (payload f))%nat with (44 + length (payload f))%nat.
  rewrite !(proj2 (Nat.ltb_ge _ _)) by lia.
  rewrite take_app_length' by lia. rewrite slice_app_r by lia.
  rewrite Hlen, Nat.sub_diag, slice_all by (subst c; rewrite le_bytes_length; lia).
  pose proof (crc32_bound _ (frame_body_all f Hf)) as Hc. unfold is_u32 in Hc.
  subst c. rewrite le_value_bytes by lia. rewrite Z.eqb_refl. cbn [negb].
  rewrite H3, H4, H5, from_to_u32. by destruct f as [[]].
Qed.

Lemma deserialize_some data f : all_bytes data → deserialize data = Ok f →
  frame_wf f ∧ data = serialize f.
Proof.
  intros Hall. unfold deserialize, MIN_FRAME_SIZE, TOKEN_LEN.
  change (4 + 2 + 2 + 32 + 4 + 4)%nat with 48%nat.
  destruct (_ <? 48)%nat eqn:Hmin; [done|]. apply Nat.ltb_ge in Hmin.
  destruct (bytes_eqb _ _) eqn:Hmagic; cbn [negb]; [|done]. apply bytes_eqb_spec in Hmagic.
  destruct (_ =? PROTOCOL_VERSION) eqn:Hver; cbn [negb]; [|done]. apply Z.eqb_eq in Hver.
  remember (Z.to_nat (le_value (slice data 6 8))) as n eqn:Hn.
  destruct (MAX_PAYLOAD_LEN <? n)%nat eqn:Hmax; [done|]. apply Nat.ltb_ge in Hmax.
  change (4 + 2 + 2 + 32 + 4 + n + 4)%nat with (44 + n + 4)%nat.
  change (4 + 2 + 2 + 32 + 4 + n)%nat with (44 + n)%nat.
  destruct (_ <? 44 + n + 4)%nat eqn:Hl1; [done|]. apply Nat.ltb_ge in Hl1.
  destruct (44 + n + 4 <? _)%nat eqn:Hl2; [done|]. apply Nat.ltb_ge in Hl2.
  destruct (crc32 _ =? _) eqn:Hcrc; cbn [negb]; [|done]. apply Z.eqb_eq in Hcrc.
  intros H. apply bind_ok in H as (v & Hv & H). apply ok_or_ok in Hv. assert (f = mkFrame (mkToken (slice data 8 40)) v (slice data 44 (44 + n))) as -> by congruence. clear H.
  apply from_u32_some in Hv. unfold MAX_PAYLOAD_LEN in *.
  assert (∀ i j, (i ≤ j ≤ length data)%nat →
    le_bytes (j - i) (le_value (slice data i j)) = slice data i j) as Hback.
  { intros i j Hij. rewrite <- (slice_length data i j) by lia.
    apply le_bytes_value; auto with tick. }
  assert (length (slice data 44 (44 + n)) = n) as Hpl by (rewrite slice_length; lia).
  set (f := mkFrame _ _ _).
  assert (frame_body f = take (44 + n) data) as Hbody.
  { unfold frame_body. subst f. cbn [frame_token verb payload token_bytes]. rewrite Hpl.
    pose proof (le_value_bound (slice data 6 8) (all_bytes_slice _ _ _ Hall)) as Hb.
    assert (Z.of_nat n = le_value (slice data 6 8)) as Hz by lia.
    rewrite wrap_id, Hz by lia. rewrite <- Hmagic, <- Hver, <- Hv.
    pose proof (Hback 4 6)%nat as B1. pose proof (Hback 6 8)%nat as B2.
    pose proof (Hback 40 44)%nat as B3. cbn [Nat.sub] in B1, B2, B3.
    rewrite B1, B2, B3, !slice_join by lia. unfold slice. by rewrite drop_0, Nat.sub_0_r. }
  split.
  - unfold frame_wf, token_wf, TOKEN_LEN, MAX_PAYLOAD_LEN. subst f. cbn [frame_token payload token_bytes].
    rewrite Hpl, slice_length by lia. split_and!; auto with tick.
  - unfold serialize. rewrite Hbody, Hcrc. pose proof (Hback (44 + n) (44 + n + 4))%nat as B4.
    replace (44 + n + 4 - (44 + n))%nat with 4%nat in B4 by lia. rewrite B4 by lia. rewrite <- (take_drop (44 + n) data) at 1. f_equal. unfold slice.
    rewrite take_ge; [done|]. rewrite length_drop. lia.
Qed.

(** C38: the decoder accepts exactly the encodings: a received buffer decodes to a
    frame iff the frame is well formed (32-byte token, at most 256 bytes of
    payload) and the buffer is, byte for byte, what [serialize] writes for it.
    No two buffers decode to the same frame, and nothing trails it. *)
Theorem frame_codec_exact data f :
  all_bytes data → deserialize data = Ok f ↔ frame_wf f ∧ data = serialize f.
Proof.
  intros Hall. split; [by apply deserialize_some|]. intros [Hf ->]. by apply deserialize_serialize.
Qed.

Definition sample_frame : IpcFrame :=
  mkFrame (mkToken (replicate 32 7)) CommandVerb.RequestAcquire [136; 19; 0; 0; 0; 0; 0; 0].

Lemma frame_codec_exact_witness :
  deserialize (serialize sample_frame) = Ok sample_frame ↔
  frame_wf sample_frame ∧ serialize sample_frame = serialize sample_frame.
Proof.
  apply frame_codec_exact, all_bytesb_spec. vm_compute. reflexivity.
Defined.

(** A byte of an encoding changed to another value. *)
Lemma corrupt_not_encoding f g (i : nat) (b : Z) :
  frame_wf f → frame_wf g → is_u8 b → (i < length (serialize f))%nat →
  <[i := b]> (serialize f) = serialize g → serialize f !! i = Some b.
Proof.
  intros Hf Hg Hb Hi Heq. pose proof Hf as (Htf & _). pose proof Hg as (Htg & _).
  pose proof (f_equal length Heq) as Hlen. rewrite length_insert, !serialize_length in Hlen by done.
  assert (length (frame_body f) = length (frame_body g)) as Hbl
    by (rewrite !frame_body_length by done; lia).
  unfold serialize in *. set (bf := frame_body f) in *. set (bg := frame_body g) in *.
  pose proof (crc32_bound bf (frame_body_all f Hf)) as Hcf.
  pose proof (crc32_bound bg (frame_body_all g Hg)) as Hcg. unfold is_u32 in Hcf, Hcg.
  destruct (decide (i < length bf)%nat) as [Hin|Hout].
  - rewrite insert_app_l in Heq by done. apply app_inj_1 in Heq as [Hbody Hcrc];
      [|rewrite length_insert; lia].
    apply (f_equal le_value) in Hcrc. rewrite !le_value_bytes in Hcrc by lia.
    destruct (lookup_lt_is_Some_2 bf i Hin) as [a Ha]. rewrite lookup_app_l by done.
    rewrite <- Hbody in Hcrc. rewrite insert_take_drop in Hcrc by done.
    rewrite <- (take_drop_middle bf i a Ha) in Hcrc at 1.
    apply crc32_one_byte in Hcrc; [congruence| |done].
    rewrite take_drop_middle by done. by apply frame_body_all.
  - rewrite insert_app_r_alt in Heq by lia. apply app_inj_1 in Heq as [Hbody Hcrc]; [|done].
    rewrite <- Hbody in Hcrc. rewrite lookup_app_r by lia. rewrite <- Hcrc.
    apply list_lookup_insert_eq. rewrite length_app in Hi. lia.
Qed.

(** Corruption of one byte is always detected: whichever byte of a well-formed
    frame's encoding is changed, checksum included, and to whatever other value,
    the decoder returns an error and never a frame. *)
Theorem corrupted_byte_rejected f (i : nat) (b : Z) :
  frame_wf f → (i < length (serialize f))%nat → is_u8 b → serialize f !! i ≠ Some b →
  ∃ e, deserialize (<[i := b]> (serialize f)) = Err e.
Proof.
  intros Hf Hi Hb Hne. destruct (deserialize _) as [g|e] eqn:Hd; [|by exists e].
  destruct Hne. apply deserialize_some in Hd as [Hg Heq]; [by eapply corrupt_not_encoding|].
  apply Forall_insert; [|done]. unfold serialize. apply Forall_app. split; [by apply frame_body_all|].
  apply le_bytes_all.
Qed.

Lemma corrupted_byte_rejected_witness :
  frame_wf sample_frame ∧ (44 < length (serialize sample_frame))%nat ∧ is_u8 137 ∧
  serialize sample_frame !! 44%nat ≠ Some 137 ∧
  ∃ e, deserialize (<[44%nat := 137]> (serialize sample_frame)) = Err e.
Proof.
  assert (frame_wf sample_frame) as Hf.
  { unfold frame_wf, token_wf, MAX_PAYLOAD_LEN. split_and!; [done| |cbn; lia|];
      apply all_bytesb_spec; vm_compute; reflexivity. }
  assert (44 < length (serialize sample_frame))%nat as Hi.
  { rewrite serialize_length by apply Hf. cbn. lia. }
  assert (is_u8 137) as Hb by (unfold is_u8; lia).
  assert (serialize sample_frame !! 44%nat ≠ Some 137) as Hne by (vm_compute; discriminate).
  split_and!; [done..|]. exact (corrupted_byte_rejected sample_frame 44 137 Hf Hi Hb Hne).
Defined.

(** ** Tokens *)

Lemma hex_nibble_digit n : 0 ≤ n < 16 → hex_nibble (hex_digit n) = Some n.
Proof.
  intros. unfold hex_nibble, hex_digit. destruct_ifs; reflect_bools; try lia; f_equal; lia.
Qed.
Lemma hex_nibble_some b n : hex_nibble b = Some n → 0 ≤ n < 16 ∧ hex_digit n = b ∧ 0 ≤ b < 128.
Proof.
  unfold hex_nibble, hex_digit. intros H.
  destruct_ifs; simplify_eq; reflect_bools; split_and!; try lia.
Qed.
Lemma hex_pairs_hex bs : all_bytes bs → hex_pairs (hex bs) = Ok bs.
Proof.
  unfold is_u8. induction 1 as [|b bs Hb _ IH]; [done|].
  change (hex (b :: bs)) with (hex_digit (b / 16) :: hex_digit (b mod 16) :: hex bs).
  cbn [hex_pairs]. rewrite !hex_nibble_digit by dlia. cbn. rewrite IH. cbn.
  rewrite nibbles_join by dlia. do 2 f_equal. dlia.
Qed.

Lemma hex_pairs_some : ∀ n bs out, length bs = (n * 2)%nat → hex_pairs bs = Ok out →
  length out = n ∧ all_bytes out ∧ bs = hex out ∧ Forall (λ b, 0 ≤ b < 128) bs.
Proof.
  induction n as [|n IH]; intros bs out Hl H; destruct bs as [|h [|l bs]]; cbn [length] in Hl; try lia.
  - cbn in H. injection H as <-. split_and!; [done|constructor|done|constructor].
  - cbn [hex_pairs] in H. apply bind_ok in H as (x & Hx & H). apply bind_ok in H as (y & Hy & H).
    apply bind_ok in H as (o & Ho & H). injection H as <-.
    apply ok_or_ok, hex_nibble_some in Hx as (Hx & <- & Hx8).
    apply ok_or_ok, hex_nibble_some in Hy as (Hy & <- & Hy8).
    destruct (IH bs o) as (H1 & H2 & H3 & H4); [lia|done|].
    rewrite nibbles_join by done. split_and!.
    + cbn. lia.
    + constructor; [unfold is_u8; lia|done].
    + change (hex (16 * x + y :: o)) with
        (hex_digit ((16 * x + y) / 16) :: hex_digit ((16 * x + y) mod 16) :: hex o).
      rewrite H3 at 1. f_equal; [f_equal; dlia|]. do 2 f_equal. dlia.
    + repeat constructor; try done; lia.
Qed.



Lemma from_hex_exact text t : from_hex text = Ok t ↔ token_wf t ∧ text = to_hex t.
Proof.
  unfold from_hex, token_wf, to_hex. split.
  - destruct (_ =? _)%nat eqn:Hl; [|done]. apply Nat.eqb_eq in Hl. cbn [negb].
    intros H. apply bind_ok in H as (out & Ho & H). injection H as <-.
    apply (hex_pairs_some TOKEN_LEN) in Ho as (H1 & H2 & H3 & H4); [|done].
    rewrite utf8_ascii_inv in H3 by done. done.
  - intros [[Hl Ha] ->]. rewrite utf8_encode_ascii by (by apply hex_ascii).
    rewrite hex_length, Hl, Nat.eqb_refl. cbn [negb]. rewrite hex_pairs_hex by done. by destruct t.
Qed.

Lemma drop_while_app_all f a b : Forall (λ c, f c = true) a → drop_while f (a ++ b) = drop_while f b.
Proof. induction 1 as [|c a Hc _ IH]; [done|]. cbn [app drop_while]. by rewrite Hc. Qed.
Lemma drop_while_head f c b : f c = false → drop_while f (c :: b) = c :: b.
Proof. intros H. cbn [drop_while]. by rewrite H. Qed.
Lemma drop_while_split f s : ∃ a, s = a ++ drop_while f s ∧ Forall (λ c, f c = true) a.
Proof.
  induction s as [|c s (a & H1 & H2)]; [by exists []|]. cbn [drop_while]. destruct (f c) eqn:E.
  - exists (c :: a). split; [cbn [app]; by f_equal|by constructor].
  - by exists [].
Qed.

Lemma trim_end_split f s :
  ∃ nl, s = trim_end_matches f s ++ nl ∧ Forall (λ c, f c = true) nl.
Proof.
  destruct (drop_while_split f (reverse s)) as (a & H1 & H2). exists (reverse a).
  unfold trim_end_matches. split; [|by apply Forall_reverse].
  by rewrite <- reverse_app, <- H1, reverse_involutive.
Qed.

Lemma trim_end_app f s nl :
  Forall (λ c, f c = false) s → Forall (λ c, f c = true) nl → trim_end_matches f (s ++ nl) = s.
Proof.
  intros Hs Hn. unfold trim_end_matches. rewrite reverse_app, drop_while_app_all by (by apply Forall_reverse).
  destruct (reverse s) as [|c r] eqn:E.
  - apply (f_equal reverse) in E. rewrite reverse_involutive in E. by subst.
  - rewrite drop_while_head; [by rewrite <- E, reverse_involutive|].
    apply Forall_reverse in Hs. rewrite E in Hs. by inversion Hs.
Qed.

Definition is_newline (c : Z) : bool := (c =? 13) || (c =? 10).

(** A token file is read back exactly: [read_token_file] accepts a text iff it
    is the 64 lowercase hexadecimal digits that [write_token_file] writes for a
    32-byte token, followed by any CR and LF characters, and yields that token;
    every other text, uppercase digits included, is refused. *)
Theorem token_file_exact text t :
  read_token_text text = Ok t ↔
  token_wf t ∧ ∃ nl, Forall (λ c, is_newline c = true) nl ∧ text = token_file_text t ++ nl.
Proof.
  unfold read_token_text, token_file_text. fold is_newline. rewrite from_hex_exact. split.
  - intros [Ht H]. split; [done|]. destruct (trim_end_split is_newline text) as (nl & H1 & H2).
    exists nl. split; [done|]. by rewrite <- H.
  - intros [Ht (nl & Hnl & ->)]. split; [done|]. apply trim_end_app; [|done].
    destruct Ht as [_ Ha]. unfold to_hex. unfold is_u8 in Ha.
    induction Ha as [|b bs Hb _ IH]; [constructor|].
    change (hex (b :: bs)) with (hex_digit (b / 16) :: hex_digit (b mod 16) :: hex bs).
    unfold is_newline, hex_digit. repeat constructor; [| |exact IH]; destruct_ifs; reflect_bools; dlia.
Qed.

Lemma diff_bytes_zero a b d : 0 ≤ d → all_bytes a → all_bytes b → length a = length b →
  diff_bytes d a b = 0 ↔ d = 0 ∧ a = b.
Proof.
  intros Hd Ha. revert b d Hd. induction Ha as [|x a Hx _ IH]; intros [|y b] d Hd Hb Hl; try done.
  - cbn. naive_solver.
  - inversion_clear Hb as [|?? Hy Hb']. cbn [length] in Hl. unfold is_u8 in *. cbn [diff_bytes].
    rewrite IH; [|apply Z.lor_nonneg; split; [done|apply Z.lxor_nonneg; lia]|done|lia].
    rewrite Z.lor_eq_0_iff, Z.lxor_eq_0_iff. naive_solver.
Qed.

(** The constant-time comparison is equality: for 32-byte tokens [matches]
    accepts exactly the session's own token, although it never stops at the
    first difference. *)
Theorem matches_exact t candidate :
  token_wf t → token_wf candidate → matches t candidate = true ↔ candidate = t.
Proof.
  intros [Hl Ha] [Hl' Ha']. unfold matches. rewrite Z.eqb_eq, diff_bytes_zero; [|lia|done|done|lia].
  destruct t, candidate. cbn. naive_solver.
Qed.

Lemma matches_exact_witness :
  matches (frame_token sample_frame) (mkToken (replicate 32 8)) = true ↔
  mkToken (replicate 32 8) = frame_token sample_frame.
Proof.
  apply matches_exact; (split; [done|apply all_bytesb_spec; vm_compute; reflexivity]).
Defined.

(** ** Responses *)

(** The values the fields of an error can hold ([usize] and [u64] are 64 bits). *)
Definition ipc_error_wf (e : IpcError) : Prop :=
  match e with
  | IpcError.UnsupportedVersion found => is_u16 found
  | IpcError.PayloadTooLarge n => is_u64 n
  | IpcError.InvalidCommandVerb v => is_u32 v
  | IpcError.IntervalOutOfBounds r => is_u64 r
  | IpcError.CrcMismatch a b => is_u32 a ∧ is_u32 b
  | IpcError.RateLimitExceeded p => is_u32 p
  | IpcError.TransportIo c => - 2 ^ 31 ≤ c < 2 ^ 31
  | IpcError.ScheduleOutOfBounds s => is_u32 s
  | IpcError.TrailingBytes a b => is_u64 a ∧ is_u64 b
  | IpcError.ScheduleIdMismatch p => is_u32 p
  | _ => True
  end.

(** What one 32-bit parameter carries of an error. *)
Definition carried (e : IpcError) : IpcError :=
  match e with
  | IpcError.PayloadTooLarge n => IpcError.PayloadTooLarge (n mod 2 ^ 32)
  | IpcError.IntervalOutOfBounds r => IpcError.IntervalOutOfBounds (r mod 2 ^ 32)
  | IpcError.CrcMismatch expected _ => IpcError.CrcMismatch expected 0
  | IpcError.TrailingBytes expected _ => IpcError.TrailingBytes (expected mod 2 ^ 32) 0
  | _ => e
  end.

Definition response_wf (r : IpcResponse) : Prop :=
  match r with
  | IpcResponse.Status text => Forall (λ c, is_scalar c = true) text
  | IpcResponse.Acquired hns => is_u64 hns
  | IpcResponse.Scheduled id => is_u32 id
  | IpcResponse.Error e => ipc_error_wf e
  | _ => True
  end.
Definition response_carried (r : IpcResponse) : IpcResponse :=
  match r with IpcResponse.Error e => IpcResponse.Error (carried e) | _ => r end.

Lemma error_param_round_trip e : ipc_error_wf e →
  is_u32 (code e) ∧ is_u32 (wire_param e) ∧ from_code_param (code e) (wire_param e) = Some (carried e).
Proof.
  intros He.
  assert (is_u32 (code e)) as Hc by (destruct e; unfold is_u32; cbn; lia).
  assert (is_u32 (wire_param e)) as Hp.
  { destruct e; cbn [wire_param ipc_error_wf] in *; unfold is_u32, is_u16, wrap in *;
      try (apply Z.mod_pos_bound); lia. }
  split_and!; [done..|]. destruct e; cbn [ipc_error_wf] in He; try reflexivity.
  - change (Some (IpcError.UnsupportedVersion (wrap 16 found)) = Some (carried (IpcError.UnsupportedVersion found))).
    by rewrite wrap_id.
  - change (Some (IpcError.TransportIo (as_i32 (wrap 32 raw_os_error))) =
            Some (carried (IpcError.TransportIo raw_os_error))).
    by rewrite as_i32_wrap.
Qed.

(** A reply reaches the client as it was sent: decoding the encoding of a
    response gives the response back, a status text included, and an error with
    its kind and the low 32 bits of its first parameter (the second field of a
    checksum or length mismatch is not carried and reads 0). *)
Theorem response_round_trip r :
  response_wf r → decode_response (encode_response r) = Ok (response_carried r).
Proof.
  destruct r as [text|hns| |id| |e]; cbn [response_wf]; intros Hr; try reflexivity.
  - cbn [encode_response decode_response]. change (1 =? 1) with true. cbn iota.
    by rewrite utf8_decode_encode.
  - cbn [encode_response decode_response]. change (2 =? 1) with false. change (2 =? 2) with true.
    cbn iota. rewrite le_bytes_length, Nat.eqb_refl, le_value_bytes by (unfold is_u64 in Hr; lia). done.
  - cbn [encode_response decode_response]. change (4 =? 1) with false. change (4 =? 2) with false.
    change (4 =? 3) with false. change (4 =? 4) with true.
    cbn iota. rewrite le_bytes_length, Nat.eqb_refl, le_value_bytes by (unfold is_u32 in Hr; lia). done.
  - destruct (error_param_round_trip e Hr) as (Hc & Hp & He). unfold is_u32 in Hc, Hp.
    cbn [encode_response decode_response]. change (6 =? 1) with false. change (6 =? 2) with false.
    change (6 =? 3) with false. change (6 =? 4) with false. change (6 =? 5) with false.
    change (6 =? 6) with true. cbn iota. rewrite length_app, !le_bytes_length. cbn [Nat.add Nat.eqb].
    rewrite slice_app_l, slice_all, slice_app_r by (rewrite le_bytes_length; lia).
    rewrite le_bytes_length. cbn [Nat.sub]. rewrite slice_all by (rewrite le_bytes_length; lia).
    rewrite !le_value_bytes by lia. by rewrite He.
Qed.

Lemma response_round_trip_witness :
  decode_response (encode_response (IpcResponse.Error (IpcError.TransportIo (-2147467259)))) =
  Ok (IpcResponse.Error (IpcError.TransportIo (-2147467259))).
Proof.
  apply (response_round_trip (IpcResponse.Error (IpcError.TransportIo (-2147467259)))).
  cbn [response_wf ipc_error_wf]. lia.
Defined.

(** ** The rate limiter *)

(** A run of requests through the limiter: the decisions and the final state. *)
Fixpoint limiter_run (l : PidRateLimiter) (reqs : list (Z * Z)) : list bool * PidRateLimiter :=
  match reqs with
  | [] => ([], l)
  | (p, now) :: rest =>
      let '(r, l1) := check_and_record l p now in
      let '(ds, l2) := limiter_run l1 rest in (is_ok r :: ds, l2)
  end.

(** The sliding-window contract, over the history of accepted requests. *)
Definition times (h : list (Z * Z)) (p : Z) : list Z :=
  map snd (List.filter (λ x, fst x =? p) h).
Definition spec_allows (h : list (Z * Z)) (p now : Z) : bool :=
  (length (retain (now - RATE_LIMIT_WINDOW) (times h p)) <? MAX_REQUESTS_PER_SECOND)%nat.
Fixpoint spec_run (h : list (Z * Z)) (reqs : list (Z * Z)) : list bool * list (Z * Z) :=
  match reqs with
  | [] => ([], h)
  | (p, now) :: rest =>
      let ok := spec_allows h p now in
      let '(ds, h') := spec_run (if ok then h ++ [(p, now)] else h) rest in (ok :: ds, h')
  end.

Definition limiter_bounded (l : PidRateLimiter) : Prop :=
  NoDup (map pid l) ∧ (length l ≤ MAX_TRACKED_PIDS)%nat ∧
  Forall (λ r, length (timestamps r) ≤ MAX_REQUESTS_PER_SECOND)%nat l.

Lemma retain_length c ts : (length (retain c ts) ≤ length ts)%nat.
Proof. unfold retain. induction ts as [|t ts IH]; cbn; [lia|]. destruct_ifs; cbn; lia. Qed.

Lemma retain_app c a b : retain c (a ++ b) = retain c a ++ retain c b.
Proof. apply List.filter_app. Qed.

Lemma retain_mono c c' ts : c ≤ c' → retain c' (retain c ts) = retain c' ts.
Proof.
  intros Hc. unfold retain. induction ts as [|t ts IH]; [done|]. cbn [List.filter].
  destruct (c <? t) eqn:E1; cbn [List.filter]; [by rewrite IH|].
  replace (c' <? t) with false by lia. done.
Qed.

Lemma tracked_spec l p : tracked l p = true ↔ p ∈ map pid l.
Proof.
  unfold tracked. rewrite existsb_exists. rewrite list_elem_of_In, in_map_iff. split.
  - intros (r & Hr & E). exists r. split; [lia|done].
  - intros (r & E & Hr). exists r. split; [done|lia].
Qed.

Lemma sublist_map {A B} (f : A → B) l k : sublist l k → sublist (map f l) (map f k).
Proof. induction 1; cbn [map]; [constructor|by apply sublist_skip|by apply sublist_cons]. Qed.

Lemma remove_record_sub m l : sublist (remove_record m l) l.
Proof.
  induction l as [|x l IH]; [constructor|]. cbn [remove_record].
  destruct_ifs; [by apply sublist_cons|by apply sublist_skip].
Qed.

Lemma min_record_in best l : min_record best l ∈ best :: l.
Proof.
  revert best. induction l as [|r l IH]; intros best; cbn [min_record]; [by left|].
  specialize (IH (if older r best then r else best)). destruct (older r best); set_solver.
Qed.

Lemma remove_record_length m l : m ∈ l → length (remove_record m l) = (length l - 1)%nat.
Proof.
  induction l as [|x l IH]; [set_solver|]. intros Hm. cbn [remove_record length].
  destruct (_ && _) eqn:E; [lia|]. cbn [length].
  apply elem_of_cons in Hm as [->|Hm]; [by rewrite !Z.eqb_refl in E|].
  rewrite IH by done. destruct l; [set_solver|cbn; lia].
Qed.

Lemma evict_sub l : sublist (evict_least_recently_seen l) l.
Proof. destruct l as [|r l]; [constructor|apply remove_record_sub]. Qed.
Lemma evict_length l : length (evict_least_recently_seen l) = (length l - 1)%nat.
Proof. destruct l as [|r l]; [done|]. apply remove_record_length, min_record_in. Qed.

Lemma ensure_record_bounded l p now : limiter_bounded l → limiter_bounded (ensure_record l p now).
Proof.
  intros (Hn & Hl & Ht). unfold ensure_record. destruct (tracked l p) eqn:E; [done|].
  assert (p ∉ map pid l) as Hp by (rewrite <- tracked_spec; congruence).
  match goal with |- limiter_bounded (?X ++ _) => set (l1 := X) end.
  assert (sublist l1 l ∧ (length l1 < MAX_TRACKED_PIDS)%nat) as [Hs Hlt].
  { subst l1. destruct (MAX_TRACKED_PIDS <=? length l)%nat eqn:Hm.
    - apply Nat.leb_le in Hm. split; [apply evict_sub|]. rewrite evict_length.
      unfold MAX_TRACKED_PIDS in *. lia.
    - apply Nat.leb_gt in Hm. done. }
  pose proof (sublist_map pid _ _ Hs) as Hsp.
  unfold limiter_bounded. rewrite map_app, length_app. cbn [map length]. split_and!.
  - apply NoDup_app. split_and!; [by eapply sublist_NoDup| |apply NoDup_singleton].
    intros x Hx ->%list_elem_of_singleton. apply Hp. by eapply elem_of_sublist.
  - lia.
  - apply Forall_app. split; [|repeat constructor; cbn; lia].
    apply Forall_forall. intros x Hx. rewrite Forall_forall in Ht. apply Ht.
    by eapply elem_of_sublist.
Qed.

Lemma touch_pids l p now : map pid (touch l p now).2 = map pid l.
Proof.
  induction l as [|r l IH]; [done|]. cbn [touch]. destruct (pid r =? p) eqn:E.
  - destruct_ifs; cbn [snd map pid]; f_equal; lia.
  - destruct (touch l p now) as [r' l'] eqn:Ht. cbn [snd map] in *. by rewrite IH.
Qed.

Lemma touch_bounded l p now : limiter_bounded l → limiter_bounded (touch l p now).2.
Proof.
  intros (Hn & Hl & Ht). unfold limiter_bounded. rewrite touch_pids. split_and!; [done| |].
  - pose proof (f_equal length (touch_pids l p now)) as H. rewrite !length_map in H. lia.
  - clear Hn Hl. induction Ht as [|r l Hr Ht IH]; [constructor|]. cbn [touch].
    pose proof (retain_length (window_cutoff now) (timestamps r)) as Hlen.
    destruct (pid r =? p).
    + destruct (_ <=? _)%nat eqn:E; constructor; try done; cbn [timestamps]; [lia|].
      apply Nat.leb_gt in E. rewrite length_app. cbn. lia.
    + destruct (touch l p now) as [r' l']. by constructor.
Qed.

Lemma check_bounded l p now : limiter_bounded l → limiter_bounded (check_and_record l p now).2.
Proof. intros. by apply touch_bounded, ensure_record_bounded. Qed.

Lemma prune_bounded l now : limiter_bounded l → limiter_bounded (prune_idle_callers l now).
Proof.
  intros (Hn & Hl & Ht). unfold prune_idle_callers.
  set (l1 := map _ l). assert (map pid l1 = map pid l) as Hp by (subst l1; by rewrite map_map).
  assert (Forall (λ r, length (timestamps r) ≤ MAX_REQUESTS_PER_SECOND)%nat l1) as Ht1.
  { subst l1. clear -Ht. induction Ht as [|r l Hr Ht IH]; [constructor|]. cbn [map].
    constructor; [|done]. cbn [timestamps].
    pose proof (retain_length (window_cutoff now) (timestamps r)). lia. }
  pose proof (f_equal length Hp) as Hlen. rewrite !length_map in Hlen.
  assert (sublist (List.filter (λ r, negb (Nat.eqb (length (timestamps r)) 0)) l1) l1) as Hs.
  { clear. induction l1 as [|r l1 IH]; [constructor|]. cbn [List.filter].
    destruct_ifs; [by apply sublist_skip|by apply sublist_cons]. }
  unfold limiter_bounded. split_and!.
  - eapply sublist_NoDup; [|by apply sublist_map]. by rewrite Hp.
  - apply sublist_length in Hs. lia.
  - apply Forall_forall. intros x Hx. rewrite Forall_forall in Ht1. apply Ht1.
    by eapply elem_of_sublist.
Qed.

(** The timestamps the limiter remembers of a caller. *)
Fixpoint stamps (l : PidRateLimiter) (p : Z) : list Z :=
  match l with
  | [] => []
  | r :: rest => if pid r =? p then timestamps r else stamps rest p
  end.

Lemma stamps_untracked l p : p ∉ map pid l → stamps l p = [].
Proof.
  induction l as [|r l IH]; [done|]. cbn [map stamps]. intros Hp.
  apply not_elem_of_cons in Hp as [H1 H2]. replace (pid r =? p) with false by lia. by apply IH.
Qed.

Lemma stamps_ensure l p now q :
  (length l < MAX_TRACKED_PIDS)%nat ∨ p ∈ map pid l → stamps (ensure_record l p now) q = stamps l q.
Proof.
  unfold ensure_record. intros H. destruct (tracked l p) eqn:E; [done|].
  destruct H as [H|H]; [|apply tracked_spec in H; congruence].
  replace (_ <=? _)%nat with false by (symmetry; apply Nat.leb_gt; done).
  clear. induction l as [|r l IH]; cbn [app stamps pid timestamps]; [by destruct (p =? q)|].
  destruct (pid r =? q); done.
Qed.

Lemma ensure_tracked l p now : p ∈ map pid (ensure_record l p now).
Proof.
  unfold ensure_record. destruct (tracked l p) eqn:E; [by apply tracked_spec|].
  rewrite map_app. apply elem_of_app. right. by left.
Qed.

Lemma touch_spec l p now : p ∈ map pid l →
  let ts := retain (window_cutoff now) (stamps l p) in
  let ok := (length ts <? MAX_REQUESTS_PER_SECOND)%nat in
  is_ok (touch l p now).1 = ok ∧
  stamps (touch l p now).2 p = (if ok then ts ++ [now] else ts) ∧
  ∀ q, q ≠ p → stamps (touch l p now).2 q = stamps l q.
Proof.
  induction l as [|r l IH]; [set_solver|]. cbn [map touch stamps]. intros Hp.
  destruct (pid r =? p) eqn:E.
  - rewrite Nat.ltb_antisym. destruct (_ <=? _)%nat; cbn [negb is_ok fst snd stamps pid timestamps];
      rewrite Z.eqb_refl; (split_and!; [done..|]); intros q Hq;
      replace (p =? q) with false by lia; by replace (pid r =? q) with false by lia.
  - apply elem_of_cons in Hp as [->|Hp]; [by rewrite Z.eqb_refl in E|].
    destruct (IH Hp) as (H1 & H2 & H3). destruct (touch l p now) as [r' l']. cbn [fst snd] in *.
    cbn [stamps]. rewrite E. split_and!; [done..|]. intros q Hq. by rewrite H3.
Qed.

(** The limiter's memory and the history agree on every window from [c] on. *)
Definition remembers (l : PidRateLimiter) (h : list (Z * Z)) (c : Z) : Prop :=
  ∀ p c', c ≤ c' → retain c' (stamps l p) = retain c' (times h p).

Lemma times_app h p q now :
  times (h ++ [(p, now)]) q = if p =? q then times h q ++ [now] else times h q.
Proof.
  unfold times. rewrite List.filter_app, map_app. cbn [List.filter fst].
  destruct (p =? q); [done|]. cbn. by rewrite app_nil_r.
Qed.

Lemma check_refines l h c p now :
  (length l < MAX_TRACKED_PIDS)%nat ∨ p ∈ map pid l → RATE_LIMIT_WINDOW ≤ now →
  c ≤ now - RATE_LIMIT_WINDOW → remembers l h c →
  let ok := spec_allows h p now in
  is_ok (check_and_record l p now).1 = ok ∧
  remembers (check_and_record l p now).2 (if ok then h ++ [(p, now)] else h) (now - RATE_LIMIT_WINDOW).
Proof.
  intros Hroom Hnow Hc Hm ok. subst ok. unfold check_and_record.
  pose proof (ensure_tracked l p now) as Hin. set (l1 := ensure_record l p now) in *.
  assert (∀ q, stamps l1 q = stamps l q) as Hst by (intros q; by apply stamps_ensure).
  destruct (touch_spec l1 p now Hin) as (H1 & H2 & H3).
  unfold window_cutoff in *. replace (RATE_LIMIT_WINDOW <=? now) with true in * by lia.
  rewrite Hst, (Hm p) in H1, H2 by done. unfold spec_allows. split; [done|].
  intros q c' Hc'. destruct (decide (q = p)) as [->|Hq].
  - rewrite H2. destruct (_ <? _)%nat.
    + by rewrite times_app, Z.eqb_refl, !retain_app, retain_mono.
    + by rewrite retain_mono.
  - rewrite H3, Hst, (Hm q) by (done || lia).
    destruct (_ <? _)%nat; [|done]. rewrite times_app. by replace (p =? q) with false by lia.
Qed.

(** Requests arrive at nondecreasing times, from [c] on. *)
Fixpoint arrivals (c : Z) (reqs : list (Z * Z)) : Prop :=
  match reqs with
  | [] => True
  | (_, now) :: rest => c ≤ now ∧ arrivals now rest
  end.

Lemma ensure_pids_sub l p now S : map pid l ⊆ S → p ∈ S → map pid (ensure_record l p now) ⊆ S.
Proof.
  intros Hl Hp. unfold ensure_record. destruct (tracked l p); [done|]. rewrite map_app.
  match goal with |- map pid ?X ++ _ ⊆ _ => assert (sublist X l) as Hs end.
  { destruct (_ <=? _)%nat; [apply evict_sub|done]. }
  pose proof (sublist_subseteq _ _ (sublist_map pid _ _ Hs)). set_solver.
Qed.

Lemma room_or_tracked l p S : NoDup (map pid l) → map pid l ⊆ S → p ∈ S → NoDup S →
  (length S ≤ MAX_TRACKED_PIDS)%nat → (length l < MAX_TRACKED_PIDS)%nat ∨ p ∈ map pid l.
Proof.
  intros Hn Hl Hp HS Hlen. destruct (decide (p ∈ map pid l)) as [|Hnot]; [by right|]. left.
  assert (NoDup (p :: map pid l)) as Hn' by (by constructor).
  apply NoDup_submseteq with (k := S) in Hn'; [|set_solver].
  apply submseteq_length in Hn'. cbn [length] in Hn'. rewrite length_map in Hn'. lia.
Qed.

Lemma run_refines S reqs l h c : NoDup S → (length S ≤ MAX_TRACKED_PIDS)%nat →
  limiter_bounded l → map pid l ⊆ S → map fst reqs ⊆ S →
  RATE_LIMIT_WINDOW ≤ c → arrivals c reqs → remembers l h (c - RATE_LIMIT_WINDOW) →
  (limiter_run l reqs).1 = (spec_run h reqs).1.
Proof.
  intros HS Hlen. revert l h c. induction reqs as [|[p now] reqs IH]; [done|].
  intros l h c Hb Hl Hr Hc Ha Hm. cbn [map fst] in Hr. cbn [arrivals] in Ha. destruct Ha as [Ha Ha'].
  destruct (check_refines l h (c - RATE_LIMIT_WINDOW) p now) as [Hok Hm'];
    [eapply room_or_tracked; eauto; [apply Hb|set_solver]|lia|lia|done|].
  pose proof (check_bounded l p now Hb) as Hb'.
  assert (map pid (check_and_record l p now).2 ⊆ S) as Hl'.
  { unfold check_and_record. rewrite touch_pids. apply ensure_pids_sub; set_solver. }
  cbn [limiter_run spec_run]. destruct (check_and_record l p now) as [r l1]. cbn [fst snd] in *.
  specialize (IH l1 (if spec_allows h p now then h ++ [(p, now)] else h) now).
  rewrite <- Hok in *. destruct (limiter_run l1 reqs) as [ds l2].
  destruct (spec_run _ reqs) as [ds' h']. cbn [fst] in *. f_equal.
  apply IH; try done; [set_solver|lia].
Qed.

(** The accepted requests of a run. *)
Fixpoint accepted (reqs : list (Z * Z)) (ds : list bool) : list (Z * Z) :=
  match reqs, ds with
  | r :: reqs', d :: ds' => if d then r :: accepted reqs' ds' else accepted reqs' ds'
  | _, _ => []
  end.

Definition in_window (t : Z) (ts : list Z) : list Z :=
  List.filter (λ x, (t - RATE_LIMIT_WINDOW <? x) && (x <=? t)) ts.

Lemma spec_run_history reqs h : (spec_run h reqs).2 = h ++ accepted reqs (spec_run h reqs).1.
Proof.
  revert h. induction reqs as [|[p now] reqs IH]; intros h; cbn [spec_run]; [by rewrite app_nil_r|].
  specialize (IH (if spec_allows h p now then h ++ [(p, now)] else h)).
  destruct (spec_run _ reqs) as [ds h']. cbn [fst snd accepted] in *. rewrite IH.
  destruct (spec_allows h p now); [by rewrite <- app_assoc|done].
Qed.

Lemma in_window_le_retain t now ts : now ≤ t →
  (length (in_window t ts) ≤ length (retain (now - RATE_LIMIT_WINDOW) ts))%nat.
Proof.
  intros Ht. unfold in_window, retain. induction ts as [|x ts IH]; [done|]. cbn [List.filter].
  destruct (t - RATE_LIMIT_WINDOW <? x) eqn:E1; cbn [andb].
  - replace (now - RATE_LIMIT_WINDOW <? x) with true by lia. destruct (x <=? t); cbn [length]; lia.
  - by destruct (now - RATE_LIMIT_WINDOW <? x); cbn [length]; [apply le_S|].
Qed.

Lemma in_window_app t a b : in_window t (a ++ b) = in_window t a ++ in_window t b.
Proof. apply List.filter_app. Qed.

Lemma spec_window reqs h c : arrivals c reqs →
  (∀ p t, length (in_window t (times h p)) ≤ MAX_REQUESTS_PER_SECOND)%nat →
  ∀ p t, (length (in_window t (times (spec_run h reqs).2 p)) ≤ MAX_REQUESTS_PER_SECOND)%nat.
Proof.
  revert h c. induction reqs as [|[p now] reqs IH]; [done|]. intros h c Ha Hw. cbn [spec_run].
  cbn [arrivals] in Ha. specialize (IH (if spec_allows h p now then h ++ [(p, now)] else h) now).
  destruct (spec_run _ reqs) as [ds h']. cbn [fst snd] in *. apply IH; [apply Ha|].
  intros q t. destruct (spec_allows h p now) eqn:Hok; [|apply Hw]. rewrite times_app.
  destruct (p =? q) eqn:E; [|apply Hw]. assert (p = q) as -> by lia.
  unfold spec_allows in Hok. apply Nat.ltb_lt in Hok. rewrite in_window_app, length_app.
  destruct (decide (now ≤ t)) as [Ht|Ht].
  - pose proof (in_window_le_retain t now (times h q) Ht).
    pose proof (filter_length_le (λ x, (t - RATE_LIMIT_WINDOW <? x) && (x <=? t)) [now]) as Hf.
    fold (in_window t [now]) in Hf. cbn [length] in Hf. lia.
  - unfold in_window at 2. cbn [List.filter]. replace (now <=? t) with false by lia.
    rewrite andb_false_r. cbn [length]. pose proof (Hw q t). lia.
Qed.


Definition burst : list (Z * Z) := map (λ k, (7, 2000000000 + k)) (seqZ 0 12).


(** The limiter's memory is bounded whatever the callers do: after any sequence
    of requests, from any number of processes and at any times, it tracks at
    most 64 processes, each once and with at most ten timestamps, and pruning
    idle callers keeps that. *)
Theorem limiter_memory_bounded reqs now :
  let l := (limiter_run limiter_new reqs).2 in
  limiter_bounded l ∧ limiter_bounded (prune_idle_callers l now).
Proof.
  intros l. assert (limiter_bounded l) as H; [|split; [done|by apply prune_bounded]].
  subst l. assert (limiter_bounded limiter_new) as H0.
  { split_and!; [constructor|unfold MAX_TRACKED_PIDS; cbn; lia|constructor]. }
  revert H0. generalize limiter_new. induction reqs as [|[p n] reqs IH]; intros l Hl; [done|].
  cbn [limiter_run]. pose proof (check_bounded l p n Hl) as H1.
  destruct (check_and_record l p n) as [r l1]. specialize (IH l1 H1).
  destruct (limiter_run l1 reqs). done.
Qed.
