(* ===== verification/Pause.v ===== *)
(** * Pause: durations, presets and the duration coordinator

    Models [apps/true-tick/src/pause.rs].  A [Duration] and an [Instant] are
    nanoseconds; a deadline is [now] plus at most a day and does not overflow
    the clock. *)
From S2P Require Import Prelude Text Order Core Policy.

Definition MIN_PRESET_SECONDS : Z := 10.
Definition MAX_PRESET_SECONDS : Z := 86400.
Definition MAX_PRESETS : nat := 12.
Definition from_secs (s : Z) : Z := s * 1000000000.
Definition MAX_DURATION : Z := from_secs MAX_PRESET_SECONDS.
Definition MAX_TIMER_INTERVAL_MS : Z := 60 * 60 * 1000.

(** ** Presets *)

Record DurationPreset := mkPreset { seconds : Z }.
#[export] Instance DurationPreset_eq_dec : EqDecision DurationPreset.
Proof. solve_decision. Defined.

Definition preset_new (s : Z) : result str DurationPreset :=
  if s <? MIN_PRESET_SECONDS then Err (lit "preset must be at least 10 seconds")
  else if MAX_PRESET_SECONDS <? s then Err (lit "preset must be at most 24 hours")
  else Ok (mkPreset s).

Definition minutes (p : DurationPreset) : Z := seconds p / 60.
Definition duration (p : DurationPreset) : Z := from_secs (seconds p).

Module DurationChoice.
Inductive DurationChoice := OneMinute | FiveMinutes | FifteenMinutes | ThirtyMinutes | OneHour.
End DurationChoice.
Abbreviation DurationChoice := DurationChoice.DurationChoice.

Definition choice_minutes (c : DurationChoice) : Z :=
  match c with
  | DurationChoice.OneMinute => 1 | DurationChoice.FiveMinutes => 5
  | DurationChoice.FifteenMinutes => 15 | DurationChoice.ThirtyMinutes => 30
  | DurationChoice.OneHour => 60
  end.
Definition choice_label (c : DurationChoice) : str :=
  match c with
  | DurationChoice.OneMinute => lit "1 minute" | DurationChoice.FiveMinutes => lit "5 minutes"
  | DurationChoice.FifteenMinutes => lit "15 minutes"
  | DurationChoice.ThirtyMinutes => lit "30 minutes" | DurationChoice.OneHour => lit "1 hour"
  end.
Definition choice_all : list DurationChoice :=
  [DurationChoice.OneMinute; DurationChoice.FiveMinutes; DurationChoice.FifteenMinutes;
   DurationChoice.ThirtyMinutes; DurationChoice.OneHour].
Definition pause_choices : list DurationChoice :=
  [DurationChoice.FiveMinutes; DurationChoice.FifteenMinutes;
   DurationChoice.ThirtyMinutes; DurationChoice.OneHour].
(** [.unwrap()]: [Err] is the panic. *)
Definition to_preset (c : DurationChoice) : result str DurationPreset :=
  preset_new (choice_minutes c * 60).

(** ** Labels *)

Definition unit_label (value : Z) (unit : str) : str :=
  if value =? 1 then show_u value ++ lit " " ++ unit
  else show_u value ++ lit " " ++ unit ++ lit "s".

Definition format_label (p : DurationPreset) : str :=
  let seconds := seconds p in
  if seconds <? 60 then unit_label seconds (lit "second")
  else if seconds mod 3600 =? 0 then unit_label (seconds / 3600) (lit "hour")
  else if (seconds <? 3600) && (seconds mod 60 =? 0) then unit_label (seconds / 60) (lit "minute")
  else
    let hours := seconds / 3600 in
    let minutes := (seconds mod 3600) / 60 in
    let remainder := seconds mod 60 in
    let parts := [] in
    let parts := if 0 <? hours then parts ++ [show_u hours ++ lit "h"] else parts in
    let parts := if 0 <? minutes then parts ++ [show_u minutes ++ lit "m"] else parts in
    let parts := if 0 <? remainder then parts ++ [show_u remainder ++ lit "s"] else parts in
    join (lit " ") parts.

(** ** Parsing *)

Definition invalid_number : str := lit "invalid duration number".
Definition out_of_range : str := lit "preset must be between 10 seconds and 24 hours".

Definition parse_decimal_micros (text : str) : result str Z :=
  match split_char 46 text with
  | _ :: _ :: _ :: _ => Err invalid_number
  | parts =>
      let integer_text := hd [] parts in
      let fraction_text := nth_error parts 1 in
      integer_part ← (if bool_decide (integer_text = []) then
                        match fraction_text with Some _ => Ok 0 | None => Err invalid_number end
                      else ok_or (parse_u 64 integer_text) invalid_number);
      fractional_micros ←
        match fraction_text with
        | Some fraction =>
            if 6 <? str_len fraction then Err invalid_number
            else ok_or (parse_u 64 (fraction ++ replicate (Z.to_nat (6 - str_len fraction)) 48))
                       invalid_number
        | None => Ok 0
        end;
      whole ← ok_or (checked_mul 64 integer_part 1000000) invalid_number;
      ok_or (checked_add 64 whole fractional_micros) invalid_number
  end.

Definition from_micros_rounded (micros : Z) : result str DurationPreset :=
  shifted ← ok_or (checked_add 64 micros 500000) invalid_number;
  let total_seconds := shifted / 1000000 in
  if (total_seconds <? MIN_PRESET_SECONDS) || (MAX_PRESET_SECONDS <? total_seconds)
  then Err out_of_range
  else preset_new (wrap 32 total_seconds).

(** The number at the head: its text, whether a digit and a dot were seen, and
    the rest. *)
Fixpoint take_number (seen_digit seen_dot : bool) (s : str) : str * bool * bool * str :=
  match s with
  | [] => ([], seen_digit, seen_dot, [])
  | c :: t =>
      if is_ascii_digit c then
        let '(n, d, o, r) := take_number true seen_dot t in (c :: n, d, o, r)
      else if (c =? 46) && negb seen_dot then
        let '(n, d, o, r) := take_number seen_digit true t in (c :: n, d, o, r)
      else ([], seen_digit, seen_dot, s)
  end.

Fixpoint take_unit (s : str) : str * str :=
  match s with
  | [] => ([], [])
  | c :: t => if is_ascii_alphabetic c then let '(u, r) := take_unit t in (c :: u, r) else ([], s)
  end.

Definition one_of (u : str) (names : list string) : bool := existsb (λ n, str_eqb u (lit n)) names.

Definition unit_micros (u : str) : result str Z :=
  if one_of u ["s"; "sec"; "secs"; "second"; "seconds"]%string then Ok 1000000
  else if one_of u ["m"; "min"; "mins"; "minute"; "minutes"]%string then Ok (60 * 1000000)
  else if one_of u ["h"; "hr"; "hrs"; "hour"; "hours"]%string then Ok (3600 * 1000000)
  else if bool_decide (u = []) then Err (lit "expected a unit after the number")
  else Err (lit "unknown duration unit").

(** The seconds of one segment, rounded to the nearest. *)
Definition segment_seconds (number_text : str) (seen_dot : bool) (unit : Z) : result str Z :=
  micros ← (if seen_dot then
              micros ← parse_decimal_micros number_text;
              scaled ← ok_or (checked_mul 64 micros unit) invalid_number;
              Ok (scaled / 1000000)
            else
              value ← ok_or (parse_u 64 number_text) invalid_number;
              ok_or (checked_mul 64 value unit) invalid_number);
  shifted ← ok_or (checked_add 64 micros 500000) invalid_number;
  Ok (shifted / 1000000).

(** The segment loop; every turn consumes a digit, so the length bounds it. *)
Fixpoint parse_segments (fuel : nat) (chars : str) (total_seconds : Z) (consumed_segment : bool)
    : result str (Z * bool) :=
  match fuel with
  | O => Ok (total_seconds, consumed_segment)
  | S fuel =>
      match drop_while is_whitespace chars with
      | [] => Ok (total_seconds, consumed_segment)
      | chars =>
          let '(number_text, seen_digit, seen_dot, chars) := take_number false false chars in
          if negb seen_digit then Err (lit "expected a number in duration text")
          else
            let '(unit, chars) := take_unit chars in
            unit ← unit_micros unit;
            s ← segment_seconds number_text seen_dot unit;
            total ← ok_or (checked_add 64 total_seconds s) invalid_number;
            if MAX_PRESET_SECONDS <? total then Err out_of_range
            else parse_segments fuel chars total true
      end
  end.

Definition parse (text : str) : result str DurationPreset :=
  let trimmed := trim text in
  if bool_decide (trimmed = []) then Err (lit "duration text is empty")
  else
    let lower := lowercase trimmed in
    if forallb (λ c, is_ascii_digit c || (c =? 46)) lower then
      micros ← parse_decimal_micros lower;
      total_micros ← ok_or (checked_mul 64 micros 60) invalid_number;
      from_micros_rounded total_micros
    else
      '(total_seconds, consumed_segment) ← parse_segments (S (length lower)) lower 0 false;
      if negb consumed_segment then Err (lit "duration text is empty")
      else if negb ((MIN_PRESET_SECONDS <=? total_seconds) && (total_seconds <=? MAX_PRESET_SECONDS))
      then Err out_of_range
      else preset_new (wrap 32 total_seconds).

Example parse_compound : parse (lit " 1h 30m ") = Ok (mkPreset 5400).
Proof. vm_compute. reflexivity. Qed.
Example parse_fraction : parse (lit "1.000001H") = Ok (mkPreset 3600).
Proof. vm_compute. reflexivity. Qed.

(** ** The preset list *)

Record PresetsManager := mkPresets { presets : list DurationPreset }.

Definition result_ok {E A} (r : result E A) : option A :=
  match r with Ok x => Some x | Err _ => None end.

Definition default_presets : list DurationPreset :=
  omap (λ s, result_ok (preset_new s)) [60; 300; 900; 1800; 3600].
Definition presets_new : PresetsManager := mkPresets default_presets.

(** [presets.sort()]: by the seconds. *)
Definition preset_sort (l : list DurationPreset) : list DurationPreset :=
  sort_by (λ a b, seconds a <=? seconds b) l.

Definition add (m : PresetsManager) (p : DurationPreset) : result str unit * PresetsManager :=
  if bool_decide (p ∈ presets m) then (Err (lit "preset already exists"), m)
  else if (MAX_PRESETS <=? length (presets m))%nat
  then (Err (lit "maximum of 12 presets reached"), m)
  else (Ok tt, mkPresets (preset_sort (presets m ++ [p]))).

Definition remove (m : PresetsManager) (index : nat) : result str unit * PresetsManager :=
  if (length (presets m) <=? index)%nat then (Err (lit "preset index out of range"), m)
  else if (length (presets m) <=? 1)%nat
  then (Err (lit "at least one preset must remain"), m)
  else (Ok tt, mkPresets (delete index (presets m))).

Definition reset_defaults (m : PresetsManager) : PresetsManager := mkPresets default_presets.
Definition to_seconds_list (m : PresetsManager) : list Z := map seconds (presets m).

(** [dedup]: of equal neighbours the first is kept. *)
Fixpoint dedup (l : list DurationPreset) : list DurationPreset :=
  match l with
  | [] => []
  | x :: t => match dedup t with
              | [] => [x]
              | y :: t' => if bool_decide (x = y) then x :: t' else x :: y :: t'
              end
  end.

Definition from_seconds_list (l : list Z) : PresetsManager :=
  let ps := take MAX_PRESETS (dedup (preset_sort (omap (λ s, result_ok (preset_new s)) l))) in
  mkPresets (if bool_decide (ps = []) then default_presets else ps).

(** ** The duration coordinator *)

Module DurationAction.
Inductive DurationAction := Start | Stop | Pause.
End DurationAction.
Abbreviation DurationAction := DurationAction.DurationAction.
#[export] Instance DurationAction_eq_dec : EqDecision DurationAction.
Proof. solve_decision. Defined.

Definition action_label (a : DurationAction) : str :=
  match a with
  | DurationAction.Start => lit "start" | DurationAction.Stop => lit "stop"
  | DurationAction.Pause => lit "pause"
  end.

Record ScheduledAction := mkScheduled {
  action : DurationAction; sched_duration : DurationPreset; deadline : Z; sched_generation : Z }.
#[export] Instance ScheduledAction_eq_dec : EqDecision ScheduledAction.
Proof. solve_decision. Defined.

(** [deadline.saturating_duration_since(now)] *)
Definition remaining (a : ScheduledAction) (now : Z) : Z := sat_sub (deadline a) now.

Module ScheduleRequest.
Inductive ScheduleRequest :=
| Started (current : ScheduledAction)
| Replaced (previous current : ScheduledAction).
End ScheduleRequest.
Abbreviation ScheduleRequest := ScheduleRequest.ScheduleRequest.

Module CoordinatorTimerEvent.
Inductive CoordinatorTimerEvent :=
| Expired (action : ScheduledAction)
| Early (action : DurationAction) (generation remaining : Z)
| Stale.
End CoordinatorTimerEvent.
Abbreviation CoordinatorTimerEvent := CoordinatorTimerEvent.CoordinatorTimerEvent.

Record DurationCoordinator := mkCoordinator {
  scheduled : option ScheduledAction; generation : Z }.

Definition coordinator_new : DurationCoordinator := mkCoordinator None 0.
Definition active (c : DurationCoordinator) : bool := bool_decide (is_Some (scheduled c)).
Definition pause_active (c : DurationCoordinator) : bool :=
  match scheduled c with
  | Some a => bool_decide (action a = DurationAction.Pause)
  | None => false
  end.
Definition coordinator_deadline (c : DurationCoordinator) : option Z := deadline <$> scheduled c.

Definition schedule (c : DurationCoordinator) (a : DurationAction) (d : DurationPreset) (now : Z)
    : ScheduleRequest * DurationCoordinator :=
  let g := sat_add 64 (generation c) 1 in
  let current := mkScheduled a d (now + Z.min (duration d) MAX_DURATION) g in
  (match scheduled c with
   | Some previous => ScheduleRequest.Replaced previous current
   | None => ScheduleRequest.Started current
   end, mkCoordinator (Some current) g).

Definition cancel (c : DurationCoordinator) : option ScheduledAction * DurationCoordinator :=
  (scheduled c,
   mkCoordinator None (if bool_decide (is_Some (scheduled c)) then sat_add 64 (generation c) 1
                       else generation c)).

Definition timer_event (c : DurationCoordinator) (g now : Z) : CoordinatorTimerEvent :=
  match scheduled c with
  | None => CoordinatorTimerEvent.Stale
  | Some a =>
      if negb (g =? generation c) || negb (g =? sched_generation a)
      then CoordinatorTimerEvent.Stale
      else
        let remaining := remaining a now in
        if remaining =? 0 then CoordinatorTimerEvent.Expired a
        else CoordinatorTimerEvent.Early (action a) g remaining
  end.

Definition acquisition_is_allowed (paused automatic : bool) (power : PowerState)
    (battery_lockout : bool) : bool :=
  negb paused && automatic &&
  bool_decide (status (decide (mkPolicyInput true true power battery_lockout)) = Status.Requested).

Definition timer_interval_ms (remaining : Z) : Z :=
  Z.min (Z.max (remaining / 1000000) 1) MAX_TIMER_INTERVAL_MS.

(** ** Presets: the list *)

Definition preset_valid (p : DurationPreset) : Prop :=
  MIN_PRESET_SECONDS ≤ seconds p ≤ MAX_PRESET_SECONDS.

Lemma preset_new_ok s p : preset_new s = Ok p ↔ p = mkPreset s ∧ preset_valid p.
Proof.
  unfold preset_new, preset_valid. split.
  - intros H. destruct_ifs; simplify_eq. reflect_bools. cbn. split; [done|lia].
  - intros [-> Hv]. cbn in Hv. destruct_ifs; reflect_bools; first [lia|done].
Qed.

(** Strictly increasing, so without duplicates. *)
Fixpoint increasing (l : list DurationPreset) : Prop :=
  match l with
  | [] => True
  | x :: t => Forall (λ y, seconds x < seconds y) t ∧ increasing t
  end.

Definition presets_wf (m : PresetsManager) : Prop :=
  Forall preset_valid (presets m) ∧ increasing (presets m) ∧
  (1 ≤ length (presets m) ≤ MAX_PRESETS)%nat.

Abbreviation preset_le := (λ a b, seconds a <=? seconds b).

Lemma preset_sort_sorted l : sorted_by preset_le (preset_sort l).
Proof. apply sort_by_sorted; intros; lia. Qed.
Lemma preset_sort_perm l : preset_sort l ≡ₚ l.
Proof. apply sort_by_perm. Qed.

Lemma preset_eq p q : seconds p = seconds q → p = q.
Proof. destruct p, q. cbn. by intros ->. Qed.

Lemma sorted_increasing l : sorted_by preset_le l → NoDup l → increasing l.
Proof.
  induction l as [|x l IH]; [done|]. cbn [sorted_by increasing]. intros [Hx Hs] Hn.
  inversion_clear Hn as [|?? Hnx Hn']. split; [|by apply IH].
  rewrite Forall_forall in Hx |- *. intros y Hy. specialize (Hx y Hy). cbn in Hx.
  assert (seconds x ≠ seconds y); [|lia]. intros Heq%preset_eq. by subst.
Qed.

Lemma increasing_sorted l : increasing l → sorted_by preset_le l ∧ NoDup l.
Proof.
  induction l as [|x l IH]; [by repeat constructor|]. cbn [sorted_by increasing].
  intros [Hx Hi]. destruct (IH Hi) as [Hs Hn]. rewrite Forall_forall in Hx. split_and!.
  - apply Forall_forall. intros y Hy. specialize (Hx y Hy). lia.
  - done.
  - constructor; [|done]. intros Hin. specialize (Hx x Hin). lia.
Qed.

Lemma sublist_increasing l k : sublist l k → increasing k → increasing l.
Proof.
  induction 1 as [|x l k Hs IH|x l k Hs IH]; cbn [increasing]; [done| |]; intros [Hx Hi].
  - split; [|by apply IH]. rewrite Forall_forall in Hx |- *. intros y Hy.
    apply Hx. by eapply elem_of_sublist.
  - by apply IH.
Qed.

Lemma dedup_head x t : ∃ t', dedup (x :: t) = x :: t'.
Proof.
  cbn [dedup]. destruct (dedup t) as [|y t']; [by eexists|]. destruct_ifs; by eexists.
Qed.

Lemma dedup_elem l x : x ∈ dedup l ↔ x ∈ l.
Proof.
  induction l as [|y l IH]; [done|]. cbn [dedup]. destruct (dedup l) as [|z t] eqn:E.
  - rewrite !elem_of_cons, <- IH. done.
  - destruct (bool_decide (y = z)) eqn:Eb.
    + apply bool_decide_eq_true in Eb as ->. rewrite !elem_of_cons in *. naive_solver.
    + rewrite !elem_of_cons in *. naive_solver.
Qed.

Lemma dedup_increasing l : sorted_by preset_le l → increasing (dedup l).
Proof.
  induction l as [|x l IH]; [done|]. cbn [sorted_by]. intros [Hx Hs]. specialize (IH Hs).
  cbn [dedup]. destruct (dedup l) as [|y t] eqn:E; [by repeat constructor|].
  destruct (bool_decide (x = y)) eqn:Eb; [apply bool_decide_eq_true in Eb; by subst|].
  apply bool_decide_eq_false in Eb. split; [|done].
  assert (∀ z, z ∈ y :: t → seconds x ≤ seconds z) as Hle.
  { intros z Hz. rewrite <- E, dedup_elem in Hz. rewrite Forall_forall in Hx.
    specialize (Hx z Hz). cbn in Hx. lia. }
  destruct IH as [Hy Ht]. assert (seconds x < seconds y).
  { specialize (Hle y ltac:(by left)). assert (seconds x ≠ seconds y); [|lia].
    by intros ?%preset_eq. }
  constructor; [done|]. eapply Forall_impl; [exact Hy|]. cbn. lia.
Qed.

Lemma dedup_fixed l : increasing l → dedup l = l.
Proof.
  induction l as [|x l IH]; [done|]. cbn [increasing dedup]. intros [Hx Hi]. rewrite IH by done.
  destruct l as [|y l]; [done|]. inversion_clear Hx. rewrite bool_decide_eq_false_2; [done|].
  intros ->. lia.
Qed.

Lemma sort_fixed l : sorted_by preset_le l → preset_sort l = l.
Proof.
  unfold preset_sort. induction l as [|x l IH]; [done|]. cbn [sorted_by sort_by foldr]. intros [Hx Hs].
  fold (sort_by preset_le l). rewrite IH by done. destruct l as [|y l]; [done|].
  inversion_clear Hx as [|?? Hy]. cbn [insert_by]. by rewrite Hy.
Qed.

Lemma default_presets_wf : presets_wf presets_new.
Proof.
  split_and!; [|cbn; repeat (split; [repeat constructor; cbn; lia|]); done|cbn; unfold MAX_PRESETS; lia..].
  cbn. unfold preset_valid, MIN_PRESET_SECONDS, MAX_PRESET_SECONDS. repeat constructor; cbn; lia.
Qed.

Lemma add_wf m p : presets_wf m → preset_valid p →
  presets_wf (add m p).2 ∧
  match (add m p).1 with
  | Ok _ => presets (add m p).2 ≡ₚ p :: presets m ∧ p ∉ presets m
  | Err _ => (add m p).2 = m ∧ (p ∈ presets m ∨ length (presets m) = MAX_PRESETS)
  end.
Proof.
  intros (Hv & Hi & Hl) Hp. unfold add.
  destruct (bool_decide (p ∈ presets m)) eqn:E1.
  { apply bool_decide_eq_true in E1. cbn [fst snd]. split; [done|]. split; [done|by left]. }
  apply bool_decide_eq_false in E1. destruct (_ <=? _)%nat eqn:E2; cbn [fst snd].
  { apply Nat.leb_le in E2. split; [done|]. split; [done|]. right. lia. }
  apply Nat.leb_gt in E2. cbn [presets].
  assert (preset_sort (presets m ++ [p]) ≡ₚ p :: presets m) as Hperm.
  { rewrite preset_sort_perm. by rewrite Permutation_app_comm. }
  split; [|by split]. destruct (increasing_sorted _ Hi) as [_ Hn].
  pose proof (Permutation_length Hperm) as Hlen. cbn [length] in Hlen.
  unfold presets_wf. cbn [presets]. split_and!; [rewrite Hperm; by constructor| |lia..].
  apply sorted_increasing; [apply preset_sort_sorted|]. rewrite Hperm. by constructor.
Qed.

Lemma remove_wf m i : presets_wf m →
  presets_wf (remove m i).2 ∧
  match (remove m i).1 with
  | Ok _ => presets (remove m i).2 = delete i (presets m) ∧ (i < length (presets m))%nat
  | Err _ => (remove m i).2 = m ∧ ((length (presets m) ≤ i)%nat ∨ length (presets m) = 1%nat)
  end.
Proof.
  intros (Hv & Hi & Hl). unfold remove.
  destruct (length (presets m) <=? i)%nat eqn:E1; cbn [fst snd].
  { apply Nat.leb_le in E1. split; [done|]. split; [done|by left]. }
  apply Nat.leb_gt in E1. destruct (_ <=? 1)%nat eqn:E2; cbn [fst snd].
  { apply Nat.leb_le in E2. split; [done|]. split; [done|]. right. lia. }
  apply Nat.leb_gt in E2. split; [|done]. unfold presets_wf. cbn [presets].
  pose proof (sublist_delete (presets m) i) as Hs. split_and!.
  - rewrite Forall_forall in Hv |- *. intros x Hx. apply Hv. by eapply elem_of_sublist.
  - by eapply sublist_increasing.
  - rewrite length_delete by (by apply lookup_lt_is_Some_2). lia.
  - rewrite length_delete by (by apply lookup_lt_is_Some_2). lia.
Qed.

Lemma loaded_valid l : Forall preset_valid (omap (λ s, result_ok (preset_new s)) l).
Proof.
  apply Forall_forall. intros p Hp. apply list_elem_of_omap in Hp as (s & _ & Hs).
  destruct (preset_new s) eqn:E; [|done]. injection Hs as <-. by apply preset_new_ok in E as [-> Hv].
Qed.

Lemma from_seconds_wf l : presets_wf (from_seconds_list l).
Proof.
  unfold from_seconds_list. set (ps := omap _ l). set (d := dedup (preset_sort ps)).
  destruct (bool_decide (take MAX_PRESETS d = [])) eqn:E; [exact default_presets_wf|].
  apply bool_decide_eq_false in E. unfold presets_wf. cbn [presets]. split_and!.
  - apply Forall_take, Forall_forall. intros x Hx. subst d. rewrite dedup_elem, preset_sort_perm in Hx.
    pose proof (loaded_valid l) as Hv. rewrite Forall_forall in Hv. by apply Hv.
  - eapply sublist_increasing; [apply sublist_take|]. apply dedup_increasing, preset_sort_sorted.
  - destruct (take MAX_PRESETS d); [done|]. cbn. lia.
  - rewrite length_take. lia.
Qed.

Lemma from_to_seconds m : presets_wf m → from_seconds_list (to_seconds_list m) = m.
Proof.
  intros (Hv & Hi & Hl). unfold from_seconds_list, to_seconds_list.
  assert (omap (λ s, result_ok (preset_new s)) (map seconds (presets m)) = presets m) as ->.
  { clear Hi Hl. induction Hv as [|p l Hp _ IH]; [done|]. cbn [map omap list_omap].
    rewrite (proj2 (preset_new_ok (seconds p) p)) by (split; [by destruct p|done]).
    cbn [result_ok]. by rewrite IH. }
  destruct (increasing_sorted _ Hi) as [Hs _].
  rewrite sort_fixed, dedup_fixed, take_ge by (done || lia).
  rewrite bool_decide_eq_false_2; [by destruct m|]. intros E. rewrite E in Hl. cbn in Hl. lia.
Qed.

(** The commands of the presets window, and loading the configured list. *)
Inductive PresetCommand :=
| AddPreset (text : str) | RemovePreset (index : nat) | ResetPresets | LoadPresets (l : list Z).

Definition preset_command_step (m : PresetsManager) (c : PresetCommand) : PresetsManager :=
  match c with
  | AddPreset text => match parse text with Ok p => (add m p).2 | Err _ => m end
  | RemovePreset index => (remove m index).2
  | ResetPresets => reset_defaults m
  | LoadPresets l => from_seconds_list l
  end.

Lemma from_micros_valid micros p : from_micros_rounded micros = Ok p → preset_valid p.
Proof.
  unfold from_micros_rounded. intros H. apply bind_ok in H as (x & _ & H).
  destruct (_ || _); [done|]. by apply preset_new_ok in H as [_ H].
Qed.

Lemma parse_valid text p : parse text = Ok p → preset_valid p.
Proof.
  unfold parse. intros H. destruct (bool_decide _); [done|]. destruct (forallb _ _).
  - apply bind_ok in H as (m & _ & H). apply bind_ok in H as (t & _ & H). by eapply from_micros_valid.
  - apply bind_ok in H as ([t b] & _ & H). destruct (negb b); [done|].
    destruct (negb _); [done|]. by apply preset_new_ok in H as [_ H].
Qed.

(** The preset list is well formed whatever is typed, removed or configured:
    after any commands it holds between 1 and 12 presets, each between 10 and
    86400 seconds, in strictly increasing order; a refused addition or removal
    leaves it unchanged, an accepted one adds or removes exactly one preset, and
    storing it as seconds and loading it back gives the same list. *)
Theorem presets_stay_valid commands p i :
  let m := foldl preset_command_step presets_new commands in
  presets_wf m ∧ from_seconds_list (to_seconds_list m) = m ∧
  (preset_valid p → match (add m p).1 with
                    | Ok _ => presets (add m p).2 ≡ₚ p :: presets m
                    | Err _ => (add m p).2 = m end) ∧
  match (remove m i).1 with
  | Ok _ => presets (remove m i).2 = delete i (presets m)
  | Err _ => (remove m i).2 = m
  end.
Proof.
  intros m. assert (presets_wf m) as Hm.
  { subst m. pose proof default_presets_wf as H0. revert H0. generalize presets_new.
    induction commands as [|c cs IH]; intros m Hm; [done|]. cbn [foldl]. apply IH.
    destruct c as [text|index| |l]; cbn [preset_command_step].
    - destruct (parse text) as [q|] eqn:E; [|done]. apply add_wf; [done|by eapply parse_valid].
    - by apply remove_wf.
    - exact default_presets_wf.
    - apply from_seconds_wf. }
  split_and!; [done|by apply from_to_seconds| |].
  - intros Hp. pose proof (add_wf m p Hm Hp) as [_ H]. by destruct (add m p).1; destruct H.
  - pose proof (remove_wf m i Hm) as [_ H]. by destruct (remove m i).1; destruct H.
Qed.

(** ** The coordinator: stale timers *)

Inductive CoordinatorOp :=
| OpSchedule (a : DurationAction) (d : DurationPreset) (now : Z)
| OpCancel.

Definition coordinator_step (c : DurationCoordinator) (op : CoordinatorOp) : DurationCoordinator :=
  match op with
  | OpSchedule a d now => (schedule c a d now).2
  | OpCancel => (cancel c).2
  end.

Definition coordinator_inv (n : nat) (c : DurationCoordinator) : Prop :=
  0 ≤ generation c ≤ Z.of_nat n ∧
  ∀ a, scheduled c = Some a → sched_generation a = generation c.

Lemma coordinator_step_inv n c op :
  Z.of_nat n < u64_max → coordinator_inv n c → coordinator_inv (S n) (coordinator_step c op).
Proof.
  unfold coordinator_inv, u64_max. intros Hn [Hg Hs].
  destruct op as [a d now|]; cbn [coordinator_step schedule cancel snd scheduled generation].
  - unfold sat_add. split; [lia|]. by intros b [= <-].
  - split; [unfold sat_add; destruct (bool_decide _); lia|done].
Qed.

Lemma coordinator_run_inv ops n c :
  Z.of_nat (n + length ops) ≤ u64_max → coordinator_inv n c →
  coordinator_inv (n + length ops) (foldl coordinator_step c ops).
Proof.
  revert n c. induction ops as [|op ops IH]; intros n c Hn Hc; cbn [foldl length] in *;
    [by rewrite Nat.add_0_r|].
  replace (n + S (length ops))%nat with (S n + length ops)%nat by lia.
  apply IH; [lia|]. apply coordinator_step_inv; [lia|done].
Qed.

Lemma coordinator_step_grows c op :
  0 ≤ generation c < u64_max →
  generation c ≤ generation (coordinator_step c op) ≤ generation c + 1 ∧
  (is_Some (scheduled c) → generation (coordinator_step c op) = generation c + 1).
Proof.
  intros Hg. destruct op; cbn [coordinator_step schedule cancel snd generation]; unfold sat_add, u64_max in *.
  - lia.
  - destruct (bool_decide _) eqn:E; [lia|]. apply bool_decide_eq_false in E. split; [lia|done].
Qed.

Lemma coordinator_run_grows ops c :
  0 ≤ generation c → generation c + Z.of_nat (length ops) ≤ u64_max →
  generation c ≤ generation (foldl coordinator_step c ops).
Proof.
  revert c. induction ops as [|op ops IH]; intros c H0 Hn; cbn [foldl length] in *; [lia|].
  destruct (coordinator_step_grows c op) as [H _]; [lia|].
  specialize (IH (coordinator_step c op)). lia.
Qed.

(** C40: a scheduled action runs only from its own timer and not before its
    deadline: for every history of schedules and cancellations, the timer of the
    current action expires exactly from its deadline on (before it, the event
    says how long remains), and once anything was scheduled or cancelled after
    that timer was armed, its event is stale at any time, whatever is scheduled
    by then. *)
Theorem stale_timer_never_fires before after a now :
  let armed := foldl coordinator_step coordinator_new before in
  let timer := generation armed in
  scheduled armed = Some a → Z.of_nat (length before + length after) ≤ u64_max →
  timer_event armed timer now =
    (if deadline a <=? now then CoordinatorTimerEvent.Expired a
     else CoordinatorTimerEvent.Early (action a) timer (deadline a - now)) ∧
  (after ≠ [] →
   timer_event (foldl coordinator_step armed after) timer now = CoordinatorTimerEvent.Stale).
Proof.
  intros armed timer Ha Hn.
  assert (coordinator_inv (0 + length before) armed) as [Hg Hs].
  { apply coordinator_run_inv; [cbn; lia|]. split; [cbn; lia|done]. }
  specialize (Hs a Ha). subst timer. split.
  - unfold timer_event. rewrite Ha, Hs, Z.eqb_refl. cbn [negb orb]. unfold remaining, sat_sub.
    destruct (deadline a <=? now) eqn:E.
    + by replace (_ =? 0) with true by lia.
    + replace (_ =? 0) with false by lia. f_equal. lia.
  - intros Hafter. destruct after as [|op after]; [done|]. cbn [foldl length] in *.
    destruct (coordinator_step_grows armed op) as [_ H]; [unfold u64_max in *; lia|].
    rewrite Ha in H. specialize (H ltac:(done)).
    pose proof (coordinator_run_grows after (coordinator_step armed op)) as Hrun.
    set (c2 := foldl coordinator_step (coordinator_step armed op) after) in *.
    unfold timer_event. destruct (scheduled c2); [|done].
    by replace (generation armed =? generation c2) with false by lia.
Qed.

Lemma stale_timer_never_fires_witness :
  let armed := foldl coordinator_step coordinator_new
                 [OpSchedule DurationAction.Start (mkPreset 60) 5] in
  timer_event (foldl coordinator_step armed [OpCancel; OpSchedule DurationAction.Stop (mkPreset 10) 6])
    (generation armed) 99000000000 = CoordinatorTimerEvent.Stale.
Proof.
  apply (stale_timer_never_fires [OpSchedule DurationAction.Start (mkPreset 60) 5] _
           (mkScheduled DurationAction.Start (mkPreset 60) 60000000005 1)); [|cbn; unfold u64_max; lia|done].
  vm_compute. reflexivity.
Defined.

(** ** Labels read back *)

Lemma take_number_digits ds rest seen :
  Forall (λ c, is_ascii_digit c = true) ds →
  match rest with [] => True | c :: _ => is_ascii_digit c = false ∧ c ≠ 46 end →
  take_number seen false (ds ++ rest) =
  (ds, match ds with [] => seen | _ => true end, false, rest).
Proof.
  intros Hd Hr. revert seen. induction Hd as [|c ds Hc _ IH]; intros seen; cbn [app].
  - destruct rest as [|c rest]; [done|]. destruct Hr as [Hc Hn]. cbn [take_number].
    rewrite Hc. by replace (c =? 46) with false by lia.
  - cbn [take_number]. rewrite Hc, IH. by destruct ds.
Qed.

Lemma show_u_head n : 0 ≤ n → ∃ c t, show_u n = c :: t ∧ is_ascii_digit c = true.
Proof.
  intros Hn. destruct (show_u_cons n) as (c & t & E). exists c, t. split; [done|].
  pose proof (show_u_digits n Hn) as Hd. rewrite E in Hd. by inversion Hd.
Qed.

Lemma digit_head_not_ws n rest : 0 ≤ n →
  drop_while is_whitespace (show_u n ++ rest) = show_u n ++ rest ∧ show_u n ++ rest ≠ [].
Proof.
  intros Hn. destruct (show_u_head n Hn) as (c & t & -> & Hc). cbn [app drop_while].
  replace (is_whitespace c) with false; [done|]. unfold is_ascii_digit, is_whitespace in *. lia.
Qed.

Lemma take_number_length s d o : let '(n, d', o', r) := take_number d o s in
  (length n + length r = length s)%nat ∧ (d' = true → d = true ∨ (0 < length n)%nat).
Proof.
  revert d o. induction s as [|c s IH]; intros d o; cbn [take_number]; [split; [done|by left]|].
  destruct (is_ascii_digit c).
  - specialize (IH true o). destruct (take_number true o s) as [[[n d'] o'] r]. cbn [length].
    split; [lia|]. intros _. right. lia.
  - destruct ((c =? 46) && negb o); [|split; [done|by left]].
    specialize (IH d true). destruct (take_number d true s) as [[[n d'] o'] r]. cbn [length].
    split; [lia|]. intros H. right. lia.
Qed.

Lemma take_unit_length s : (length (take_unit s).2 ≤ length s)%nat.
Proof.
  induction s as [|c s IH]; cbn [take_unit]; [done|]. destruct (is_ascii_alphabetic c); [|done].
  destruct (take_unit s). cbn in *. lia.
Qed.

Lemma drop_while_length f s : (length (drop_while f s) ≤ length s)%nat.
Proof. induction s as [|c s IH]; cbn [drop_while]; [done|]. destruct (f c); cbn; lia. Qed.

(** The fuel of [parse] is enough: more changes nothing. *)
Lemma parse_segments_fuel fuel1 fuel2 s total b :
  (length s < fuel1)%nat → (length s < fuel2)%nat →
  parse_segments fuel1 s total b = parse_segments fuel2 s total b.
Proof.
  revert fuel2 s total b. induction fuel1 as [|f1 IH]; intros [|f2] s total b H1 H2; try lia.
  cbn [parse_segments]. pose proof (drop_while_length is_whitespace s) as Hd.
  destruct (drop_while is_whitespace s) as [|c t]; [done|].
  pose proof (take_number_length (c :: t) false false) as Hn.
  destruct (take_number false false (c :: t)) as [[[n d] o] r]. destruct Hn as [Hl Hc].
  destruct d; [|done]. destruct (Hc eq_refl) as [|Hpos]; [done|]. cbn [negb].
  pose proof (take_unit_length r) as Hu. destruct (take_unit r) as [u r']. cbn [snd] in Hu.
  destruct (unit_micros u); [|done]. cbn [mbind result_bind].
  destruct (segment_seconds n o value) as [sec|]; [|done]. cbn [mbind result_bind].
  destruct (checked_add 64 total sec); [|done]. cbn [ok_or mbind result_bind].
  destruct (MAX_PRESET_SECONDS <? z); [done|]. apply IH; lia.
Qed.

(** A segment: a number, its unit and the seconds in the unit. *)
Definition unit_char (u k : Z) : Prop := (u = 115 ∧ k = 1) ∨ (u = 109 ∧ k = 60) ∨ (u = 104 ∧ k = 3600).

Lemma unit_char_facts u k : unit_char u k →
  is_ascii_alphabetic u = true ∧ is_ascii_digit u = false ∧ u ≠ 46 ∧
  unit_micros [u] = Ok (k * 1000000) ∧ 1 ≤ k ≤ 3600 ∧ is_ascii_upper u = false ∧
  is_whitespace u = false.
Proof.
  intros [[-> ->]|[[-> ->]|[-> ->]]]; split_and!; try lia; vm_compute; reflexivity.
Qed.

Lemma segment_seconds_int n k : 0 ≤ n → 1 ≤ k → n * k ≤ MAX_PRESET_SECONDS →
  segment_seconds (show_u n) false (k * 1000000) = Ok (n * k).
Proof.
  unfold MAX_PRESET_SECONDS. intros Hn Hk Hle. assert (n ≤ 86400) by nia.
  unfold segment_seconds. rewrite parse_show by lia. cbn [ok_or mbind result_bind].
  unfold checked_mul. replace (n * (k * 1000000)) with (n * k * 1000000) by lia.
  replace (n * k * 1000000 <? 2 ^ 64) with true by lia. cbn [ok_or mbind result_bind].
  unfold checked_add. replace (n * k * 1000000 + 500000 <? 2 ^ 64) with true by lia.
  cbn [ok_or mbind result_bind]. f_equal. symmetry. apply (Z.div_unique _ _ _ 500000); lia.
Qed.

Lemma parse_segment fuel n u k rest total b :
  unit_char u k → 0 ≤ n → 0 ≤ total → total + n * k ≤ MAX_PRESET_SECONDS →
  match rest with [] => True | c :: _ => is_ascii_alphabetic c = false end →
  parse_segments (S fuel) (show_u n ++ u :: rest) total b =
  parse_segments fuel rest (total + n * k) true.
Proof.
  intros Hu Hn Ht Hle Hr. destruct (unit_char_facts u k Hu) as (Ha & Hd & H46 & Hm & Hk & _ & _).
  cbn [parse_segments]. destruct (digit_head_not_ws n (u :: rest) Hn) as [-> Hne].
  destruct (show_u n ++ u :: rest) as [|c0 t0] eqn:E0; [done|]. rewrite <- E0. clear E0 Hne c0 t0.
  rewrite take_number_digits by (first [by apply show_u_digits|done]).
  destruct (show_u_cons n) as (c & t & E).
  assert (match show_u n with [] => false | _ => true end = true) as -> by (by rewrite E).
  cbn [negb]. assert (take_unit (u :: rest) = ([u], rest)) as ->.
  { cbn [take_unit]. rewrite Ha. destruct rest as [|d rest]; [done|]. cbn [take_unit]. by rewrite Hr. }
  assert (0 ≤ n * k) by nia.
  rewrite Hm. cbn [mbind result_bind]. rewrite segment_seconds_int by lia. cbn [mbind result_bind].
  unfold checked_add, MAX_PRESET_SECONDS in *.
  replace (total + n * k <? 2 ^ 64) with true by lia. cbn [ok_or mbind result_bind].
  by replace (86400 <? total + n * k) with false by lia.
Qed.

(** Segments separated by spaces. *)
Definition segment : Type := Z * Z * Z.
Definition segment_text (s : segment) : str := show_u s.1.1 ++ [s.1.2].
Definition segment_ok (s : segment) : Prop := 0 ≤ s.1.1 ∧ unit_char s.1.2 s.2.
Definition total_of (l : list segment) : Z := foldr (λ s acc, s.1.1 * s.2 + acc) 0 l.

Lemma total_nonneg l : Forall segment_ok l → 0 ≤ total_of l.
Proof.
  induction 1 as [|[[n u] k] l [Hn Hu] _ IH]; [cbn; lia|]. cbn [fst snd] in *.
  change (0 ≤ n * k + total_of l).
  destruct (unit_char_facts u k Hu) as (_ & _ & _ & _ & Hk & _). nia.
Qed.

Lemma parse_joined l fuel total b : Forall segment_ok l → (length l < fuel)%nat → 0 ≤ total →
  total + total_of l ≤ MAX_PRESET_SECONDS →
  parse_segments fuel (join (lit " ") (map segment_text l)) total b =
  Ok (total + total_of l, match l with [] => b | _ => true end).
Proof.
  intros Hl. revert fuel total b. induction Hl as [|[[n u] k] l [Hn Hu] Hl IH]; intros fuel total b Hf Ht Hle.
  - destruct fuel as [|fuel]; [cbn in Hf; lia|]. cbn. do 2 f_equal. lia.
  - destruct fuel as [|[|fuel]]; [cbn in Hf; lia..|]. cbn [total_of foldr] in Hle.
    fold (total_of l) in Hle. pose proof (total_nonneg l Hl) as Htl. cbn [fst snd length] in *.
    destruct (unit_char_facts u k Hu) as (_ & _ & _ & _ & Hk & _).
    assert (0 ≤ n * k) by nia. destruct l as [|s l].
    + cbn [map join]. unfold segment_text. cbn [fst snd].
      rewrite (parse_segment _ n u k []) by (done || lia). cbn. do 2 f_equal. lia.
    + cbn [map]. change (join (lit " ") (segment_text (n, u, k) :: segment_text s :: map segment_text l))
        with (segment_text (n, u, k) ++ 32 :: join (lit " ") (map segment_text (s :: l))).
      unfold segment_text at 1. cbn [fst snd]. rewrite <- app_assoc. cbn [app].
      rewrite (parse_segment _ n u k) by (done || lia).
      transitivity (parse_segments (S fuel) (join (lit " ") (map segment_text (s :: l))) (total + n * k) true);
        [reflexivity|].
      rewrite IH by (cbn [length] in *; lia). cbn [total_of foldr fst snd]. do 2 f_equal. lia.
Qed.

Lemma drop_while_keep f c t : f c = false → drop_while f (c :: t) = c :: t.
Proof. intros H. cbn [drop_while]. by rewrite H. Qed.

Lemma trim_ends c t s z : c :: t = s ++ [z] → is_whitespace c = false → is_whitespace z = false →
  trim (c :: t) = c :: t.
Proof.
  intros E Hc Hz. unfold trim, trim_matches, trim_start_matches, trim_end_matches.
  rewrite drop_while_keep by done. rewrite E, reverse_snoc, drop_while_keep by done.
  by rewrite <- reverse_snoc, reverse_involutive.
Qed.

Lemma lowercase_fixed s : Forall (λ c, is_ascii_upper c = false) s → lowercase s = s.
Proof.
  unfold lowercase. induction 1 as [|c s Hc _ IH]; [done|]. cbn [map]. rewrite IH.
  unfold to_ascii_lower. by rewrite Hc.
Qed.

(** A text that starts with a number and ends with a lower-case letter goes to
    the segment loop as it is. *)
Lemma parse_text n rest s z : 0 ≤ n → show_u n ++ rest = s ++ [z] → is_ascii_lower z = true →
  Forall (λ c, is_ascii_upper c = false) (show_u n ++ rest) →
  parse (show_u n ++ rest) =
  ('(total_seconds, consumed_segment) ←
     parse_segments (S (length (show_u n ++ rest))) (show_u n ++ rest) 0 false;
   if negb consumed_segment then Err (lit "duration text is empty")
   else if negb ((MIN_PRESET_SECONDS <=? total_seconds) && (total_seconds <=? MAX_PRESET_SECONDS))
   then Err out_of_range else preset_new (wrap 32 total_seconds)).
Proof.
  intros Hn E Hz Hlow. destruct (show_u_head n Hn) as (c & t & Ec & Hc).
  rewrite Ec in *. cbn [app] in *. unfold parse. rewrite (trim_ends c (t ++ rest) s z); [|done|..].
  - cbn [bool_decide decide_rel list_eq_dec]. rewrite bool_decide_eq_false_2 by done.
    rewrite lowercase_fixed by done.
    assert (forallb (λ c, is_ascii_digit c || (c =? 46)) (c :: t ++ rest) = false) as ->; [|done].
    rewrite E, forallb_app. cbn [forallb]. unfold is_ascii_lower, is_ascii_digit in *.
    replace ((48 <=? z) && (z <=? 57) || (z =? 46)) with false by lia. by rewrite andb_false_r.
  - unfold is_ascii_digit, is_whitespace in *. lia.
  - unfold is_ascii_lower, is_whitespace in *. lia.
Qed.

Lemma digits_not_upper n : 0 ≤ n → Forall (λ c, is_ascii_upper c = false) (show_u n).
Proof.
  intros Hn. eapply Forall_impl; [by apply show_u_digits|]. cbn. intros c.
  unfold is_ascii_digit, is_ascii_upper. lia.
Qed.

Lemma unit_label_rejected v unit s z : 0 ≤ v → lit " " ++ unit = s ++ [z] →
  is_ascii_lower z = true → Forall (λ c, is_ascii_upper c = false) unit →
  parse (show_u v ++ lit " " ++ unit) = Err (lit "expected a unit after the number").
Proof.
  intros Hv E Hz Hu. change (lit " " ++ unit) with (32 :: unit) in *.
  rewrite (parse_text v _ (show_u v ++ s) z); [|done|by rewrite E, app_assoc|done|].
  - cbn [parse_segments]. destruct (digit_head_not_ws v (32 :: unit) Hv) as [-> Hne].
    destruct (show_u v ++ 32 :: unit) as [|c0 t0] eqn:E0; [done|]. rewrite <- E0.
    rewrite take_number_digits by (first [by apply show_u_digits|split; [reflexivity|lia]]).
    destruct (show_u_cons v) as (c & t & Ec). rewrite Ec. reflexivity.
  - apply Forall_app. split; [by apply digits_not_upper|]. by constructor.
Qed.

Definition compound (p : DurationPreset) : bool :=
  negb ((seconds p <? 60) || (seconds p mod 3600 =? 0) ||
        ((seconds p <? 3600) && (seconds p mod 60 =? 0))).

(** The segments of a compound label. *)
Definition segments (p : DurationPreset) : list segment :=
  List.filter (λ s, 0 <? s.1.1)
    [(seconds p / 3600, 104, 3600); ((seconds p mod 3600) / 60, 109, 60); (seconds p mod 60, 115, 1)].

Lemma segments_total p : 0 ≤ seconds p → total_of (segments p) = seconds p.
Proof.
  intros Hp. unfold segments. cbn [List.filter fst snd].
  destruct_ifs; cbn [total_of foldr fst snd]; reflect_bools; dlia.
Qed.

Lemma segments_ok p : 0 ≤ seconds p → Forall segment_ok (segments p).
Proof.
  intros Hp. apply (List.incl_Forall (l1 := [(seconds p / 3600, 104, 3600);
    (seconds p mod 3600 / 60, 109, 60); (seconds p mod 60, 115, 1)])).
  { intros x Hx. unfold segments in Hx. by apply (proj1 (filter_In _ _ _)) in Hx as [Hx _]. }
  unfold segment_ok, unit_char. constructor; [|constructor; [|constructor; [|constructor]]];
    cbn [fst snd]; (split; [dlia|]); [by right; right|by right; left|by left].
Qed.

Lemma compound_label p : compound p = true →
  format_label p = join (lit " ") (map segment_text (segments p)).
Proof.
  unfold compound, format_label. intros H. destruct (seconds p <? 60); [done|].
  destruct (seconds p mod 3600 =? 0); [done|]. cbn [orb] in H.
  destruct ((seconds p <? 3600) && _); [done|]. unfold segments. cbn [List.filter fst snd].
  destruct (0 <? seconds p / 3600), (0 <? seconds p mod 3600 / 60), (0 <? seconds p mod 60);
    reflexivity.
Qed.

Abbreviation joined l := (join (lit " ") (map segment_text l)).

Lemma joined_cons x y l : joined (x :: y :: l) = segment_text x ++ 32 :: joined (y :: l).
Proof. reflexivity. Qed.

Lemma segment_not_upper x : segment_ok x → Forall (λ c, is_ascii_upper c = false) (segment_text x).
Proof.
  intros [Hn Hu]. unfold segment_text. apply Forall_app. split; [by apply digits_not_upper|].
  constructor; [|constructor]. by apply (unit_char_facts _ _ Hu).
Qed.

Lemma joined_not_upper l : Forall segment_ok l → Forall (λ c, is_ascii_upper c = false) (joined l).
Proof.
  induction 1 as [|x l Hx Hl IH]; [constructor|]. destruct l as [|y l]; [by apply segment_not_upper|].
  rewrite joined_cons. apply Forall_app. split; [by apply segment_not_upper|]. by constructor.
Qed.

Lemma joined_last l : l ≠ [] → Forall segment_ok l → ∃ s z, joined l = s ++ [z] ∧ is_ascii_lower z = true.
Proof.
  intros Hne. induction 1 as [|x l Hx Hl IH]; [done|]. destruct l as [|y l].
  - exists (show_u x.1.1), x.1.2. split; [reflexivity|].
    destruct Hx as [_ [[-> _]|[[-> _]|[-> _]]]]; reflexivity.
  - destruct (IH ltac:(done)) as (s & z & E & Hz). exists (segment_text x ++ 32 :: s), z.
    rewrite joined_cons, E, <- app_assoc. done.
Qed.

Lemma joined_head x l : ∃ rest, joined (x :: l) = show_u x.1.1 ++ rest.
Proof.
  destruct l as [|y l]; [by exists [x.1.2]|]. exists (x.1.2 :: 32 :: joined (y :: l)).
  rewrite joined_cons. unfold segment_text at 1. by rewrite <- app_assoc.
Qed.

Lemma joined_length l : (length l ≤ length (joined l))%nat.
Proof.
  induction l as [|x l IH]; [done|]. destruct l as [|y l].
  - change (joined [x]) with (segment_text x). unfold segment_text. rewrite length_app. cbn. lia.
  - rewrite joined_cons, length_app. cbn [length] in *. lia.
Qed.

Lemma parse_compound_text l p : l ≠ [] → Forall segment_ok l → total_of l = seconds p →
  preset_valid p → parse (joined l) = Ok p.
Proof.
  intros Hne Hl Ht Hv. pose proof Hv as [Hlo Hhi]. destruct (joined_last l Hne Hl) as (s & z & E & Hz).
  destruct l as [|x l]; [done|]. destruct (joined_head x l) as (rest & Eh).
  pose proof (joined_not_upper (x :: l) Hl) as Hup. pose proof (joined_length (x :: l)) as Hlen.
  assert (parse_segments (S (length (joined (x :: l)))) (joined (x :: l)) 0 false =
          Ok (0 + total_of (x :: l), true)) as Hp.
  { rewrite parse_joined; [done|done|lia|lia|lia]. }
  rewrite Eh in *. rewrite (parse_text _ _ s z); [|by inversion Hl as [|?? [Hn _]]|done|done|done].
  rewrite Hp, Ht. cbn [mbind result_bind negb].
  replace ((MIN_PRESET_SECONDS <=? 0 + seconds p) && (0 + seconds p <=? MAX_PRESET_SECONDS)) with true by lia.
  cbn [negb]. unfold MIN_PRESET_SECONDS, MAX_PRESET_SECONDS in *. rewrite wrap_id by lia.
  apply preset_new_ok. split; [|done]. by destruct p.
Qed.

Lemma unit_label_parses v unit : 0 ≤ v → unit = lit "second" ∨ unit = lit "minute" ∨ unit = lit "hour" →
  parse (unit_label v unit) = Err (lit "expected a unit after the number").
Proof.
  intros Hv Hu. unfold unit_label.
  destruct (v =? 1); destruct Hu as [->|[->| ->]].
  - by apply (unit_label_rejected v _ (lit " secon") 100); [|reflexivity..|repeat constructor].
  - by apply (unit_label_rejected v _ (lit " minut") 101); [|reflexivity..|repeat constructor].
  - by apply (unit_label_rejected v _ (lit " hou") 114); [|reflexivity..|repeat constructor].
  - by apply (unit_label_rejected v _ (lit " second") 115); [|reflexivity..|repeat constructor].
  - by apply (unit_label_rejected v _ (lit " minute") 115); [|reflexivity..|repeat constructor].
  - by apply (unit_label_rejected v _ (lit " hour") 115); [|reflexivity..|repeat constructor].
Qed.

(** Which labels the preset parser reads back: the label shown for a preset
    parses to that preset exactly when it is a compound one ("1h 30m"); the
    label of a whole number of seconds, minutes or hours ("5 minutes") is
    refused, because no space may separate a number from its unit. *)
Theorem preset_label_parses p : preset_valid p →
  parse (format_label p) =
  if compound p then Ok p else Err (lit "expected a unit after the number").
Proof.
  intros Hv. pose proof Hv as [Hlo Hhi]. unfold MIN_PRESET_SECONDS in Hlo.
  destruct (compound p) eqn:Hc.
  - rewrite compound_label by done. pose proof (segments_total p ltac:(lia)) as Ht.
    apply parse_compound_text; [|apply segments_ok; lia|done|done].
    intros E. rewrite E in Ht. cbn in Ht. lia.
  - unfold compound in Hc. unfold format_label. destruct (seconds p <? 60) eqn:E1.
    { apply unit_label_parses; [lia|by left]. }
    destruct (seconds p mod 3600 =? 0) eqn:E2.
    { apply unit_label_parses; [apply Z.div_pos; lia|by right; right]. }
    cbn [orb negb] in Hc. apply negb_false_iff in Hc. rewrite Hc.
    apply unit_label_parses; [apply Z.div_pos; lia|by right; left].
Qed.

Lemma preset_label_parses_witness :
  parse (format_label (mkPreset 5400)) = Ok (mkPreset 5400) ∧
  parse (format_label (mkPreset 300)) = Err (lit "expected a unit after the number").
Proof.
  assert (preset_valid (mkPreset 5400)) as H1 by (split; cbn; unfold MIN_PRESET_SECONDS, MAX_PRESET_SECONDS; lia).
  assert (preset_valid (mkPreset 300)) as H2 by (split; cbn; unfold MIN_PRESET_SECONDS, MAX_PRESET_SECONDS; lia).
  split; [exact (preset_label_parses _ H1)|exact (preset_label_parses _ H2)].
Defined.
