(* ===== verification/Files.v ===== *)
(** * Files: the file system as the program uses it

    [std::fs] calls on a store of files and directories.  Each call may fail: the
    store carries the outcomes of the next calls ([faults]), so every theorem
    that holds for all stores holds for every pattern of failures, a write that
    fails after part of its bytes included.  Replacing a file by a rename
    ([MoveFileExW] with [MOVEFILE_REPLACE_EXISTING]) is atomic. *)
From S2P Require Import Prelude Text.

(** A path: its components, the file name last. *)
Abbreviation path := (list (list Z)) (only parsing).

Definition path_join (p : path) (name : str) : path := p ++ [name].
Definition path_parent (p : path) : option path :=
  match reverse p with [] => None | _ :: t => Some (reverse t) end.
Definition file_name (p : path) : option str := last p.
(** [file_stem]: up to the last dot, the whole name when that is its first character. *)
Definition file_stem (p : path) : option str :=
  (λ n, match rsplit_once 46 n with Some ((_ :: _) as s, _) => s | _ => n end) <$> file_name p.

Module IoKind.
Inductive IoKind := NotFound | AlreadyExists | PermissionDenied | InvalidData | Other.
End IoKind.
Abbreviation IoKind := IoKind.IoKind.
#[export] Instance IoKind_eq_dec : EqDecision IoKind.
Proof. solve_decision. Defined.

Record IoError := mkIo { io_kind : IoKind; raw_os_error : option Z }.

(** How an operating system error is displayed. *)
Class IoDisplay := io_display : IoError → str.

(** How a path is displayed. *)
Class PathDisplay := path_display : path → str.
(** [PathBuf::from]. *)
Class PathParse := path_parse : str → path.

Inductive Node := File (content : bytes) | Dir.

(** A failing call: the error, and the bytes a failing write has written. *)
Record Fault := mkFault { fault_error : IoError; fault_progress : nat }.

Record Fs := mkFs { nodes : gmap path Node; faults : list (option Fault) }.

Definition set_nodes (f : gmap path Node → gmap path Node) (s : Fs) : Fs := mkFs (f (nodes s)) (faults s).

(** What the store holds at a path. *)
Definition content_at (s : Fs) (p : path) : option bytes :=
  match nodes s !! p with Some (File c) => Some c | _ => None end.

Abbreviation FS := (comp Fs IoError).

Definition not_found : IoError := mkIo IoKind.NotFound (Some 2).
Definition denied : IoError := mkIo IoKind.PermissionDenied (Some 5).

(** The outcome of the next call. *)
Definition next_fault : FS (option Fault) := λ s,
  match faults s with
  | [] => (Ok None, s)
  | f :: t => (Ok f, mkFs (nodes s) t)
  end.
Definition guard_call : FS unit :=
  f ← next_fault; match f with Some e => fail (fault_error e) | None => mret tt end.

(** [Path::exists] and [Path::is_file]: false when the query fails. *)
Definition fs_exists (p : path) : comp Fs IoError bool :=
  f ← next_fault; s ← get;
  mret (bool_decide (f = None) && bool_decide (is_Some (nodes s !! p))).
Definition fs_is_file (p : path) : comp Fs IoError bool :=
  f ← next_fault; s ← get;
  mret (bool_decide (f = None) && bool_decide (is_Some (content_at s p))).

Definition fs_metadata_len (p : path) : FS Z :=
  _ ← guard_call; s ← get;
  match nodes s !! p with
  | Some (File c) => mret (Z.of_nat (length c))
  | Some Dir => mret 0
  | None => fail not_found
  end.

Definition fs_read (p : path) : FS bytes :=
  _ ← guard_call; s ← get;
  match nodes s !! p with
  | Some (File c) => mret c
  | Some Dir => fail denied
  | None => fail not_found
  end.
Definition fs_read_to_string (p : path) : FS str :=
  c ← fs_read p;
  match utf8_decode c with Some t => mret t | None => fail (mkIo IoKind.InvalidData None) end.

Definition is_dir (s : Fs) (p : option path) : bool :=
  match p with
  | Some ((_ :: _) as p) => match nodes s !! p with Some Dir => true | _ => false end
  | _ => true
  end.

(** [File::create]: an existing file is truncated. *)
Definition fs_create (p : path) : FS unit :=
  _ ← guard_call; s ← get;
  match nodes s !! p with
  | Some Dir => fail denied
  | _ => if is_dir s (path_parent p) then modify (set_nodes <[p := File []]>) else fail not_found
  end.

Definition append_at (p : path) (bs : bytes) (m : gmap path Node) : gmap path Node :=
  match m !! p with Some (File c) => <[p := File (c ++ bs)]> m | _ => m end.

(** [write_all] on a file open at [p]. *)
Definition fs_write_all (p : path) (bs : bytes) : FS unit :=
  f ← next_fault;
  match f with
  | Some e => _ ← modify (set_nodes (append_at p (take (fault_progress e) bs))); fail (fault_error e)
  | None => modify (set_nodes (append_at p bs))
  end.
Definition fs_sync_all (p : path) : FS unit := guard_call.

(** [fs::write]. *)
Definition fs_write (p : path) (bs : bytes) : FS unit := _ ← fs_create p; fs_write_all p bs.

(** [OpenOptions::new().create(true).append(true).open] *)
Definition fs_open_append (p : path) : FS unit :=
  _ ← guard_call; s ← get;
  match nodes s !! p with
  | Some Dir => fail denied
  | Some (File _) => mret tt
  | None => if is_dir s (path_parent p) then modify (set_nodes <[p := File []]>) else fail not_found
  end.

(** [fs::rename] or [MoveFileExW] replacing the target. *)
Definition fs_replace (source target : path) : FS unit :=
  _ ← guard_call; s ← get;
  match nodes s !! source, nodes s !! target with
  | Some (File c), Some Dir => fail denied
  | Some (File c), _ =>
      if is_dir s (path_parent target)
      then modify (set_nodes (λ m, <[target := File c]> (delete source m))) else fail not_found
  | _, _ => fail not_found
  end.

Definition fs_remove_file (p : path) : FS unit :=
  _ ← guard_call; s ← get;
  match nodes s !! p with
  | Some (File _) => modify (set_nodes (delete p))
  | Some Dir => fail denied
  | None => fail not_found
  end.

(** [fs::create_dir_all]. *)
Fixpoint make_dirs (done todo : path) (m : gmap path Node) : option (gmap path Node) :=
  match todo with
  | [] => Some m
  | c :: t =>
      let p := done ++ [c] in
      match m !! p with
      | Some (File _) => None
      | _ => make_dirs p t (<[p := Dir]> m)
      end
  end.
Definition fs_create_dir_all (p : path) : FS unit :=
  _ ← guard_call; s ← get;
  match make_dirs [] p (nodes s) with
  | Some m => modify (set_nodes (λ _, m))
  | None => fail (mkIo IoKind.AlreadyExists (Some 183))
  end.

(** [fs::copy]. *)
Definition fs_copy (source target : path) : FS unit := c ← fs_read source; fs_write target c.

(** [let _ = call]. *)
Definition ignore {T} (m : FS T) : FS unit := _ ← attempt m; mret tt.

(** An error of one type as one of another. *)
Definition map_err {E E' T} (f : E → E') (m : comp Fs E T) : comp Fs E' T := λ s,
  let '(r, s) := m s in (match r with Ok x => Ok x | Err e => Err (f e) end, s).

(** ** Replacing a file through a temporary one

    [File::create(temporary)], [write_all], [sync_all], then the rename; the
    temporary file is removed when a step fails. *)
Definition write_body (temporary target : path) (bs : bytes) : FS unit :=
  _ ← fs_create temporary; _ ← fs_write_all temporary bs; _ ← fs_sync_all temporary;
  fs_replace temporary target.
Definition write_atomic (temporary target : path) (bs : bytes) : FS unit :=
  r ← attempt (write_body temporary target bs);
  _ ← (if is_ok r then mret tt else ignore (fs_remove_file temporary));
  lift r.

Lemma path_parent_join p n : path_parent (path_join p n) = Some p.
Proof.
  unfold path_join, path_parent. rewrite reverse_app. change (reverse [n]) with [n]. cbn [app].
  by rewrite reverse_involutive.
Qed.
Lemma file_name_join p n : file_name (path_join p n) = Some n.
Proof. apply last_snoc. Qed.

Lemma join_ne (q q' : path) (n n' : str) : n ≠ n' → path_join q n ≠ path_join q' n'.
Proof. unfold path_join. intros Hn Hq. apply app_inj_2 in Hq as [_ [= ->]]; done. Qed.
(** Names told apart by their last character. *)
Lemma join_last_ne (q q' : path) (n n' : str) : last n ≠ last n' → path_join q n ≠ path_join q' n'.
Proof. intros Hn. apply join_ne. by intros ->. Qed.

Lemma content_same s s' q : nodes s' !! q = nodes s !! q → content_at s' q = content_at s q.
Proof. unfold content_at. by intros ->. Qed.

(** ** What the calls keep *)

(** Outside [ps] nothing has changed. *)
Definition same_but (ps : list path) (s s' : Fs) : Prop := ∀ p, p ∉ ps → nodes s' !! p = nodes s !! p.

Lemma same_but_refl ps s : same_but ps s s.
Proof. done. Qed.
Lemma same_but_trans ps s1 s2 s3 : same_but ps s1 s2 → same_but ps s2 s3 → same_but ps s1 s3.
Proof. intros H1 H2 p Hp. by rewrite H2, H1. Qed.
Lemma same_but_weaken ps qs s s' : (∀ p, p ∈ ps → p ∈ qs) → same_but ps s s' → same_but qs s s'.
Proof. intros Hi Hs p Hp. apply Hs. auto. Qed.

(** A call touches only the paths [ps], whatever happens. *)
Definition touches {E T} (ps : list path) (m : comp Fs E T) : Prop := ∀ s, same_but ps s (m s).2.

Section TouchesGeneric.
Context {E : Type}.
Lemma touches_ret {T} ps (x : T) : touches ps (mret x : comp Fs E T).
Proof. done. Qed.
Lemma touches_fail {T} (ps : list path) e : touches ps (fail e : comp Fs E T).
Proof. done. Qed.
Lemma touches_get (ps : list path) : touches ps (get : comp Fs E Fs).
Proof. done. Qed.
Lemma touches_lift {T} ps (r : result E T) : touches ps (lift r).
Proof. done. Qed.
Lemma touches_bind {T U} ps (m : comp Fs E T) (k : T → comp Fs E U) :
  touches ps m → (∀ x, touches ps (k x)) → touches ps (m ≫= k).
Proof.
  intros Hm Hk s. unfold mbind, comp_bind. specialize (Hm s). destruct (m s) as [[x|e] s1]; [|done].
  eapply same_but_trans; [exact Hm|apply Hk].
Qed.
Lemma touches_attempt {E' T} ps (m : comp Fs E' T) : touches ps m → touches ps (attempt m : comp Fs E _).
Proof. intros Hm s. unfold attempt. specialize (Hm s). by destruct (m s). Qed.
Lemma touches_map_err {E' T} ps (f : E → E') (m : comp Fs E T) : touches ps m → touches ps (map_err f m).
Proof. intros Hm s. unfold map_err. specialize (Hm s). by destruct (m s). Qed.
Lemma touches_weaken {T} ps qs (m : comp Fs E T) : (∀ p, p ∈ ps → p ∈ qs) → touches ps m → touches qs m.
Proof. intros Hi Hm s. eapply same_but_weaken; [exact Hi|apply Hm]. Qed.
End TouchesGeneric.
Lemma touches_fault (ps : list path) : touches ps next_fault.
Proof. intros s. unfold next_fault. by destruct (faults s). Qed.
Lemma touches_guard (ps : list path) : touches ps guard_call.
Proof. apply touches_bind; [apply touches_fault|]. by intros [e|]. Qed.
Lemma touches_modify {E : Type} (ps : list path) (g : gmap path Node → gmap path Node) :
  (∀ m p, p ∉ ps → g m !! p = m !! p) → touches ps (modify (set_nodes g) : comp Fs E unit).
Proof. intros Hg s p Hp. apply Hg, Hp. Qed.
Lemma append_at_other p bs m q : q ∉ [p] → append_at p bs m !! q = m !! q.
Proof.
  intros Hq. unfold append_at. destruct (m !! p) as [[c|]|]; [|done..]. apply lookup_insert_ne. set_solver.
Qed.

Create HintDb files.
#[export] Hint Resolve touches_ret touches_fail touches_get touches_lift touches_attempt touches_map_err touches_fault touches_guard : files.
#[export] Hint Extern 1 (_ ∈ _) => set_solver : files.
Ltac touches_tac :=
  repeat lazymatch goal with
    | |- touches _ (_ ≫= _) => apply touches_bind; [|intros ?]
    | |- touches _ (attempt _) => apply touches_attempt
    | |- touches _ (map_err _ _) => apply touches_map_err
    | |- touches _ (match ?x with _ => _ end) => destruct x
    | |- touches _ (let _ := _ in _) => cbv zeta
    | |- touches _ (modify (set_nodes _)) =>
        apply touches_modify; intros;
        first [ apply append_at_other; set_solver
              | rewrite ?lookup_insert_ne, ?lookup_delete_ne by set_solver; reflexivity ]
    | |- touches _ _ => solve [auto with files]
    end.

Section Touches.
Context (p : path) (ps : list path) (Hp : p ∈ ps).

Lemma touches_exists : touches [] (fs_exists p).
Proof. unfold fs_exists. touches_tac. Qed.
Lemma touches_is_file : touches [] (fs_is_file p).
Proof. unfold fs_is_file. touches_tac. Qed.
Lemma touches_read qs : touches qs (fs_read p).
Proof. unfold fs_read. touches_tac. Qed.
Lemma touches_metadata qs : touches qs (fs_metadata_len p).
Proof. unfold fs_metadata_len. touches_tac. Qed.
Lemma touches_sync qs : touches qs (fs_sync_all p).
Proof. unfold fs_sync_all. touches_tac. Qed.
Lemma touches_create : touches ps (fs_create p).
Proof. unfold fs_create. touches_tac. Qed.
Lemma touches_write_all bs : touches ps (fs_write_all p bs).
Proof. unfold fs_write_all. touches_tac. Qed.
Lemma touches_remove : touches ps (fs_remove_file p).
Proof. unfold fs_remove_file. touches_tac. Qed.
Lemma touches_replace q : q ∈ ps → touches ps (fs_replace p q).
Proof. intros Hq. unfold fs_replace. touches_tac. Qed.
End Touches.
#[export] Hint Resolve touches_read touches_metadata touches_sync touches_create touches_write_all touches_remove
  touches_replace : files.

(** What a successful call did. *)
Lemma guard_ok s s' : guard_call s = (Ok tt, s') → nodes s' = nodes s.
Proof. unfold guard_call, next_fault. destruct s as [n [|[f|] t]]; by intros [= <-]. Qed.

Lemma guard_bind {T} (k : FS T) s x s' : (_ ← guard_call; k) s = (Ok x, s') →
  ∃ s1, nodes s1 = nodes s ∧ k s1 = (Ok x, s').
Proof.
  unfold mbind, comp_bind. destruct (guard_call s) as [[[]|e] s1] eqn:E1; [|by intros [=]].
  intros Hk. exists s1. split; [by apply guard_ok|done].
Qed.

Lemma create_ok p s s' : fs_create p s = (Ok tt, s') → nodes s' = <[p := File []]> (nodes s).
Proof.
  intros Hc. apply guard_bind in Hc as (s1 & <- & Hc). change ((get ≫= ?k) s1) with (k s1 s1) in Hc. cbv beta in Hc.
  destruct (nodes s1 !! p) as [[|]|]; [|done|]; (destruct (is_dir _ _); [|done]; by injection Hc as <-).
Qed.
Lemma write_all_ok p bs s s' : fs_write_all p bs s = (Ok tt, s') → nodes s' = append_at p bs (nodes s).
Proof.
  unfold fs_write_all, mbind, comp_bind, next_fault. destruct s as [n [|[f|] t]]; cbn; by intros [= <-].
Qed.
Lemma replace_ok p q s s' c : nodes s !! p = Some (File c) → fs_replace p q s = (Ok tt, s') →
  nodes s' = <[q := File c]> (delete p (nodes s)).
Proof.
  intros Hp Hc. apply guard_bind in Hc as (s1 & E1 & Hc). rewrite <- E1 in *.
  change ((get ≫= ?k) s1) with (k s1 s1) in Hc. cbv beta in Hc. rewrite Hp in Hc.
  destruct (nodes s1 !! q) as [[|]|]; [|done|]; (destruct (is_dir _ _); [|done]; by injection Hc as <-).
Qed.
(** A rename that fails has done nothing. *)
Lemma replace_err p q s s' e : fs_replace p q s = (Err e, s') → nodes s' = nodes s.
Proof.
  unfold fs_replace, mbind, comp_bind. destruct (guard_call s) as [[[]|e1] s1] eqn:E1.
  - apply guard_ok in E1. cbn. rewrite <- E1.
    destruct (nodes s1 !! p) as [[|]|]; [|by intros [= _ <-]..].
    destruct (nodes s1 !! q) as [[|]|]; [|by intros [= _ <-]|]; (destruct (is_dir _ _); [done|by intros [= _ <-]]).
  - intros [= _ <-]. revert E1. unfold guard_call, next_fault. destruct s as [n [|[f|] t]]; cbn; by intros [= _ <-].
Qed.

Lemma bind_inv {E T U} (m : comp Fs E T) (k : T → comp Fs E U) s r s' : (m ≫= k) s = (r, s') →
  (∃ x s1, m s = (Ok x, s1) ∧ k x s1 = (r, s')) ∨ (∃ e, m s = (Err e, s') ∧ r = Err e).
Proof.
  unfold mbind, comp_bind. destruct (m s) as [[x|e] s1]; [by left; eauto|].
  intros [= <- <-]. right. eauto.
Qed.
Lemma touches_at {E T} ps (m : comp Fs E T) s r s' q : touches ps m → m s = (r, s') → q ∉ ps →
  nodes s' !! q = nodes s !! q.
Proof. intros Hm Em Hq. specialize (Hm s q Hq). by rewrite Em in Hm. Qed.

Lemma write_body_spec temporary target bs s r s' : temporary ≠ target →
  write_body temporary target bs s = (r, s') →
  match r with
  | Ok _ => content_at s' target = Some bs ∧ nodes s' !! temporary = None
  | Err _ => nodes s' !! target = nodes s !! target
  end.
Proof.
  intros Hne Hw. assert (target ∉ [temporary]) as Ht by set_solver.
  assert (temporary ∈ [temporary]) as Hin by set_solver.
  apply bind_inv in Hw as [([] & s1 & E1 & Hw)|(e & E1 & ->)];
    [|exact (touches_at [temporary] _ _ _ _ target (touches_create _ _ Hin) E1 Ht)].
  pose proof (touches_at [temporary] _ _ _ _ target (touches_create _ _ Hin) E1 Ht) as T1.
  apply bind_inv in Hw as [([] & s2 & E2 & Hw)|(e & E2 & ->)];
    [|rewrite <- T1; exact (touches_at [temporary] _ _ _ _ target (touches_write_all _ _ Hin bs) E2 Ht)].
  pose proof (touches_at [temporary] _ _ _ _ target (touches_write_all _ _ Hin bs) E2 Ht) as T2.
  apply create_ok in E1. apply write_all_ok in E2.
  apply bind_inv in Hw as [([] & s3 & E3 & Hw)|(e & E3 & ->)];
    [|rewrite <- T1, <- T2; exact (touches_at [temporary] _ _ _ _ target (touches_sync _ _) E3 Ht)].
  apply guard_ok in E3. destruct r as [[]|e].
  - eapply (replace_ok _ _ _ _ bs) in Hw.
    + unfold content_at. rewrite Hw, lookup_insert_eq. split; [done|].
      by rewrite lookup_insert_ne, lookup_delete_eq.
    + rewrite E3, E2, E1. unfold append_at. rewrite lookup_insert_eq. by rewrite lookup_insert_eq.
  - apply replace_err in Hw. by rewrite Hw, E3, T2, T1.
Qed.

(** Whatever calls fail, the target holds its old contents when the write reports
    an error, and all of the new bytes when it succeeds; only the temporary file
    can differ besides, and it is gone after a success. *)
Lemma write_atomic_spec temporary target bs s r s' : temporary ≠ target →
  write_atomic temporary target bs s = (r, s') →
  same_but [temporary; target] s s' ∧
  match r with
  | Ok _ => content_at s' target = Some bs ∧ nodes s' !! temporary = None
  | Err _ => nodes s' !! target = nodes s !! target
  end.
Proof.
  intros Hne Hw. split.
  - intros q Hq. eapply touches_at; [|exact Hw|exact Hq].
    unfold write_atomic, write_body, ignore. touches_tac.
  - apply bind_inv in Hw as [(x & s1 & E1 & Hw)|(e & E1 & ->)]; [|unfold attempt in E1; by destruct (write_body _ _ _ s)].
    unfold attempt in E1. destruct (write_body temporary target bs s) as [x1 s2] eqn:E2. injection E1 as <- <-.
    apply write_body_spec in E2; [|done]. destruct x1 as [[]|e]; cbn [is_ok] in Hw.
    + by injection Hw as <- <-.
    + unfold ignore, mbind, comp_bind, attempt in Hw. destruct (fs_remove_file temporary s2) as [y s3] eqn:E3.
      injection Hw as <- <-. rewrite <- E2. eapply (touches_at [temporary]); [|exact E3|set_solver].
      apply touches_remove. set_solver.
Qed.

(** Directories are only made at the prefixes of the path. *)
Lemma make_dirs_other p todo m m' q : make_dirs p todo m = Some m' → ¬ q `prefix_of` (p ++ todo) → m' !! q = m !! q.
Proof.
  revert p m. induction todo as [|c t IH]; intros p m; cbn [make_dirs]; [by intros [= ->]|].
  assert (p ++ c :: t = (p ++ [c]) ++ t) as -> by (by rewrite <- app_assoc). intros Hm Hq.
  assert (q ≠ p ++ [c]) as Hne by (intros ->; apply Hq; by apply prefix_app_r).
  destruct (m !! (p ++ [c])) as [[]|]; [done|..]; rewrite (IH _ _ Hm Hq); by apply lookup_insert_ne.
Qed.
Lemma create_dir_all_other p s r s' q : fs_create_dir_all p s = (r, s') → ¬ q `prefix_of` p →
  nodes s' !! q = nodes s !! q.
Proof.
  unfold fs_create_dir_all. intros Hc Hq. apply bind_inv in Hc as [([] & s1 & E1 & Hc)|(e & E1 & ->)].
  - apply guard_ok in E1. rewrite <- E1. change ((get ≫= ?k) s1) with (k s1 s1) in Hc. cbv beta in Hc.
    destruct (make_dirs [] p (nodes s1)) as [m|] eqn:Em; [|by injection Hc as _ <-].
    injection Hc as _ <-. apply (make_dirs_other [] p _ _ q Em Hq).
  - by rewrite (touches_at [] guard_call s _ s' q (touches_guard _) E1 (not_elem_of_nil _)).
Qed.
Lemma child_not_prefix p n : ¬ path_join p n `prefix_of` p.
Proof. intros [k Hk]. apply (f_equal length) in Hk. unfold path_join in Hk. rewrite !length_app in Hk. cbn in Hk. lia. Qed.

(** No failing call claims that a file is missing. *)
Definition truthful (s : Fs) : Prop :=
  Forall (λ f, match f with Some e => io_kind (fault_error e) ≠ IoKind.NotFound | None => True end) (faults s).

Lemma remove_spec p s r s' : fs_remove_file p s = (r, s') → truthful s →
  match r with
  | Ok _ => nodes s' !! p = None
  | Err e => nodes s' = nodes s ∧ (io_kind e = IoKind.NotFound → nodes s !! p = None)
  end.
Proof.
  unfold fs_remove_file. intros Hr Ht. apply bind_inv in Hr as [([] & s1 & E1 & Hr)|(e & E1 & ->)].
  - apply guard_ok in E1. rewrite <- E1. change ((get ≫= ?k) s1) with (k s1 s1) in Hr. cbv beta in Hr.
    destruct (nodes s1 !! p) as [[c|]|] eqn:En; injection Hr as <- <-.
    + apply lookup_delete_eq.
    + split; [done|]. by intros [=].
    + by split.
  - revert E1. unfold guard_call, next_fault. destruct s as [n [|[f|] t]]; cbn; try by intros [=].
    intros [= <- <-]. inversion Ht as [|? ? Hf _]; subst. by split.
Qed.
