(* ===== verification/Config.v ===== *)
(** * Config: the configuration file, [apps/true-tick/src/config.rs]

    The file's text is parsed line by line, saved through a temporary file, and a
    damaged file is kept under a backup name and replaced by the defaults. *)
From S2P Require Import Prelude Text Diagnostics Pause Files.

Definition MAX_CONFIG_FILE_BYTES : Z := 64 * 1024.
Definition MAX_CONFIG_LINE_BYTES : Z := 4 * 1024.
Definition MAX_CONFIG_KEY_BYTES : Z := 64.
Definition MAX_CONFIG_VALUE_BYTES : Z := 1024.
Definition MAX_CONFIG_ERROR_BYTES : Z := 256.
Definition AUTOMATIC_REQUEST_INTERVAL : Z := 0.
Definition LEGACY_ONE_MILLISECOND_REQUEST_INTERVAL : Z := 10000.
Definition FACTORY_SCHEDULE_PRESETS_SECONDS : list Z := [60; 300; 900; 1800; 3600].
Definition DEFAULT_AUTO_RESUME_ON_AC : bool := true.
Definition DEFAULT_BATTERY_LOCKOUT : bool := false.

Record Config := mkConfig {
  automatic : bool;
  startup_enabled : bool;
  auto_resume_on_ac : bool;
  battery_lockout : bool;
  request_interval : Z;
  schedule_presets_seconds : list Z }.
#[export] Instance Config_eq_dec : EqDecision Config.
Proof. solve_decision. Defined.

Definition config_default : Config :=
  mkConfig false true DEFAULT_AUTO_RESUME_ON_AC DEFAULT_BATTERY_LOCKOUT AUTOMATIC_REQUEST_INTERVAL
    FACTORY_SCHEDULE_PRESETS_SECONDS.

Module ConfigError.
Inductive ConfigError := Read (error : IoError) | Write (error : IoError) | Invalid (reason : str).
End ConfigError.
Abbreviation ConfigError := ConfigError.ConfigError.

Definition config_error_display `{IoDisplay} (e : ConfigError) : str :=
  truncate_utf8
    match e with
    | ConfigError.Read e => lit "configuration read error: " ++ io_display e
    | ConfigError.Write e => lit "configuration write error: " ++ io_display e
    | ConfigError.Invalid reason => lit "invalid configuration: " ++ reason
    end MAX_CONFIG_ERROR_BYTES.

Definition invalid_reason (reason : str) : ConfigError :=
  ConfigError.Invalid (truncate_utf8 reason MAX_CONFIG_ERROR_BYTES).

(** ** Parsing *)

(** The elements of the array, [presets] pushed so far. *)
Fixpoint parse_preset_elements (line_number : Z) (presets : list Z) (elements : list str)
    : result ConfigError (list Z) :=
  let invalid_line reason := invalid_reason (lit "line " ++ show_u line_number ++ lit ": " ++ reason) in
  match elements with
  | [] => Ok presets
  | element :: rest =>
      let element := trim element in
      if bool_decide (element = []) then parse_preset_elements line_number presets rest
      else match parse_u 32 element with
           | None => Err (invalid_line (lit "schedule preset must be an integer"))
           | Some seconds =>
               if negb ((MIN_PRESET_SECONDS <=? seconds) && (seconds <=? MAX_PRESET_SECONDS))
               then Err (invalid_line (lit "schedule preset out of bounds"))
               else if (MAX_PRESETS <=? length presets)%nat
               then Err (invalid_line (lit "schedule presets exceed maximum count"))
               else parse_preset_elements line_number (presets ++ [seconds]) rest
           end
  end.

Definition parse_schedule_presets (value : str) (line_number : Z) : result ConfigError (list Z) :=
  let invalid_line reason := invalid_reason (lit "line " ++ show_u line_number ++ lit ": " ++ reason) in
  inner ← ok_or (text ← strip_prefix value (lit "["); strip_suffix text (lit "]"))
            (invalid_line (lit "schedule_presets_seconds must be an integer array"));
  presets ← parse_preset_elements line_number [] (split_char 44 inner);
  if bool_decide (presets = [])
  then Err (invalid_line (lit "schedule_presets_seconds must not be empty")) else Ok presets.

(** The loop's variables: the configuration, [migrated] and [seen_keys]. *)
Record ParseState := mkParse { parsed : Config; migrated : bool; seen_keys : list str }.

Definition parse_flag (key value : str) : result ConfigError bool :=
  let value := trim value in
  if str_eqb value (lit "true") then Ok true
  else if str_eqb value (lit "false") then Ok false
  else Err (invalid_reason (lit "invalid " ++ key ++ lit " value " ++ value)).

(** The assignment a key makes. *)
Definition parse_key (line_number : Z) (key value : str) (c : Config) (m : bool)
    : result ConfigError (Config * bool) :=
  if str_eqb key (lit "automatic") then
    b ← parse_flag key value;
    Ok (mkConfig b (startup_enabled c) (auto_resume_on_ac c) (battery_lockout c) (request_interval c)
          (schedule_presets_seconds c), m)
  else if str_eqb key (lit "startup_enabled") then
    b ← parse_flag key value;
    Ok (mkConfig (automatic c) b (auto_resume_on_ac c) (battery_lockout c) (request_interval c)
          (schedule_presets_seconds c), m)
  else if str_eqb key (lit "auto_resume_on_ac") then
    b ← parse_flag key value;
    Ok (mkConfig (automatic c) (startup_enabled c) b (battery_lockout c) (request_interval c)
          (schedule_presets_seconds c), m)
  else if str_eqb key (lit "battery_lockout") then
    b ← parse_flag key value;
    Ok (mkConfig (automatic c) (startup_enabled c) (auto_resume_on_ac c) b (request_interval c)
          (schedule_presets_seconds c), m)
  else if str_eqb key (lit "request_interval_hns") then
    v ← ok_or (parse_u 64 value)
          (invalid_reason (lit "invalid request interval on line " ++ show_u line_number));
    let legacy := v =? LEGACY_ONE_MILLISECOND_REQUEST_INTERVAL in
    Ok (mkConfig (automatic c) (startup_enabled c) (auto_resume_on_ac c) (battery_lockout c)
          (if legacy then AUTOMATIC_REQUEST_INTERVAL else v) (schedule_presets_seconds c), m || legacy)
  else if str_eqb key (lit "schedule_presets_seconds") then
    presets ← parse_schedule_presets value line_number;
    Ok (mkConfig (automatic c) (startup_enabled c) (auto_resume_on_ac c) (battery_lockout c)
          (request_interval c) presets, m)
  else Err (invalid_reason (lit "unknown configuration key " ++ key)).

Definition parse_line (line_number : Z) (raw : str) (st : ParseState) : result ConfigError ParseState :=
  let on_line reason := invalid_reason (lit "line " ++ show_u line_number ++ reason) in
  if MAX_CONFIG_LINE_BYTES <? str_len raw then Err (on_line (lit " exceeds maximum size"))
  else
    let line := trim (default [] (head (split_char 35 raw))) in
    if bool_decide (line = []) then Ok st
    else
      '(raw_key, raw_value) ← ok_or (split_once 61 line) (on_line (lit " needs key = value"));
      let key := trim raw_key in
      let value := trim raw_value in
      if MAX_CONFIG_KEY_BYTES <? str_len key then Err (on_line (lit " key exceeds maximum size"))
      else if MAX_CONFIG_VALUE_BYTES <? str_len value then Err (on_line (lit " value exceeds maximum size"))
      else if bool_decide (key ∈ seen_keys st)
      then Err (invalid_reason (lit "duplicate configuration key " ++ key))
      else
        '(c, m) ← parse_key line_number key value (parsed st) (migrated st);
        Ok (mkParse c m (key :: seen_keys st)).

Fixpoint parse_lines (line_number : Z) (ls : list str) (st : ParseState) : result ConfigError ParseState :=
  match ls with
  | [] => Ok st
  | raw :: rest => st ← parse_line line_number raw st; parse_lines (line_number + 1) rest st
  end.

Definition parse_with_migration (text : str) : result ConfigError (Config * bool) :=
  if MAX_CONFIG_FILE_BYTES <? str_len text
  then Err (invalid_reason (lit "configuration file exceeds maximum size"))
  else
    st ← parse_lines 1 (lines text) (mkParse config_default false []);
    Ok (parsed st, migrated st).

(** ** Saving *)

Definition config_text (c : Config) : str :=
  lit "automatic = " ++ show_bool (automatic c) ++ [10] ++
  lit "startup_enabled = " ++ show_bool (startup_enabled c) ++ [10] ++
  lit "auto_resume_on_ac = " ++ show_bool (auto_resume_on_ac c) ++ [10] ++
  lit "battery_lockout = " ++ show_bool (battery_lockout c) ++ [10] ++
  lit "request_interval_hns = " ++ show_u (request_interval c) ++ [10] ++
  lit "schedule_presets_seconds = [" ++ join (lit ", ") (map show_u (schedule_presets_seconds c)) ++
  lit "]" ++ [10].

Definition path_from_executable (executable : path) : path :=
  path_join (default [] (path_parent executable)) (lit "true-tick.toml").

(** [sequence] is what [TEMPORARY_SEQUENCE.fetch_add] returns. *)
Definition temporary_path_for (p : path) (pid sequence : Z) : path :=
  let name := default (lit "true-tick") (file_stem p) in
  path_join (default [] (path_parent p))
    (name ++ lit "." ++ show_u pid ++ lit "." ++ show_u sequence ++ lit ".toml.tmp").

Section Store.
Context (pid sequence timestamp : Z).

Definition save_atomic (p : path) (c : Config) : comp Fs ConfigError unit :=
  map_err ConfigError.Write
    (write_atomic (temporary_path_for p pid sequence) p (utf8_encode (config_text c))).

Record LoadOutcome := mkLoad { loaded : Config; was_migrated : bool; recovered_from_corruption : bool }.

Definition backup_name (base : str) (attempt : Z) : str :=
  if attempt =? 0 then base ++ lit ".corrupted." ++ show_u timestamp ++ lit ".bak"
  else base ++ lit ".corrupted." ++ show_u timestamp ++ lit "." ++ show_u attempt ++ lit ".bak".

(** The first free backup name; [fuel] attempts are left of the 1025 the code makes. *)
Fixpoint free_backup (fuel : nat) (parent : path) (base : str) (attempt : Z) : comp Fs ConfigError path :=
  match fuel with
  | O => fail (ConfigError.Write (mkIo IoKind.AlreadyExists None))
  | S fuel =>
      let candidate := path_join parent (backup_name base attempt) in
      taken ← map_err ConfigError.Write (fs_exists candidate);
      if (taken : bool) then free_backup fuel parent base (attempt + 1) else mret candidate
  end.

Definition recover_corrupted (p : path) : comp Fs ConfigError LoadOutcome :=
  let parent := default [] (path_parent p) in
  let base := default (lit "true-tick.toml") (file_name p) in
  backup ← free_backup 1025 parent base 0;
  _ ← map_err ConfigError.Write (fs_replace p backup);
  _ ← save_atomic p config_default;
  mret (mkLoad config_default false true).

Definition load_with_migration (p : path) : comp Fs ConfigError LoadOutcome :=
  len ← map_err ConfigError.Read (fs_metadata_len p);
  if MAX_CONFIG_FILE_BYTES <? len
  then fail (invalid_reason (lit "configuration file exceeds maximum size"))
  else
    bytes ← map_err ConfigError.Read (fs_read p);
    if MAX_CONFIG_FILE_BYTES <? Z.of_nat (length bytes)
    then fail (invalid_reason (lit "configuration file exceeds maximum size"))
    else if bool_decide (bytes = []) then recover_corrupted p
    else match utf8_decode bytes with
         | None => recover_corrupted p
         | Some text =>
             match parse_with_migration text with
             | Err _ => recover_corrupted p
             | Ok (c, m) =>
                 _ ← (if (m : bool) then save_atomic p c else mret tt);
                 mret (mkLoad c m false)
             end
         end.
End Store.

Example config_default_text : parse_with_migration (config_text config_default) = Ok (config_default, false).
Proof. vm_compute. reflexivity. Qed.

(** ** A saved configuration is read back *)

Definition valid_config (c : Config) : Prop :=
  0 ≤ request_interval c < 2 ^ 64 ∧ request_interval c ≠ LEGACY_ONE_MILLISECOND_REQUEST_INTERVAL ∧
  schedule_presets_seconds c ≠ [] ∧ (length (schedule_presets_seconds c) ≤ MAX_PRESETS)%nat ∧
  Forall (λ s, MIN_PRESET_SECONDS ≤ s ≤ MAX_PRESET_SECONDS) (schedule_presets_seconds c).

(** Text that survives being a key or a value: no comment or equals sign, no space at its ends. *)
Definition token (s : str) : Prop :=
  s ≠ [] ∧ Forall (λ c, (c =? 35) = false ∧ (c =? 61) = false) s ∧ black_edges is_whitespace s.

Lemma parse_line_token n key value st : token key → token value →
  str_len (key ++ lit " = " ++ value) ≤ MAX_CONFIG_LINE_BYTES →
  str_len key ≤ MAX_CONFIG_KEY_BYTES → str_len value ≤ MAX_CONFIG_VALUE_BYTES → key ∉ seen_keys st →
  parse_line n (key ++ lit " = " ++ value) st =
    ('(c, m) ← parse_key n key value (parsed st) (migrated st); Ok (mkParse c m (key :: seen_keys st))).
Proof.
  intros (Hk1 & Hk2 & Hk3) (Hv1 & Hv2 & Hv3) Hl Hlk Hlv Hseen. unfold parse_line.
  change (lit " = ") with [32; 61; 32] in *.
  assert (Forall (λ c, (c =? 35) = false) (key ++ [32; 61; 32] ++ value)) as H35.
  { rewrite !Forall_app. split_and!; [by eapply Forall_impl; [exact Hk2|intros ? []]| |by eapply Forall_impl; [exact Hv2|intros ? []]].
    by repeat constructor. }
  rewrite split_char_none by exact H35. cbn [head default from_option id].
  replace (MAX_CONFIG_LINE_BYTES <? _) with false by lia.
  cbv zeta. replace (trim (key ++ [32; 61; 32] ++ value)) with (key ++ [32; 61; 32] ++ value).
  2:{ symmetry. apply trim_edges. destruct Hk3 as [Hk3 _], Hv3 as [_ Hv3]. split.
      - intros c. destruct key; [done|]. cbn. intros [= <-]. by apply Hk3.
      - intros c. rewrite last_app. rewrite last_app. destruct value; [done|].
        destruct (last (z :: value)) eqn:E; [|by apply last_None in E]. intros [= <-]. by apply Hv3. }
  rewrite bool_decide_eq_false_2 by (by destruct key).
  assert (key ++ [32; 61; 32] ++ value = (key ++ [32]) ++ 61 :: (32 :: value)) as -> by (by rewrite <- app_assoc).
  rewrite split_once_app.
  2:{ apply Forall_app. split; [by eapply Forall_impl; [exact Hk2|intros ? []]|by repeat constructor]. }
  cbn [ok_or mbind result_bind]. unfold trim.
  rewrite (trim_trailing is_whitespace 32 key), (trim_leading is_whitespace 32 value), (trim_edges is_whitespace value) by done.
  replace (MAX_CONFIG_KEY_BYTES <? _) with false by lia. replace (MAX_CONFIG_VALUE_BYTES <? _) with false by lia.
  by rewrite bool_decide_eq_false_2.
Qed.

Lemma digits_token s : s ≠ [] → Forall (λ c, is_ascii_digit c = true) s → token s.
Proof.
  intros Hn Hd. split; [done|]. rewrite Forall_forall in Hd. split.
  - apply Forall_forall. intros c Hc. apply Hd in Hc. unfold is_ascii_digit in Hc. lia.
  - assert (∀ c, c ∈ s → is_whitespace c = false) as Hw.
    { intros c Hc. apply Hd in Hc. unfold is_ascii_digit, is_whitespace in *. lia. }
    split; intros c Hc; apply Hw; [by apply head_Some_elem_of|by apply last_Some_elem_of].
Qed.
Lemma flag_token b : token (show_bool b).
Proof.
  destruct b; (split; [done|]; split; [vm_compute; repeat constructor|]); split; intros c Hc; vm_compute in Hc;
    injection Hc as <-; reflexivity.
Qed.
Lemma parse_flag_show key b : parse_flag key (show_bool b) = Ok b.
Proof. by destruct b. Qed.

(** The elements of the saved list, spaces after the commas. *)
Definition element_texts (ps : list Z) : list str :=
  match ps with [] => [] | p :: ps => show_u p :: map (λ p, 32 :: show_u p) ps end.
Lemma split_join ps : Forall (λ p, 0 ≤ p) ps → ps ≠ [] →
  split_char 44 (join (lit ", ") (map show_u ps)) = element_texts ps.
Proof.
  change (lit ", ") with [44; 32]. intros Hp Hne. destruct ps as [|p ps]; [done|]. clear Hne.
  assert (∀ x, 0 ≤ x → Forall (λ c, (c =? 44) = false) (show_u x)) as Hd
    by (intros x Hx; apply (digits_no 44); [done|by apply show_u_digits]).
  revert p Hp. induction ps as [|q ps IH]; intros p Hp; inversion Hp as [|? ? H1 H2]; subst.
  - cbn [map join element_texts]. by apply split_char_none, Hd.
  - change (join [44; 32] (map show_u (p :: q :: ps)))
      with (show_u p ++ 44 :: (32 :: join [44; 32] (map show_u (q :: ps)))).
    rewrite split_char_app by auto. specialize (IH q H2). cbn [element_texts map]. f_equal.
    cbn [map] in IH. change (match split_char 44 (join [44; 32] (show_u q :: map show_u ps)) with
      | [] => [[32]] | x :: xs => (32 :: x) :: xs end = (32 :: show_u q) :: map (λ p, 32 :: show_u p) ps).
    by rewrite IH.
Qed.

Lemma trim_element p : 0 ≤ p → trim (32 :: show_u p) = show_u p ∧ trim (show_u p) = show_u p.
Proof.
  intros Hp. unfold trim. rewrite trim_leading by done.
  split; apply trim_matches_none, digits_not_whitespace, show_u_digits; lia.
Qed.

Lemma parse_elements_show n ps acc : (length acc + length ps ≤ MAX_PRESETS)%nat →
  Forall (λ s, MIN_PRESET_SECONDS ≤ s ≤ MAX_PRESET_SECONDS) ps → ∀ texts,
  Forall2 (λ t p, trim t = show_u p) texts ps → parse_preset_elements n acc texts = Ok (acc ++ ps).
Proof.
  intros Hl Hb texts Ht. revert acc Hl Hb. induction Ht as [|t p texts ps Htp _ IH]; intros acc Hl Hb.
  - by rewrite app_nil_r.
  - inversion Hb as [|? ? H1 H2]; subst. unfold MIN_PRESET_SECONDS, MAX_PRESET_SECONDS in *. cbn [length] in Hl.
    cbn [parse_preset_elements]. rewrite Htp.
    rewrite bool_decide_eq_false_2 by (destruct (show_u_cons p) as (c & u & ->); done).
    rewrite parse_show by lia. unfold MIN_PRESET_SECONDS, MAX_PRESET_SECONDS.
    replace (negb _) with false by lia. replace (MAX_PRESETS <=? length acc)%nat with false by (symmetry; apply Nat.leb_gt; lia).
    rewrite IH by (rewrite ?length_app; cbn [length]; first [lia|done]). by rewrite <- app_assoc.
Qed.

Definition presets_text (ps : list Z) : str := lit "[" ++ join (lit ", ") (map show_u ps) ++ lit "]".

Lemma parse_presets_show n ps : ps ≠ [] → (length ps ≤ MAX_PRESETS)%nat →
  Forall (λ s, MIN_PRESET_SECONDS ≤ s ≤ MAX_PRESET_SECONDS) ps →
  parse_schedule_presets (presets_text ps) n = Ok ps.
Proof.
  intros Hne Hl Hb. assert (Forall (λ p, 0 ≤ p) ps) as Hp
    by (eapply Forall_impl; [exact Hb|]; unfold MIN_PRESET_SECONDS; intros; lia).
  unfold parse_schedule_presets, presets_text. set (inner := join (lit ", ") (map show_u ps)).
  rewrite strip_prefix_app. change (Some ?x ≫= ?f) with (f x). cbv beta. rewrite strip_suffix_app.
  change (ok_or (Some inner) ?e ≫= ?f) with (f inner). cbv beta.
  unfold inner. rewrite split_join by done. rewrite (parse_elements_show n ps []); [| |done|].
  - cbn. by rewrite bool_decide_eq_false_2.
  - cbn. lia.
  - destruct ps as [|p ps]; [done|]. inversion Hp as [|? ? H1 H2]; subst. constructor; [by apply trim_element|].
    clear -H2. induction H2; constructor; [by apply trim_element|done].
Qed.

Lemma show_u_str_len p k : 0 ≤ p < 10 ^ Z.of_nat (S k) → str_len (show_u p) ≤ Z.of_nat (S k).
Proof. intros Hp. rewrite digits_str_len by (apply show_u_digits; lia). pose proof (show_u_length p k Hp). lia. Qed.

Lemma join_str_len ps : Forall (λ s, MIN_PRESET_SECONDS ≤ s ≤ MAX_PRESET_SECONDS) ps →
  str_len (join (lit ", ") (map show_u ps)) ≤ 7 * Z.of_nat (length ps).
Proof.
  change (lit ", ") with [44; 32]. unfold MIN_PRESET_SECONDS, MAX_PRESET_SECONDS.
  induction 1 as [|p ps Hp _ IH]; [done|]. pose proof (show_u_str_len p 4 ltac:(lia)) as Hs.
  destruct ps as [|q ps]; [cbn [map join length]; lia|].
  change (join [44; 32] (map show_u (p :: q :: ps))) with (show_u p ++ [44; 32] ++ join [44; 32] (map show_u (q :: ps))).
  rewrite !str_len_app. change (str_len [44; 32]) with 2. cbn [length] in *. lia.
Qed.

Lemma join_chars (Q : Z → Prop) ps : Forall (λ p, 0 ≤ p) ps → Q 44 → Q 32 → (∀ c, is_ascii_digit c = true → Q c) →
  Forall Q (join (lit ", ") (map show_u ps)).
Proof.
  change (lit ", ") with [44; 32]. intros Hp H1 H2 Hd. induction Hp as [|p ps Hp _ IH]; [constructor|].
  assert (Forall Q (show_u p)) as Hs by (eapply Forall_impl; [by apply show_u_digits|exact Hd]).
  destruct ps as [|q ps]; [done|].
  change (join [44; 32] (map show_u (p :: q :: ps))) with (show_u p ++ [44; 32] ++ join [44; 32] (map show_u (q :: ps))).
  rewrite !Forall_app. split_and!; [done|by repeat constructor|done].
Qed.

Lemma presets_token ps : Forall (λ p, 0 ≤ p) ps → token (presets_text ps).
Proof.
  intros Hp. split; [done|]. unfold presets_text. split.
  - rewrite !Forall_app. split_and!; [by repeat constructor| |by repeat constructor].
    apply join_chars; [done..|]. intros c Hc. unfold is_ascii_digit in Hc. lia.
  - split.
    + intros c. cbn. by intros [= <-].
    + intros c. rewrite !last_app. change (last (lit "]")) with (Some 93). by intros [= <-].
Qed.

(** The lines of a saved configuration. *)
Definition config_lines (c : Config) : list str :=
  [ lit "automatic" ++ lit " = " ++ show_bool (automatic c);
    lit "startup_enabled" ++ lit " = " ++ show_bool (startup_enabled c);
    lit "auto_resume_on_ac" ++ lit " = " ++ show_bool (auto_resume_on_ac c);
    lit "battery_lockout" ++ lit " = " ++ show_bool (battery_lockout c);
    lit "request_interval_hns" ++ lit " = " ++ show_u (request_interval c);
    lit "schedule_presets_seconds" ++ lit " = " ++ presets_text (schedule_presets_seconds c) ].

Lemma config_text_lines c : config_text c = unlines (config_lines c).
Proof.
  unfold config_text, unlines, config_lines, presets_text. cbn [flat_map]. rewrite !app_nil_r, <- !app_assoc. reflexivity.
Qed.

Lemma token_plain key value : Forall (λ c, (c =? 10) = false ∧ c ≠ 13) key →
  Forall (λ c, (c =? 10) = false ∧ c ≠ 13) value → plain_line (key ++ lit " = " ++ value).
Proof.
  intros Hk Hv. assert (Forall (λ c, (c =? 10) = false ∧ c ≠ 13) (key ++ lit " = " ++ value)) as H.
  { rewrite !Forall_app. split_and!; [done|by repeat constructor|done]. }
  split; [eapply Forall_impl; [exact H|by intros ? []]|]. intros c Hc.
  apply last_Some_elem_of in Hc. rewrite Forall_forall in H. by apply H.
Qed.

Lemma config_lines_plain c : 0 ≤ request_interval c → Forall (λ p, 0 ≤ p) (schedule_presets_seconds c) →
  Forall plain_line (config_lines c).
Proof.
  intros Hi Hp. assert (∀ c, is_ascii_digit c = true → (c =? 10) = false ∧ c ≠ 13) as Hd
    by (intros x; unfold is_ascii_digit; lia).
  assert (∀ b, Forall (λ c, (c =? 10) = false ∧ c ≠ 13) (show_bool b)) as Hb by (intros []; by repeat constructor).
  unfold config_lines. repeat (apply Forall_cons_2; [apply token_plain; try done; try by (repeat constructor)|]); [..|constructor].
  - eapply Forall_impl; [by apply show_u_digits|exact Hd].
  - unfold presets_text. rewrite !Forall_app. split_and!; [by repeat constructor|by apply join_chars|by repeat constructor].
Qed.

Lemma map_parse_ok {T U} (x : T) (f : T → result ConfigError U) : Ok x ≫= f = f x.
Proof. done. Qed.

Lemma config_value_lengths c : valid_config c →
  str_len (show_u (request_interval c)) ≤ 20 ∧ str_len (presets_text (schedule_presets_seconds c)) ≤ 86 ∧
  ∀ b, str_len (show_bool b) ≤ 5.
Proof.
  intros (Hi & _ & _ & Hl & Hb). split_and!.
  - apply (show_u_str_len _ 19). unfold u64_max in *. change (10 ^ Z.of_nat 20) with 100000000000000000000. lia.
  - unfold presets_text. rewrite !str_len_app. pose proof (join_str_len _ Hb) as Hj.
    change (str_len (lit "[")) with 1. change (str_len (lit "]")) with 1. unfold MAX_PRESETS in Hl. lia.
  - by intros [].
Qed.

(** One line of a saved file. *)
Lemma parse_saved_line n key value rest st c m : token key → token value →
  str_len key ≤ MAX_CONFIG_KEY_BYTES → str_len value ≤ 86 → key ∉ seen_keys st →
  parse_key n key value (parsed st) (migrated st) = Ok (c, m) →
  parse_lines n ((key ++ lit " = " ++ value) :: rest) st =
    parse_lines (n + 1) rest (mkParse c m (key :: seen_keys st)).
Proof.
  intros Hk Hv Hlk Hlv Hs Hp. cbn [parse_lines]. rewrite parse_line_token; try done.
  - by rewrite Hp.
  - rewrite !str_len_app. change (str_len (lit " = ")) with 3. unfold MAX_CONFIG_KEY_BYTES, MAX_CONFIG_LINE_BYTES in *. lia.
  - unfold MAX_CONFIG_VALUE_BYTES. lia.
Qed.

Lemma key_token s : forallb (λ c, negb ((c =? 35) || (c =? 61) || is_whitespace c)) (lit s) = true →
  lit s ≠ [] → token (lit s).
Proof.
  intros Hs Hn. rewrite forallb_forall in Hs.
  assert (∀ c, c ∈ lit s → (c =? 35) = false ∧ (c =? 61) = false ∧ is_whitespace c = false) as Hc.
  { intros c Hc. apply list_elem_of_In, Hs in Hc. by destruct (c =? 35), (c =? 61), (is_whitespace c). }
  split; [done|]. split.
  - apply Forall_forall. intros c Hin. by destruct (Hc c Hin) as (? & ? & ?).
  - split; intros c Hin; apply Hc; [by apply head_Some_elem_of|by apply last_Some_elem_of].
Qed.

Lemma config_text_length c : valid_config c → str_len (config_text c) ≤ MAX_CONFIG_FILE_BYTES.
Proof.
  intros Hc. destruct (config_value_lengths c Hc) as (L1 & L2 & L3). unfold presets_text in L2.
  rewrite !str_len_app in L2. unfold config_text. rewrite !str_len_app.
  repeat match goal with |- context [str_len (lit ?s)] =>
    let v := eval vm_compute in (str_len (lit s)) in change (str_len (lit s)) with v end.
  change (str_len (lit "[")) with 1 in L2. change (str_len (lit "]")) with 1 in L2. change (str_len [10]) with 1.
  pose proof (L3 (automatic c)). pose proof (L3 (startup_enabled c)). pose proof (L3 (auto_resume_on_ac c)).
  pose proof (L3 (battery_lockout c)). unfold MAX_CONFIG_FILE_BYTES. lia.
Qed.

(** Decides which key a literal is. *)
Ltac literal_key :=
  unfold parse_key;
  repeat match goal with |- context [str_eqb (lit ?a) (lit ?b)] =>
    let v := eval vm_compute in (str_eqb (lit a) (lit b)) in change (str_eqb (lit a) (lit b)) with v end;
  cbv iota.

(** Reads a saved flag: the configuration is then [c']. *)
Ltac saved_flag c' :=
  rewrite (parse_saved_line _ _ _ _ _ c' false);
    [|by apply key_token|apply flag_token|by vm_compute
    |repeat match goal with H : ∀ b, str_len (show_bool b) ≤ 86 |- _ => apply H end
    |by apply (bool_decide_eq_true_1 _); vm_compute
    |literal_key; rewrite parse_flag_show; reflexivity].

Lemma parse_config_text c : valid_config c → parse_with_migration (config_text c) = Ok (c, false).
Proof.
  intros Hc. destruct (config_value_lengths c Hc) as (L1 & L2 & L3). destruct Hc as (Hi & Hne & Hps & Hl & Hb).
  assert (Forall (λ p, 0 ≤ p) (schedule_presets_seconds c)) as Hp
    by (eapply Forall_impl; [exact Hb|]; unfold MIN_PRESET_SECONDS; intros; lia).
  unfold parse_with_migration. replace (MAX_CONFIG_FILE_BYTES <? _) with false
    by (symmetry; apply Z.ltb_ge, config_text_length; done).
  rewrite config_text_lines, lines_unlines by (by apply config_lines_plain; [lia|]). unfold config_lines.
  assert (token (show_u (request_interval c))) as Ht.
  { apply digits_token; [|apply show_u_digits; lia]. destruct (show_u_cons (request_interval c)) as (? & ? & ->). done. }
  pose proof (presets_token _ Hp) as Htp.
  assert (∀ b, str_len (show_bool b) ≤ 86) as Hf by (intros b; specialize (L3 b); lia).
  set (d := config_default).
  saved_flag (mkConfig (automatic c) true true false 0 (schedule_presets_seconds d)).
  saved_flag (mkConfig (automatic c) (startup_enabled c) true false 0 (schedule_presets_seconds d)).
  saved_flag (mkConfig (automatic c) (startup_enabled c) (auto_resume_on_ac c) false 0 (schedule_presets_seconds d)).
  saved_flag (mkConfig (automatic c) (startup_enabled c) (auto_resume_on_ac c) (battery_lockout c) 0
    (schedule_presets_seconds d)).
  rewrite (parse_saved_line _ _ _ _ _ (mkConfig (automatic c) (startup_enabled c) (auto_resume_on_ac c)
    (battery_lockout c) (request_interval c) (schedule_presets_seconds d)) false);
    [|by apply key_token|exact Ht|by vm_compute|lia|by apply (bool_decide_eq_true_1 _); vm_compute
    |literal_key; rewrite parse_show by lia; cbn [ok_or]; rewrite map_parse_ok; cbv zeta;
     rewrite (proj2 (Z.eqb_neq _ _) Hne); reflexivity].
  rewrite (parse_saved_line _ _ _ _ _ c false);
    [|by apply key_token|exact Htp|by vm_compute|lia|by apply (bool_decide_eq_true_1 _); vm_compute
    |literal_key; rewrite parse_presets_show by done; by destruct c].
  reflexivity.
Qed.

Lemma forallb_Forall_true {T} (f : T → bool) l : forallb f l = true → Forall (λ x, f x = true) l.
Proof. rewrite forallb_forall, Forall_forall. intros H x Hx. by apply H, list_elem_of_In. Qed.

Lemma config_text_scalar c : valid_config c → Forall (λ c, is_scalar c = true) (config_text c).
Proof.
  intros (Hi & _ & _ & _ & Hb). assert (Forall (λ p, 0 ≤ p) (schedule_presets_seconds c)) as Hp
    by (eapply Forall_impl; [exact Hb|]; unfold MIN_PRESET_SECONDS; intros; lia).
  assert (∀ x, is_ascii_digit x = true → is_scalar x = true) as Hd
    by (intros x; unfold is_ascii_digit, is_scalar; lia).
  assert (∀ b, Forall (λ c, is_scalar c = true) (show_bool b)) as Hf by (intros []; by repeat constructor).
  unfold config_text. rewrite !Forall_app. split_and!;
    lazymatch goal with
    | |- Forall _ (show_bool _) => apply Hf
    | |- Forall _ (lit _) => apply forallb_Forall_true; vm_compute; reflexivity
    | |- Forall _ [10] => by repeat constructor
    | |- _ => idtac
    end.
  - eapply Forall_impl; [apply show_u_digits; lia|exact Hd].
  - apply join_chars; [done|by vm_compute|by vm_compute|exact Hd].
Qed.

(** ** Whatever is parsed is valid *)

Lemma parse_elements_valid n texts acc ps : parse_preset_elements n acc texts = Ok ps →
  (length acc ≤ MAX_PRESETS)%nat → Forall (λ s, MIN_PRESET_SECONDS ≤ s ≤ MAX_PRESET_SECONDS) acc →
  (length ps ≤ MAX_PRESETS)%nat ∧ Forall (λ s, MIN_PRESET_SECONDS ≤ s ≤ MAX_PRESET_SECONDS) ps.
Proof.
  revert acc. induction texts as [|t texts IH]; intros acc; cbn [parse_preset_elements]; [by intros [= <-]|].
  case_bool_decide; [apply IH|]. destruct (parse_u 32 (trim t)) as [x|]; [|done].
  destruct (negb _) eqn:Eb; [done|]. destruct (MAX_PRESETS <=? length acc)%nat eqn:El; [done|].
  intros Hr Hl Hb. apply (IH _ Hr).
  - rewrite length_app. cbn [length]. apply Nat.leb_gt in El. lia.
  - apply Forall_app. split; [done|]. constructor; [|constructor]. lia.
Qed.
Lemma parse_presets_valid v n ps : parse_schedule_presets v n = Ok ps →
  ps ≠ [] ∧ (length ps ≤ MAX_PRESETS)%nat ∧ Forall (λ s, MIN_PRESET_SECONDS ≤ s ≤ MAX_PRESET_SECONDS) ps.
Proof.
  unfold parse_schedule_presets. rewrite bind_ok. intros (inner & _ & Hi). apply bind_ok in Hi as (qs & Hq & Hi).
  case_bool_decide; [done|]. injection Hi as <-. split; [done|].
  apply (parse_elements_valid _ _ _ _ Hq); [unfold MAX_PRESETS; cbn; lia|constructor].
Qed.

Lemma config_default_valid : valid_config config_default.
Proof.
  split_and!; [by vm_compute|by vm_compute|by vm_compute|done|vm_compute; lia|]. by repeat constructor.
Qed.

Lemma parse_key_valid n k v c m c' m' : valid_config c → parse_key n k v c m = Ok (c', m') → valid_config c'.
Proof.
  intros (Hi & Hn & Hp) Hk. unfold parse_key in Hk.
  repeat match type of Hk with (if ?b then _ else _) = _ => destruct b eqn:? end;
    try (apply bind_ok in Hk as (b & Hb & [= <- <-])); try done.
  - apply ok_or_ok, parse_u_bound in Hb. cbv zeta. destruct (b =? _) eqn:E.
    + split; [by vm_compute|]. by split.
    + apply Z.eqb_neq in E. split; [exact Hb|]. by split.
  - split; [done|]. split; [done|]. by apply parse_presets_valid in Hb.
Qed.

Lemma parse_line_valid n raw st st' : valid_config (parsed st) → parse_line n raw st = Ok st' → valid_config (parsed st').
Proof.
  intros Hv. unfold parse_line. destruct (_ <? str_len raw); [done|]. cbv zeta. case_bool_decide; [by intros [= <-]|].
  rewrite bind_ok. intros ([rk rv] & _ & Hl).
  destruct (_ <? str_len (trim rk)); [done|]. destruct (_ <? str_len (trim rv)); [done|].
  case_bool_decide; [done|]. apply bind_ok in Hl as ([c m] & Hk & [= <-]).
  by apply (parse_key_valid _ _ _ _ _ _ _ Hv Hk).
Qed.

Lemma config_parse_valid text c m : parse_with_migration text = Ok (c, m) → valid_config c.
Proof.
  unfold parse_with_migration. destruct (_ <? _); [done|]. rewrite bind_ok. intros (st & Hst & [= <- <-]).
  pose proof config_default_valid as Hv. change config_default with (parsed (mkParse config_default false [])) in Hv.
  revert Hst Hv. generalize (mkParse config_default false []). generalize 1.
  induction (lines text) as [|l ls IH]; intros n st0; cbn [parse_lines]; [by intros [= <-]|].
  rewrite bind_ok. intros (st1 & Hl & Hst) Hv. apply (IH _ _ Hst). by apply (parse_line_valid _ _ _ _ Hv Hl).
Qed.

(** ** Loading never loses the file's bytes *)

Section Load.
Context (pid sequence timestamp : Z) (executable : path).
Abbreviation p := (path_from_executable executable).
Abbreviation parent := (default [] (path_parent executable)).

Lemma parent_of_config : path_parent p = Some parent ∧ file_name p = Some (lit "true-tick.toml").
Proof.
  split; [apply path_parent_join|apply file_name_join].
Qed.

Definition temporary : path := temporary_path_for p pid sequence.
Lemma temporary_ne : temporary ≠ p.
Proof.
  unfold temporary, temporary_path_for, path_from_executable. apply join_last_ne. rewrite !last_app.
  change (last (lit ".toml.tmp")) with (Some 112). by vm_compute.
Qed.
Lemma backup_last base n : last (backup_name timestamp base n) = Some 107.
Proof. unfold backup_name. destruct (n =? 0); rewrite !last_app; by vm_compute. Qed.
Lemma backup_ne q n base : path_join q (backup_name timestamp base n) ∉ [temporary; p].
Proof.
  rewrite !not_elem_of_cons. split_and!; [| |by intros ?%elem_of_nil].
  - unfold temporary, temporary_path_for. apply join_last_ne. rewrite backup_last, !last_app. by vm_compute.
  - unfold path_from_executable. apply join_last_ne. rewrite backup_last. by vm_compute.
Qed.

Lemma save_spec c s r s' : save_atomic pid sequence p c s = (r, s') →
  same_but [temporary; p] s s' ∧
  match r with
  | Ok _ => content_at s' p = Some (utf8_encode (config_text c))
  | Err _ => nodes s' !! p = nodes s !! p
  end.
Proof.
  unfold save_atomic, map_err. destruct (write_atomic _ _ _ s) as [x s1] eqn:E1. intros [= <- <-].
  apply write_atomic_spec in E1 as [Hs Hr]; [|apply temporary_ne]. split; [exact Hs|].
  destruct x; [apply Hr|done].
Qed.

Lemma free_backup_spec fuel base n s r s' : free_backup timestamp fuel parent base n s = (r, s') →
  nodes s' = nodes s ∧ match r with
    | Ok b => ∃ k, b = path_join parent (backup_name timestamp base k)
    | Err _ => True end.
Proof.
  revert n s. induction fuel as [|fuel IH]; intros n s; [by intros [= <- <-]|].
  cbn [free_backup]. unfold mbind, comp_bind, map_err, fs_exists. unfold mbind, comp_bind.
  destruct (next_fault s) as [[f|e] s1] eqn:E1.
  - assert (nodes s1 = nodes s) as <-
      by (revert E1; unfold next_fault; destruct s as [m [|? ?]]; by intros [= _ <-]).
    change (get s1) with (@Ok IoError Fs s1, s1). cbv beta iota. destruct (_ && _).
    + apply IH.
    + intros [= <- <-]. eauto.
  - exfalso. revert E1. unfold next_fault. by destruct (faults s).
Qed.

Lemma map_err_read {T} (f : IoError → ConfigError) (m : FS T) s r s' : touches [] m →
  map_err f m s = (r, s') → nodes s' = nodes s.
Proof.
  intros Ht. unfold map_err. specialize (Ht s). destruct (m s) as [x s1]. intros [= _ <-].
  apply map_eq. intros q. apply Ht. apply not_elem_of_nil.
Qed.

Lemma read_content s q bs s' : map_err ConfigError.Read (fs_read q) s = (Ok bs, s') →
  ∀ c, content_at s q = Some c → bs = c.
Proof.
  unfold map_err. destruct (fs_read q s) as [[x|e] s1] eqn:E; intros [= -> <-] c Hc.
  apply guard_bind in E as (s0 & N0 & E). change ((get ≫= ?k) s0) with (k s0 s0) in E. cbv beta in E.
  unfold content_at in Hc. rewrite <- N0 in Hc. destruct (nodes s0 !! q) as [[]|]; [|done..].
  injection E as ? ?. congruence.
Qed.

(** What a load leaves: where the bytes it found are now, and a file that holds
    the configuration it reports. *)
Definition kept (c : bytes) (s' : Fs) : Prop :=
  content_at s' p = Some c ∨
  (∃ n, content_at s' (path_join parent (backup_name timestamp (lit "true-tick.toml") n)) = Some c) ∨
  ∃ text cfg, utf8_decode c = Some text ∧ parse_with_migration text = Ok (cfg, true) ∧
    content_at s' p = Some (utf8_encode (config_text cfg)).
Definition reported (r : result ConfigError LoadOutcome) (s' : Fs) : Prop :=
  match r with
  | Ok o => ∃ bytes text, content_at s' p = Some bytes ∧ utf8_decode bytes = Some text ∧
      parse_with_migration text = Ok (loaded o, false)
  | Err _ => True
  end.

Lemma saved_reported c s' o : valid_config c → loaded o = c →
  content_at s' p = Some (utf8_encode (config_text c)) → reported (Ok o) s'.
Proof.
  intros Hv Ho Hs. exists (utf8_encode (config_text c)), (config_text c). split; [done|]. split.
  - by apply utf8_decode_encode, config_text_scalar.
  - rewrite Ho. by apply parse_config_text.
Qed.

Lemma recover_spec c s r s' : content_at s p = Some c →
  recover_corrupted pid sequence timestamp p s = (r, s') → kept c s' ∧ reported r s'.
Proof.
  intros Hc. unfold recover_corrupted. destruct parent_of_config as [-> ->]. cbn [default from_option id].
  unfold mbind at 1, comp_bind at 1.
  destruct (free_backup _ _ _ _ _ s) as [[b|e] s1] eqn:E1;
    apply free_backup_spec in E1 as [N1 Hb]; [|intros [= <- <-]; split; [left|done]; rewrite (content_same s); [done|by rewrite N1]].
  destruct Hb as [k ->]. unfold mbind at 1, comp_bind at 1, map_err.
  destruct (fs_replace p _ s1) as [[[]|e] s2] eqn:E2.
  2:{ apply replace_err in E2. intros [= <- <-]. split; [left|done]. rewrite (content_same s); [done|by rewrite E2, N1]. }
  assert (nodes s1 !! p = Some (File c)) as Hp.
  { rewrite N1. unfold content_at in Hc. destruct (nodes s !! p) as [[]|]; [congruence|done..]. }
  pose proof (replace_ok _ _ _ _ _ Hp E2) as N2. unfold mbind, comp_bind.
  destruct (save_atomic _ _ _ _ s2) as [x s3] eqn:E3. apply save_spec in E3 as [Hs Hx].
  assert (content_at s3 (path_join parent (backup_name timestamp (lit "true-tick.toml") k)) = Some c) as Hk.
  { unfold content_at. rewrite (Hs _ (backup_ne _ _ _)), N2. by rewrite lookup_insert_eq. }
  destruct x as [[]|e]; intros [= <- <-]; (split; [right; left; by exists k|]); [|done].
  by apply (saved_reported config_default); [apply config_default_valid| |].
Qed.

End Load.

(** A saved configuration is read back: for every configuration with a request
    interval other than the legacy one and presets the editor accepts, parsing
    the text that [save_atomic] writes gives the same configuration, with nothing
    to migrate. *)
Theorem config_round_trip c : valid_config c → parse_with_migration (config_text c) = Ok (c, false).
Proof. apply parse_config_text. Qed.

Lemma config_round_trip_witness :
  parse_with_migration (config_text (mkConfig true false false true 5000 [10; 86400])) =
    Ok (mkConfig true false false true 5000 [10; 86400], false).
Proof.
  apply config_round_trip. split; [split; by vm_compute|]. split; [by vm_compute|]. split; [done|].
  split; [vm_compute; lia|].
  unfold MIN_PRESET_SECONDS, MAX_PRESET_SECONDS. cbn. repeat (apply Forall_cons_2; [lia|]). constructor.
Defined.

Definition sample_executable : path := [lit "app"; lit "true-tick.exe"].
(** A file with an unknown key; the creation of the temporary file fails. *)
Definition sample_disk : Fs :=
  mkFs {[ [lit "app"] := Dir; [lit "app"; lit "true-tick.toml"] := File (utf8_encode (lit "bogus = 1")) ]}
    [None; None; None; None; Some (mkFault denied 0)].
Definition sample_load := load_with_migration 7 0 99 (path_from_executable sample_executable) sample_disk.

Example sample_load_fails : is_ok sample_load.1 = false ∧
  content_at sample_load.2 [lit "app"; lit "true-tick.toml.corrupted.99.bak"] = Some (utf8_encode (lit "bogus = 1")).
Proof. vm_compute. done. Qed.

