(* ===== verification/Crypto.v ===== *)
(** * Crypto: signed release manifests, [crates/tick-crypto/src/lib.rs]

    The manifest's text format, its canonical bytes, and the checks on it.
    Ed25519 ([ed25519_dalek]) and SHA-256 are parameters. *)
From S2P Require Import Prelude Text Order Hex Diagnostics.

(** The signature scheme: [VerifyingKey::from_bytes] accepts a key; [verify] and
    [sign]; the verifying key of a secret seed. *)
Class Ed25519 := {
  ed_key_accepted : bytes → bool;
  ed_verify : bytes → bytes → bytes → bool;
  ed_sign : bytes → bytes → bytes;
  ed_public : bytes → bytes }.

(** What the scheme promises: signatures have 64 bytes, and those of a seed are
    accepted under its verifying key. *)
Class Ed25519Laws `{Ed25519} := {
  ed_sign_length : ∀ secret m, length (ed_sign secret m) = 64%nat;
  ed_sign_bytes : ∀ secret m, all_bytes (ed_sign secret m);
  ed_public_length : ∀ secret, length (ed_public secret) = 32%nat;
  ed_public_accepted : ∀ secret, ed_key_accepted (ed_public secret) = true;
  ed_sign_verify : ∀ secret m, ed_verify (ed_public secret) m (ed_sign secret m) = true }.

Definition PUBLIC_KEY_LEN : nat := 32.
Definition SIGNATURE_LEN : nat := 64.
Definition MAX_MANIFEST_ENTRIES : nat := 256.
Definition MAX_MANIFEST_LINE_BYTES : Z := 4096.
Definition SECRET_KEY_LEN : nat := 32.

Module CryptoError.
Inductive CryptoError := WrongKeyLength | WrongSignatureLength | MalformedManifest | SignatureInvalid | DigestMismatch.
End CryptoError.
Abbreviation CryptoError := CryptoError.CryptoError.
#[export] Instance CryptoError_eq_dec : EqDecision CryptoError.
Proof. solve_decision. Defined.

Definition crypto_error_display (e : CryptoError) : str :=
  match e with
  | CryptoError.WrongKeyLength => lit "trust anchor key has wrong length"
  | CryptoError.WrongSignatureLength => lit "manifest signature has wrong length"
  | CryptoError.MalformedManifest => lit "manifest is malformed"
  | CryptoError.SignatureInvalid => lit "manifest signature is invalid"
  | CryptoError.DigestMismatch => lit "entry digest does not match"
  end.

Record ManifestEntry := mkEntry { entry_path : str; entry_sha256 : bytes }.
Record SignedManifest := mkManifest {
  release_counter : Z; manifest_entries : list ManifestEntry; signature : bytes }.
Record TrustAnchor := mkAnchor { anchor_key : bytes }.

Definition anchor_from_bytes (bs : bytes) : result CryptoError TrustAnchor :=
  if negb (length bs =? PUBLIC_KEY_LEN)%nat then Err CryptoError.WrongKeyLength else Ok (mkAnchor bs).

(** ** Parsing *)

(** [char::to_digit(16)]. *)
Definition to_digit16 (c : Z) : option Z :=
  if is_ascii_digit c then Some (c - 48)
  else if (97 <=? c) && (c <=? 102) then Some (c - 87)
  else if (65 <=? c) && (c <=? 70) then Some (c - 55)
  else None.

Definition lower_hex (b : Z) : bool := is_ascii_digit b || ((97 <=? b) && (b <=? 102)).

(** The pairs of digits, [chunks_exact(2)]. *)
Fixpoint decode_pairs (bs : bytes) : result CryptoError bytes :=
  match bs with
  | h :: l :: rest =>
      high ← ok_or (to_digit16 h) CryptoError.MalformedManifest;
      low ← ok_or (to_digit16 l) CryptoError.MalformedManifest;
      out ← decode_pairs rest;
      Ok (Z.lor (Z.shiftl high 4) low :: out)
  | _ => Ok []
  end.

Definition decode_hex (n : nat) (text : str) : result CryptoError bytes :=
  if negb (str_len text =? Z.of_nat (n * 2)) then Err CryptoError.MalformedManifest
  else if negb (forallb lower_hex (utf8_encode text)) then Err CryptoError.MalformedManifest
  else decode_pairs (utf8_encode text).

(** The variables of the parser's loop. *)
Record ManifestParse := mkMP { mp_counter : option Z; mp_signature : option bytes; mp_entries : list ManifestEntry }.

Definition malformed {T} : result CryptoError T := Err CryptoError.MalformedManifest.

Definition parse_counter_line (st : ManifestParse) (rest : str) : result CryptoError ManifestParse :=
  if bool_decide (is_Some (mp_counter st)) then malformed
  else value ← ok_or (parse_u 64 rest) CryptoError.MalformedManifest;
       Ok (mkMP (Some value) (mp_signature st) (mp_entries st)).

Definition parse_entry_line (st : ManifestParse) (rest : str) : result CryptoError ManifestParse :=
  if (MAX_MANIFEST_ENTRIES <=? length (mp_entries st))%nat then malformed
  else
    '(path, hex_digest) ← ok_or (rsplit_once 32 rest) CryptoError.MalformedManifest;
    if bool_decide (path = []) || existsb is_whitespace path then malformed
    else
      sha256 ← decode_hex 32 hex_digest;
      if existsb (λ e, str_eqb (entry_path e) path) (mp_entries st) then malformed
      else Ok (mkMP (mp_counter st) (mp_signature st) (mp_entries st ++ [mkEntry path sha256])).

Definition parse_signature_line (st : ManifestParse) (rest : str) : result CryptoError ManifestParse :=
  if bool_decide (is_Some (mp_signature st)) then malformed
  else if negb (str_len rest =? Z.of_nat (SIGNATURE_LEN * 2)) then Err CryptoError.WrongSignatureLength
  else bytes ← decode_hex SIGNATURE_LEN rest;
       Ok (mkMP (mp_counter st) (Some bytes) (mp_entries st)).

Definition parse_manifest_line (st : ManifestParse) (raw_line : str) : result CryptoError ManifestParse :=
  let line := strip_cr raw_line in
  if MAX_MANIFEST_LINE_BYTES <? str_len line then malformed
  else if bool_decide (line = []) then Ok st
  else match strip_prefix line (lit "release_counter ") with
  | Some rest => parse_counter_line st rest
  | None =>
  match strip_prefix line (lit "entry ") with
  | Some rest => parse_entry_line st rest
  | None =>
  match strip_prefix line (lit "signature ") with
  | Some rest => parse_signature_line st rest
  | None => malformed
  end end end.

Fixpoint parse_manifest_lines (st : ManifestParse) (ls : list str) : result CryptoError ManifestParse :=
  match ls with
  | [] => Ok st
  | raw :: ls => st ← parse_manifest_line st raw; parse_manifest_lines st ls
  end.

Definition parse_signed_manifest (text : str) : result CryptoError SignedManifest :=
  st ← parse_manifest_lines (mkMP None None []) (split_char 10 text);
  counter ← ok_or (mp_counter st) CryptoError.MalformedManifest;
  sig ← ok_or (mp_signature st) CryptoError.MalformedManifest;
  Ok (mkManifest counter (mp_entries st) sig).

(** ** The canonical bytes *)

Definition entry_le (a b : ManifestEntry) : bool := str_leb (entry_path a) (entry_path b).

Definition entry_line (e : ManifestEntry) : str :=
  lit "entry " ++ entry_path e ++ lit " " ++ hex (entry_sha256 e) ++ [10].
Definition canonical_bytes (m : SignedManifest) : bytes :=
  utf8_encode (lit "release_counter " ++ show_u (release_counter m) ++ [10]) ++
  flat_map (λ e, utf8_encode (entry_line e)) (sort_by entry_le (manifest_entries m)).

(** ** Signing and checking *)

Section Scheme.
Context `{Ed25519} `{Sha256}.

Definition signing_key_from_bytes (secret : bytes) : result CryptoError bytes :=
  if (length secret =? SECRET_KEY_LEN)%nat then Ok secret else Err CryptoError.WrongKeyLength.
Definition sign_bytes (secret message : bytes) : result CryptoError bytes :=
  signing ← signing_key_from_bytes secret; Ok (ed_sign signing message).

(** [generate_keypair], from the entropy of the system. *)
Definition generate_keypair (entropy : bytes) : bytes * bytes := (entropy, ed_public entropy).

(** [dedup_by]: of adjacent entries with one path the first is kept. *)
Fixpoint dedup_from (e : ManifestEntry) (l : list ManifestEntry) : list ManifestEntry :=
  match l with
  | [] => [e]
  | x :: t => if str_eqb (entry_path x) (entry_path e) then dedup_from e t else e :: dedup_from x t
  end.
Definition dedup (l : list ManifestEntry) : list ManifestEntry :=
  match l with [] => [] | e :: t => dedup_from e t end.

Definition sign_manifest (secret : bytes) (counter : Z) (entries : list ManifestEntry) : result CryptoError str :=
  let manifest := mkManifest counter (dedup (sort_by entry_le entries)) (replicate SIGNATURE_LEN 0) in
  let canonical := canonical_bytes manifest in
  sig ← sign_bytes secret canonical;
  text ← ok_or (utf8_decode canonical) CryptoError.MalformedManifest;
  Ok (text ++ lit "signature " ++ hex sig ++ [10]).

Definition verify_manifest (m : SignedManifest) (anchor : TrustAnchor) : result CryptoError unit :=
  if negb (ed_key_accepted (anchor_key anchor)) then Err CryptoError.SignatureInvalid
  else if ed_verify (anchor_key anchor) (canonical_bytes m) (signature m) then Ok tt
  else Err CryptoError.SignatureInvalid.

Definition verify_entry_digest (m : SignedManifest) (path : str) (bs : bytes) : result CryptoError unit :=
  entry ← ok_or (List.find (λ e, str_eqb (entry_path e) path) (manifest_entries m)) CryptoError.DigestMismatch;
  if bytes_eqb (sha256 bs) (entry_sha256 entry) then Ok tt else Err CryptoError.DigestMismatch.

Definition check_release_counter (m : SignedManifest) (previously_seen : Z) : result CryptoError unit :=
  if previously_seen <? release_counter m then Ok tt else Err CryptoError.SignatureInvalid.
End Scheme.

(** ** Hexadecimal fields *)

Lemma to_digit16_digit n : 0 ≤ n < 16 → to_digit16 (hex_digit n) = Some n ∧ lower_hex (hex_digit n) = true.
Proof.
  intros Hn. unfold to_digit16, lower_hex, hex_digit, is_ascii_digit.
  destruct_ifs; reflect_bools; split; try lia; f_equal; lia.
Qed.
Lemma to_digit16_some b n : lower_hex b = true → to_digit16 b = Some n → 0 ≤ n < 16 ∧ hex_digit n = b ∧ 0 ≤ b < 128.
Proof.
  unfold lower_hex, to_digit16, hex_digit, is_ascii_digit. intros Hl H.
  destruct_ifs; simplify_eq; reflect_bools; lia.
Qed.

Lemma hex_cons b bs : hex (b :: bs) = hex_digit (b / 16) :: hex_digit (b mod 16) :: hex bs.
Proof. done. Qed.

Lemma decode_pairs_hex bs : all_bytes bs → decode_pairs (hex bs) = Ok bs ∧ forallb lower_hex (hex bs) = true.
Proof.
  unfold is_u8. induction 1 as [|b bs Hb _ [IH1 IH2]]; [done|]. rewrite hex_cons. cbn [decode_pairs forallb].
  destruct (to_digit16_digit (b / 16)) as [-> ->]; [dlia|]. destruct (to_digit16_digit (b mod 16)) as [-> ->]; [dlia|].
  cbn. rewrite IH1, IH2. cbn. split; [|done]. rewrite nibbles_join by dlia. do 2 f_equal. dlia.
Qed.

Lemma decode_pairs_some : ∀ n bs out, length bs = (n * 2)%nat → forallb lower_hex bs = true →
  decode_pairs bs = Ok out → length out = n ∧ all_bytes out ∧ bs = hex out.
Proof.
  induction n as [|n IH]; intros bs out Hl Hx H; destruct bs as [|h [|l bs]]; cbn [length] in Hl; try lia.
  - injection H as <-. split_and!; [done|constructor|done].
  - cbn [forallb] in Hx. apply andb_prop in Hx as [Hxh [Hxl Hx]%andb_prop].
    cbn [decode_pairs] in H. apply bind_ok in H as (x & H1 & H). apply bind_ok in H as (y & H2 & H).
    apply bind_ok in H as (o & Ho & H). injection H as <-.
    apply ok_or_ok, (to_digit16_some _ _ Hxh) in H1 as (H1 & <- & _).
    apply ok_or_ok, (to_digit16_some _ _ Hxl) in H2 as (H2 & <- & _).
    destruct (IH bs o) as (E1 & E2 & E3); [lia|done|done|]. rewrite nibbles_join by done. split_and!.
    + cbn. lia.
    + constructor; [unfold is_u8; lia|done].
    + rewrite hex_cons, <- E3. f_equal; [f_equal; dlia|]. do 2 f_equal. dlia.
Qed.

Lemma hex_str_len bs : all_bytes bs → str_len (hex bs) = Z.of_nat (length bs * 2).
Proof.
  intros Hb. rewrite <- utf8_encode_length, utf8_encode_ascii by (by apply hex_ascii). by rewrite hex_length.
Qed.

Lemma decode_hex_exact n t bs : decode_hex n t = Ok bs ↔ length bs = n ∧ all_bytes bs ∧ t = hex bs.
Proof.
  unfold decode_hex. rewrite <- utf8_encode_length. split.
  - destruct (negb (_ =? _)) eqn:El; [done|]. destruct (negb (forallb _ _)) eqn:Eh; [done|]. intros Hd.
    apply negb_false_iff in El, Eh. apply Z.eqb_eq, Nat2Z.inj in El.
    destruct (decode_pairs_some n _ _ El Eh Hd) as (H1 & H2 & H3).
    rewrite utf8_ascii_inv in H3; [done|]. rewrite H3. by apply hex_ascii.
  - intros (<- & Ha & ->). rewrite utf8_encode_ascii, hex_length, Z.eqb_refl by (by apply hex_ascii).
    destruct (decode_pairs_hex bs Ha) as [-> ->]. done.
Qed.

(** ** Well-formed manifests *)

Definition path_wf (p : str) : Prop :=
  p ≠ [] ∧ Forall (λ c, is_whitespace c = false ∧ is_scalar c = true) p ∧ str_len p ≤ MAX_MANIFEST_LINE_BYTES - 71.
Definition digest_wf (n : nat) (bs : bytes) : Prop := length bs = n ∧ all_bytes bs.
Definition entry_wf (e : ManifestEntry) : Prop := path_wf (entry_path e) ∧ digest_wf 32 (entry_sha256 e).
Definition entries_wf (es : list ManifestEntry) : Prop :=
  (length es ≤ MAX_MANIFEST_ENTRIES)%nat ∧ Forall entry_wf es ∧ NoDup (map entry_path es).
Definition manifest_wf (m : SignedManifest) : Prop :=
  is_u64 (release_counter m) ∧ entries_wf (manifest_entries m) ∧ digest_wf SIGNATURE_LEN (signature m).

Definition mp_wf (st : ManifestParse) : Prop :=
  (∀ n, mp_counter st = Some n → is_u64 n) ∧ entries_wf (mp_entries st) ∧
  (∀ s, mp_signature st = Some s → digest_wf SIGNATURE_LEN s).

Lemma starts_with_split s p : starts_with s p = true → s = p ++ drop (length p) s.
Proof.
  revert s. induction p as [|c p IH]; intros [|d s]; cbn; try done. intros [H1 H2]%andb_prop.
  apply Z.eqb_eq in H1 as ->. f_equal. by apply IH.
Qed.
Lemma strip_prefix_some s p t : strip_prefix s p = Some t → s = p ++ t.
Proof. unfold strip_prefix. destruct (starts_with s p) eqn:E; [|done]. intros [= <-]. by apply starts_with_split. Qed.
Lemma split_once_some sep s a b : split_once sep s = Some (a, b) →
  s = a ++ sep :: b ∧ Forall (λ c, (c =? sep) = false) a.
Proof.
  revert a b. induction s as [|c s IH]; intros a b; cbn; [done|]. destruct (c =? sep) eqn:E.
  - intros [= <- <-]. apply Z.eqb_eq in E as ->. split; [done|constructor].
  - destruct (split_once sep s) as [[x y]|]; [|done]. intros [= <- <-].
    destruct (IH x y eq_refl) as [-> Hf]. split; [done|by constructor].
Qed.
Lemma rsplit_once_some sep s a b : rsplit_once sep s = Some (a, b) → s = a ++ sep :: b.
Proof.
  unfold rsplit_once. destruct (split_once sep (reverse s)) as [[x y]|] eqn:E; [|done]. intros [= <- <-].
  apply split_once_some in E as [E _]. rewrite <- (reverse_involutive s), E, reverse_app, reverse_cons, <- app_assoc.
  done.
Qed.
Lemma rsplit_once_app sep a b : Forall (λ c, (c =? sep) = false) b → rsplit_once sep (a ++ sep :: b) = Some (a, b).
Proof.
  intros Hb. unfold rsplit_once. rewrite reverse_app, reverse_cons, <- app_assoc. cbn [app].
  rewrite split_once_app by (by apply Forall_reverse). by rewrite !reverse_involutive.
Qed.
Lemma strip_cr_sublist s : strip_cr s `prefix_of` s.
Proof.
  unfold strip_cr, strip_suffix. destruct (ends_with s [13]) eqn:E; [|done].
  exists (drop (length s - 1) s). cbn [length]. by rewrite take_drop.
Qed.

(** ** What is parsed is well formed *)

Lemma split_char_Forall (P : Z → Prop) sep s : Forall P s → Forall (Forall P) (split_char sep s).
Proof.
  induction 1 as [|c s Hc _ IH]; cbn [split_char]; [by repeat constructor|]. destruct (c =? sep).
  - by constructor.
  - inversion IH as [|p ps Hp Hps]; subst; repeat constructor; done.
Qed.

Lemma existsb_false {T} (f : T → bool) l : existsb f l = false → Forall (λ x, f x = false) l.
Proof.
  induction l as [|x l IH]; cbn; [by constructor|]. intros [Hx Hl]%orb_false_iff. constructor; [done|by apply IH].
Qed.

Lemma fresh_path p es : existsb (λ e, str_eqb (entry_path e) p) es = false ↔ p ∉ map entry_path es.
Proof.
  split.
  - intros He Hp. apply list_elem_of_fmap in Hp as (e & -> & Hin). apply existsb_false in He.
    rewrite Forall_forall in He. specialize (He e Hin). cbn in He.
    by rewrite (proj2 (str_eqb_spec _ _) eq_refl) in He.
  - intros Hp. apply not_true_iff_false. intros (e & Hin & He)%existsb_exists. apply str_eqb_spec in He as <-.
    apply Hp, list_elem_of_fmap. exists e. split; [done|by apply list_elem_of_In].
Qed.

Lemma parse_entry_wf st rest st' : mp_wf st → Forall (λ c, is_scalar c = true) rest →
  str_len rest ≤ MAX_MANIFEST_LINE_BYTES - 6 → parse_entry_line st rest = Ok st' → mp_wf st'.
Proof.
  intros (Hc & (Hl & He & Hn) & Hs) Hr Hlen. unfold parse_entry_line.
  destruct (MAX_MANIFEST_ENTRIES <=? _)%nat eqn:E1; [done|]. rewrite bind_ok. intros ([path digest] & Hp & H).
  apply ok_or_ok, rsplit_once_some in Hp as ->. destruct (_ || _) eqn:E2; [done|].
  apply bind_ok in H as (bs & Hd & H). destruct (existsb _ (mp_entries st)) eqn:E3; [done|]. injection H as <-.
  apply decode_hex_exact in Hd as (Hd1 & Hd2 & ->). apply orb_false_iff in E2 as [E2 E4].
  apply bool_decide_eq_false in E2. apply existsb_false in E4. apply fresh_path in E3. apply Nat.leb_gt in E1.
  apply Forall_app in Hr as [Hr _]. rewrite str_len_app in Hlen. change (32 :: ?t) with ([32] ++ t) in Hlen.
  rewrite str_len_app, hex_str_len, Hd1 in Hlen by done. change (str_len [32]) with 1 in Hlen.
  assert (entry_wf (mkEntry path bs)) as Hew.
  { split; [|done]. split; [done|]. cbn [entry_path]. split; [|lia]. apply Forall_and. by split. }
  split; [exact Hc|]. split; [|exact Hs]. cbn [mp_entries]. split_and!.
  - rewrite length_app. cbn [length]. lia.
  - apply Forall_app. split; [done|by constructor].
  - rewrite map_app. apply NoDup_app. split_and!; [done| |by apply NoDup_singleton].
    intros x Hx. cbn. rewrite list_elem_of_singleton. by intros ->.
Qed.

Lemma parse_manifest_line_wf st raw st' : mp_wf st → Forall (λ c, is_scalar c = true) raw →
  parse_manifest_line st raw = Ok st' → mp_wf st'.
Proof.
  intros Hw Hr. unfold parse_manifest_line. pose proof (strip_cr_sublist raw) as [u Hu]. revert Hu.
  generalize (strip_cr raw). intros line ->. apply Forall_app in Hr as [Hr _].
  destruct (_ <? str_len line) eqn:El; [done|]. cbv zeta. case_bool_decide; [by intros [= <-]|].
  destruct (strip_prefix line (lit "release_counter ")) as [rest|].
  { unfold parse_counter_line. case_bool_decide; [done|]. rewrite bind_ok. intros (v & Hv & [= <-]).
    apply ok_or_ok, parse_u_bound in Hv. destruct Hw as (Hc & He & Hs). split; [|by split]. by intros n [= <-]. }
  destruct (strip_prefix line (lit "entry ")) as [rest|] eqn:E2.
  { apply strip_prefix_some in E2 as ->. apply Forall_app in Hr as [_ Hr]. apply parse_entry_wf; [done..|].
    rewrite str_len_app in El. change (str_len (lit "entry ")) with 6 in El. lia. }
  destruct (strip_prefix line (lit "signature ")) as [rest|]; [|done].
  unfold parse_signature_line. case_bool_decide; [done|]. destruct (negb _); [done|]. rewrite bind_ok.
  intros (bs & Hb & [= <-]). apply decode_hex_exact in Hb as (Hb1 & Hb2 & ->).
  destruct Hw as (Hc & He & Hs). split; [done|]. split; [done|]. by intros n [= <-].
Qed.

Lemma parse_wf text m : Forall (λ c, is_scalar c = true) text →
  parse_signed_manifest text = Ok m → manifest_wf m.
Proof.
  intros Ht. unfold parse_signed_manifest. rewrite bind_ok. intros (st & Hst & H).
  apply bind_ok in H as (n & Hn & H). apply bind_ok in H as (s & Hs & [= <-]).
  apply ok_or_ok in Hn. apply ok_or_ok in Hs.
  assert (mp_wf st) as (Wc & We & Ws).
  { apply (split_char_Forall _ 10) in Ht.
    assert (mp_wf (mkMP None None [])) as Hw
      by (split; [done|]; split; [|done]; split; [cbn; unfold MAX_MANIFEST_ENTRIES; lia|]; split; constructor).
    revert Hst Hw. generalize (mkMP None None []). induction Ht as [|l ls Hl _ IH]; intros st0; cbn [parse_manifest_lines].
    - by intros [= <-].
    - rewrite bind_ok. intros (st1 & H1 & Hst) Hw. apply (IH _ Hst). by apply (parse_manifest_line_wf st0 l). }
  split; [by apply Wc|]. split; [done|by apply Ws].
Qed.

(** C37: whatever text is parsed, a manifest that comes out is well formed: a 64-bit
    counter, at most 256 entries with distinct, non-empty paths free of
    whitespace and digests of 32 bytes, and a signature of 64 bytes. *)
Theorem parsed_manifest_wf text m : Forall (λ c, is_scalar c = true) text →
  parse_signed_manifest text = Ok m → manifest_wf m.
Proof. apply parse_wf. Qed.

(** ** The canonical text is parsed back *)

Definition clean_line (s : str) : Prop := Forall (λ c, (c =? 10) = false ∧ c ≠ 13) s.

Definition counter_text (n : Z) : str := lit "release_counter " ++ show_u n.
Definition entry_text (e : ManifestEntry) : str :=
  lit "entry " ++ entry_path e ++ 32 :: hex (entry_sha256 e).
Definition signature_text (s : bytes) : str := lit "signature " ++ hex s.
Definition canonical_lines (m : SignedManifest) : list str :=
  counter_text (release_counter m) :: map entry_text (sort_by entry_le (manifest_entries m)).

Lemma clean_plain s : clean_line s → plain_line s ∧ strip_cr s = s.
Proof.
  intros H. assert (∀ c, last s = Some c → c ≠ 13) as Hl.
  { intros c Hc%last_Some_elem_of. by destruct (proj1 (Forall_forall _ _) H c Hc). }
  split; [|by apply strip_cr_none]. split; [|exact Hl]. eapply Forall_impl; [exact H|by intros ? []].
Qed.
Lemma hex_clean bs : all_bytes bs → clean_line (hex bs) ∧ Forall (λ c, (c =? 32) = false) (hex bs).
Proof.
  intros Hb. destruct (decode_pairs_hex bs Hb) as [_ Hh].
  rewrite forallb_forall in Hh. split; apply Forall_forall; intros c Hc;
    apply list_elem_of_In, Hh in Hc; unfold lower_hex, is_ascii_digit in Hc; lia.
Qed.
Lemma path_clean p : path_wf p → clean_line p.
Proof.
  intros (_ & Hp & _). eapply Forall_impl; [exact Hp|]. intros c [Hc _]. unfold is_whitespace in Hc. lia.
Qed.
Lemma digits_clean n : 0 ≤ n → clean_line (show_u n).
Proof.
  intros Hn. eapply Forall_impl; [by apply show_u_digits|]. intros c. unfold is_ascii_digit. lia.
Qed.
Lemma clean_app s t : clean_line s → clean_line t → clean_line (s ++ t).
Proof. intros. by apply Forall_app. Qed.
Lemma clean_lit s : forallb (λ c, negb ((c =? 10) || (c =? 13))) (lit s) = true → clean_line (lit s).
Proof.
  rewrite forallb_forall. intros H. apply Forall_forall. intros c Hc%list_elem_of_In%H. lia.
Qed.
Lemma entry_clean e : entry_wf e → clean_line (entry_text e).
Proof.
  intros [Hp [Hd1 Hd2]]. apply clean_app; [by apply clean_lit|]. apply clean_app; [by apply path_clean|].
  constructor; [done|]. by apply hex_clean.
Qed.
Lemma counter_clean n : 0 ≤ n → clean_line (counter_text n).
Proof. intros. apply clean_app; [by apply clean_lit|by apply digits_clean]. Qed.
Lemma signature_clean n s : digest_wf n s → clean_line (signature_text s).
Proof. intros [_ Hs]. apply clean_app; [by apply clean_lit|by apply hex_clean]. Qed.

Lemma split_unlines ls : Forall clean_line ls → split_char 10 (unlines ls) = ls ++ [[]].
Proof.
  induction 1 as [|l ls Hl _ IH]; [done|]. unfold unlines in *. cbn [flat_map]. rewrite <- app_assoc.
  cbn [app]. rewrite split_char_app; [by rewrite IH|]. eapply Forall_impl; [exact Hl|by intros ? []].
Qed.

Lemma parse_counter_text st n : is_u64 n → mp_counter st = None →
  parse_manifest_line st (counter_text n) = Ok (mkMP (Some n) (mp_signature st) (mp_entries st)).
Proof.
  intros Hn Hc. assert (0 ≤ n) as Hn0 by (unfold is_u64 in Hn; lia). unfold parse_manifest_line.
  destruct (clean_plain _ (counter_clean n Hn0)) as [_ ->].
  assert (str_len (counter_text n) ≤ 36) as Hl.
  { unfold counter_text. rewrite str_len_app, (digits_str_len (show_u n)) by (by apply show_u_digits).
    pose proof (show_u_length n 19 ltac:(unfold is_u64 in Hn; lia)). change (str_len (lit "release_counter ")) with 16. lia. }
  unfold MAX_MANIFEST_LINE_BYTES. replace (_ <? _) with false by lia. cbv zeta.
  rewrite bool_decide_eq_false_2 by done. unfold counter_text. rewrite strip_prefix_app.
  unfold parse_counter_line. rewrite Hc. rewrite bool_decide_eq_false_2 by (by intros []).
  rewrite parse_show by exact Hn. done.
Qed.

Lemma parse_entry_text st e : entry_wf e → (length (mp_entries st) < MAX_MANIFEST_ENTRIES)%nat →
  entry_path e ∉ map entry_path (mp_entries st) →
  parse_manifest_line st (entry_text e) = Ok (mkMP (mp_counter st) (mp_signature st) (mp_entries st ++ [e])).
Proof.
  intros He Hl Hf. unfold parse_manifest_line. destruct (clean_plain _ (entry_clean e He)) as [_ ->].
  destruct He as [(Hp1 & Hp2 & Hp3) [Hd1 Hd2]].
  assert (str_len (entry_text e) = 71 + str_len (entry_path e)) as Hlen.
  { unfold entry_text. rewrite !str_len_app. change (32 :: ?t) with ([32] ++ t). rewrite str_len_app, hex_str_len, Hd1 by done.
    change (str_len (lit "entry ")) with 6. change (str_len [32]) with 1. lia. }
  replace (MAX_MANIFEST_LINE_BYTES <? str_len (entry_text e)) with false by lia. cbv zeta.
  rewrite bool_decide_eq_false_2 by done. unfold entry_text.
  change (strip_prefix (lit "entry " ++ ?t) (lit "release_counter ")) with (@None str). cbv iota.
  rewrite strip_prefix_app. unfold parse_entry_line.
  rewrite (proj2 (Nat.leb_gt _ _) Hl), rsplit_once_app by (by apply hex_clean).
  change (ok_or (Some ?x) ?e ≫= ?f) with (f x). cbv beta iota.
  rewrite (bool_decide_eq_false_2 (entry_path e = [])) by done.
  assert (existsb is_whitespace (entry_path e) = false) as ->.
  { apply not_true_iff_false. intros (c & Hin & Hc)%existsb_exists. rewrite Forall_forall in Hp2.
    apply list_elem_of_In, Hp2 in Hin as [Hin _]. congruence. }
  cbn [orb]. rewrite (proj2 (decode_hex_exact 32 _ (entry_sha256 e))) by done.
  change (Ok ?x ≫= ?f) with (f x). cbv beta. rewrite (proj2 (fresh_path _ _)) by done. by destruct e.
Qed.

Lemma parse_signature_text st s : digest_wf SIGNATURE_LEN s → mp_signature st = None →
  parse_manifest_line st (signature_text s) = Ok (mkMP (mp_counter st) (Some s) (mp_entries st)).
Proof.
  intros Hs Hn. unfold parse_manifest_line. destruct (clean_plain _ (signature_clean _ s Hs)) as [_ ->].
  destruct Hs as [Hs1 Hs2].
  assert (str_len (signature_text s) = 138) as ->.
  { unfold signature_text. rewrite str_len_app, hex_str_len, Hs1 by done. done. }
  change (MAX_MANIFEST_LINE_BYTES <? 138) with false. cbv iota zeta.
  rewrite bool_decide_eq_false_2 by done. unfold signature_text.
  change (strip_prefix (lit "signature " ++ ?t) (lit "release_counter ")) with (@None str).
  change (strip_prefix (lit "signature " ++ ?t) (lit "entry ")) with (@None str). cbv iota.
  rewrite strip_prefix_app. unfold parse_signature_line. rewrite Hn. rewrite bool_decide_eq_false_2 by (by intros []).
  rewrite hex_str_len, Hs1, Z.eqb_refl by done. cbn [negb].
  by rewrite (proj2 (decode_hex_exact SIGNATURE_LEN _ s)).
Qed.

Lemma parse_lines_app st a b :
  parse_manifest_lines st (a ++ b) = (st ← parse_manifest_lines st a; parse_manifest_lines st b).
Proof.
  revert st. induction a as [|l a IH]; intros st; [done|]. cbn [app parse_manifest_lines].
  destruct (parse_manifest_line st l); [apply IH|done].
Qed.

Lemma parse_entry_texts es st : Forall entry_wf es → NoDup (map entry_path (mp_entries st ++ es)) →
  (length (mp_entries st ++ es) ≤ MAX_MANIFEST_ENTRIES)%nat →
  parse_manifest_lines st (map entry_text es) = Ok (mkMP (mp_counter st) (mp_signature st) (mp_entries st ++ es)).
Proof.
  intros He. revert st. induction He as [|e es He _ IH]; intros st Hn Hl.
  - rewrite app_nil_r. by destruct st.
  - cbn [map parse_manifest_lines]. rewrite length_app in Hl. cbn [length] in Hl.
    rewrite parse_entry_text; [|done|lia|].
    + change (Ok ?x ≫= ?f) with (f x). cbv beta. rewrite IH; cbn [mp_counter mp_signature mp_entries]; rewrite <- app_assoc; try done.
      rewrite length_app. cbn [length app]. lia.
    + rewrite map_app in Hn. apply NoDup_app in Hn as (_ & Hn & _). intros Hin. apply (Hn _ Hin). cbn. set_solver.
Qed.

Lemma entry_le_total a b : entry_le a b = false → entry_le b a = true.
Proof. apply str_leb_total. Qed.
Lemma entry_le_trans a b c : entry_le a b = true → entry_le b c = true → entry_le a c = true.
Proof. apply str_leb_trans. Qed.

Lemma entries_wf_perm es es' : es ≡ₚ es' → entries_wf es' → entries_wf es.
Proof. intros Hp (Hl & He & Hn). split_and!; [by rewrite (Permutation_length Hp)|by rewrite Hp..]. Qed.
Lemma sorted_entries_wf es : entries_wf es → entries_wf (sort_by entry_le es).
Proof. apply entries_wf_perm, sort_by_perm. Qed.

Lemma canonical_unlines m : canonical_bytes m = utf8_encode (unlines (canonical_lines m)).
Proof.
  unfold canonical_bytes, unlines, canonical_lines. cbn [flat_map].
  unfold utf8_encode at 3. rewrite flat_map_app. f_equal.
  induction (sort_by entry_le (manifest_entries m)) as [|e es IH]; [done|]. cbn [flat_map map].
  rewrite flat_map_app, <- IH. f_equal. unfold entry_line, entry_text. by rewrite <- !app_assoc.
Qed.

Lemma canonical_clean m : 0 ≤ release_counter m → Forall entry_wf (manifest_entries m) →
  Forall clean_line (canonical_lines m).
Proof.
  intros Hc He. constructor; [by apply counter_clean|]. apply Forall_map.
  rewrite sort_by_perm. eapply Forall_impl; [exact He|]. intros e. apply entry_clean.
Qed.

Lemma canonical_scalar m : 0 ≤ release_counter m → Forall entry_wf (manifest_entries m) →
  Forall (λ c, is_scalar c = true) (unlines (canonical_lines m)).
Proof.
  intros Hc He. assert (∀ bs, all_bytes bs → Forall (λ c, is_scalar c = true) (hex bs)) as Hh.
  { intros bs Hb. eapply Forall_impl; [by apply hex_ascii|]. unfold is_scalar. intros c. lia. }
  assert (∀ s, forallb is_scalar (lit s) = true → Forall (λ c, is_scalar c = true) (lit s)) as Hlit.
  { intros s. rewrite forallb_forall. intros H. apply Forall_forall. by intros c Hin%list_elem_of_In%H. }
  unfold unlines, canonical_lines. cbn [flat_map]. apply Forall_app. split.
  - unfold counter_text. rewrite !Forall_app. split_and!; [by apply Hlit| |by repeat constructor].
    eapply Forall_impl; [by apply show_u_digits|]. unfold is_ascii_digit, is_scalar. intros c. lia.
  - rewrite <- (sort_by_perm entry_le) in He. induction He as [|e es [(_ & Hp & _) [_ Hd]] _ IH]; [constructor|].
    cbn [map flat_map]. apply Forall_app. split; [|exact IH]. unfold entry_text.
    rewrite !Forall_app. split_and!; [by apply Hlit|by eapply Forall_impl; [exact Hp|intros ? []]| |by repeat constructor].
    constructor; [done|by apply Hh].
Qed.

Lemma parse_canonical m s : is_u64 (release_counter m) → entries_wf (manifest_entries m) →
  digest_wf SIGNATURE_LEN s →
  parse_signed_manifest (unlines (canonical_lines m) ++ signature_text s ++ [10]) =
    Ok (mkManifest (release_counter m) (sort_by entry_le (manifest_entries m)) s).
Proof.
  intros Hc He Hs. assert (0 ≤ release_counter m) as Hc0 by (unfold is_u64 in Hc; lia).
  replace (unlines (canonical_lines m) ++ signature_text s ++ [10])
    with (unlines (canonical_lines m ++ [signature_text s])).
  2:{ unfold unlines. rewrite flat_map_app. cbn [flat_map]. by rewrite app_nil_r. }
  unfold parse_signed_manifest. rewrite split_unlines.
  2:{ apply Forall_app. split; [apply canonical_clean; [done|apply He]|]. apply Forall_cons_2; [by eapply signature_clean|constructor]. }
  pose proof (sorted_entries_wf _ He) as (Hl & Hw & Hn). unfold canonical_lines.
  rewrite <- app_assoc. cbn [app parse_manifest_lines]. rewrite parse_counter_text by done.
  change (Ok ?x ≫= ?f) with (f x). cbv beta. rewrite parse_lines_app.
  rewrite parse_entry_texts by done. change (Ok ?x ≫= ?f) with (f x). cbv beta.
  cbn [parse_manifest_lines mp_counter mp_signature mp_entries app]. by rewrite parse_signature_text.
Qed.

(** C22: the signature covers the whole manifest: two well-formed manifests have the
    same canonical bytes exactly when they have the same release counter and the
    same entries, in whatever order. *)
Theorem canonical_bytes_bind m1 m2 : manifest_wf m1 → manifest_wf m2 →
  canonical_bytes m1 = canonical_bytes m2 ↔
  release_counter m1 = release_counter m2 ∧ manifest_entries m1 ≡ₚ manifest_entries m2.
Proof.
  intros (Hc1 & He1 & Hs1) (Hc2 & He2 & Hs2). split.
  - rewrite !canonical_unlines. intros Heq.
    assert (unlines (canonical_lines m1) = unlines (canonical_lines m2)) as Hu.
    { apply (f_equal utf8_decode) in Heq. rewrite !utf8_decode_encode in Heq; [by apply (inj Some)|..];
        apply canonical_scalar; first [apply He1|apply He2|unfold is_u64 in *; lia]. }
    pose proof (parse_canonical m1 (signature m1) Hc1 He1 Hs1) as P1.
    rewrite Hu, (parse_canonical m2) in P1 by done. injection P1 as -> Hp. split; [done|].
    by rewrite <- (sort_by_perm entry_le (manifest_entries m1)), <- Hp, sort_by_perm.
  - intros [Hc Hp]. unfold canonical_bytes. rewrite Hc. do 2 f_equal.
    apply (sorted_perm_eq entry_le).
    + intros x y Hx Hy Hxy Hyx. rewrite sort_by_perm in Hx, Hy.
      pose proof (str_leb_antisym _ _ Hxy Hyx) as Hpath. destruct He1 as (_ & _ & Hn).
      apply list_elem_of_lookup in Hx as [i Hi]. apply list_elem_of_lookup in Hy as [j Hj].
      assert (i = j) as ->; [|congruence]. eapply (NoDup_lookup _ _ _ (entry_path x)); [exact Hn|..].
      * by rewrite list_lookup_fmap, Hi.
      * by rewrite list_lookup_fmap, Hj, Hpath.
    + apply sort_by_sorted; [apply entry_le_total|apply entry_le_trans].
    + apply sort_by_sorted; [apply entry_le_total|apply entry_le_trans].
    + by rewrite !sort_by_perm.
Qed.

(** ** Signing *)

Definition find_path (p : str) (es : list ManifestEntry) : option ManifestEntry :=
  List.find (λ e, str_eqb (entry_path e) p) es.

Lemma find_insert p x l : find_path p (insert_by entry_le x l) = find_path p (x :: l).
Proof.
  induction l as [|h t IH]; [done|]. cbn [insert_by]. destruct (entry_le x h) eqn:E; [done|].
  unfold find_path in *. cbn [List.find] in *. rewrite IH.
  destruct (str_eqb (entry_path h) p) eqn:Eh; [|done]. destruct (str_eqb (entry_path x) p) eqn:Ex; [|done].
  apply str_eqb_spec in Eh as <-. apply str_eqb_spec in Ex. unfold entry_le in E. rewrite Ex in E.
  by rewrite str_leb_refl in E.
Qed.
Lemma find_sort p l : find_path p (sort_by entry_le l) = find_path p l.
Proof.
  induction l as [|x l IH]; [done|]. change (sort_by entry_le (x :: l)) with (insert_by entry_le x (sort_by entry_le l)).
  rewrite find_insert. unfold find_path in *. cbn [List.find]. by rewrite IH.
Qed.

Lemma find_dedup_from p e l : find_path p (dedup_from e l) = find_path p (e :: l).
Proof.
  revert e. induction l as [|x l IH]; intros e; [done|]. cbn [dedup_from].
  destruct (str_eqb (entry_path x) (entry_path e)) eqn:E.
  - rewrite IH. apply str_eqb_spec in E. unfold find_path. cbn [List.find]. rewrite E. by destruct (str_eqb _ p).
  - unfold find_path in *. cbn [List.find]. by rewrite IH.
Qed.
Lemma find_dedup p l : find_path p (dedup l) = find_path p l.
Proof. destruct l as [|e l]; [done|apply find_dedup_from]. Qed.

Lemma dedup_from_spec e l : sorted_by entry_le (e :: l) →
  sorted_by entry_le (dedup_from e l) ∧ NoDup (map entry_path (dedup_from e l)) ∧
  (∀ x, x ∈ dedup_from e l → x ∈ e :: l).
Proof.
  revert e. induction l as [|x l IH]; intros e He; cbn [dedup_from].
  - split; [done|]. split; [apply NoDup_singleton|done].
  - destruct He as [Hex Hxl]. pose proof Hex as Hex'. rewrite Forall_forall in Hex'.
    destruct (str_eqb (entry_path x) (entry_path e)) eqn:E.
    + destruct (IH e) as (H1 & H2 & H3).
      { split; [by inversion Hex|apply Hxl]. }
      split; [done|]. split; [done|]. intros y Hy. apply H3 in Hy. set_solver.
    + destruct (IH x Hxl) as (H1 & H2 & H3). split_and!.
      * split; [|done]. apply Forall_forall. auto.
      * cbn [map]. constructor; [|done]. intros (y & Hy & Hin)%list_elem_of_fmap.
        specialize (H3 y Hin). assert (str_leb (entry_path x) (entry_path y) = true) as Hxy.
        { destruct Hxl as [Hx _]. rewrite Forall_forall in Hx. apply elem_of_cons in H3 as [->|H3]; [apply str_leb_refl|by apply Hx]. }
        pose proof (Hex' x ltac:(set_solver)) as Hx. rewrite <- Hy in Hxy.
        pose proof (str_leb_antisym _ _ Hx Hxy) as Heq. rewrite <- Heq in E.
        by rewrite (proj2 (str_eqb_spec _ _) eq_refl) in E.
      * intros y Hy. apply elem_of_cons in Hy as [->|Hy]; [set_solver|]. apply H3 in Hy. set_solver.
Qed.
Lemma dedup_spec l : sorted_by entry_le l →
  sorted_by entry_le (dedup l) ∧ NoDup (map entry_path (dedup l)) ∧ (∀ x, x ∈ dedup l → x ∈ l).
Proof.
  destruct l as [|e l]; [split; [done|]; split; [apply NoDup_nil_2|done]|apply dedup_from_spec].
Qed.

Section Sign.
Context `{Ed25519Laws}.

(** Signing, parsing and verifying agree: for a seed of the right length and
    entries that can be written on a line, at most 256 of distinct paths,
    [sign_manifest] succeeds, and its text is parsed as a manifest with the same
    counter that the seed's public key verifies and in which every path has the
    entry that comes first among those given for it, and no other. *)
Lemma sign_manifest_verifies secret counter entries :
  length secret = SECRET_KEY_LEN → is_u64 counter → Forall entry_wf entries →
  (length (dedup (sort_by entry_le entries)) ≤ MAX_MANIFEST_ENTRIES)%nat →
  ∃ text m, sign_manifest secret counter entries = Ok text ∧ Forall (λ c, is_scalar c = true) text ∧
    parse_signed_manifest text = Ok m ∧
    verify_manifest m (mkAnchor (ed_public secret)) = Ok tt ∧ release_counter m = counter ∧
    ∀ p, find_path p (manifest_entries m) = find_path p entries.
Proof.
  intros Hk Hc Hw Hl. set (es := dedup (sort_by entry_le entries)) in *.
  destruct (dedup_spec (sort_by entry_le entries)) as (Hs & Hn & Hin);
    [apply sort_by_sorted; [apply entry_le_total|apply entry_le_trans]|].
  assert (entries_wf es) as Hes.
  { split; [done|]. split; [|done]. rewrite Forall_forall in Hw |- *. intros e He. apply Hw.
    rewrite <- (sort_by_perm entry_le). by apply Hin. }
  set (m0 := mkManifest counter es (replicate SIGNATURE_LEN 0)).
  assert (0 ≤ release_counter m0) as Hc0 by (unfold is_u64 in Hc; cbn; lia).
  set (sig := ed_sign secret (canonical_bytes m0)).
  exists (unlines (canonical_lines m0) ++ signature_text sig ++ [10]), (mkManifest counter es sig). split_and!.
  - unfold sign_manifest. fold es. fold m0. unfold sign_bytes, signing_key_from_bytes.
    rewrite Hk, Nat.eqb_refl. change (Ok ?x ≫= ?f) with (f x). cbv beta. change (Ok ?x ≫= ?f) with (f x). cbv beta.
    rewrite canonical_unlines, utf8_decode_encode by (apply canonical_scalar; [exact Hc0|exact (proj1 (proj2 Hes))]).
    rewrite <- canonical_unlines. change (ok_or (Some ?x) ?e ≫= ?f) with (f x). cbv beta. fold sig.
    reflexivity.
  - unfold signature_text. rewrite !Forall_app. split_and!; [apply canonical_scalar; [exact Hc0|exact (proj1 (proj2 Hes))]|by repeat constructor| |by repeat constructor].
    eapply Forall_impl; [apply hex_ascii, ed_sign_bytes|]. unfold is_scalar. intros c. lia.
  - rewrite (parse_canonical m0 sig); [|done|done|split; [apply ed_sign_length|apply ed_sign_bytes]].
    cbn [m0 release_counter manifest_entries]. by rewrite sort_by_id.
  - unfold verify_manifest. cbn [anchor_key signature]. rewrite ed_public_accepted.
    change (canonical_bytes (mkManifest counter es sig)) with (canonical_bytes m0). unfold sig.
    by rewrite ed_sign_verify.
  - done.
  - intros p. cbn [manifest_entries]. unfold es. by rewrite find_dedup, find_sort.
Qed.
End Sign.

(** ** A scheme that satisfies the laws *)

Definition sum_bytes (bs : bytes) : Z := foldr Z.add 0 bs mod 256.
#[local] Instance toy_scheme : Ed25519 := {|
  ed_key_accepted := λ k, (length k =? 32)%nat;
  ed_verify := λ k m s, bytes_eqb s (replicate 64 (sum_bytes (k ++ m)));
  ed_sign := λ secret m, replicate 64 (sum_bytes (replicate 32 (sum_bytes secret) ++ m));
  ed_public := λ secret, replicate 32 (sum_bytes secret) |}.
#[local] Instance toy_laws : Ed25519Laws.
Proof.
  split; intros; cbn -[replicate sum_bytes].
  - by rewrite length_replicate.
  - apply Forall_replicate. unfold is_u8, sum_bytes. dlia.
  - by rewrite length_replicate.
  - by rewrite length_replicate.
  - by apply bytes_eqb_spec.
Qed.

Definition sample_entries : list ManifestEntry :=
  [mkEntry (lit "b.exe") (replicate 32 7); mkEntry (lit "a.exe") (replicate 32 250); mkEntry (lit "b.exe") (replicate 32 9)].

Definition sample_manifest_text : str :=
  match sign_manifest (replicate 32 5) 12 sample_entries with Ok t => t | Err _ => [] end.
Definition sample_manifest : SignedManifest :=
  match parse_signed_manifest sample_manifest_text with Ok m => m | Err _ => mkManifest 0 [] [] end.

Lemma sample_manifest_scalar : Forall (λ c, is_scalar c = true) sample_manifest_text.
Proof.
  assert (forallb is_scalar sample_manifest_text = true) as H by (vm_compute; reflexivity).
  rewrite forallb_forall in H. apply Forall_forall. by intros c Hc%list_elem_of_In%H.
Qed.

Lemma sample_manifest_parses : parse_signed_manifest sample_manifest_text = Ok sample_manifest.
Proof. vm_compute. reflexivity. Qed.

Lemma parsed_manifest_wf_witness :
  manifest_wf sample_manifest ∧ map entry_path (manifest_entries sample_manifest) = [lit "a.exe"; lit "b.exe"].
Proof.
  split; [|vm_compute; reflexivity].
  apply (parsed_manifest_wf sample_manifest_text); [exact sample_manifest_scalar|exact sample_manifest_parses].
Defined.

(** The same entries in another order. *)
Definition reversed_manifest : SignedManifest :=
  mkManifest (release_counter sample_manifest) (reverse (manifest_entries sample_manifest)) (signature sample_manifest).

Lemma canonical_bytes_bind_witness :
  canonical_bytes sample_manifest = canonical_bytes reversed_manifest ↔
  release_counter sample_manifest = release_counter reversed_manifest ∧
  manifest_entries sample_manifest ≡ₚ manifest_entries reversed_manifest.
Proof.
  destruct (parse_wf _ _ sample_manifest_scalar sample_manifest_parses) as (Hc & He & Hs).
  apply (canonical_bytes_bind sample_manifest reversed_manifest); [by split|].
  split; [exact Hc|]. split; [|exact Hs]. eapply entries_wf_perm; [apply reverse_Permutation|exact He].
Defined.

(** Blank lines between the lines of a manifest are skipped. *)
Example blank_lines_accepted :
  parse_signed_manifest ([10; 10] ++ sample_manifest_text ++ [13; 10]) = Ok sample_manifest.
Proof. vm_compute. reflexivity. Qed.

(** The counter of a parsed manifest fits its type, whatever the text. *)
Lemma parsed_counter_u64 text m : parse_signed_manifest text = Ok m → is_u64 (release_counter m).
Proof.
  unfold parse_signed_manifest. rewrite bind_ok. intros (st & Hst & Hm). apply bind_ok in Hm as (n & Hn & Hm).
  apply bind_ok in Hm as (s & _ & [= <-]). apply ok_or_ok in Hn. cbn [release_counter].
  assert (∀ k, mp_counter (mkMP None None []) = Some k → is_u64 k) as H0 by done.
  revert Hst H0 Hn. generalize (mkMP None None []). induction (split_char 10 text) as [|l ls IH]; intros st0; cbn [parse_manifest_lines].
  - intros [= <-] H0 Hn. by apply H0.
  - rewrite bind_ok. intros (st1 & H1 & Hst) H0 Hn. refine (IH st1 Hst _ Hn). clear -H1 H0. revert H1.
    unfold parse_manifest_line. destruct (_ <? _); [done|]. cbv zeta. case_bool_decide; [by intros [= <-]|].
    destruct (strip_prefix _ (lit "release_counter ")) as [rest|].
    + unfold parse_counter_line. case_bool_decide; [done|]. rewrite bind_ok. intros (v & Hv & [= <-]) k [= <-].
      by apply ok_or_ok, parse_u_bound in Hv.
    + destruct (strip_prefix _ (lit "entry ")) as [rest|].
      * unfold parse_entry_line. destruct (_ <=? _)%nat; [done|]. rewrite bind_ok. intros ([p d] & _ & Hl).
        destruct (_ || _); [done|]. apply bind_ok in Hl as (bs & _ & Hl). destruct (existsb _ _); [done|].
        by injection Hl as <-.
      * destruct (strip_prefix _ (lit "signature ")) as [rest|]; [|done]. unfold parse_signature_line.
        case_bool_decide; [done|]. destruct (negb _); [done|]. rewrite bind_ok. by intros (bs & _ & [= <-]).
Qed.
