(* ===== verification/Session.v ===== *)
(** * Session: the marker of a running session, [apps/true-tick/src/session.rs]

    A tombstone is written when the application starts and removed when it ends;
    what the next start finds tells how the session before it ended.  SHA-256 is a
    parameter. *)
From S2P Require Import Prelude Text Diagnostics Files.

Definition SESSION_MARKER_FILENAME : str := lit "session.state".
Definition SESSION_STATE_RUNNING : str := lit "running".
Definition SESSION_STATE_CLEAN : str := lit "clean".
Definition TOMBSTONE_MAGIC : bytes := lit "TTSS".
Definition TOMBSTONE_VERSION : bytes := lit "v1".
Definition TOMBSTONE_CHECKSUM_LEN : nat := 32.
Definition TOMBSTONE_HEADER_LEN : nat := 4 + 2 + 32 + 4 + 8.
Definition MAX_ABORT_REASON_BYTES : Z := 160.

Record SessionTombstone := mkTombstone { pid : Z; startup_timestamp_secs : Z }.
#[export] Instance SessionTombstone_eq_dec : EqDecision SessionTombstone.
Proof. solve_decision. Defined.

Module SessionError.
Inductive SessionError := Unreadable (detail : str) | Corrupted (detail : str) | ClockError.
End SessionError.
Abbreviation SessionError := SessionError.SessionError.

Definition session_error_display (e : SessionError) : str :=
  match e with
  | SessionError.Unreadable detail => lit "session marker unreadable " ++ detail
  | SessionError.Corrupted detail => lit "session marker corrupted " ++ detail
  | SessionError.ClockError => lit "system clock predates the epoch"
  end.

Module PreviousSession.
Inductive PreviousSession := FirstRun | CleanExit | UncleanShutdown | Corrupted | Unreadable.
End PreviousSession.
Abbreviation PreviousSession := PreviousSession.PreviousSession.
#[export] Instance PreviousSession_eq_dec : EqDecision PreviousSession.
Proof. solve_decision. Defined.

Section Session.
Context `{Sha256} `{IoDisplay} `{PathDisplay}.

(** [SessionTombstone::current], from the process id and the clock. *)
Definition tombstone_current (process_id : Z) (seconds_since_epoch : option Z) : result SessionError SessionTombstone :=
  secs ← ok_or seconds_since_epoch SessionError.ClockError; Ok (mkTombstone process_id secs).

Definition format_payload (t : SessionTombstone) : str :=
  lit "state=" ++ SESSION_STATE_RUNNING ++ [10] ++ lit "pid=" ++ show_u (pid t) ++ [10] ++
  lit "startup_timestamp=" ++ show_u (startup_timestamp_secs t) ++ [10].

Definition tombstone_checksum (t : SessionTombstone) : bytes :=
  sha256 (TOMBSTONE_MAGIC ++ TOMBSTONE_VERSION ++ le_bytes 4 (pid t) ++ le_bytes 8 (startup_timestamp_secs t)).

Definition encode_bytes (t : SessionTombstone) : bytes :=
  TOMBSTONE_MAGIC ++ TOMBSTONE_VERSION ++ tombstone_checksum t ++ le_bytes 4 (pid t) ++
  le_bytes 8 (startup_timestamp_secs t).

Definition decode_bytes (bs : bytes) : result SessionError SessionTombstone :=
  if (length bs <? TOMBSTONE_HEADER_LEN)%nat then Err (SessionError.Corrupted (lit "tombstone is truncated"))
  else if negb (bytes_eqb (slice bs 0 4) TOMBSTONE_MAGIC)
  then Err (SessionError.Corrupted (lit "tombstone magic mismatch"))
  else if negb (bytes_eqb (slice bs 4 6) TOMBSTONE_VERSION)
  then Err (SessionError.Corrupted (lit "tombstone version mismatch"))
  else
    let stored := slice bs 6 38 in
    let candidate := mkTombstone (le_value (slice bs 38 42)) (le_value (slice bs 42 50)) in
    if negb (bytes_eqb (tombstone_checksum candidate) stored)
    then Err (SessionError.Corrupted (lit "tombstone checksum mismatch"))
    else Ok candidate.

(** [SessionMarker] holds the bytes read. *)
Definition describe (marker : bytes) : str :=
  match decode_bytes marker with
  | Ok t => lit "tombstone pid=" ++ show_u (pid t) ++ lit " startup_timestamp=" ++ show_u (startup_timestamp_secs t)
  | Err _ =>
      match utf8_decode marker with
      | Some text => lit "legacy text " ++ truncate_utf8 (trim text) 64
      | None => lit "binary " ++ show_u (Z.of_nat (length marker)) ++ lit " bytes"
      end
  end.

(** ** Classification *)

Definition classify_previous_session (content : option str) : PreviousSession :=
  match trim <$> content with
  | None => PreviousSession.FirstRun
  | Some t => if str_eqb t SESSION_STATE_CLEAN then PreviousSession.CleanExit else PreviousSession.UncleanShutdown
  end.

Definition is_legacy_unclean_text (text : str) : bool :=
  let trimmed := trim text in
  str_eqb trimmed SESSION_STATE_RUNNING || starts_with trimmed (lit "state=running") ||
  starts_with trimmed (lit "state=aborted").

Definition classify_previous_session_bytes (o : option bytes) : PreviousSession :=
  match o with
  | None => PreviousSession.FirstRun
  | Some bs =>
      if is_ok (decode_bytes bs) then PreviousSession.UncleanShutdown
      else match utf8_decode bs with
           | Some text =>
               if str_eqb (trim text) SESSION_STATE_CLEAN then PreviousSession.CleanExit
               else if is_legacy_unclean_text text then PreviousSession.UncleanShutdown
               else PreviousSession.Corrupted
           | None => PreviousSession.Corrupted
           end
  end.

Definition classify_marker (marker : option bytes) : PreviousSession := classify_previous_session_bytes marker.

Definition classify_session_read (r : result SessionError (option bytes)) : PreviousSession :=
  match r with
  | Ok marker => classify_marker marker
  | Err (SessionError.Unreadable _) => PreviousSession.Unreadable
  | Err (SessionError.Corrupted _) => PreviousSession.Corrupted
  | Err SessionError.ClockError => PreviousSession.Corrupted
  end.

(** ** The marker file *)

Definition session_marker_path (state_directory : path) : path := path_join state_directory SESSION_MARKER_FILENAME.

Definition io_error_is_missing (e : IoError) : bool := bool_decide (io_kind e = IoKind.NotFound).

Definition session_error_for_read (p : path) (e : IoError) : SessionError :=
  if io_error_is_missing e then SessionError.Corrupted (lit "missing path reported as read error")
  else SessionError.Unreadable (lit "path=" ++ path_display p ++ lit " error=" ++ io_display e).

Definition read_session_marker_bytes (dir : path) : comp Fs SessionError (option bytes) :=
  let p := session_marker_path dir in
  r ← attempt (fs_read p);
  match r with
  | Ok bs => mret (Some bs)
  | Err e => if io_error_is_missing e then mret None else fail (session_error_for_read p e)
  end.

(** [read_session_marker]: a [SessionMarker] is its bytes. *)
Definition read_session_marker (dir : path) : comp Fs SessionError (option bytes) :=
  o ← read_session_marker_bytes dir;
  match o with None => mret None | Some bs => mret (Some bs) end.

Section Process.
Context (process_id : Z).

Definition temporary_tombstone_path (dir : path) : path :=
  path_join dir (SESSION_MARKER_FILENAME ++ lit ".tmp." ++ show_u process_id).

Definition write_session_bytes_atomic (dir : path) (bs : bytes) : FS unit :=
  _ ← fs_create_dir_all dir;
  write_atomic (temporary_tombstone_path dir) (session_marker_path dir) bs.

Definition write_session_tombstone (dir : path) (t : SessionTombstone) : FS unit :=
  write_session_bytes_atomic dir (encode_bytes t).
Definition create_session_tombstone (dir : path) (t : SessionTombstone) : FS unit := write_session_tombstone dir t.

Definition remove_session_marker (dir : path) : FS unit :=
  r ← attempt (fs_remove_file (session_marker_path dir));
  match r with
  | Ok _ => mret tt
  | Err e => if bool_decide (io_kind e = IoKind.NotFound) then mret tt else fail e
  end.

Definition sanitize_abort_reason (reason : str) : str :=
  truncate_utf8 (map (λ c, if (c =? 10) || (c =? 13) then 32 else c) reason) MAX_ABORT_REASON_BYTES.

Definition write_aborted_session_marker (dir : path) (seconds_since_epoch : option Z) (reason : str) : FS unit :=
  match tombstone_current process_id seconds_since_epoch with
  | Err _ => fail (mkIo IoKind.Other None)
  | Ok t => write_session_bytes_atomic dir (encode_bytes t ++ utf8_encode (sanitize_abort_reason reason))
  end.
End Process.
End Session.

(** ** Tombstones *)

Section Tombstones.
Context `{Sha256} (sha256_length : ∀ m, length (sha256 m) = 32%nat).

Definition tombstone_wf (t : SessionTombstone) : Prop := is_u32 (pid t) ∧ is_u64 (startup_timestamp_secs t).

Lemma take_field (a b c : bytes) i j : length a = i → length b = (j - i)%nat → slice (a ++ b ++ c) i j = b.
Proof. intros <- Hb. unfold slice. by rewrite drop_app_length, <- Hb, take_app_length. Qed.

Lemma decode_encode t rest : tombstone_wf t → decode_bytes (encode_bytes t ++ rest) = Ok t.
Proof.
  intros [Hp Ht]. unfold decode_bytes, encode_bytes.
  pose proof (sha256_length (TOMBSTONE_MAGIC ++ TOMBSTONE_VERSION ++ le_bytes 4 (pid t) ++
    le_bytes 8 (startup_timestamp_secs t))) as Hl. fold (tombstone_checksum t) in Hl.
  set (ck := tombstone_checksum t) in *.
  pose proof (le_bytes_length 4 (pid t)) as L4. pose proof (le_bytes_length 8 (startup_timestamp_secs t)) as L8.
  assert (length TOMBSTONE_MAGIC = 4%nat) as Lm by done. assert (length TOMBSTONE_VERSION = 2%nat) as Lv by done.
  set (b4 := le_bytes 4 (pid t)) in *. set (b8 := le_bytes 8 (startup_timestamp_secs t)) in *.
  rewrite <- !app_assoc. replace (_ <? _)%nat with false.
  2:{ symmetry. apply Nat.ltb_ge. rewrite !length_app, Hl, L4, L8, Lm, Lv. unfold TOMBSTONE_HEADER_LEN. lia. }
  assert (∀ m, slice (TOMBSTONE_MAGIC ++ m) 0 4 = TOMBSTONE_MAGIC) as -> by done.
  rewrite (take_field TOMBSTONE_MAGIC TOMBSTONE_VERSION _ 4 6) by done.
  rewrite (app_assoc TOMBSTONE_MAGIC TOMBSTONE_VERSION), (take_field _ ck _ 6 38) by done.
  rewrite (app_assoc _ ck), (take_field _ b4 _ 38 42) by (rewrite ?length_app, ?Hl; done).
  rewrite (app_assoc _ b4), (take_field _ b8 _ 42 50) by (rewrite ?length_app, ?Hl, ?L4; done).
  rewrite !(proj2 (bytes_eqb_spec _ _) eq_refl). cbn [negb]. unfold b4, b8.
  rewrite !le_value_bytes by assumption. cbv zeta.
  replace (mkTombstone (pid t) (startup_timestamp_secs t)) with t by (by destruct t).
  by rewrite (proj2 (bytes_eqb_spec _ _) eq_refl).
Qed.

Lemma take_split (bs : bytes) a b : (a ≤ b)%nat → drop a bs = slice bs a b ++ drop b bs.
Proof.
  intros Hab. unfold slice. rewrite <- (take_drop (b - a) (drop a bs)) at 1. f_equal. rewrite drop_drop. f_equal. lia.
Qed.

(** The bytes accepted as a tombstone are exactly the encodings, followed by
    anything: the reason of an aborted start, or whatever else was appended. *)
Theorem tombstone_decode_exact bs t : all_bytes bs →
  decode_bytes bs = Ok t ↔ tombstone_wf t ∧ ∃ rest, bs = encode_bytes t ++ rest.
Proof.
  intros Hb. split.
  - unfold decode_bytes. destruct (_ <? _)%nat eqn:El; [done|]. apply Nat.ltb_ge in El. unfold TOMBSTONE_HEADER_LEN in El.
    destruct (bytes_eqb (slice bs 0 4) TOMBSTONE_MAGIC) eqn:E1; [|done].
    destruct (bytes_eqb (slice bs 4 6) TOMBSTONE_VERSION) eqn:E2; [|done]. cbn [negb]. cbv zeta.
    destruct (bytes_eqb (tombstone_checksum _) (slice bs 6 38)) eqn:E3; [|done]. intros [= <-].
    apply bytes_eqb_spec in E1, E2, E3. cbn [pid startup_timestamp_secs].
    assert (∀ a b, (a ≤ b ≤ length bs)%nat → le_bytes (b - a) (le_value (slice bs a b)) = slice bs a b ∧
      0 ≤ le_value (slice bs a b) < 256 ^ Z.of_nat (b - a)) as Hv.
    { intros a b Hab. pose proof (slice_length bs a b Hab) as Hl. rewrite <- Hl.
      split; [apply le_bytes_value|apply le_value_bound]; by apply all_bytes_slice. }
    destruct (Hv 38%nat 42%nat) as [V1 B1]; [lia|]. destruct (Hv 42%nat 50%nat) as [V2 B2]; [lia|].
    split; [by split|]. exists (drop 50 bs). unfold encode_bytes. rewrite E3. cbn [pid startup_timestamp_secs].
    change (42 - 38)%nat with 4%nat in V1. change (50 - 42)%nat with 8%nat in V2.
    rewrite <- E1, <- E2, V1, V2, <- !app_assoc, <- !take_split by lia. by rewrite drop_0.
  - intros [Hw [rest ->]]. by apply decode_encode.
Qed.
End Tombstones.

(** ** What the next start is told *)

Section Marker.
Context `{Sha256} (sha256_length : ∀ m, length (sha256 m) = 32%nat) `{IoDisplay} `{PathDisplay}.
Context (process_id : Z) (dir : path).

(** What a start reads, when reading works. *)
Definition previous_session (s : Fs) : PreviousSession :=
  classify_session_read (read_session_marker dir (mkFs (nodes s) [])).1.

Definition classify_node (n : option Node) : PreviousSession :=
  match n with
  | Some (File c) => classify_previous_session_bytes (Some c)
  | Some Dir => PreviousSession.Unreadable
  | None => PreviousSession.FirstRun
  end.
Lemma previous_session_node s : previous_session s = classify_node (nodes s !! session_marker_path dir).
Proof.
  unfold previous_session, read_session_marker, read_session_marker_bytes, fs_read.
  unfold mbind, comp_bind, attempt.
  change (guard_call (mkFs (nodes s) [])) with (@Ok IoError _ tt, mkFs (nodes s) []).
  unfold get. cbv beta iota.
  change (nodes (mkFs (nodes s) [])) with (nodes s).
  destruct (nodes s !! _) as [[]|]; [done|unfold denied|unfold not_found];
    cbn -[io_error_is_missing]; unfold io_error_is_missing; cbn [io_kind]; by case_bool_decide.
Qed.

Lemma temporary_tombstone_ne : temporary_tombstone_path process_id dir ≠ session_marker_path dir.
Proof.
  apply join_ne. intros He. apply (f_equal length) in He. rewrite !length_app in He.
  change (length SESSION_MARKER_FILENAME) with 13%nat in He. change (length (lit ".tmp.")) with 5%nat in He. lia.
Qed.

Lemma write_marker_spec bs s r s' : write_session_bytes_atomic process_id dir bs s = (r, s') →
  previous_session s' = if is_ok r then classify_previous_session_bytes (Some bs) else previous_session s.
Proof.
  intros Hw. rewrite !previous_session_node.
  apply bind_inv in Hw as [([] & s1 & E1 & Hw)|(e & E1 & ->)];
    pose proof (create_dir_all_other dir _ _ _ _ E1 (child_not_prefix dir SESSION_MARKER_FILENAME)) as N1;
    fold (session_marker_path dir) in N1.
  - apply write_atomic_spec in Hw as [_ Hw]; [|apply temporary_tombstone_ne]. destruct r as [[]|e]; cbn [is_ok].
    + destruct Hw as [Hw _]. unfold content_at in Hw. by destruct (nodes s' !! _) as [[]|]; [injection Hw as ->|..].
    + by rewrite Hw, N1.
  - cbn [is_ok]. by rewrite N1.
Qed.

Lemma classify_tombstone t rest : tombstone_wf t →
  classify_previous_session_bytes (Some (encode_bytes t ++ rest)) = PreviousSession.UncleanShutdown.
Proof. intros Ht. cbn. by rewrite decode_encode. Qed.

(** C23: what the next start is told about this session, whatever file system calls
    fail: once the tombstone was written, with or without the reason of an
    aborted start, an unclean shutdown; once the marker was removed, a first run;
    and when the writing or the removal reports an error, what it would have been
    told before. *)
Theorem session_marker_exact t s : tombstone_wf t → truthful s →
  (∀ r s', create_session_tombstone process_id dir t s = (r, s') →
     previous_session s' = if is_ok r then PreviousSession.UncleanShutdown else previous_session s) ∧
  (∀ now reason r s', pid t = process_id → startup_timestamp_secs t = default 0 now →
     write_aborted_session_marker process_id dir now reason s = (r, s') →
     previous_session s' = if is_ok r then PreviousSession.UncleanShutdown else previous_session s) ∧
  (∀ r s', remove_session_marker dir s = (r, s') →
     previous_session s' = if is_ok r then PreviousSession.FirstRun else previous_session s).
Proof.
  intros Ht Hs. split_and!.
  - intros r s' Hw. rewrite (write_marker_spec _ _ _ _ Hw). rewrite <- (app_nil_r (encode_bytes t)).
    by rewrite classify_tombstone.
  - intros now reason r s' Hp Hn Hw. unfold write_aborted_session_marker, tombstone_current in Hw.
    destruct now as [secs|]; [|by injection Hw as <- <-]. cbn in Hn, Hw.
    rewrite (write_marker_spec _ _ _ _ Hw). rewrite <- Hp, <- Hn in *.
    replace (mkTombstone (pid t) (startup_timestamp_secs t)) with t by (by destruct t).
    by rewrite classify_tombstone.
  - intros r s' Hw. rewrite !previous_session_node. unfold remove_session_marker in Hw.
    apply bind_inv in Hw as [(x & s1 & E1 & Hw)|(e & E1 & ->)];
      [|unfold attempt in E1; by destruct (fs_remove_file _ s)].
    unfold attempt in E1. destruct (fs_remove_file (session_marker_path dir) s) as [y s2] eqn:E2.
    injection E1 as <- <-. apply remove_spec in E2; [|done]. destruct y as [[]|e].
    + injection Hw as <- <-. cbn [is_ok]. by rewrite E2.
    + destruct E2 as [N2 Hm]. case_bool_decide as Hk; injection Hw as <- <-; cbn [is_ok]; rewrite N2; [|done].
      by rewrite Hm.
Qed.
End Marker.

#[local] Instance sample_hash : Sha256 := λ m, replicate 32 (foldr Z.add 0 m mod 256).
#[local] Instance sample_display : IoDisplay := λ _, [].
#[local] Instance sample_path_display : PathDisplay := λ _, [].

Lemma tombstone_decode_exact_witness :
  decode_bytes (encode_bytes (mkTombstone 4242 1700000000) ++ [33]) = Ok (mkTombstone 4242 1700000000) ↔
  tombstone_wf (mkTombstone 4242 1700000000) ∧
  ∃ rest, encode_bytes (mkTombstone 4242 1700000000) ++ [33] = encode_bytes (mkTombstone 4242 1700000000) ++ rest.
Proof.
  apply (tombstone_decode_exact (λ m, length_replicate 32 _)).
  set (bs := encode_bytes _ ++ [33]). assert (forallb (λ b, (0 <=? b) && (b <? 256)) bs = true) as Hb by (vm_compute; reflexivity).
  rewrite forallb_forall in Hb. apply Forall_forall. intros x Hx%list_elem_of_In%Hb. unfold is_u8. lia.
Defined.

Definition sample_tombstone_write :=
  create_session_tombstone 7 [lit "state"] (mkTombstone 7 1700000000) (mkFs ∅ [None; None; None; None; None]).

Lemma session_marker_exact_witness :
  previous_session [lit "state"] sample_tombstone_write.2 = PreviousSession.UncleanShutdown ∧
  previous_session [lit "state"] (mkFs ∅ []) = PreviousSession.FirstRun.
Proof.
  split; [|vm_compute; reflexivity].
  apply (session_marker_exact (λ m, length_replicate 32 _) 7 [lit "state"] (mkTombstone 7 1700000000)
    (mkFs ∅ [None; None; None; None; None])) with (r := Ok tt); [split; vm_compute; split; congruence| |vm_compute; reflexivity].
  repeat (apply Forall_cons_2; [exact I|]). constructor.
Defined.
