(* ===== verification/FileFrames.v ===== *)
(** * FileFrames: what computations on files leave alone and depend on

    [leaves q m]: [m] does not change the path [q], whatever calls fail.
    [err_leaves q m]: a failing [m] has not changed it.  [faultless m]: where no
    call fails, none will.  [depends ps m]: where no call fails, the outcome of
    [m] is determined by the paths [ps]. *)
From S2P Require Import Prelude Text Files.

Definition leaves {E T} (q : path) (m : comp Fs E T) : Prop := ∀ s, nodes (m s).2 !! q = nodes s !! q.
Definition err_leaves {E T} (q : path) (m : comp Fs E T) : Prop := ∀ s e s',
  m s = (Err e, s') → nodes s' !! q = nodes s !! q.
Definition faultless {E T} (m : comp Fs E T) : Prop := ∀ s, faults s = [] → faults (m s).2 = [].
Definition depends {E T} (ps : list path) (m : comp Fs E T) : Prop := ∀ s s',
  faults s = [] → faults s' = [] → (∀ p, p ∈ ps → nodes s !! p = nodes s' !! p) → (m s).1 = (m s').1.
(** A computation that only reads. *)
Abbreviation reads := (touches []).

Lemma leaves_touches {E T} ps q (m : comp Fs E T) : touches ps m → q ∉ ps → leaves q m.
Proof. intros Hm Hq s. by apply Hm. Qed.
Lemma leaves_at {E T} q (m : comp Fs E T) s r s' : leaves q m → m s = (r, s') → nodes s' !! q = nodes s !! q.
Proof. intros Hm Em. specialize (Hm s). by rewrite Em in Hm. Qed.
Lemma reads_at {E T} (m : comp Fs E T) s r s' : reads m → m s = (r, s') → nodes s' = nodes s.
Proof. intros Hm Em. apply map_eq. intros q. apply (touches_at [] m s r s' q Hm Em), not_elem_of_nil. Qed.

Section Rules.
Context {E : Type}.

Lemma leaves_bind {T U} q (m : comp Fs E T) (k : T → comp Fs E U) :
  leaves q m → (∀ x, leaves q (k x)) → leaves q (m ≫= k).
Proof.
  intros Hm Hk s. unfold mbind, comp_bind. specialize (Hm s). destruct (m s) as [[x|e] s1]; [|done].
  by rewrite (Hk x s1).
Qed.
Lemma leaves_attempt {E' T} q (m : comp Fs E' T) : leaves q m → leaves q (attempt m : comp Fs E _).
Proof. intros Hm s. unfold attempt. specialize (Hm s). by destruct (m s). Qed.
Lemma leaves_map_err {E' T} q (f : E → E') (m : comp Fs E T) : leaves q m → leaves q (map_err f m).
Proof. intros Hm s. unfold map_err. specialize (Hm s). by destruct (m s). Qed.
Lemma leaves_ret {T} q (x : T) : leaves q (mret x : comp Fs E T).
Proof. done. Qed.
Lemma leaves_fail {T} q e : leaves q (fail e : comp Fs E T).
Proof. done. Qed.
Lemma leaves_lift {T} q (r : result E T) : leaves q (lift r).
Proof. done. Qed.
Lemma leaves_reads {T} q (m : comp Fs E T) : reads m → leaves q m.
Proof. intros Hm. eapply leaves_touches; [exact Hm|apply not_elem_of_nil]. Qed.

Lemma err_leaves_bind {T U} q (m : comp Fs E T) (k : T → comp Fs E U) :
  leaves q m → (∀ x, err_leaves q (k x)) → err_leaves q (m ≫= k).
Proof.
  intros Hm Hk s e s' He. apply bind_inv in He as [(x & s1 & E1 & He)|(e' & E1 & _)].
  - by rewrite (Hk x s1 e s' He), (leaves_at q m s _ _ Hm E1).
  - by apply (leaves_at q m s _ _ Hm E1).
Qed.
(** Nothing fails after the step that may change [q]. *)
Lemma err_leaves_last {T U} q (m : comp Fs E T) (k : T → comp Fs E U) :
  err_leaves q m → (∀ x s e s', k x s ≠ (Err e, s')) → err_leaves q (m ≫= k).
Proof.
  intros Hm Hk s e s' He. apply bind_inv in He as [(x & s1 & E1 & He)|(e' & E1 & _)].
  - by apply Hk in He.
  - by apply (Hm s e' s').
Qed.
Lemma err_leaves_leaves {T} q (m : comp Fs E T) : leaves q m → err_leaves q m.
Proof. intros Hm s e s' He. by apply (leaves_at q m s _ _ Hm He). Qed.

Lemma faultless_bind {T U} (m : comp Fs E T) (k : T → comp Fs E U) :
  faultless m → (∀ x, faultless (k x)) → faultless (m ≫= k).
Proof.
  intros Hm Hk s Hs. unfold mbind, comp_bind. specialize (Hm s Hs). destruct (m s) as [[x|e] s1]; [|done].
  by apply Hk.
Qed.
Lemma faultless_attempt {E' T} (m : comp Fs E' T) : faultless m → faultless (attempt m : comp Fs E _).
Proof. intros Hm s Hs. unfold attempt. specialize (Hm s Hs). by destruct (m s). Qed.
Lemma faultless_map_err {E' T} (f : E → E') (m : comp Fs E T) : faultless m → faultless (map_err f m).
Proof. intros Hm s Hs. unfold map_err. specialize (Hm s Hs). by destruct (m s). Qed.
Lemma faultless_ret {T} (x : T) : faultless (mret x : comp Fs E T).
Proof. by intros s. Qed.
Lemma faultless_fail {T} e : faultless (fail e : comp Fs E T).
Proof. by intros s. Qed.
Lemma faultless_lift {T} (r : result E T) : faultless (lift r).
Proof. by intros s. Qed.
Lemma faultless_get : faultless (get : comp Fs E Fs).
Proof. by intros s. Qed.
Lemma faultless_modify g : faultless (modify (set_nodes g) : comp Fs E unit).
Proof. by intros s. Qed.

Lemma depends_bind {T U} ps (m : comp Fs E T) (k : T → comp Fs E U) :
  reads m → faultless m → depends ps m → (∀ x, depends ps (k x)) → depends ps (m ≫= k).
Proof.
  intros Hr Hf Hd Hk s s' Fs1 Fs2 Hn. specialize (Hd s s' Fs1 Fs2 Hn). pose proof (Hf s Fs1) as F1.
  pose proof (Hf s' Fs2) as F2. unfold mbind, comp_bind. destruct (m s) as [r s1] eqn:E1, (m s') as [r' s1'] eqn:E2.
  apply (reads_at _ _ _ _ Hr) in E1, E2. cbn in Hd, F1, F2. subst r'. destruct r as [x|e]; [|done].
  apply Hk; [done..|]. intros p Hp. rewrite E1, E2. by apply Hn.
Qed.
Lemma depends_attempt {E' T} ps (m : comp Fs E' T) : depends ps m → depends ps (attempt m : comp Fs E _).
Proof.
  intros Hm s s' F1 F2 Hn. specialize (Hm s s' F1 F2 Hn). unfold attempt. destruct (m s), (m s'). cbn in *. by subst.
Qed.
Lemma depends_map_err {E' T} ps (f : E → E') (m : comp Fs E T) : depends ps m → depends ps (map_err f m).
Proof.
  intros Hm s s' F1 F2 Hn. specialize (Hm s s' F1 F2 Hn). unfold map_err. destruct (m s), (m s'). cbn in *. by subst.
Qed.
Lemma depends_ret {T} ps (x : T) : depends ps (mret x : comp Fs E T).
Proof. by intros s s'. Qed.
Lemma depends_fail {T} ps e : depends ps (fail e : comp Fs E T).
Proof. by intros s s'. Qed.
Lemma depends_lift {T} ps (r : result E T) : depends ps (lift r).
Proof. by intros s s'. Qed.
End Rules.

Lemma faultless_fault : faultless next_fault.
Proof. intros s Hs. unfold next_fault. by rewrite Hs. Qed.
Lemma faultless_guard : faultless guard_call.
Proof. apply faultless_bind; [apply faultless_fault|]. intros [f|]; [apply faultless_fail|apply faultless_ret]. Qed.

#[export] Hint Resolve leaves_ret leaves_fail leaves_lift faultless_ret faultless_fail faultless_lift faultless_get
  faultless_modify faultless_fault faultless_guard depends_ret depends_fail depends_lift : files.

(** One step of a structural proof. *)
Ltac frame_step :=
  lazymatch goal with
  | |- leaves _ (_ ≫= _) => apply leaves_bind; [|intros ?]
  | |- leaves _ (attempt _) => apply leaves_attempt
  | |- leaves _ (map_err _ _) => apply leaves_map_err
  | |- faultless (_ ≫= _) => apply faultless_bind; [|intros ?]
  | |- faultless (attempt _) => apply faultless_attempt
  | |- faultless (map_err _ _) => apply faultless_map_err
  | |- depends _ (_ ≫= _) => apply depends_bind; [| | |intros ?]
  | |- depends _ (attempt _) => apply depends_attempt
  | |- depends _ (map_err _ _) => apply depends_map_err
  | |- touches _ (_ ≫= _) => apply touches_bind; [|intros ?]
  | |- touches _ (attempt _) => apply touches_attempt
  | |- touches _ (map_err _ _) => apply touches_map_err
  | |- leaves _ (match ?x with _ => _ end) => destruct x
  | |- faultless (match ?x with _ => _ end) => destruct x
  | |- depends _ (match ?x with _ => _ end) => destruct x
  | |- touches _ (match ?x with _ => _ end) => destruct x
  | |- leaves _ (let _ := _ in _) => cbv zeta
  | |- faultless (let _ := _ in _) => cbv zeta
  | |- depends _ (let _ := _ in _) => cbv zeta
  | |- touches _ (let _ := _ in _) => cbv zeta
  | |- _ => solve [auto with files]
  end.
Ltac frame_tac := repeat frame_step.

Section Calls.
Context (p : path).

Lemma faultless_exists : faultless (fs_exists p).
Proof. unfold fs_exists. frame_tac. Qed.
Lemma faultless_is_file : faultless (fs_is_file p).
Proof. unfold fs_is_file. frame_tac. Qed.
Lemma faultless_read : faultless (fs_read p).
Proof. unfold fs_read. frame_tac. Qed.
Lemma faultless_create : faultless (fs_create p).
Proof. unfold fs_create. frame_tac. Qed.
Lemma faultless_write_all bs : faultless (fs_write_all p bs).
Proof.
  unfold fs_write_all. apply faultless_bind; [apply faultless_fault|]. intros [f|]; [|apply faultless_modify].
  apply faultless_bind; [apply faultless_modify|intros ?; apply faultless_fail].
Qed.
Lemma faultless_open_append : faultless (fs_open_append p).
Proof. unfold fs_open_append. frame_tac. Qed.
Lemma faultless_replace q : faultless (fs_replace p q).
Proof. unfold fs_replace. frame_tac. Qed.
Lemma faultless_remove : faultless (fs_remove_file p).
Proof. unfold fs_remove_file. frame_tac. Qed.
Lemma faultless_create_dir_all : faultless (fs_create_dir_all p).
Proof. unfold fs_create_dir_all. frame_tac. Qed.

(** Where no call fails, a query is determined by what is at the path. *)
Definition exists_at (n : option Node) : bool := bool_decide (is_Some n).
Lemma run_exists s : faults s = [] → fs_exists p s = (Ok (exists_at (nodes s !! p)), s).
Proof.
  intros Hs. unfold fs_exists, mbind, comp_bind, next_fault, get. rewrite Hs. cbv beta iota.
  by rewrite bool_decide_eq_true_2.
Qed.
Definition file_at (n : option Node) : bool := match n with Some (File _) => true | _ => false end.
Lemma run_is_file s : faults s = [] → fs_is_file p s = (Ok (file_at (nodes s !! p)), s).
Proof.
  intros Hs. unfold fs_is_file, mbind, comp_bind, next_fault, get. rewrite Hs. cbv beta iota.
  rewrite bool_decide_eq_true_2 by done. unfold content_at, file_at, mret, comp_ret.
  destruct (nodes s !! p) as [[]|]; [do 2 f_equal; apply bool_decide_eq_true_2; by eexists|..];
    do 2 f_equal; apply bool_decide_eq_false_2; by intros [? [=]].
Qed.
Definition read_at (n : option Node) : result IoError bytes :=
  match n with Some (File c) => Ok c | Some Dir => Err denied | None => Err not_found end.
Lemma run_read s : faults s = [] → fs_read p s = (read_at (nodes s !! p), s).
Proof.
  intros Hs. unfold fs_read, mbind, comp_bind, guard_call, next_fault, get, mbind, comp_bind. rewrite Hs. cbv beta iota.
  unfold mret, comp_ret. by destruct (nodes s !! p) as [[]|].
Qed.

Lemma depends_exists ps : p ∈ ps → depends ps (fs_exists p).
Proof. intros Hp s s' F1 F2 Hn. by rewrite !run_exists, (Hn p Hp) by done. Qed.
Lemma depends_is_file ps : p ∈ ps → depends ps (fs_is_file p).
Proof. intros Hp s s' F1 F2 Hn. by rewrite !run_is_file, (Hn p Hp) by done. Qed.
Lemma depends_read ps : p ∈ ps → depends ps (fs_read p).
Proof. intros Hp s s' F1 F2 Hn. by rewrite !run_read, (Hn p Hp) by done. Qed.

(** What a successful read returns is what is there, whatever calls fail. *)
Lemma read_ok s c s' : fs_read p s = (Ok c, s') → content_at s p = Some c.
Proof.
  intros Hr. apply guard_bind in Hr as (s0 & N0 & Hr). change ((get ≫= ?k) s0) with (k s0 s0) in Hr. cbv beta in Hr.
  unfold content_at. rewrite <- N0. by destruct (nodes s0 !! p) as [[]|]; [injection Hr as -> _|..].
Qed.
End Calls.

Lemma reads_exists p : reads (fs_exists p).
Proof. apply touches_exists. Qed.
Lemma reads_is_file p : reads (fs_is_file p).
Proof. apply touches_is_file. Qed.

#[export] Hint Resolve faultless_exists faultless_is_file faultless_read faultless_create faultless_write_all
  faultless_open_append faultless_replace faultless_remove faultless_create_dir_all depends_exists depends_is_file
  depends_read reads_exists reads_is_file : files.

Lemma leaves_create_dir_all q d : ¬ q `prefix_of` d → leaves q (fs_create_dir_all d).
Proof. intros Hq s. destruct (fs_create_dir_all d s) as [r s'] eqn:E1. by apply (create_dir_all_other _ _ _ _ _ E1). Qed.
Lemma leaves_create q p : q ≠ p → leaves q (fs_create p).
Proof. intros Hq. apply (leaves_touches [p]); [|set_solver]. apply touches_create. set_solver. Qed.
Lemma leaves_write_all q p bs : q ≠ p → leaves q (fs_write_all p bs).
Proof. intros Hq. apply (leaves_touches [p]); [|set_solver]. apply touches_write_all. set_solver. Qed.
Lemma leaves_write q p bs : q ≠ p → leaves q (fs_write p bs).
Proof. intros Hq. apply leaves_bind; [by apply leaves_create|]. intros ?. by apply leaves_write_all. Qed.
Lemma leaves_open_append q p : q ≠ p → leaves q (fs_open_append p).
Proof.
  intros Hq. apply (leaves_touches [p]); [|set_solver]. unfold fs_open_append. touches_tac.
Qed.
Lemma leaves_replace q p p' : q ≠ p → q ≠ p' → leaves q (fs_replace p p').
Proof. intros Hq Hq'. apply (leaves_touches [p; p']); [|set_solver]. apply touches_replace; set_solver. Qed.
Lemma leaves_remove q p : q ≠ p → leaves q (fs_remove_file p).
Proof. intros Hq. apply (leaves_touches [p]); [|set_solver]. apply touches_remove. set_solver. Qed.
Lemma leaves_copy q p p' : q ≠ p' → leaves q (fs_copy p p').
Proof. intros Hq. apply leaves_bind; [apply leaves_reads, touches_read|]. intros ?. by apply leaves_write. Qed.
#[export] Hint Resolve leaves_reads leaves_create_dir_all leaves_create leaves_write_all leaves_write leaves_open_append
  leaves_replace leaves_remove leaves_copy : files.

Lemma reads_read_to_string p : reads (fs_read_to_string p).
Proof. unfold fs_read_to_string. frame_tac. Qed.
Lemma faultless_read_to_string p : faultless (fs_read_to_string p).
Proof. unfold fs_read_to_string. frame_tac. Qed.
Lemma depends_read_to_string ps p : p ∈ ps → depends ps (fs_read_to_string p).
Proof. intros Hp. unfold fs_read_to_string. frame_tac. Qed.
Lemma faultless_write p bs : faultless (fs_write p bs).
Proof. unfold fs_write. frame_tac. Qed.
Lemma faultless_copy p q : faultless (fs_copy p q).
Proof. unfold fs_copy, fs_write. frame_tac. Qed.
Lemma faultless_ignore {T} (m : FS T) : faultless m → faultless (ignore m).
Proof. intros Hm. unfold ignore. frame_tac. Qed.
Lemma read_to_string_ok p s t s' : fs_read_to_string p s = (Ok t, s') →
  ∃ bs, content_at s p = Some bs ∧ utf8_decode bs = Some t.
Proof.
  intros Hr. apply bind_inv in Hr as [(bs & s1 & E1 & Hr)|(e & _ & Hr)]; [|done].
  apply read_ok in E1. exists bs. split; [done|]. destruct (utf8_decode bs); [|done]. by injection Hr as ->.
Qed.
#[export] Hint Resolve reads_read_to_string faultless_read_to_string depends_read_to_string faultless_write faultless_copy
  faultless_ignore : files.

(** Inversion of successful computations. *)
Lemma bind_ok_inv {E T U} (m : comp Fs E T) (k : T → comp Fs E U) s y s' : (m ≫= k) s = (Ok y, s') →
  ∃ x s1, m s = (Ok x, s1) ∧ k x s1 = (Ok y, s').
Proof. intros Hm. apply bind_inv in Hm as [(x & s1 & E1 & Hm)|(e & _ & Hm)]; [by exists x, s1|done]. Qed.
Lemma map_err_ok {E E' T} (f : E → E') (m : comp Fs E T) s x s' : map_err f m s = (Ok x, s') → m s = (Ok x, s').
Proof. unfold map_err. destruct (m s) as [[y|e] s1]; [by intros [= <- <-]|done]. Qed.
Lemma attempt_inv {E E' T} (m : comp Fs E T) s (r : result E' _) s' : (attempt m : comp Fs E' _) s = (r, s') →
  ∃ x, r = Ok x ∧ m s = (x, s').
Proof. unfold attempt. destruct (m s) as [x s1]. intros [= <- <-]. by exists x. Qed.
Lemma write_ok p bs s s' : fs_write p bs s = (Ok tt, s') → content_at s' p = Some bs.
Proof.
  intros Hw. apply bind_ok_inv in Hw as ([] & s1 & E1 & Hw). apply create_ok in E1. apply write_all_ok in Hw.
  unfold content_at. rewrite Hw, E1. unfold append_at. rewrite lookup_insert_eq. by rewrite lookup_insert_eq.
Qed.

(** Where no call fails, a reading computation whose inputs are the same returns
    the same again, and changes nothing. *)
Lemma run_again {E T} ps (m : comp Fs E T) s s' r s1 : depends ps m → reads m → faultless m →
  faults s = [] → faults s' = [] → (∀ p, p ∈ ps → nodes s !! p = nodes s' !! p) → m s = (r, s1) →
  s1 = s ∧ m s' = (r, s').
Proof.
  intros Hd Hr Hf F F' Hn E1. specialize (Hd s s' F F' Hn). pose proof (Hf s F) as G. pose proof (Hf s' F') as G'.
  destruct (m s') as [r' s1'] eqn:E2. rewrite E1 in Hd, G. cbn in Hd, G, G'. subst r'.
  apply (reads_at _ _ _ _ Hr) in E1, E2. split; [|f_equal]; [destruct s1, s|destruct s1', s']; cbn in *; congruence.
Qed.
Lemma bind_run {E T U} (m : comp Fs E T) (k : T → comp Fs E U) s x s1 : m s = (Ok x, s1) → (m ≫= k) s = k x s1.
Proof. intros E1. unfold mbind, comp_bind. by rewrite E1. Qed.
Lemma attempt_run {E E' T} (m : comp Fs E T) s r s1 : m s = (r, s1) → (attempt m : comp Fs E' _) s = (Ok r, s1).
Proof. intros E1. unfold attempt. by rewrite E1. Qed.
