(* ===== verification/Dirs.v ===== *)
(** * Dirs: reading and clearing a directory

    [std::fs::read_dir], [remove_dir_all] and the deletions of
    [apps/true-tick/src/tray/reset.rs], on the store of [Files]. *)
From S2P Require Import Prelude Text Files FileFrames Session.

(** The names in a directory, in the order of the store. *)
Definition children (s : Fs) (d : path) : list str :=
  omap (λ '(p, _), if bool_decide (path_parent p = Some d) then file_name p else None) (map_to_list (nodes s)).

Definition fs_read_dir (d : path) : FS (list str) :=
  _ ← guard_call; s ← get;
  match nodes s !! d with
  | Some Dir => mret (children s d)
  | Some (File _) => fail denied
  | None => fail not_found
  end.

Definition under (d : path) (p : path) : bool := bool_decide (d `prefix_of` p).

(** [remove_dir_all]; a failing call has removed some of the entries. *)
Definition fs_remove_dir_all (d : path) : FS unit :=
  f ← next_fault; s ← get;
  match nodes s !! d with
  | Some Dir =>
      match f with
      | Some e =>
          let gone := take (fault_progress e)
            (List.filter (λ p, under d p && negb (bool_decide (p = d))) (map fst (map_to_list (nodes s)))) in
          _ ← modify (set_nodes (λ m, foldr delete m gone)); fail (fault_error e)
      | None => modify (set_nodes (filter (λ '(p, _), ¬ d `prefix_of` p)))
      end
  | Some (File _) => fail denied
  | None => fail not_found
  end.

(** ** [reset.rs] *)

Record ResetCleanup := mkCleanup {
  log_entries_removed : Z;
  log_entries_failed : Z;
  config_removed : bool;
  session_marker_removed : bool }.

Definition remove_file_if_present (p : path) : FS bool :=
  r ← attempt (fs_remove_file p);
  match r with
  | Ok _ => mret true
  | Err e => if bool_decide (io_kind e = IoKind.NotFound) then mret false else fail e
  end.

(** [file_type] of an entry: false when it cannot be asked. *)
Definition entry_is_directory (p : path) : FS bool :=
  f ← next_fault; s ← get;
  mret (bool_decide (f = None) && match nodes s !! p with Some Dir => true | _ => false end).

(** The entries that [flatten] keeps; one that cannot be read is skipped. *)
Fixpoint clear_entries (d : path) (names : list str) (removed failed : Z) : FS (Z * Z) :=
  match names with
  | [] => mret (removed, failed)
  | name :: names =>
      let p := path_join d name in
      entry ← attempt guard_call;
      match entry with
      | Err _ => clear_entries d names removed failed
      | Ok _ =>
          is_directory ← entry_is_directory p;
          outcome ← attempt (if (is_directory : bool) then fs_remove_dir_all p else fs_remove_file p);
          match outcome with
          | Ok _ => clear_entries d names (removed + 1) failed
          | Err _ => clear_entries d names removed (failed + 1)
          end
      end
  end.

Definition clear_directory_contents (d : path) : FS (Z * Z) :=
  entries ← attempt (fs_read_dir d);
  match entries with
  | Ok names => clear_entries d names 0 0
  | Err _ => mret (0, 0)
  end.

Definition removed_or_false (m : FS bool) : FS bool :=
  r ← attempt m; mret match r with Ok b => b | Err _ => false end.

Definition reset_cleanup (log_directory state_directory config_path : path) : FS ResetCleanup :=
  session_marker ← removed_or_false (remove_file_if_present (session_marker_path state_directory));
  '(removed, failed) ← clear_directory_contents log_directory;
  config ← removed_or_false (remove_file_if_present config_path);
  mret (mkCleanup removed failed config session_marker).

(** ** What a reset removes *)

(** Strictly below a directory. *)
Definition below (d q : path) : Prop := ∃ name rest, q = d ++ name :: rest.

(** The calls change nothing but what is below [d]. *)
Definition confined {T} (P : path → Prop) (m : FS T) : Prop :=
  ∀ s q, ¬ P q → nodes (m s).2 !! q = nodes s !! q.

Section Confined.
Context (P : path → Prop).

Lemma confined_ret {T} (x : T) : confined P (mret x).
Proof. by intros s q _. Qed.
Lemma confined_bind {T U} (m : FS T) (k : T → FS U) :
  confined P m → (∀ x, confined P (k x)) → confined P (m ≫= k).
Proof.
  intros Hm Hk s q Hq. unfold mbind, comp_bind. specialize (Hm s q Hq). destruct (m s) as [[x|e] s1]; [|done].
  cbn in Hm. by rewrite (Hk x s1 q Hq).
Qed.
Lemma confined_attempt {T} (m : FS T) : confined P m → confined P (attempt m).
Proof. intros Hm s q Hq. unfold attempt. specialize (Hm s q Hq). by destruct (m s). Qed.
Lemma confined_reads {T} (m : FS T) : reads m → confined P m.
Proof. intros Hm s q _. apply Hm. set_solver. Qed.

Lemma confined_remove p : P p → confined P (fs_remove_file p).
Proof. intros Hp s q Hq. apply (touches_remove p [p]); [set_solver|]. intros ->%list_elem_of_singleton. done. Qed.

Lemma foldr_delete_other (l : list path) (m : gmap path Node) q : q ∉ l → foldr delete m l !! q = m !! q.
Proof.
  induction l as [|p l IH]; intros Hq; [done|]. cbn. rewrite lookup_delete_ne by set_solver. apply IH. set_solver.
Qed.

Lemma confined_remove_dir p : (∀ q, p `prefix_of` q → P q) → confined P (fs_remove_dir_all p).
Proof.
  intros Hp s q Hq. assert (¬ p `prefix_of` q) as Hnp by (intros H; by apply Hq, Hp).
  unfold fs_remove_dir_all, next_fault, mbind, comp_bind. destruct s as [m [|f fs]]; cbn.
  - destruct (m !! p) as [[]|]; [done| |done]. cbn. rewrite map_lookup_filter.
    destruct (m !! q); [|done]. cbn. by rewrite option_guard_True.
  - destruct (m !! p) as [[]|]; [done| |done]. destruct f as [e|]; cbn.
    + apply foldr_delete_other. intros Hin. apply elem_of_take in Hin as (i & Hin & _).
      apply list_elem_of_lookup_2, list_elem_of_In, filter_In in Hin as [_ Hin].
      apply andb_prop in Hin as [Hin _]. unfold under in Hin. by apply bool_decide_eq_true in Hin.
    + rewrite map_lookup_filter. destruct (m !! q); [|done]. cbn. by rewrite option_guard_True.
Qed.
End Confined.

Lemma entry_reads p : reads (entry_is_directory p).
Proof. unfold entry_is_directory. touches_tac. Qed.

Lemma below_join d name q : path_join d name `prefix_of` q → below d q.
Proof. intros [k ->]. exists name, k. unfold path_join. by rewrite <- app_assoc. Qed.

Lemma confined_clear d names removed failed : confined (below d) (clear_entries d names removed failed).
Proof.
  revert removed failed. induction names as [|name names IH]; intros removed failed; cbn [clear_entries]; [apply confined_ret|].
  apply confined_bind; [apply confined_attempt, confined_reads, touches_guard|]. intros [[]|e]; [|apply IH].
  apply confined_bind; [apply confined_reads, entry_reads|intros is_directory].
  apply confined_bind; [|intros [|]; apply IH]. apply confined_attempt. destruct is_directory.
  - apply confined_remove_dir. intros q. apply below_join.
  - apply confined_remove. by eapply below_join.
Qed.

Lemma confined_weaken {T} (P Q : path → Prop) (m : FS T) : (∀ q, P q → Q q) → confined P m → confined Q m.
Proof. intros H Hm s q Hq. apply Hm. auto. Qed.

Lemma read_dir_only d : reads (fs_read_dir d).
Proof. unfold fs_read_dir. touches_tac. Qed.

Lemma confined_present p : confined (eq p) (removed_or_false (remove_file_if_present p)).
Proof.
  unfold removed_or_false, remove_file_if_present. apply confined_bind; [|intros; apply confined_ret].
  apply confined_attempt, confined_bind; [by apply confined_attempt, confined_remove|].
  intros [|e]; [apply confined_ret|]. case_bool_decide; [apply confined_ret|]. apply confined_reads, touches_fail.
Qed.

Lemma confined_directory d : confined (below d) (clear_directory_contents d).
Proof.
  apply confined_bind; [apply confined_attempt, confined_reads, read_dir_only|].
  intros [|]; [apply confined_clear|apply confined_ret].
Qed.

(** A store in which every node stands in a directory. *)
Definition tree (s : Fs) : Prop :=
  ∀ p name, is_Some (nodes s !! path_join p name) → p = [] ∨ nodes s !! p = Some Dir.

#[export] Instance node_eq_dec : EqDecision Node.
Proof. solve_decision. Defined.

(** On a concrete store the tree property is checked by evaluation. *)
Definition parent_ok (s : Fs) (k : path) : Prop := removelast k = [] ∨ nodes s !! removelast k = Some Dir.

#[export] Instance parent_ok_dec s k : Decision (parent_ok s k).
Proof. unfold parent_ok. apply _. Defined.

Lemma tree_check s : map_Forall (λ k _, parent_ok s k) (nodes s) → tree s.
Proof.
  intros H p name [x Hx]. apply H in Hx. unfold parent_ok, path_join in Hx. by rewrite removelast_last in Hx.
Qed.

Lemma tree_prefix s p q : tree s → is_Some (nodes s !! (p ++ q)) → p ≠ [] → q ≠ [] → nodes s !! p = Some Dir.
Proof.
  intros Ht. induction q as [|name q IH] using rev_ind; intros Hs Hp Hq; [done|].
  rewrite app_assoc in Hs. destruct (Ht (p ++ q) name Hs) as [E|E].
  - by apply app_eq_nil in E as [-> _].
  - destruct q as [|x q]; [by rewrite app_nil_r in E|]. apply IH; [by rewrite E|done|done].
Qed.

(** One entry without failures: it is gone with all below it, the rest stands. *)
Definition without (p : path) (s s' : Fs) : Prop :=
  faults s' = [] ∧ tree s' ∧ ∀ q, nodes s' !! q = if bool_decide (p `prefix_of` q) then None else nodes s !! q.

Lemma tree_file s p q : tree s → p ≠ [] → content_at s p ≠ None ∨ nodes s !! p = None → p `prefix_of` q → q ≠ p →
  nodes s !! q = None.
Proof.
  intros Ht Hp Hf [k ->] Hq. apply eq_None_not_Some. intros Hs.
  assert (nodes s !! p = Some Dir) as E by (apply (tree_prefix s p k); [done..|by intros ->; rewrite app_nil_r in Hq]).
  unfold content_at in Hf. rewrite E in Hf. by destruct Hf.
Qed.

Lemma without_tree p s s' : tree s → (∀ q, nodes s' !! q = if bool_decide (p `prefix_of` q) then None else nodes s !! q) →
  tree s'.
Proof.
  intros Ht Hs q name. rewrite !Hs. case_bool_decide as Hq; [by intros []|]. intros Hn.
  destruct (Ht _ _ Hn) as [->|E]; [by left|]. right. case_bool_decide as Hq'; [|done].
  exfalso. apply Hq. destruct Hq' as [k ->]. exists (k ++ [name]). unfold path_join. by rewrite <- app_assoc.
Qed.

Lemma entry_removed s p : faults s = [] → tree s → p ≠ [] → ∃ r s',
  ((is_directory ← entry_is_directory p;
    attempt (if (is_directory : bool) then fs_remove_dir_all p else fs_remove_file p)) : FS _) s = (Ok r, s') ∧
  without p s s'.
Proof.
  intros Hf Ht Hp. unfold entry_is_directory, next_fault. destruct s as [m fs]. cbn in Hf. subst fs.
  unfold mbind, comp_bind. cbn.
  assert (∀ s', faults s' = [] → (∀ q, nodes s' !! q = if bool_decide (p `prefix_of` q) then None else m !! q) →
    without p (mkFs m []) s') as Hw by (intros s' H1 H2; split_and!; [done|by apply (without_tree p (mkFs m []))|done]).
  destruct (m !! p) as [[c|]|] eqn:E; cbn; unfold attempt, fs_remove_file, fs_remove_dir_all, guard_call, next_fault, mbind, comp_bind;
    cbn; rewrite E; cbn; eexists _, _; (split; [reflexivity|]); apply Hw; try done; intros q; cbn.
  - case_bool_decide as Hq; [|rewrite lookup_delete_ne; [done|by intros ->]].
    destruct (decide (q = p)) as [->|Hne]; [by rewrite lookup_delete_eq|]. rewrite lookup_delete_ne by done.
    apply (tree_file (mkFs m []) p q Ht Hp); [left; by unfold content_at; cbn; rewrite E|done|done].
  - rewrite map_lookup_filter. destruct (m !! q) as [n|]; cbn; [|by case_bool_decide].
    case_bool_decide; [by rewrite option_guard_False by auto|by rewrite option_guard_True].
  - case_bool_decide as Hq; [|done]. destruct (decide (q = p)) as [->|Hne]; [done|].
    by apply (tree_file (mkFs m []) p q Ht Hp); [right|..].
Qed.

Lemma clear_runs d names removed failed s : faults s = [] → tree s → ∃ r s',
  clear_entries d names removed failed s = (Ok r, s') ∧ faults s' = [] ∧ tree s' ∧
  ∀ q, nodes s' !! q = if existsb (λ n, bool_decide (path_join d n `prefix_of` q)) names then None else nodes s !! q.
Proof.
  revert removed failed s. induction names as [|name names IH]; intros removed failed s Hf Ht.
  { eexists _, _. split; [reflexivity|]. done. }
  assert (path_join d name ≠ []) as Hp by (unfold path_join; by destruct d).
  destruct (entry_removed s (path_join d name) Hf Ht Hp) as (r & s1 & E1 & Hf1 & Ht1 & Hs1).
  assert (∃ n k, clear_entries d (name :: names) removed failed s = clear_entries d names n k s1) as (n & k & ->).
  { cbn [clear_entries]. unfold mbind, comp_bind in E1 |- *. unfold attempt at 1, guard_call, next_fault, mbind, comp_bind.
    rewrite Hf. cbn. destruct (entry_is_directory (path_join d name) s) as [[b|e] s0]; [|done].
    rewrite E1. destruct r; eauto. }
  destruct (IH n k s1 Hf1 Ht1) as (r' & s' & E' & Hf' & Ht' & Hs'). exists r', s'. split_and!; [done..|].
  intros q. rewrite Hs', Hs1. cbn [existsb]. destruct (existsb _ names); [by rewrite orb_true_r|]. by rewrite orb_false_r.
Qed.

Lemma children_spec s d name : name ∈ children s d ↔ is_Some (nodes s !! path_join d name).
Proof.
  unfold children. rewrite list_elem_of_omap. split.
  - intros ([p n] & Hp & E). apply elem_of_map_to_list in Hp. case_bool_decide as Hd; [|done].
    unfold path_parent, file_name in *. destruct (reverse p) as [|x t] eqn:Er; [done|]. injection Hd as <-.
    assert (p = reverse t ++ [x]) as -> by (by rewrite <- (reverse_involutive p), Er, reverse_cons).
    rewrite last_snoc in E. injection E as ->. unfold path_join. eauto.
  - intros [n Hn]. exists (path_join d name, n). split; [by apply elem_of_map_to_list|].
    rewrite bool_decide_eq_true_2 by apply path_parent_join. apply file_name_join.
Qed.

Lemma directory_cleared d s : faults s = [] → tree s → d ≠ [] → ∃ r s',
  clear_directory_contents d s = (Ok r, s') ∧ faults s' = [] ∧ tree s' ∧
  (nodes s !! d = Some Dir → ∀ q, below d q → nodes s' !! q = None).
Proof.
  intros Hf Ht Hd. unfold clear_directory_contents, attempt, fs_read_dir, guard_call, next_fault.
  unfold mbind, comp_bind. rewrite Hf. cbn. destruct (nodes s !! d) as [[c|]|] eqn:E; cbn.
  - eexists _, _. split; [reflexivity|]. done.
  - destruct (clear_runs d (children s d) 0 0 s Hf Ht) as (r & s' & E' & Hf' & Ht' & Hs').
    exists r, s'. split_and!; [done..|]. intros _ q (name & rest & ->). rewrite Hs'.
    destruct (existsb _ _) eqn:Ex; [done|]. apply eq_None_not_Some. intros Hn.
    assert (is_Some (nodes s !! path_join d name)) as Hname.
    { unfold path_join. destruct rest as [|x rest]; [done|]. 
      rewrite (tree_prefix s (d ++ [name]) (x :: rest) Ht); [done| |by destruct d|done]. by rewrite <- app_assoc. }
    assert (existsb (λ n, bool_decide (path_join d n `prefix_of` d ++ name :: rest)) (children s d) = true); [|congruence].
    apply existsb_exists. exists name. split; [by apply list_elem_of_In, children_spec|].
    apply bool_decide_eq_true. exists rest. unfold path_join. by rewrite <- app_assoc.
  - eexists _, _. split; [reflexivity|]. done.
Qed.

Lemma present_run p s : faults s = [] → tree s → ∃ b s1,
  removed_or_false (remove_file_if_present p) s = (Ok b, s1) ∧ faults s1 = [] ∧ tree s1 ∧ content_at s1 p = None ∧
  ∀ q, nodes s1 !! q = nodes s !! q ∨ q = p ∧ content_at s p ≠ None ∧ nodes s1 !! q = None.
Proof.
  intros Hf Ht. unfold removed_or_false, remove_file_if_present, fs_remove_file, guard_call, next_fault, attempt.
  unfold mbind, comp_bind, content_at. destruct s as [m fs]. cbn in Hf. subst fs. cbn.
  destruct (m !! p) as [[c|]|] eqn:E; cbn; rewrite ?E; cbn; eexists _, _; (split; [reflexivity|]); cbn.
  - rewrite lookup_delete_eq. split_and!; [done| |done|].
    + intros q name Hq. cbn in Hq. destruct (decide (path_join q name = p)) as [<-|Hne];
        [by rewrite lookup_delete_eq in Hq; destruct Hq|]. rewrite lookup_delete_ne in Hq by done.
      destruct (Ht _ _ Hq) as [->|Eq]; [by left|]. right. cbn in Eq |- *. rewrite lookup_delete_ne; [done|]. congruence.
    + intros q. destruct (decide (q = p)) as [->|Hne]; [right; by rewrite lookup_delete_eq|left; by rewrite lookup_delete_ne].
  - rewrite E. split_and!; [done..|]. by left.
  - rewrite E. split_and!; [done..|]. by left.
Qed.

Lemma removed_or_false_ok m s : is_ok (removed_or_false m s).1 = true.
Proof. unfold removed_or_false, attempt, mbind, comp_bind. by destruct (m s) as [[|] ?]. Qed.

Lemma clear_entries_ok d names n k s : is_ok (clear_entries d names n k s).1 = true.
Proof.
  revert n k s. induction names as [|name names IH]; [done|]. intros n k s. cbn [clear_entries].
  unfold attempt, mbind, comp_bind. destruct (guard_call s) as [[[]|] s1]; [|apply IH].
  unfold entry_is_directory, mbind, comp_bind. destruct (next_fault s1) as [[f|] s2] eqn:Ef.
  - cbn [get mret comp_ret]. destruct (_ && _).
    + destruct (fs_remove_dir_all _ s2) as [[|] s3]; apply IH.
    + destruct (fs_remove_file _ s2) as [[|] s3]; apply IH.
  - revert Ef. unfold next_fault. by destruct (faults s1).
Qed.
Lemma clear_directory_ok d s : is_ok (clear_directory_contents d s).1 = true.
Proof.
  unfold clear_directory_contents, attempt, mbind, comp_bind.
  destruct (fs_read_dir d s) as [[names|] s0]; [apply clear_entries_ok|done].
Qed.

(** C25: a reset, whatever calls fail: it always ends with a report and touches
    nothing but the session marker, the configuration file and what is below the
    log directory.  Without failures all of these are gone, whatever the log
    directory held, and the directory stands. *)
Theorem reset_cleanup_exact log_directory state_directory config_path s r s' :
  reset_cleanup log_directory state_directory config_path s = (r, s') →
  let marker := session_marker_path state_directory in
  (∀ q, q ≠ marker → q ≠ config_path → ¬ below log_directory q → nodes s' !! q = nodes s !! q) ∧
  is_ok r = true ∧
  (faults s = [] → tree s → nodes s !! log_directory = Some Dir → log_directory ≠ [] →
    content_at s' marker = None ∧ content_at s' config_path = None ∧
    nodes s' !! log_directory = Some Dir ∧ ∀ q, below log_directory q → nodes s' !! q = None).
Proof.
  intros E marker. unfold reset_cleanup in E. fold marker in E. unfold mbind, comp_bind in E.
  destruct (removed_or_false (remove_file_if_present marker) s) as [x1 s1] eqn:E1.
  destruct (clear_directory_contents log_directory s1) as [x2 s2] eqn:E2.
  pose proof (removed_or_false_ok (remove_file_if_present marker) s) as O1. rewrite E1 in O1. destruct x1 as [b1|]; [|done].
  pose proof (clear_directory_ok log_directory s1) as O2. rewrite E2 in O2.
  destruct x2 as [[n k]|]; [|done].
  destruct (removed_or_false (remove_file_if_present config_path) s2) as [x3 s3] eqn:E3.
  pose proof (removed_or_false_ok (remove_file_if_present config_path) s2) as O3. rewrite E3 in O3. destruct x3 as [b3|]; [|done].
  injection E as <- <-. split_and!; [|done|].
  - intros q H1 H2 H3. pose proof (confined_present marker s q) as C1. rewrite E1 in C1. cbn in C1.
    pose proof (confined_directory log_directory s1 q H3) as C2. rewrite E2 in C2. cbn in C2.
    pose proof (confined_present config_path s2 q) as C3. rewrite E3 in C3. cbn in C3.
    rewrite C3, C2, C1; [done|congruence|congruence].
  - intros Hf Ht Hd Hne. destruct (present_run marker s Hf Ht) as (b & s1' & F1 & Hf1 & Ht1 & Hc1 & Hs1).
    rewrite E1 in F1. injection F1 as <- <-.
    assert (nodes s1 !! log_directory = Some Dir) as Hd1.
    { destruct (Hs1 log_directory) as [->|(-> & Hc & _)]; [done|]. unfold content_at in Hc. by rewrite Hd in Hc. }
    destruct (directory_cleared log_directory s1 Hf1 Ht1 Hne) as (r2 & s2' & F2 & Hf2 & Ht2 & Hgone).
    rewrite E2 in F2. injection F2 as _ <-.
    destruct (present_run config_path s2 Hf2 Ht2) as (b & s3' & F3 & Hf3 & Ht3 & Hc3 & Hs3).
    rewrite E3 in F3. injection F3 as <- <-.
    assert (∀ q, nodes s2 !! q = None → nodes s3 !! q = None) as Hmono
      by (intros q Hq; destruct (Hs3 q) as [->|(_ & _ & ?)]; done).
    assert (¬ below log_directory log_directory) as Hself.
    { intros (nm & rest & Eq). apply (f_equal length) in Eq. rewrite length_app in Eq. cbn in Eq. lia. }
    assert (nodes s2 !! log_directory = Some Dir) as Hd2.
    { pose proof (confined_directory log_directory s1 log_directory Hself) as C2. rewrite E2 in C2. cbn in C2. by rewrite C2. }
    split_and!; [|done| |].
    + assert (content_at s2 marker = None) as Hm2.
      { unfold content_at in *. pose proof (confined_directory log_directory s1 marker) as C2. rewrite E2 in C2. cbn in C2.
        destruct (nodes s2 !! marker) as [[]|] eqn:Em; [|done|done].
        assert (¬ below log_directory marker) as Hb by (intros Hb; by rewrite (Hgone Hd1 _ Hb) in Em).
        specialize (C2 Hb). by rewrite <- C2 in Hc1. }
      unfold content_at in *. destruct (Hs3 marker) as [->|(_ & _ & ->)]; done.
    + destruct (Hs3 log_directory) as [->|(-> & Hc & _)]; [done|]. unfold content_at in Hc. by rewrite Hd2 in Hc.
    + intros q Hq. apply Hmono. by apply Hgone.
Qed.

(** A log directory with two files, a configuration and a session marker. *)
Definition sample_reset_fs : Fs := mkFs
  (<[ [lit "logs"] := Dir ]> (<[ [lit "logs"; lit "a.csv"] := File [1] ]> (<[ [lit "logs"; lit "b.csv"] := File [2] ]>
   (<[ [lit "state"] := Dir ]> (<[ session_marker_path [lit "state"] := File [3] ]>
   {[ [lit "true-tick.toml"] := File [4] ]}))))) [].

Lemma reset_cleanup_exact_witness :
  let s' := (reset_cleanup [lit "logs"] [lit "state"] [lit "true-tick.toml"] sample_reset_fs).2 in
  content_at s' [lit "true-tick.toml"] = None ∧ nodes s' !! [lit "logs"] = Some Dir.
Proof.
  intros s'.
  destruct (reset_cleanup_exact [lit "logs"] [lit "state"] [lit "true-tick.toml"] sample_reset_fs _ _
    (surjective_pairing _)) as (_ & _ & H); [].
  destruct H as (_ & H2 & H3 & _); [reflexivity| |reflexivity|discriminate|exact (conj H2 H3)].
  apply tree_check, (bool_decide_unpack _). by vm_compute.
Defined.
