(* ===== verification/Startup.v ===== *)
(** * Startup: portable layout and the registration at sign-in

    Models [apps/true-tick/src/portable.rs], the per-user startup registration
    of [crates/tick-startup-windows/src/lib.rs], the choice of its target in
    [tray/commands.rs], and the directories of [logging/mod.rs].

    The registry is the [TrueTick] value of the current user's Run key with the
    status codes of the next calls ([0] when the list is over); the files are
    those of [Files]. *)
From S2P Require Import Prelude Text Privacy Diagnostics Files FileFrames.

(** ** The portable layout *)

Inductive LauncherPathError := NotAnAbSlotExecutable.

Module Slot.
Inductive Slot := A | B.
End Slot.
Abbreviation Slot := Slot.Slot.
Definition slot_name (s : Slot) : str := match s with Slot.A => lit "A" | Slot.B => lit "B" end.

Definition portable_root_from_slot_executable (executable : path) : result LauncherPathError path :=
  let slot := (p ← path_parent executable; file_name p) : option str in
  if negb (bool_decide (slot = Some (lit "A")) || bool_decide (slot = Some (lit "B")))
  then Err NotAnAbSlotExecutable
  else ok_or ((p ← path_parent executable; q ← path_parent p; path_parent q) : option path) NotAnAbSlotExecutable.

Definition launcher_path_from_slot_executable (executable : path) : result LauncherPathError path :=
  root ← portable_root_from_slot_executable executable; Ok (path_join root (lit "Launcher.exe")).

Inductive Selection := Selected (slot : Slot) (p : path) | RepairRequired (reason : str).

Definition selection_description (s : Selection) : str :=
  match s with
  | Selected slot p =>
      lit "selected_slot=" ++ slot_name slot ++ lit " executable_name=" ++ default (lit "invalid") (file_name p)
  | RepairRequired reason => lit "repair_required reason=" ++ reason
  end.

(** [Path::is_dir]. *)
Definition fs_is_dir (p : path) : comp Fs IoError bool :=
  f ← next_fault; s ← get;
  mret (bool_decide (f = None) && match nodes s !! p with Some Dir => true | _ => false end).

Definition select (root : path) : comp Fs IoError Selection :=
  let slots := path_join root (lit "Slots") in
  let active_file := path_join root (lit "active-slot.txt") in
  r ← attempt (fs_read_to_string active_file);
  let active := match r with Ok value => Some (trim value) | Err _ => None end in
  let chosen preferred :=
    let p := path_join slots (slot_name preferred) in
    d ← fs_is_dir p;
    f ← (if (d : bool) then fs_is_file (path_join p (lit "true-tick.exe")) else mret false);
    mret (if (f : bool) then Selected preferred p
          else RepairRequired (lit "active slot lacks a recognizable internal executable")) in
  match active with
  | Some v =>
      if str_eqb v (lit "A") then chosen Slot.A
      else if str_eqb v (lit "B") then chosen Slot.B
      else mret (RepairRequired (lit "active-slot.txt is not A or B"))
  | None => mret (RepairRequired
      (lit "active-slot.txt is missing, explicit initialization is required"))
  end.

Definition resolve_log_directory (executable : path) : path :=
  match portable_root_from_slot_executable executable with
  | Ok root => path_join (path_join root (lit "Data")) (lit "logs")
  | Err _ => path_join (default [lit "."] (path_parent executable)) (lit "logs")
  end.
Definition resolve_state_directory (executable : path) : path :=
  match portable_root_from_slot_executable executable with
  | Ok root => path_join (path_join root (lit "Data")) (lit "state")
  | Err _ => path_join (default [lit "."] (path_parent executable)) (lit "state")
  end.

(** ** The registry and the disk *)

Module StartupOperation.
Inductive StartupOperation := Register | Remove.
End StartupOperation.
Definition startup_operation (enabled : bool) : StartupOperation.StartupOperation :=
  if enabled then StartupOperation.Register else StartupOperation.Remove.

Module StartupError.
Inductive StartupError :=
| Unsupported | InvalidExecutablePath | LauncherMissing | NotLauncher | NotDevelopmentExecutable
| OpenKey (raw_status : Z) | SetValue (raw_status : Z) | RemoveValue (raw_status : Z)
| CloseKey (raw_status : Z).
End StartupError.
Abbreviation StartupError := StartupError.StartupError.

Definition ERROR_SUCCESS : Z := 0.
Definition ERROR_FILE_NOT_FOUND : Z := 2.

Record Machine := mkMachine { disk : Fs; run_value : option str; reg_statuses : list Z }.
Definition set_disk (f : Fs) (m : Machine) : Machine := mkMachine f (run_value m) (reg_statuses m).
Definition set_run_value (v : option str) (m : Machine) : Machine := mkMachine (disk m) v (reg_statuses m).

Definition on_disk {E E' T} (m : comp Fs E T) : comp Machine E' (result E T) := λ s,
  let '(r, f) := m (disk s) in (Ok r, set_disk f s).
(** A call that cannot fail, such as [Path::exists]. *)
Definition ask_disk {E} (m : comp Fs IoError bool) : comp Machine E bool :=
  r ← on_disk m; mret match r with Ok b => b | Err _ => false end.

(** The status of the next registry call. *)
Definition reg_call {E} : comp Machine E Z := λ s,
  match reg_statuses s with
  | [] => (Ok ERROR_SUCCESS, s)
  | status :: rest => (Ok status, mkMachine (disk s) (run_value s) rest)
  end.

Definition open_run_key : comp Machine StartupError unit :=
  status ← reg_call;
  if status =? ERROR_SUCCESS then mret tt else fail (StartupError.OpenKey status).
Definition close_run_key : comp Machine StartupError unit :=
  status ← reg_call;
  if negb (status =? ERROR_SUCCESS) then fail (StartupError.CloseKey status) else mret tt.
Definition RegSetValueExW (value : str) : comp Machine StartupError Z :=
  status ← reg_call;
  if status =? ERROR_SUCCESS then _ ← modify (set_run_value (Some value)); mret status else mret status.
(** [ERROR_FILE_NOT_FOUND] is the status of an absent value and of no other. *)
Definition RegDeleteValueW : comp Machine StartupError Z :=
  status ← reg_call;
  m ← get;
  if (status =? ERROR_SUCCESS) || (status =? ERROR_FILE_NOT_FOUND) then
    match run_value m with
    | Some _ => _ ← modify (set_run_value None); mret ERROR_SUCCESS
    | None => mret ERROR_FILE_NOT_FOUND
    end
  else mret status.

Module StartupTarget.
Inductive StartupTarget := PortableLauncher (p : path) | DevelopmentExecutable (p : path).
End StartupTarget.
Abbreviation StartupTarget := StartupTarget.StartupTarget.

Module StartupRollback.
Inductive StartupRollback := SkipDestructiveInverse | RestoreRegistration.
End StartupRollback.

Section Registration.
Context `{PathDisplay}.

Definition startup_command (executable : path) : result StartupError str :=
  let p := path_display executable in
  if bool_decide (p = []) || existsb (Z.eqb 34) p then Err StartupError.InvalidExecutablePath
  else Ok ([34] ++ p ++ [34]).

Definition register_validated (executable : path) : comp Machine StartupError unit :=
  command ← lift (startup_command executable);
  _ ← open_run_key;
  status ← RegSetValueExW command;
  close_result ← attempt close_run_key;
  if negb (status =? ERROR_SUCCESS) then fail (StartupError.SetValue status) else lift close_result.

Definition is_development_executable (executable : path) : bool :=
  match file_name executable with
  | Some name => eq_ignore_ascii_case name (lit "true-tick.exe")
  | None => false
  end
  && existsb (λ c, eq_ignore_ascii_case c (lit "target")) executable
  && existsb (λ c, eq_ignore_ascii_case c (lit "debug")) executable.

Definition check_present (executable : path) : comp Machine StartupError unit :=
  present ← ask_disk (fs_exists executable);
  if negb present then fail StartupError.LauncherMissing
  else
    file ← ask_disk (fs_is_file executable);
    if negb file then fail StartupError.InvalidExecutablePath else mret tt.

Definition validate_launcher_path (executable : path) : comp Machine StartupError unit :=
  match file_name executable with
  | None => fail StartupError.InvalidExecutablePath
  | Some name =>
      if negb (eq_ignore_ascii_case name (lit "Launcher.exe")) then fail StartupError.NotLauncher
      else check_present executable
  end.

Definition validate_development_path (executable : path) : comp Machine StartupError unit :=
  if negb (is_development_executable executable) then fail StartupError.NotDevelopmentExecutable
  else check_present executable.

Definition register (executable : path) : comp Machine StartupError unit :=
  _ ← validate_launcher_path executable; register_validated executable.
Definition register_development (executable : path) : comp Machine StartupError unit :=
  _ ← validate_development_path executable; register_validated executable.
Definition startup_remove : comp Machine StartupError unit :=
  _ ← open_run_key;
  status ← RegDeleteValueW;
  close_result ← attempt close_run_key;
  if (status =? ERROR_FILE_NOT_FOUND) || (status =? ERROR_SUCCESS) then lift close_result
  else fail (StartupError.RemoveValue status).

(** ** What is registered: [tray/commands.rs] *)

Definition target_description (t : StartupTarget) : str :=
  match t with
  | StartupTarget.PortableLauncher _ => lit "portable Launcher.exe entry point"
  | StartupTarget.DevelopmentExecutable _ => lit "debug true-tick.exe development fallback"
  end.

(** Whether the build has [debug_assertions]. *)
Context (debug_assertions : bool).

Definition startup_target (executable : path) : result str StartupTarget :=
  match launcher_path_from_slot_executable executable with
  | Ok launcher => Ok (StartupTarget.PortableLauncher launcher)
  | Err NotAnAbSlotExecutable =>
      if debug_assertions && is_development_executable executable
      then Ok (StartupTarget.DevelopmentExecutable executable)
      else Err (lit "portable launcher path unavailable NotAnAbSlotExecutable")
  end.

Definition register_startup_target (t : StartupTarget) : comp Machine StartupError unit :=
  match t with
  | StartupTarget.PortableLauncher p => register p
  | StartupTarget.DevelopmentExecutable p => register_development p
  end.

Definition startup_rollback (enabled : bool) : StartupRollback.StartupRollback :=
  if enabled then StartupRollback.SkipDestructiveInverse else StartupRollback.RestoreRegistration.

Definition MAX_STARTUP_STATUS_BYTES : Z := 512.
Definition bounded_startup_status (value : str) : str := truncate_utf8 value MAX_STARTUP_STATUS_BYTES.
End Registration.
