(* ===== verification/Logging.v ===== *)
(** * Logging: the daily CSV log

    Models [apps/true-tick/src/logging/mod.rs]: the rows of the diagnostic store
    that have not been persisted yet are appended to the log of the day, under a
    header written once, and the persisted sequence number moves on when the
    append succeeded.  A flush runs on the calling thread, or on a writer thread
    of which at most one is active; an append, which holds [LOG_APPEND_LOCK] while
    it writes, is one step.

    The clock, the date and the free space are those of the call ([Moment]). *)
From S2P Require Import Prelude Text Order Hex Core Diagnostics Grid Retention Files FileFrames Dirs.

Definition MIN_FREE_BYTES_BEFORE_WRITE : Z := 50 * 1024 * 1024.

Definition daily_log_filename (year month day : Z) : str :=
  lit "true-tick-" ++ format_ymd year month day ++ lit ".csv".

Definition hex_hash_string (bs : bytes) : str := hex bs.

Definition utc_date_of (seconds : Z) : Z * Z * Z :=
  let '(year, month, day) := civil_from_days (seconds / 86400) in (wrap 16 year, wrap 16 month, wrap 16 day).

(** ** Rows *)

Definition log_needs_neutralization (field : str) : bool :=
  let stripped := default field (strip_prefix field [34]) in
  let trimmed := trim_start_matches is_whitespace stripped in
  match trimmed with
  | [] => false
  | first :: rest =>
      if (first =? 43) || (first =? 45) then
        negb (ends_with rest (lit "ms") && forallb is_ascii_digit (take (length rest - 2) rest))
      else existsb (Z.eqb first) [61; 64; 43; 45; 9; 13] || (first =? 10)
  end.

Definition log_csv_escape (cell : str) : str :=
  let field := truncate_utf8 cell MAX_FIELD_LENGTH in
  let neutral := log_needs_neutralization field in
  if negb (existsb csv_special field) && negb neutral then field
  else [34] ++ (if neutral then [39] else []) ++
       flat_map (λ c, if c =? 34 then [34; 34] else [c]) field ++ [34].

Definition LOG_HEADER : str :=
  lit "Row,Sequence,Elapsed,Operation,Parent,Correlation,Phase,Source,Outcome,Event,Details,PrevHash,EntryHash".

Definition log_cells (e : DiagnosticEvent) : list str :=
  diagnostic_grid_row (sequence e) e ++ [hex_hash_string (prev_hash e); hex_hash_string (entry_hash e)].

Definition log_line (e : DiagnosticEvent) : str := join [44] (map log_csv_escape (log_cells e)).

(** The lines of the events after [last], and the sequence of the last of them. *)
Fixpoint build_log_lines_from (evs : list DiagnosticEvent) (last last_sequence : Z) : list str * Z :=
  match evs with
  | [] => ([], last_sequence)
  | e :: evs =>
      if sequence e <=? last then build_log_lines_from evs last last_sequence
      else let '(lines, last_sequence) := build_log_lines_from evs last (sequence e) in
           (log_line e :: lines, last_sequence)
  end.
Definition build_log_lines (s : StoreState) (last_persisted_event_sequence : Z) : list str * Z :=
  build_log_lines_from (events s) last_persisted_event_sequence last_persisted_event_sequence.

(** ** Appending *)

Module LogWriteError.
Inductive LogWriteError := Io (error : IoError) | InsufficientFreeSpace (available : Z).
End LogWriteError.
Abbreviation LogWriteError := LogWriteError.LogWriteError.

(** What the operating system answers while a call runs: the free space of the
    volume, the time since the epoch, and the store's clock. *)
Record Moment := mkMoment { free_bytes : option Z; unix_seconds : Z; marker_nanos : Z; nanos : Z }.

(** One append: the file name, the lines, and the sequence they reach. *)
Record Job := mkJob { job_filename : str; job_lines : list str; job_last_sequence : Z }.

Record Logger := mkLogger {
  log_fs : Fs;
  log_store : StoreState;
  committed : Z;
  (** The active writer thread, before its append. *)
  writer : option Job }.
Definition set_log_fs (f : Fs) (l : Logger) : Logger := mkLogger f (log_store l) (committed l) (writer l).
Definition set_log_store (s : StoreState) (l : Logger) : Logger := mkLogger (log_fs l) s (committed l) (writer l).
Definition set_committed (n : Z) (l : Logger) : Logger := mkLogger (log_fs l) (log_store l) n (writer l).
Definition set_writer (j : option Job) (l : Logger) : Logger := mkLogger (log_fs l) (log_store l) (committed l) j.

Definition on_files {E E' T} (m : comp Fs E T) : comp Logger E' (result E T) := λ l,
  let '(r, f) := m (log_fs l) in (Ok r, set_log_fs f l).

Section Logging.
Context `{Sha256} (io_kind_label : IoKind → str) `{IoDisplay}.

(** A record of fixed text; the redaction scan cannot panic on it. *)
Definition log_record {E} (m : Moment) (nm dt : str) (o : option DiagnosticOutcome) : comp Logger E unit :=
  modify (λ l,
    match match o with
          | Some o => record_with_outcome (log_store l) (marker_nanos m) (nanos m) nm dt o
          | None => record_event (log_store l) (marker_nanos m) (nanos m) nm dt
          end with
    | Ok s => set_log_store s l
    | Err _ => l
    end).

Definition record_append_io_error {E} (m : Moment) (error : IoError) : comp Logger E unit :=
  log_record m (lit "storage.append.error") (lit "result=io_failure kind=" ++ io_kind_label (io_kind error))
    (Some DiagnosticOutcome.Failed).

(** [retention.rs], on the directory: the candidates, then the deletions. *)
Fixpoint collect_candidates (d : path) (names : list str) : FS (list (Z * path)) :=
  match names with
  | [] => mret []
  | name :: names =>
      _ ← guard_call;
      let p := path_join d name in
      file ← fs_is_file p;
      rest ← collect_candidates d names;
      mret match (if (file : bool) then candidate_of (mkEntry (Some name) true) else None) with
           | Some (day_unix, _) => (day_unix, p) :: rest
           | None => rest
           end
  end.

Fixpoint remove_expired (cutoff : Z) (candidates : list (Z * path)) : FS (Z * list (Z * path)) :=
  match candidates with
  | [] => mret (0, [])
  | (day_unix, p) :: rest =>
      if day_unix <? cutoff then
        r ← attempt (fs_remove_file p);
        '(removed, retained) ← remove_expired cutoff rest;
        mret (if is_ok r then (removed + 1, retained) else (removed, (day_unix, p) :: retained))
      else
        '(removed, retained) ← remove_expired cutoff rest;
        mret (removed, (day_unix, p) :: retained)
  end.

Fixpoint remove_each (ps : list path) : FS Z :=
  match ps with
  | [] => mret 0
  | p :: ps => r ← attempt (fs_remove_file p); n ← remove_each ps; mret (if is_ok r then n + 1 else n)
  end.

Definition purge_expired_logs_in (d : path) (now_unix_seconds : Z) : FS LogRetentionReport :=
  names ← fs_read_dir d;
  candidates ← collect_candidates d names;
  let candidates := sort_by (λ a b, fst a <=? fst b) candidates in
  let cutoff := sat_sub now_unix_seconds (LOG_RETENTION_DAYS * 86400) in
  '(removed, retained) ← remove_expired cutoff candidates;
  let overflow := (length retained - MAX_RETAINED_LOG_FILES)%nat in
  more ← remove_each (map snd (take overflow retained));
  mret (mkLogReport (Z.of_nat (length candidates)) (removed + more)
          (Z.of_nat (length (drop overflow retained)))).

Definition purge_expired_logs_with_diagnostics {E} (m : Moment) (d : path) : comp Logger E unit :=
  r ← on_files (purge_expired_logs_in d (unix_seconds m));
  match r with
  | Ok report =>
      if 0 <? removed report then
        log_record m (lit "storage.retention.purge")
          (lit "examined=" ++ show_u (examined report) ++ lit " removed=" ++ show_u (removed report) ++
           lit " retained=" ++ show_u (retained report)) None
      else mret tt
  | Err error =>
      log_record m (lit "storage.retention.purge.error") (lit "error=" ++ io_display error)
        (Some DiagnosticOutcome.Failed)
  end.

(** [writeln!]: the text and the line break are written one after the other. *)
Definition writeln (p : path) (line : str) : FS unit :=
  _ ← fs_write_all p (utf8_encode line); fs_write_all p [10].

Fixpoint write_lines (p : path) (lines : list str) : FS unit :=
  match lines with
  | [] => mret tt
  | line :: lines => _ ← writeln p line; write_lines p lines
  end.

Definition write_log_lines (p : path) (lines : list str) : FS unit :=
  len ← fs_metadata_len p;
  _ ← (if len =? 0 then writeln p LOG_HEADER else mret tt);
  _ ← write_lines p lines;
  fs_sync_all p.

(** The result of a file call, recorded when it is an error. *)
Definition or_append_error {T} (m : Moment) (r : result IoError T) : comp Logger LogWriteError T :=
  match r with
  | Ok x => mret x
  | Err error => _ ← record_append_io_error m error; fail (LogWriteError.Io error)
  end.

Definition append_log_lines_sync_internal (m : Moment) (d : path) (filename : str) (lines : list str)
    : comp Logger LogWriteError unit :=
  created ← on_files (fs_create_dir_all d);
  _ ← or_append_error m created;
  let p := path_join d filename in
  _ ← match free_bytes m with
      | Some available =>
          if available <? MIN_FREE_BYTES_BEFORE_WRITE then
            _ ← log_record m (lit "storage.write_suppressed")
                  (lit "reason=low_free_space available=" ++ show_u available) (Some DiagnosticOutcome.Suppressed);
            fail (LogWriteError.InsufficientFreeSpace available)
          else mret tt
      | None => mret tt
      end;
  existed ← on_files (fs_exists p);
  let file_is_new := negb match existed with Ok b => b | Err _ => false end in
  opened ← on_files (fs_open_append p);
  _ ← or_append_error m opened;
  written ← on_files (write_log_lines p lines);
  written ← attempt (or_append_error m written);
  _ ← (if file_is_new then purge_expired_logs_with_diagnostics m d else mret tt);
  lift written.

(** ** Flushing *)

Definition flush_diagnostic_events_to_disk_sync {E} (m : Moment) (d : path) : comp Logger E unit :=
  l ← get;
  let '(lines, last_sequence) := build_log_lines (log_store l) (committed l) in
  if bool_decide (lines = []) then mret tt
  else
    let '(year, month, day) := utc_date_of (unix_seconds m) in
    r ← attempt (append_log_lines_sync_internal m d (daily_log_filename year month day) lines);
    match r with
    | Ok _ => modify (set_committed last_sequence)
    | Err _ => mret tt
    end.

(** The same on a writer thread, when none is active. *)
Definition flush_diagnostic_events_to_disk {E} (m : Moment) : comp Logger E unit :=
  l ← get;
  let '(lines, last_sequence) := build_log_lines (log_store l) (committed l) in
  if bool_decide (lines = []) then mret tt
  else
    let '(year, month, day) := utc_date_of (unix_seconds m) in
    match writer l with
    | Some _ => mret tt
    | None => modify (set_writer (Some (mkJob (daily_log_filename year month day) lines last_sequence)))
    end.

(** The writer thread's append and its end. *)
Definition writer_step {E} (m : Moment) (d : path) : comp Logger E unit :=
  l ← get;
  match writer l with
  | None => mret tt
  | Some j =>
      r ← attempt (append_log_lines_sync_internal m d (job_filename j) (job_lines j));
      _ ← match r with
          | Ok _ => modify (set_committed (job_last_sequence j))
          | Err _ => mret tt
          end;
      modify (set_writer None)
  end.

Definition purge_expired_logs_at_startup {E} (m : Moment) (d : path) : comp Logger E unit :=
  purge_expired_logs_with_diagnostics m d.
End Logging.
