(* ===== verification/LoggingFacts.v ===== *)
(** * LoggingFacts: what the daily log holds

    Proofs about [Logging]: a flush only appends to the log of the day, under
    every pattern of failures; without failures no row is written twice; rows
    are read back; and what overlapping flushes do. *)
From S2P Require Import Prelude Text Order Hex Core Privacy Diagnostics Grid Retention Files FileFrames Dirs Logging.

(** ** File calls that append *)

(** The call appends a prefix of [bs] to the file at [p], all of it when it succeeds. *)
Definition appends {T} (p : path) (bs : bytes) (m : FS T) : Prop := ∀ s c r s', m s = (r, s') →
  content_at s p = Some c → ∃ w, w `prefix_of` bs ∧ content_at s' p = Some (c ++ w) ∧
    (is_ok r = true → w = bs) ∧ same_but [p] s s'.

Lemma appends_ret {T} p (x : T) : appends p [] (mret x).
Proof. intros s c r s' [= <- <-] Hc. exists []. rewrite app_nil_r. repeat split; try done. Qed.

Lemma appends_bind {T U} p a b (m : FS T) (k : T → FS U) :
  appends p a m → (∀ x, appends p b (k x)) → appends p (a ++ b) (m ≫= k).
Proof.
  intros Hm Hk s c r s' E Hc. unfold mbind, comp_bind in E. destruct (m s) as [x s1] eqn:E1.
  destruct (Hm _ _ _ _ E1 Hc) as (w & Hw & Hc1 & Hok & Hs). destruct x as [x|e].
  - destruct (Hk _ _ _ _ _ E Hc1) as (w' & Hw' & Hc' & Hok' & Hs').
    exists (w ++ w'). rewrite (Hok eq_refl), app_assoc. rewrite (Hok eq_refl) in Hc'.
    split_and!; [by apply prefix_app|done|by intros ->%Hok'|by eapply same_but_trans].
  - injection E as <- <-. exists w. split_and!; [by apply prefix_app_r|done..].
Qed.

Lemma appends_write_all p bs : appends p bs (fs_write_all p bs).
Proof.
  intros s c r s' E Hc. unfold fs_write_all, next_fault, mbind, comp_bind in E.
  assert (∀ s w, content_at s p = Some c → content_at (set_nodes (append_at p w) s) p = Some (c ++ w) ∧
    same_but [p] s (set_nodes (append_at p w) s)) as Happ.
  { intros s1 w H1. unfold content_at, append_at, set_nodes in *. cbn.
    destruct (nodes s1 !! p) as [[c1|]|] eqn:E1; try done. injection H1 as ->. rewrite lookup_insert_eq.
    split; [done|]. intros q Hq. cbn. rewrite lookup_insert_ne; [done|set_solver]. }
  destruct s as [m [|[f|] fs]]; cbn in E.
  - injection E as <- <-. exists bs. destruct (Happ _ bs Hc). split_and!; done.
  - injection E as <- <-. exists (take (fault_progress f) bs).
    destruct (Happ (mkFs m fs) (take (fault_progress f) bs) Hc). split_and!; try done. apply prefix_take.
  - injection E as <- <-. exists bs. destruct (Happ (mkFs m fs) bs Hc). split_and!; done.
Qed.

Definition line_bytes (line : str) : bytes := utf8_encode line ++ [10].
Definition lines_bytes (lines : list str) : bytes := flat_map line_bytes lines.

Lemma appends_writeln p line : appends p (line_bytes line) (writeln p line).
Proof. apply appends_bind; [apply appends_write_all|intros; apply appends_write_all]. Qed.

Lemma appends_lines p lines : appends p (lines_bytes lines) (write_lines p lines).
Proof.
  induction lines as [|line lines IH]; [apply appends_ret|].
  cbn [write_lines lines_bytes flat_map]. apply appends_bind; [apply appends_writeln|done].
Qed.

Lemma appends_sync p : appends p [] (fs_sync_all p).
Proof.
  intros s c r s' E Hc. unfold fs_sync_all, guard_call, next_fault, mbind, comp_bind in E. exists [].
  rewrite app_nil_r. destruct s as [m [|[f|] fs]]; cbn in E; injection E as <- <-; split_and!; done.
Qed.

(** What a flush is to write on a log that holds [old]. *)
Definition header_on (old : bytes) : bytes := if bool_decide (old = []) then line_bytes LOG_HEADER else [].
Definition rows_on (old : bytes) (lines : list str) : bytes := header_on old ++ lines_bytes lines.

Lemma write_log_lines_spec p lines s c r s' : write_log_lines p lines s = (r, s') →
  content_at s p = Some c → ∃ w, w `prefix_of` rows_on c lines ∧ content_at s' p = Some (c ++ w) ∧
    (is_ok r = true → w = rows_on c lines) ∧ same_but [p] s s'.
Proof.
  intros E Hc. unfold write_log_lines in E. unfold mbind at 1, comp_bind at 1 in E.
  destruct (fs_metadata_len p s) as [x s1] eqn:E1.
  assert (nodes s1 = nodes s ∧ (is_ok x = true → x = Ok (Z.of_nat (length c)))) as [Hs1 Hx].
  { revert E1 Hc. unfold fs_metadata_len, guard_call, next_fault, mbind, comp_bind, content_at.
    destruct s as [m [|[f|] fs]]; cbn; destruct (m !! p) as [[]|]; try done; by intros [= <- <-] [= ->]. }
  assert (content_at s1 p = Some c) as Hc1 by (unfold content_at in *; by rewrite Hs1).
  destruct x as [len|e].
  2:{ injection E as <- <-. exists []. rewrite app_nil_r. split_and!; [apply prefix_nil|done|done|].
      intros q _. by rewrite Hs1. }
  injection (Hx eq_refl) as ->.
  assert (appends p (rows_on c lines) ((_ ← (if Z.of_nat (length c) =? 0 then writeln p LOG_HEADER else mret tt);
    _ ← write_lines p lines; fs_sync_all p) : FS unit)) as Happ.
  { unfold rows_on. apply appends_bind.
    - unfold header_on. destruct c as [|z c]; [apply appends_writeln|apply appends_ret].
    - intros []. rewrite <- (app_nil_r (lines_bytes lines)).
      apply appends_bind; [apply appends_lines|intros; apply appends_sync]. }
  destruct (Happ _ _ _ _ E Hc1) as (w & ? & ? & ? & Hs). exists w. split_and!; try done.
  intros q Hq. rewrite Hs by done. by rewrite Hs1.
Qed.

(** Without failures the rows are written. *)
Definition sure {T} (p : path) (m : FS T) : Prop := ∀ s, faults s = [] → is_Some (content_at s p) →
  is_ok (m s).1 = true ∧ faults (m s).2 = [] ∧ is_Some (content_at (m s).2 p).

Lemma sure_bind {T U} p (m : FS T) (k : T → FS U) : sure p m → (∀ x, sure p (k x)) → sure p (m ≫= k).
Proof.
  intros Hm Hk s Hf Hc. unfold mbind, comp_bind. destruct (Hm s Hf Hc) as (H1 & H2 & H3).
  destruct (m s) as [[x|e] s1]; [|done]. by apply Hk.
Qed.
Lemma sure_ret {T} p (x : T) : sure p (mret x).
Proof. by intros s. Qed.
Lemma sure_write_all p bs : sure p (fs_write_all p bs).
Proof.
  intros s Hf [c Hc]. unfold fs_write_all, next_fault, mbind, comp_bind, modify, content_at, append_at, set_nodes in *.
  destruct s as [m fs]. cbn in *. subst fs. cbn. destruct (m !! p) as [[c1|]|]; [|done|done].
  rewrite lookup_insert_eq. done.
Qed.
Lemma sure_sync p : sure p (fs_sync_all p).
Proof. intros [m fs]. cbn. intros -> Hc. done. Qed.
Lemma sure_metadata p : sure p (fs_metadata_len p).
Proof.
  intros [m fs]. cbn. intros -> Hc. unfold fs_metadata_len, guard_call, next_fault, mbind, comp_bind, content_at in *.
  cbn in *. destruct (m !! p) as [[c|]|] eqn:E; try (by destruct Hc). cbn. rewrite E. done.
Qed.
Lemma sure_writeln p line : sure p (writeln p line).
Proof. apply sure_bind; intros; apply sure_write_all. Qed.
Lemma sure_lines p lines : sure p (write_lines p lines).
Proof. induction lines as [|line lines IH]; [apply sure_ret|]. apply sure_bind; [apply sure_writeln|done]. Qed.
Lemma sure_log_lines p lines : sure p (write_log_lines p lines).
Proof.
  apply sure_bind; [apply sure_metadata|intros len]. apply sure_bind; [destruct (len =? 0); [apply sure_writeln|apply sure_ret]|].
  intros _. apply sure_bind; [apply sure_lines|intros; apply sure_sync].
Qed.

(** ** The retention pass removes daily logs only *)

Definition daily_log (d : path) (q : path) : Prop :=
  ∃ name, q = path_join d name ∧ is_Some (daily_log_date_from_name name).

Definition pruned (d : path) (s s' : Fs) : Prop := ∀ q,
  nodes s' !! q = nodes s !! q ∨ nodes s' !! q = None ∧ daily_log d q.

Lemma pruned_refl d s s' : nodes s' = nodes s → pruned d s s'.
Proof. intros E q. left. by rewrite E. Qed.
Lemma pruned_trans d s1 s2 s3 : pruned d s1 s2 → pruned d s2 s3 → pruned d s1 s3.
Proof. intros H1 H2 q. destruct (H2 q) as [->|?]; [apply H1|by right]. Qed.

Definition prunes {E T} (d : path) (m : comp Fs E T) : Prop := ∀ s, pruned d s (m s).2.

Lemma prunes_bind {E T U} d (m : comp Fs E T) (k : T → comp Fs E U) :
  prunes d m → (∀ x, prunes d (k x)) → prunes d (m ≫= k).
Proof.
  intros Hm Hk s. unfold mbind, comp_bind. specialize (Hm s). destruct (m s) as [[x|e] s1]; [|done].
  cbn in Hm. by eapply pruned_trans; [|apply Hk].
Qed.
Lemma prunes_attempt {E E' T} d (m : comp Fs E T) : prunes d m → prunes d (attempt m : comp Fs E' _).
Proof. intros Hm s. unfold attempt. specialize (Hm s). by destruct (m s). Qed.
Lemma prunes_ret {E T} d (x : T) : prunes d (mret x : comp Fs E T).
Proof. intros s. by apply pruned_refl. Qed.
Lemma prunes_reads {T} d (m : FS T) : reads m → prunes d m.
Proof.
  intros Hm s. destruct (m s) as [r s'] eqn:E. apply pruned_refl. by apply (reads_at _ _ _ _ Hm) in E.
Qed.

Lemma prunes_remove d p : daily_log d p → prunes d (fs_remove_file p).
Proof.
  intros Hp s q. destruct (decide (q = p)) as [->|Hne].
  - destruct (fs_remove_file p s) as [r s'] eqn:E. cbn. revert E.
    unfold fs_remove_file, guard_call, next_fault, mbind, comp_bind.
    destruct s as [m [|[f|] fs]]; cbn; [| by intros [= <- <-]; left|];
      (destruct (m !! p) as [[]|] eqn:Ep; intros [= <- <-]; cbn; rewrite ?Ep, ?lookup_delete_eq; auto).
  - left. apply (touches_remove p [p]); [set_solver|set_solver].
Qed.

(** The call prunes, and what it returns satisfies [Q]. *)
Definition gives {E T} (Q : T → Prop) (m : comp Fs E T) : Prop := ∀ s x s', m s = (Ok x, s') → Q x.
Lemma prunes_gives {E T U} d (Q : T → Prop) (m : comp Fs E T) (k : T → comp Fs E U) :
  prunes d m → gives Q m → (∀ x, Q x → prunes d (k x)) → prunes d (m ≫= k).
Proof.
  intros Hm Hq Hk s. unfold mbind, comp_bind. specialize (Hm s). destruct (m s) as [[x|e] s1] eqn:E1; [|done].
  cbn in Hm. eapply pruned_trans; [exact Hm|apply Hk]. by eapply Hq.
Qed.
Lemma gives_bind {E T U} (P : T → Prop) (Q : U → Prop) (m : comp Fs E T) (k : T → comp Fs E U) :
  gives P m → (∀ x, P x → gives Q (k x)) → gives Q (m ≫= k).
Proof.
  intros Hm Hk s y s' E1. unfold mbind, comp_bind in E1. destruct (m s) as [[x|e] s1] eqn:E2; [|done].
  by eapply Hk; [eapply Hm|].
Qed.
Lemma gives_any {E T} (m : comp Fs E T) : gives (λ _, True) m.
Proof. done. Qed.
Lemma gives_ret {E T} (Q : T → Prop) x : Q x → gives Q (mret x : comp Fs E T).
Proof. intros Hx s y s' [= <- _]. done. Qed.

Definition all_daily (d : path) (l : list (Z * path)) : Prop := Forall (λ c, daily_log d c.2) l.

Lemma candidate_daily d name c : candidate_of (mkEntry (Some name) true) = Some c → daily_log d (path_join d name).
Proof.
  unfold candidate_of. cbn. intros Hc. exists name. split; [done|].
  destruct (daily_log_date_from_name name) as [[[? ?] ?]|]; [done|discriminate].
Qed.

Lemma collect_reads d names : reads (collect_candidates d names).
Proof.
  induction names as [|name names IH]; cbn [collect_candidates]; [apply touches_ret|].
  apply touches_bind; [apply touches_guard|intros _]. apply touches_bind; [apply reads_is_file|intros file].
  apply touches_bind; [exact IH|intros rest]. apply touches_ret.
Qed.
Lemma collect_daily d names : gives (all_daily d) (collect_candidates d names).
Proof.
  induction names as [|name names IH]; cbn [collect_candidates]; [by apply gives_ret, Forall_nil|].
  eapply gives_bind; [apply gives_any|intros _ _]. eapply gives_bind; [apply gives_any|intros file _].
  eapply gives_bind; [exact IH|]. intros rest Hrest. apply gives_ret.
  destruct file; [|done]. destruct (candidate_of _) as [[day n]|] eqn:Ec; [|done].
  constructor; [|done]. by apply (candidate_daily d) in Ec.
Qed.

Lemma remove_expired_prunes d cutoff l : all_daily d l →
  prunes d (remove_expired cutoff l) ∧ gives (λ r, all_daily d r.2) (remove_expired cutoff l).
Proof.
  induction 1 as [|[day p] l Hp Hl [IH1 IH2]]; cbn [remove_expired]; [split; [apply prunes_ret|by apply gives_ret, Forall_nil]|].
  destruct (day <? cutoff); split.
  - apply prunes_bind; [by apply prunes_attempt, prunes_remove|intros r]. apply prunes_bind; [done|].
    intros [n rest]. apply prunes_ret.
  - eapply gives_bind; [apply gives_any|intros r _]. eapply gives_bind; [exact IH2|]. intros [n rest] Hr.
    apply gives_ret. destruct (is_ok r); [done|]. by constructor.
  - apply prunes_bind; [done|]. intros [n rest]. apply prunes_ret.
  - eapply gives_bind; [exact IH2|]. intros [n rest] Hr. apply gives_ret. by constructor.
Qed.

Lemma remove_each_prunes d l : Forall (daily_log d) l → prunes d (remove_each l).
Proof.
  induction 1 as [|p l Hp Hl IH]; cbn [remove_each]; [apply prunes_ret|].
  apply prunes_bind; [by apply prunes_attempt, prunes_remove|intros r]. apply prunes_bind; [done|]. intros. apply prunes_ret.
Qed.

Lemma read_dir_reads d : reads (fs_read_dir d).
Proof. unfold fs_read_dir. touches_tac. Qed.

Lemma purge_prunes d now : prunes d (purge_expired_logs_in d now).
Proof.
  unfold purge_expired_logs_in. apply prunes_bind; [apply prunes_reads, read_dir_reads|intros names].
  eapply prunes_gives; [apply prunes_reads, collect_reads|apply collect_daily|]. intros l Hl. cbv zeta.
  assert (all_daily d (sort_by (λ a b, fst a <=? fst b) l)) as Hs.
  { unfold all_daily. eapply Permutation_Forall; [|exact Hl]. symmetry. apply sort_by_perm. }
  destruct (remove_expired_prunes d (sat_sub now (LOG_RETENTION_DAYS * 86400)) _ Hs) as [H1 H2].
  eapply prunes_gives; [exact H1|exact H2|]. intros [n rest] Hr.
  apply prunes_bind; [|intros; apply prunes_ret]. apply remove_each_prunes.
  apply Forall_forall. intros q (c & -> & Hc)%list_elem_of_fmap.
  cbn in Hr. unfold all_daily in Hr. rewrite Forall_forall in Hr. apply Hr. apply elem_of_take in Hc as (? & ? & ?); by eapply list_elem_of_lookup_2.
Qed.

Lemma collect_faultless d names : faultless (collect_candidates d names).
Proof.
  induction names as [|name names IH]; cbn [collect_candidates]; [apply faultless_ret|].
  apply faultless_bind; [apply faultless_guard|intros _]. apply faultless_bind; [apply faultless_is_file|intros file].
  apply faultless_bind; [exact IH|intros rest]. apply faultless_ret.
Qed.
Lemma remove_expired_faultless cutoff l : faultless (remove_expired cutoff l).
Proof.
  induction l as [|[day p] l IH]; cbn [remove_expired]; [apply faultless_ret|].
  destruct (day <? cutoff); [apply faultless_bind; [apply faultless_attempt, faultless_remove|intros r]|];
    (apply faultless_bind; [exact IH|intros [n rest]; apply faultless_ret]).
Qed.
Lemma remove_each_faultless l : faultless (remove_each l).
Proof.
  induction l as [|p l IH]; cbn [remove_each]; [apply faultless_ret|].
  apply faultless_bind; [apply faultless_attempt, faultless_remove|intros r].
  apply faultless_bind; [exact IH|intros; apply faultless_ret].
Qed.
Lemma read_dir_faultless d : faultless (fs_read_dir d).
Proof. unfold fs_read_dir. frame_tac. Qed.
Lemma purge_faultless d now : faultless (purge_expired_logs_in d now).
Proof.
  unfold purge_expired_logs_in. apply faultless_bind; [apply read_dir_faultless|intros names].
  apply faultless_bind; [apply collect_faultless|intros l]. cbv zeta.
  apply faultless_bind; [apply remove_expired_faultless|intros [n rest]].
  apply faultless_bind; [apply remove_each_faultless|intros; apply faultless_ret].
Qed.

(** ** One append *)

Section Append.
Context `{Sha256} (io_kind_label : IoKind → str) `{IoDisplay}.

Definition quiet {E T} (m : comp Logger E T) : Prop := ∀ l,
  let l' := (m l).2 in log_fs l' = log_fs l ∧ committed l' = committed l ∧ writer l' = writer l.

Lemma on_files_inv {E E' T U} (m : comp Fs E T) (k : result E T → comp Logger E' U) l r l' :
  (x ← on_files m; k x) l = (r, l') → ∃ x f, m (log_fs l) = (x, f) ∧ k x (set_log_fs f l) = (r, l').
Proof. unfold mbind, comp_bind, on_files. destruct (m (log_fs l)) as [x f] eqn:E1. eauto. Qed.

Lemma quiet_record {E} m nm dt o : quiet (log_record m nm dt o : comp Logger E unit).
Proof. intros l. unfold log_record, modify. cbn. by destruct (match o with Some _ => _ | None => _ end). Qed.

Lemma or_append_error_spec {T} m (r : result IoError T) l x l' :
  or_append_error io_kind_label m r l = (x, l') →
  log_fs l' = log_fs l ∧ committed l' = committed l ∧ writer l' = writer l ∧ is_ok x = is_ok r.
Proof.
  destruct r as [y|e]; cbn; [by intros [= <- <-]|]. unfold mbind, comp_bind.
  pose proof (quiet_record (E := LogWriteError) m (lit "storage.append.error")
    (lit "result=io_failure kind=" ++ io_kind_label (io_kind e)) (Some DiagnosticOutcome.Failed) l) as (H1 & H2 & H3).
  unfold record_append_io_error. destruct (log_record _ _ _ _ l) as [[[]|e'] l1] eqn:E1; cbn in *.
  - by intros [= <- <-].
  - by intros [= <- <-].
Qed.

Lemma purge_spec {E} m d l (r : result E unit) l' : purge_expired_logs_with_diagnostics m d l = (r, l') →
  pruned d (log_fs l) (log_fs l') ∧ committed l' = committed l ∧ writer l' = writer l ∧ r = Ok tt ∧
  (faults (log_fs l) = [] → faults (log_fs l') = []).
Proof.
  unfold purge_expired_logs_with_diagnostics. intros (x & f & E1 & E2)%on_files_inv.
  pose proof (purge_prunes d (unix_seconds m) (log_fs l)) as Hp. rewrite E1 in Hp. cbn in Hp.
  pose proof (purge_faultless d (unix_seconds m) (log_fs l)) as Hfault. rewrite E1 in Hfault. cbn in Hfault.
  set (l1 := set_log_fs f l) in *. assert (log_fs l' = f ∧ committed l' = committed l ∧ writer l' = writer l ∧ r = Ok tt) as (-> & ? & ? & ?); [|done].
  assert (∀ nm dt o, log_record m nm dt o l1 = (r, l') →
    log_fs l' = f ∧ committed l' = committed l ∧ writer l' = writer l ∧ r = Ok tt) as Hr.
  { intros nm dt o El. pose proof (quiet_record (E := E) m nm dt o l1) as (H1 & H2 & H3).
    rewrite El in H1, H2, H3. split_and!; [done..|]. unfold log_record, modify in El. congruence. }
  destruct x as [report|e]; [|by apply Hr in E2]. destruct (0 <? removed report); [by apply Hr in E2|].
  injection E2 as <- <-. done.
Qed.

(** What the file at [p] and its neighbours may have become. *)
Definition appended (d p : path) (rows : bytes) (s s' : Fs) (all : bool) : Prop :=
  let old := default [] (content_at s p) in
  ∃ w, w `prefix_of` rows ∧ (all = true → w = rows) ∧
  (nodes s' !! p = nodes s !! p ∧ w = [] ∨ content_at s' p = Some (old ++ w) ∨
   nodes s' !! p = None ∧ daily_log d p) ∧
  ∀ q, q ≠ p → ¬ q `prefix_of` d → nodes s' !! q = nodes s !! q ∨ nodes s' !! q = None ∧ daily_log d q.

Lemma appended_none d p rows s s' : (∀ q, ¬ q `prefix_of` d → nodes s' !! q = nodes s !! q) →
  ¬ p `prefix_of` d → appended d p rows s s' false.
Proof.
  intros E Hp. exists []. split_and!; [apply prefix_nil|done|left; by rewrite E|]. intros q Hq Hd. left. by apply E.
Qed.

Lemma open_append_spec p s r s' : fs_open_append p s = (r, s') →
  (∀ q, q ≠ p → nodes s' !! q = nodes s !! q) ∧
  match r with
  | Ok _ => content_at s' p = Some (default [] (content_at s p))
  | Err _ => nodes s' !! p = nodes s !! p
  end.
Proof.
  unfold fs_open_append, guard_call, next_fault, mbind, comp_bind, content_at.
  destruct s as [m [|[f|] fs]]; cbn; [|by intros [= <- <-]|];
    (destruct (m !! p) as [[c|]|] eqn:Ep; [intros [= <- <-]; cbn; rewrite Ep; auto|intros [= <- <-]; cbn; by rewrite Ep|];
     match goal with |- context [is_dir ?s ?q] => destruct (is_dir s q) end; intros [= <- <-]; cbn;
     [split; [intros q Hq; by rewrite lookup_insert_ne|rewrite lookup_insert_eq; auto]|by rewrite Ep]).
Qed.
Lemma quiet_bind {T U} (m : comp Logger LogWriteError T) (k : T → comp Logger LogWriteError U) l r l' :
  (x ← m; k x) l = (r, l') →
  ∃ x l1, m l = (x, l1) ∧ match x with Ok x => k x l1 = (r, l') | Err e => r = Err e ∧ l' = l1 end.
Proof.
  unfold mbind, comp_bind. destruct (m l) as [[x|e] l1] eqn:E1; intros E2; eexists _, _; (split; [done|]); [done|].
  by injection E2 as <- <-.
Qed.

Lemma appended_step d p rows s s0 s' all : (∀ q, ¬ q `prefix_of` d → nodes s0 !! q = nodes s !! q) →
  ¬ p `prefix_of` d → appended d p rows s0 s' all → appended d p rows s s' all.
Proof.
  intros E Hp (w & Hw & Hall & Hc & Hq). exists w. split_and!; [done|done| |].
  - unfold content_at in Hc |- *. by rewrite <- (E p Hp).
  - intros q Hne Hd. rewrite <- (E q Hd). by apply Hq.
Qed.

(** Once the file is open: the rows are written, then the pass may run. *)
Lemma append_opened_spec m d p (purge : bool) lines l r l' c :
  content_at (log_fs l) p = Some c →
  (written ← on_files (write_log_lines p lines);
   written ← attempt (or_append_error io_kind_label m written);
   _ ← (if purge then purge_expired_logs_with_diagnostics m d else mret tt);
   lift written : comp Logger LogWriteError unit) l = (r, l') →
  appended d p (rows_on c lines) (log_fs l) (log_fs l') (is_ok r) ∧ committed l' = committed l ∧ writer l' = writer l ∧
  (faults (log_fs l) = [] → faults (log_fs l') = [] ∧ is_ok r = true).
Proof.
  intros Hc (x & f & E1 & E2)%on_files_inv.
  destruct (write_log_lines_spec _ _ _ _ _ _ E1 Hc) as (w & Hw & Hcw & Hok & Hs).
  unfold attempt in E2. unfold mbind at 1, comp_bind at 1 in E2.
  destruct (or_append_error io_kind_label m x (set_log_fs f l)) as [y l2] eqn:E3.
  apply or_append_error_spec in E3 as (F1 & F2 & F3 & F4). cbn in F1, F2, F3.
  assert (∃ l3, pruned d f (log_fs l3) ∧ committed l3 = committed l ∧ writer l3 = writer l ∧
    (faults f = [] → faults (log_fs l3) = []) ∧ (r, l') = (y, l3))
    as (l3 & Hp & Hc3 & Hw3 & Hf3 & [= -> ->]).
  { unfold mbind, comp_bind in E2. destruct purge.
    - destruct (purge_expired_logs_with_diagnostics m d l2) as [z l3] eqn:E4.
      apply purge_spec in E4 as (G1 & G2 & G3 & -> & G5). exists l3. rewrite <- F1, G2, G3, F2, F3.
      split_and!; [done..|]. by rewrite <- E2.
    - exists l2. rewrite F1. split_and!; [by apply pruned_refl|done|done|done|]. by rewrite <- E2. }
  split_and!; [|done|done|].
  2:{ intros Hf. destruct (sure_log_lines p lines (log_fs l) Hf (mk_is_Some _ _ Hc)) as (S1 & S2 & _).
      rewrite E1 in S1, S2. cbn in S1, S2. rewrite F4. auto. }
  exists w. split_and!; [done|by rewrite F4| |].
  - destruct (Hp p) as [E|[E Hd]]; [|by right; right]. right; left.
    transitivity (content_at f p); [unfold content_at; by rewrite E|]. by rewrite Hcw, Hc.
  - intros q Hq _. rewrite <- (Hs q) by set_solver. apply Hp.
Qed.

Lemma append_spec m d filename lines l r l' :
  let p := path_join d filename in
  append_log_lines_sync_internal io_kind_label m d filename lines l = (r, l') →
  appended d p (rows_on (default [] (content_at (log_fs l) p)) lines) (log_fs l) (log_fs l') (is_ok r) ∧
  committed l' = committed l ∧ writer l' = writer l ∧
  (faults (log_fs l) = [] → faults (log_fs l') = [] ∧ (is_ok r = false → nodes (log_fs l') !! p = nodes (log_fs l) !! p)).
Proof.
  intros p E. unfold append_log_lines_sync_internal in E. cbv zeta in E. fold p in E.
  assert (¬ p `prefix_of` d) as Hpd by apply child_not_prefix. clearbody p.
  apply on_files_inv in E as (x & f & E1 & E).
  assert (∀ q, ¬ q `prefix_of` d → nodes f !! q = nodes (log_fs l) !! q) as Hf
    by (intros q; apply (create_dir_all_other _ _ _ _ _ E1)).
  apply quiet_bind in E as (y & l1 & E2 & E). apply or_append_error_spec in E2 as (F1 & F2 & F3 & _).
  cbn in F1, F2, F3.
  assert (faults (log_fs l) = [] → faults f = []) as Hff.
  { intros Hf0. pose proof (faultless_create_dir_all d (log_fs l) Hf0) as Hx. by rewrite E1 in Hx. }
  assert (∀ l2, log_fs l2 = log_fs l1 → appended d p (rows_on (default [] (content_at (log_fs l) p)) lines)
    (log_fs l) (log_fs l2) false ∧
    (faults (log_fs l) = [] → faults (log_fs l2) = [] ∧ (false = false → nodes (log_fs l2) !! p = nodes (log_fs l) !! p)))
    as Hnone.
  { intros l2 El. rewrite El, F1. split; [by apply appended_none|]. intros Hf0. split; [auto|intros _; by apply Hf]. }
  destruct y as [[]|e]; [|destruct E as [-> ->]; split_and!; [by apply Hnone|done|done|by apply Hnone]].
  apply quiet_bind in E as (z & l2 & E3 & E).
  assert (log_fs l2 = log_fs l1 ∧ committed l2 = committed l1 ∧ writer l2 = writer l1) as (G1 & G2 & G3).
  { destruct (free_bytes m) as [available|]; [|by injection E3 as <- <-].
    destruct (available <? _); [|by injection E3 as <- <-].
    pose proof (quiet_record (E := LogWriteError) m (lit "storage.write_suppressed")
      (lit "reason=low_free_space available=" ++ show_u available) (Some DiagnosticOutcome.Suppressed) l1) as (H1 & H2 & H3).
    apply quiet_bind in E3 as (u & l3 & E4 & E5). rewrite E4 in H1, H2, H3. cbn in H1, H2, H3.
    destruct u as [[]|]; [injection E5 as <- <-; done|destruct E5 as [_ ->]; done]. }
  rewrite F2 in G2. rewrite F3 in G3.
  destruct z as [[]|e]; [|destruct E as [-> ->]; split_and!; [by apply Hnone|done|done|by apply Hnone]].
  apply on_files_inv in E as (existed & f2 & E4 & E). cbn [log_fs set_log_fs] in *.
  assert (faults (log_fs l) = [] → faults f2 = []) as Hff2.
  { intros Hf0. pose proof (faultless_exists p (log_fs l2)) as Hx. rewrite E4, G1, F1 in Hx. auto. }
  apply (reads_at _ _ _ _ (reads_exists p)) in E4. apply on_files_inv in E as (opened & f3 & E5 & E).
  cbn [log_fs set_log_fs] in E5.
  assert (faults (log_fs l) = [] → faults f3 = []) as Hff3.
  { intros Hf0. pose proof (faultless_open_append p f2) as Hx. rewrite E5 in Hx. auto. }
  apply open_append_spec in E5 as [Ho Hopen].
  assert (∀ q, q ≠ p → nodes f3 !! q = nodes f !! q) as Hf3 by (intros q Hq; rewrite Ho, E4, G1, F1; done).
  destruct opened as [[]|e].
  - cbn [or_append_error] in E. apply quiet_bind in E as (u & l4 & E6 & E). injection E6 as <- <-.
    assert (content_at f3 p = Some (default [] (content_at (log_fs l) p))) as Hc3.
    { etransitivity; [exact Hopen|]. unfold content_at. by rewrite E4, G1, F1, Hf. }
    eapply append_opened_spec in E as (Ha & Hb1 & Hb2 & Hb3); [|exact Hc3]. cbn in Hb1, Hb2, Hb3.
    split_and!; [|by rewrite Hb1|by rewrite Hb2|].
    2:{ intros Hf0. destruct (Hb3 (Hff3 Hf0)) as [K1 K2]. rewrite K2. done. }
    cbn [log_fs set_log_fs] in Ha.
    destruct Ha as (w & Hw & Hall & Hcase & Hq). rewrite Hc3 in Hcase. cbn [default from_option id] in Hcase.
    exists w. split_and!; [done|done| |].
    + destruct Hcase as [[Eq ->]|[?|?]]; [|by right; left|by right; right]. right; left. rewrite app_nil_r.
      rewrite <- Hc3. unfold content_at. by rewrite Eq.
    + intros q Hne Hd. rewrite <- (Hf q Hd), <- (Hf3 q Hne). by apply Hq.
  - apply quiet_bind in E as (u & l4 & E6 & E). pose proof (or_append_error_spec _ _ _ _ _ E6) as (K1 & K2 & K3 & K4).
    cbn in K1, K2, K3, K4. destruct u as [?|e2]; [done|]. destruct E as [-> ->].
    assert (∀ q, ¬ q `prefix_of` d → nodes f3 !! q = nodes (log_fs l) !! q) as Hsame.
    { intros q Hd. destruct (decide (q = p)) as [->|Hne]; [|by rewrite Hf3, Hf].
      etransitivity; [exact Hopen|]. by rewrite E4, G1, F1, Hf. }
    split_and!; [|by rewrite K2|by rewrite K3|]; rewrite K1.
    + by apply appended_none.
    + intros Hf0. split; [auto|intros _; by apply Hsame].
Qed.
End Append.

(** ** One flush *)

(** The events that are not persisted yet. *)
Definition fresh (evs : list DiagnosticEvent) (n : Z) : list DiagnosticEvent :=
  List.filter (λ e, negb (sequence e <=? n)) evs.
Definition reached (evs : list DiagnosticEvent) (n : Z) : Z := default n (last (map sequence evs)).

Lemma build_spec evs n k :
  build_log_lines_from evs n k = (map log_line (fresh evs n), default k (last (map sequence (fresh evs n)))).
Proof.
  revert k. induction evs as [|e evs IH]; intros k; [done|]. cbn [build_log_lines_from fresh List.filter].
  destruct (sequence e <=? n); cbn [negb]; [apply IH|]. fold (fresh evs n). rewrite IH.
  cbn [map]. f_equal. destruct (map sequence (fresh evs n)) as [|z zs]; [done|].
  change (last (sequence e :: z :: zs)) with (last (z :: zs)). destruct (last (z :: zs)) eqn:El; [done|].
  by apply last_None in El.
Qed.
Lemma build_lines_spec s n :
  build_log_lines s n = (map log_line (fresh (events s) n), reached (fresh (events s) n) n).
Proof. unfold build_log_lines. apply build_spec. Qed.

Definition log_path (d : path) (m : Moment) : path :=
  let '(year, month, day) := utc_date_of (unix_seconds m) in path_join d (daily_log_filename year month day).
Definition held (s : Fs) (p : path) : bytes := default [] (content_at s p).

Section Flush.
Context `{Sha256} (io_kind_label : IoKind → str) `{IoDisplay}.
Abbreviation flush m d := (flush_diagnostic_events_to_disk_sync io_kind_label m d : comp Logger unit unit).

Lemma flush_spec m d l r l' : flush m d l = (r, l') →
  let evs := fresh (events (log_store l)) (committed l) in
  let p := log_path d m in
  ∃ all : bool, r = Ok tt ∧ writer l' = writer l ∧
  committed l' = (if all then reached evs (committed l) else committed l) ∧
  appended d p (rows_on (held (log_fs l) p) (map log_line evs)) (log_fs l) (log_fs l') all ∧
  (all = true → evs ≠ []) ∧
  (faults (log_fs l) = [] →
    faults (log_fs l') = [] ∧ (all = false → nodes (log_fs l') !! p = nodes (log_fs l) !! p)).
Proof.
  unfold flush_diagnostic_events_to_disk_sync. unfold mbind at 1, comp_bind at 1. cbn [get].
  rewrite build_lines_spec. intros E. cbv zeta. set (evs := fresh _ _) in *.
  unfold log_path. destruct (utc_date_of (unix_seconds m)) as [[year month] day].
  set (p := path_join d (daily_log_filename year month day)).
  assert (¬ p `prefix_of` d) as Hpd by apply child_not_prefix.
  destruct (bool_decide (map log_line evs = [])) eqn:Hb.
  - injection E as <- <-. exists false. split_and!; [done..| |done|done]. by apply appended_none.
  - unfold mbind, comp_bind, attempt in E.
    destruct (append_log_lines_sync_internal _ _ _ _ _ l) as [x l1] eqn:E1.
    apply append_spec in E1 as (Ha & Hc & Hw & Hf). fold p in Ha, Hf.
    exists (is_ok x). destruct x as [[]|e]; cbn in E; injection E as <- <-; cbn [set_committed log_fs committed writer];
      rewrite ?Hw, ?Hc; (split_and!; [done..|exact Ha| |exact Hf]); [|done].
    intros _ Hnil. apply bool_decide_eq_false in Hb. by rewrite Hnil in Hb.
Qed.
End Flush.

(** ** No row is written twice *)

Definition seqs (s : StoreState) : list Z := map sequence (events s).

(** The sequence numbers of the store: distinct, below the next one, the newest last. *)
Definition store_inv (n : Z) (s : StoreState) : Prop :=
  NoDup (seqs s) ∧ Forall (λ q, q < next_sequence s) (seqs s) ∧
  Forall (λ q, q ≤ default 0 (last (seqs s))) (seqs s) ∧ 0 < next_sequence s ≤ n.

Section Once.
Context `{Sha256} (io_kind_label : IoKind → str) `{IoDisplay}.

Lemma remove_at_sublist {A} i (l : list A) : remove_at i l `sublist_of` l.
Proof.
  unfold remove_at. rewrite <- (take_drop i l) at 3. apply sublist_app; [done|].
  replace (S i) with (i + 1)%nat by lia. rewrite <- drop_drop. apply sublist_drop.
Qed.
Lemma Forall_of_sublist {A} (P : A → Prop) l k : k `sublist_of` l → Forall P l → Forall P k.
Proof. rewrite !Forall_forall. intros Hs Hl x Hx. apply Hl. by eapply elem_of_sublist. Qed.
Lemma seqs_sublist s l : l `sublist_of` events s → map sequence l `sublist_of` seqs s.
Proof. apply fmap_sublist. Qed.

Lemma make_room_seqs s record now : NoDup (seqs s) → Forall (λ q, q < next_sequence s) (seqs s) →
  next_sequence s < u64_max →
  let s' := make_room s record now in
  NoDup (seqs s') ∧ Forall (λ q, q < next_sequence s') (seqs s') ∧
  next_sequence s ≤ next_sequence s' ≤ next_sequence s + 1.
Proof.
  intros Hn Hf Hmax. unfold make_room. destruct (_ <=? _)%nat; [|cbv zeta; split_and!; done || lia].
  set (s1 := with_events s _).
  assert (NoDup (seqs s1) ∧ Forall (λ q, q < next_sequence s) (seqs s1)) as [Hn1 Hf1].
  { assert (seqs s1 `sublist_of` seqs s) as Hsub by apply seqs_sublist, remove_at_sublist.
    split; [by eapply sublist_NoDup|by eapply Forall_of_sublist]. }
  set (s2 := if truncation_recorded s1 then s1 else _). cbv zeta.
  assert (NoDup (seqs s2) ∧ Forall (λ q, q < next_sequence s2) (seqs s2) ∧
    next_sequence s ≤ next_sequence s2 ≤ next_sequence s + 1) as (Hn2 & Hf2 & Hb2).
  { subst s2. destruct (truncation_recorded s1); [split_and!; [done..|cbn; lia|cbn; lia]|].
    unfold seqs, push_event. cbn. assert (sat_add 64 (next_sequence s) 1 = next_sequence s + 1) as Hs by (unfold_ints; lia).
    rewrite Hs. split_and!; [|constructor; [lia|]|lia|lia].
    - constructor; [|exact Hn1]. intros Hin. rewrite Forall_forall in Hf1. specialize (Hf1 _ Hin). lia.
    - eapply Forall_impl; [exact Hf1|]. cbn. lia. }
  destruct (_ <=? _)%nat; [|done]. cbn [with_events next_sequence].
  assert (seqs (with_events s2 (remove_at 1 (events s2))) `sublist_of` seqs s2) as Hsub
    by apply seqs_sublist, remove_at_sublist.
  split_and!; [by eapply sublist_NoDup|by eapply Forall_of_sublist|lia|lia].
Qed.

Lemma record_clean_inv n s record mnow now nm dt : store_inv n s → n + 2 ≤ u64_max →
  store_inv (n + 2) (record_clean s record mnow now nm dt) ∧
  next_sequence s ≤ next_sequence (record_clean s record mnow now nm dt).
Proof.
  intros (Hn & Hf & Hl & Hp) Hmax. unfold record_clean.
  destruct (if str_eqb nm LAYOUT_ERROR then _ else _) as [s'|] eqn:Ec.
  - assert (seqs s' = seqs s ∧ next_sequence s' = next_sequence s) as [E1 E2].
    { destruct (str_eqb nm LAYOUT_ERROR); [|done]. revert Ec. unfold coalesce_repeated_layout_event, seqs.
      destruct (reverse (events s)) as [|event older] eqn:Er; [done|].
      assert (events s = reverse older ++ [event]) as -> by (by rewrite <- (reverse_involutive (events s)), Er, reverse_cons).
      repeat case_match; intros; simplify_eq/=; rewrite !map_app; done. }
    unfold store_inv. rewrite E1, E2. split_and!; [done..|lia|lia|lia].
  - pose proof (make_room_seqs (clear_coalesced s) record mnow Hn Hf) as Hr. cbn [clear_coalesced next_sequence] in Hr.
    specialize (Hr ltac:(lia)). cbv zeta in Hr. set (s1 := make_room _ _ _) in *. destruct Hr as (Hn1 & Hf1 & Hb1).
    unfold store_inv, seqs, push_event. cbn. rewrite map_app. cbn [map sequence]. fold (seqs s1).
    assert (sat_add 64 (next_sequence s1) 1 = next_sequence s1 + 1) as -> by (unfold_ints; lia).
    split_and!; [|..|lia|lia|lia].
    + apply NoDup_app. split_and!; [done| |apply NoDup_singleton]. intros q Hq Hq'.
      apply list_elem_of_singleton in Hq' as ->. rewrite Forall_forall in Hf1. specialize (Hf1 _ Hq). lia.
    + apply Forall_app. split; [eapply Forall_impl; [exact Hf1|cbn; lia]|repeat constructor; lia].
    + rewrite last_snoc. cbn. apply Forall_app. split; [eapply Forall_impl; [exact Hf1|cbn; lia]|repeat constructor; lia].
Qed.

(** The calls record at most [k / 2] events, and leave the store well formed. *)
Definition grows {E T} (k : Z) (m : comp Logger E T) : Prop := ∀ l n,
  store_inv n (log_store l) → n + k ≤ u64_max →
  store_inv (n + k) (log_store (m l).2) ∧ next_sequence (log_store l) ≤ next_sequence (log_store (m l).2).

Lemma store_inv_weaken n k s : store_inv n s → 0 ≤ k → store_inv (n + k) s.
Proof. intros (? & ? & ? & ?) Hk. split_and!; first [done|lia]. Qed.

Lemma grows_bind {E T U} j k (m : comp Logger E T) (f : T → comp Logger E U) : 0 ≤ j → 0 ≤ k →
  grows j m → (∀ x, grows k (f x)) → grows (j + k) (x ← m; f x).
Proof.
  intros Hj Hk Hm Hf l n Hi Hn. unfold mbind, comp_bind. specialize (Hm l n Hi ltac:(lia)).
  destruct (m l) as [[x|e] l1]; cbn in Hm.
  - destruct Hm as [H1 H2]. destruct (Hf x l1 (n + j) H1 ltac:(lia)) as [H3 H4].
    rewrite Z.add_assoc. split; [done|lia].
  - destruct Hm as [H1 H2]. rewrite Z.add_assoc. split; [by apply store_inv_weaken|cbn; lia].
Qed.
Lemma grows_zero {E T} (m : comp Logger E T) k : 0 ≤ k → keeps log_store m → grows k m.
Proof. intros Hk Hm l n Hi Hn. rewrite Hm. split; [by apply store_inv_weaken|lia]. Qed.
Lemma grows_weaken {E T} (m : comp Logger E T) j k : 0 ≤ j → j ≤ k → grows j m → grows k m.
Proof.
  intros Hj Hk Hm l n Hi Hn. destruct (Hm l n Hi ltac:(lia)) as [H1 H2]. split; [|done].
  replace (n + k) with (n + j + (k - j)) by lia. apply store_inv_weaken; [done|lia].
Qed.
Lemma grows_attempt {E E' T} k (m : comp Logger E T) : grows k m → grows k (attempt m : comp Logger E' _).
Proof. intros Hm l n Hi Hn. unfold attempt. specialize (Hm l n Hi Hn). by destruct (m l). Qed.

Lemma record_with_context_inv n s record mnow now nm dt s' : store_inv n s → n + 2 ≤ u64_max →
  record_with_context s record mnow now nm dt = Ok s' →
  store_inv (n + 2) s' ∧ next_sequence s ≤ next_sequence s'.
Proof.
  intros Hi Hn E. unfold record_with_context in E. destruct (clean_details dt) as [dt'|] eqn:Ed; [|done].
  injection E as <-. by apply record_clean_inv.
Qed.

Lemma grows_record {E} m nm dt o : grows 2 (log_record m nm dt o : comp Logger E unit).
Proof.
  intros l n Hi Hn. unfold log_record, modify. cbn [snd].
  assert (∀ o', match record_with_outcome (log_store l) (marker_nanos m) (nanos m) nm dt o' with
    | Ok s => store_inv (n + 2) s ∧ next_sequence (log_store l) ≤ next_sequence s | Err _ => True end) as Hr.
  { intros o'. destruct (record_with_outcome _ _ _ _ _ _) as [s'|] eqn:Er; [|done].
    unfold record_with_outcome in Er. destruct (begin_operation (log_store l)) as [ctx s1] eqn:Eb.
    assert (store_inv n s1 ∧ next_sequence s1 = next_sequence (log_store l)) as [Hi1 <-].
    { unfold begin_operation, allocate_operation in Eb. injection Eb as _ <-. done. }
    by eapply record_with_context_inv. }
  assert (store_inv (n + 2) (log_store l) ∧ next_sequence (log_store l) ≤ next_sequence (log_store l))
    by (split; [by apply store_inv_weaken|lia]).
  destruct o as [o|]; [specialize (Hr o)|specialize (Hr (derive_outcome nm dt)); unfold record_event];
    by destruct (record_with_outcome _ _ _ _ _ _).
Qed.

Lemma keeps_on_files {E E' T} (m : comp Fs E T) : keeps log_store (on_files m : comp Logger E' _).
Proof. intros l. unfold on_files. by destruct (m (log_fs l)). Qed.

Lemma grows_purge {E} m d : grows 2 (purge_expired_logs_with_diagnostics m d : comp Logger E unit).
Proof.
  apply (grows_bind 0 2); [done|done|apply grows_zero; [done|apply keeps_on_files]|]. intros [report|e].
  - destruct (0 <? removed report); [apply grows_record|by apply grows_zero].
  - apply grows_record.
Qed.

Lemma grows_error {T} m (r : result IoError T) : grows 2 (or_append_error io_kind_label m r).
Proof.
  destruct r; [by apply grows_zero|]. apply (grows_bind 2 0); [done|done|apply grows_record|].
  intros _. by apply grows_zero.
Qed.
Lemma grows_ok {T} m (x : T) k : 0 ≤ k → grows k (or_append_error io_kind_label m (Ok x)).
Proof. intros. by apply grows_zero. Qed.

Lemma grows_append m d filename lines : grows 10 (append_log_lines_sync_internal io_kind_label m d filename lines).
Proof.
  apply (grows_bind 0 10); [done|done|apply grows_zero; [done|apply keeps_on_files]|intros created].
  apply (grows_bind 2 8); [done|done|apply grows_error|intros _]. cbv zeta.
  apply (grows_bind 2 6); [done|done| |intros _].
  { destruct (free_bytes m) as [available|]; [|by apply grows_zero]. destruct (available <? _); [|by apply grows_zero].
    apply (grows_bind 2 0); [done|done|apply grows_record|intros _; by apply grows_zero]. }
  apply (grows_bind 0 6); [done|done|apply grows_zero; [done|apply keeps_on_files]|intros existed].
  apply (grows_bind 0 6); [done|done|apply grows_zero; [done|apply keeps_on_files]|intros opened].
  apply (grows_bind 2 4); [done|done|apply grows_error|intros _].
  apply (grows_bind 0 4); [done|done|apply grows_zero; [done|apply keeps_on_files]|intros written].
  apply (grows_bind 2 2); [done|done|apply grows_attempt, grows_error|intros r].
  apply (grows_bind 2 0); [done|done| |intros _; by apply grows_zero].
  destruct (negb _); [apply grows_purge|by apply grows_zero].
Qed.

Lemma grows_flush {E} m d : grows 10 (flush_diagnostic_events_to_disk_sync io_kind_label m d : comp Logger E unit).
Proof.
  apply (grows_bind 0 10); [done|done|by apply grows_zero|intros l0].
  destruct (build_log_lines _ _) as [lines last]. destruct (bool_decide _); [by apply grows_zero|].
  destruct (utc_date_of _) as [[year month] day].
  apply (grows_bind 10 0); [done|done|apply grows_attempt, grows_append|]. intros [[]|e]; by apply grows_zero.
Qed.

Inductive LogStep := LRecord (i : Input) | LFlush (m : Moment).
Definition log_step (d : path) (l : Logger) (st : LogStep) : Logger :=
  match st with
  | LRecord i => set_log_store (record_input (log_store l) i) l
  | LFlush m => (flush_diagnostic_events_to_disk_sync io_kind_label m d l : result unit unit * Logger).2
  end.
Definition log_run (d : path) (l : Logger) (steps : list LogStep) : Logger := fold_left (log_step d) steps l.

(** A log that held [init] and was given the rows of [evs]. *)
Definition grown (init : bytes) (evs : list DiagnosticEvent) : bytes :=
  match evs with [] => init | _ => init ++ rows_on init (map log_line evs) end.

Lemma lines_bytes_app a b : lines_bytes (a ++ b) = lines_bytes a ++ lines_bytes b.
Proof. apply flat_map_app. Qed.
Lemma rows_nonempty old evs : evs ≠ [] → rows_on old (map log_line evs) ≠ [].
Proof.
  destruct evs as [|e evs]; [done|]. intros _ E. unfold rows_on in E. apply app_eq_nil in E as [_ E].
  cbn [map lines_bytes flat_map] in E. unfold line_bytes in E. destruct (utf8_encode (log_line e)); done.
Qed.
Lemma grown_app init a b : b ≠ [] → grown init a ++ rows_on (grown init a) (map log_line b) = grown init (a ++ b).
Proof.
  intros Hb. destruct a as [|x a]; [by destruct b|].
  assert (rows_on (grown init (x :: a)) (map log_line b) = lines_bytes (map log_line b)) as ->.
  { unfold rows_on at 1, header_on. rewrite bool_decide_eq_false_2; [done|].
    cbn [grown]. intros [_ E]%app_eq_nil. by apply (rows_nonempty init (x :: a)) in E. }
  change (grown init ((x :: a) ++ b)) with (init ++ rows_on init (map log_line ((x :: a) ++ b))).
  unfold grown, rows_on. by rewrite map_app, lines_bytes_app, <- !app_assoc.
Qed.

Lemma fresh_sublist l c : fresh l c `sublist_of` l.
Proof.
  unfold fresh. induction l as [|e l IH]; [constructor|]. cbn.
  destruct (negb _); [by apply sublist_skip|by apply sublist_cons].
Qed.
Lemma fresh_spec s n c : store_inv n s → let evs := fresh (events s) c in evs ≠ [] →
  NoDup (map sequence evs) ∧ Forall (λ e, c < sequence e ≤ reached evs c) evs ∧ reached evs c < next_sequence s.
Proof.
  intros (Hn & Hf & Hl & Hp) evs Hne. unfold seqs in *.
  assert (evs `sublist_of` events s) as Hsub by apply fresh_sublist.
  assert (∀ e, e ∈ evs → c < sequence e ∧ e ∈ events s) as Hin.
  { intros e He. split; [|by eapply elem_of_sublist]. subst evs. apply list_elem_of_In, filter_In in He as [_ He]. lia. }
  destruct (last (events s)) as [e0|] eqn:El.
  2:{ apply last_None in El. subst evs. by rewrite El in Hne. }
  apply last_Some in El as [l0 El]. rewrite El in *. rewrite map_app in Hl, Hf, Hn. cbn [map] in *. rewrite last_snoc in Hl.
  cbn [default from_option id] in Hl. rewrite Forall_forall in Hl.
  assert (∀ e, e ∈ evs → sequence e ≤ sequence e0) as Hmax.
  { intros e He. apply Hl. apply Hin in He as [_ He]. change [sequence e0] with (map sequence [e0]).
    rewrite <- map_app. by apply (list_elem_of_fmap_2 sequence). }
  assert (c < sequence e0) as Hc0.
  { destruct evs as [|e evs'] eqn:Ee; [done|]. assert (e ∈ e :: evs') as He by set_solver.
    destruct (Hin e He). specialize (Hmax e He). lia. }
  assert (reached evs c = sequence e0) as ->.
  { subst evs. unfold fresh, reached. rewrite ?El, List.filter_app. cbn [List.filter].
    replace (sequence e0 <=? c) with false by lia. change (if negb false then [e0] else []) with [e0].
    rewrite map_app. change (map sequence [e0]) with [sequence e0]. by rewrite last_snoc. }
  split_and!.
  - eapply sublist_NoDup; [|apply fmap_sublist, Hsub]. by rewrite map_app.
  - apply Forall_forall. intros e He. split; [by apply Hin|by apply Hmax].
  - rewrite Forall_forall in Hf. apply Hf. set_solver.
Qed.

Definition once_inv (n : Z) (p : path) (init : bytes) (l : Logger) : Prop :=
  faults (log_fs l) = [] ∧ store_inv n (log_store l) ∧ committed l < next_sequence (log_store l) ∧
  ∃ init' rows, (init' = init ∨ init' = []) ∧ held (log_fs l) p = grown init' rows ∧
    NoDup (map sequence rows) ∧ Forall (λ e, sequence e ≤ committed l) rows.

Lemma once_step n d p init l st : once_inv n p init l → n + 10 ≤ u64_max →
  match st with LFlush m => log_path d m = p | LRecord _ => True end →
  once_inv (n + 10) p init (log_step d l st).
Proof.
  intros (Hf & Hs & Hc & init' & rows & Hi & Hheld & Hn & Hle) Hmax Hp. destruct st as [i|m]; cbn [log_step].
  - destruct (record_clean_inv n (log_store l) (in_record i) (in_marker_now i) (in_now i) (in_name i) (in_details i) Hs
      ltac:(lia)) as [H1 H2].
    unfold once_inv. cbn. split_and!; [done| |unfold record_input; lia|by exists init', rows].
    replace (n + 10) with (n + 2 + 8) by lia. by apply store_inv_weaken.
  - destruct (grows_flush (E := unit) m d l n Hs Hmax) as [H1 H2].
    destruct (flush_diagnostic_events_to_disk_sync io_kind_label m d l) as [r l'] eqn:E. cbn [snd] in *.
    apply flush_spec in E as (all & _ & _ & Hcom & (w & _ & Hw & Hcase & _) & Hne & Hfaults). rewrite Hp in *.
    destruct (Hfaults Hf) as [Hf' Hsame]. unfold once_inv. split; [done|]. split; [done|].
    destruct all.
    + destruct (fresh_spec _ _ _ Hs (Hne eq_refl)) as (F1 & F2 & F3). rewrite Hcom. split; [lia|].
      set (evs := fresh _ _) in *. specialize (Hw eq_refl). specialize (Hne eq_refl).
      destruct Hcase as [[_ ->]|[Hcase|[Hcase _]]].
      * exfalso. symmetry in Hw. by apply rows_nonempty in Hw.
      * exists init', (rows ++ evs). split; [done|]. split_and!.
        -- unfold held at 1. rewrite Hcase, Hw. cbn [default from_option id]. fold (held (log_fs l) p).
           rewrite Hheld. by apply grown_app.
        -- rewrite map_app. apply NoDup_app. split_and!; [done| |done]. intros q (e & -> & He)%list_elem_of_fmap (e' & Eq & He')%list_elem_of_fmap.
           rewrite Forall_forall in Hle, F2. specialize (Hle _ He). specialize (F2 _ He'). lia.
        -- apply Forall_app. split; [|eapply Forall_impl; [exact F2|cbn; lia]].
           eapply Forall_impl; [exact Hle|]. cbn. intros e He.
           destruct evs as [|x evs']; [done|]. rewrite Forall_forall in F2. specialize (F2 x ltac:(set_solver)). lia.
      * exists [], []. split; [by right|]. split_and!; [|constructor|constructor].
        unfold held, content_at. by rewrite Hcase.
    + rewrite Hcom. split; [lia|]. exists init', rows. split; [done|]. split_and!; [|done|done].
      rewrite <- Hheld. unfold held, content_at. by rewrite (Hsame eq_refl).
Qed.

Lemma once_run n d p init steps l : once_inv n p init l → n + 10 * Z.of_nat (length steps) ≤ u64_max →
  Forall (λ st, match st with LFlush m => log_path d m = p | LRecord _ => True end) steps →
  once_inv (n + 10 * Z.of_nat (length steps)) p init (log_run d l steps).
Proof.
  intros Hi Hmax Hp. revert n l Hi Hmax. induction Hp as [|st steps Hst Hp IH]; intros n l Hi Hmax.
  - cbn. by rewrite Z.add_0_r.
  - cbn [length log_run fold_left] in *. replace (n + 10 * Z.of_nat (S (length steps))) with (n + 10 + 10 * Z.of_nat (length steps)) by lia.
    apply IH; [|lia]. apply (once_step n d p init l st); [done|lia|done].
Qed.
End Once.

(** ** A directory that takes the log *)

(** No file stands where a directory of [d] is to be. *)
Definition ready (d : path) (s : Fs) : Prop := faults s = [] ∧ ∀ q, q `prefix_of` d → content_at s q = None.

Definition file_in (n : option Node) : option bytes := match n with Some (File c) => Some c | _ => None end.

Lemma make_dirs_ready todo from m : (∀ q, q `prefix_of` (from ++ todo) → file_in (m !! q) = None) →
  ∃ m', make_dirs from todo m = Some m' ∧ ∀ q, file_in (m' !! q) = file_in (m !! q).
Proof.
  revert from m. induction todo as [|c todo IH]; intros from m Hm; [by exists m|]. cbn [make_dirs].
  assert (file_in (m !! (from ++ [c])) = None) as Hc by (apply Hm; exists todo; by rewrite <- app_assoc).
  assert (∀ q, file_in (<[from ++ [c] := Dir]> m !! q) = file_in (m !! q)) as Hsame.
  { intros q. destruct (decide (q = from ++ [c])) as [->|Hq]; [by rewrite lookup_insert_eq, Hc|by rewrite lookup_insert_ne]. }
  destruct (IH (from ++ [c]) (<[from ++ [c] := Dir]> m)) as (m' & E & Hm').
  { intros q Hq. rewrite Hsame. apply Hm. by rewrite <- app_assoc in Hq. }
  exists m'. split; [|intros q; by rewrite Hm', Hsame]. cbv zeta.
  destruct (m !! (from ++ [c])) as [[]|]; done.
Qed.

Lemma create_ready d s : ready d s → ∃ s', fs_create_dir_all d s = (Ok tt, s') ∧ ready d s' ∧
  ∀ q, content_at s' q = content_at s q.
Proof.
  intros [Hf Hd]. destruct (make_dirs_ready d [] (nodes s)) as (m' & E & Hm'); [intros q Hq; by apply Hd|].
  exists (mkFs m' []). unfold fs_create_dir_all, guard_call, next_fault, mbind, comp_bind.
  destruct s as [m fs]. cbn in *. subst fs. cbn. rewrite E. cbn. split; [done|].
  assert (∀ q, content_at (mkFs m' []) q = content_at (mkFs m []) q) as Hc by (intros q; apply Hm').
  split; [|done]. split; [done|]. intros q Hq. rewrite Hc. by apply Hd.
Qed.

Section Overlap.
Context `{Sha256} (io_kind_label : IoKind → str) `{IoDisplay}.

Ltac ret_run := match goal with |- (mbind ?k (mret ?x)) ?s = ?rhs => change (k x s = rhs); cbv beta end.
Lemma on_files_run {E E' T U} (m : comp Fs E T) (k : result E T → comp Logger E' U) l x f :
  m (log_fs l) = (x, f) → (y ← on_files m; k y) l = k x (set_log_fs f l).
Proof. unfold mbind, comp_bind, on_files. by intros ->. Qed.

Lemma append_ready m d filename lines l c : let p := path_join d filename in
  ready d (log_fs l) → content_at (log_fs l) p = Some c → free_bytes m = None →
  ∃ f, append_log_lines_sync_internal io_kind_label m d filename lines l = (Ok tt, set_log_fs f l) ∧
    ready d f ∧ content_at f p = Some (c ++ rows_on c lines).
Proof.
  intros p Hr Hc Hfree. destruct (create_ready d _ Hr) as (f1 & E1 & Hr1 & Hc1).
  assert (¬ p `prefix_of` d) as Hpd by apply child_not_prefix.
  unfold append_log_lines_sync_internal. rewrite (on_files_run _ _ _ _ _ E1). cbn [or_append_error].
  rewrite Hfree. cbv zeta. fold p.
  assert (content_at f1 p = Some c) as Hp1 by by rewrite Hc1.
  destruct Hr1 as [Hf1 Hd1]. clearbody p.
  assert (fs_exists p f1 = (Ok true, f1)) as E2.
  { rewrite (run_exists p f1 Hf1). unfold exists_at, content_at in *. destruct (nodes f1 !! p) as [[]|]; done. }
  assert (fs_open_append p f1 = (Ok tt, f1)) as E3.
  { unfold fs_open_append, guard_call, next_fault, mbind, comp_bind, content_at in *. destruct f1 as [m1 fs]. cbn in *.
    subst fs. cbn. destruct (m1 !! p) as [[]|]; done. }
  destruct (write_log_lines p lines f1) as [x f2] eqn:E4.
  destruct (write_log_lines_spec _ _ _ _ _ _ E4 Hp1) as (w & _ & Hw & Hok & Hs).
  destruct (sure_log_lines p lines f1 Hf1 (mk_is_Some _ _ Hp1)) as (S1 & S2 & _). rewrite E4 in S1, S2. cbn in S1, S2.
  destruct x as [[]|]; [|done]. rewrite (Hok eq_refl) in Hw.
  exists f2. split.
  - ret_run. ret_run. rewrite (on_files_run _ _ (set_log_fs f1 l) _ _ E2), (on_files_run _ _ (set_log_fs f1 _) _ _ E3).
    cbn [or_append_error]. ret_run. rewrite (on_files_run _ _ (set_log_fs f1 _) _ _ E4). done.
  - split; [|done]. split; [done|]. intros q Hq. rewrite <- (Hd1 q Hq). unfold content_at. rewrite (Hs q); [done|].
    intros ->%list_elem_of_singleton. done.
Qed.

(** The writer thread repeats rows and takes the persisted sequence back. *)
Theorem overlapping_flushes_repeat m m1 m2 d l s' c : let p := log_path d m in
  log_path d m1 = p → free_bytes m1 = None → free_bytes m2 = None →
  ready d (log_fs l) → content_at (log_fs l) p = Some c → writer l = None →
  let queued := fresh (events (log_store l)) (committed l) in
  let flushed := fresh (events s') (committed l) in
  queued ≠ [] → flushed ≠ [] →
  let l1 := (flush_diagnostic_events_to_disk m l : result unit unit * Logger).2 in
  let l2 := (flush_diagnostic_events_to_disk_sync io_kind_label m1 d (set_log_store s' l1)
             : result unit unit * Logger).2 in
  let l3 := (writer_step io_kind_label m2 d l2 : result unit unit * Logger).2 in
  content_at (log_fs l3) p = Some (c ++ rows_on c (map log_line flushed) ++ lines_bytes (map log_line queued)) ∧
  committed l2 = reached flushed (committed l) ∧ committed l3 = reached queued (committed l).
Proof.
  intros p Hp1 Hm1 Hm2 Hr Hc Hw queued flushed Hq Hfl l1 l2 l3.
  assert (∀ l0 : list DiagnosticEvent, l0 ≠ [] → bool_decide (map log_line l0 = []) = false) as Hb
    by (intros [|e l0] Hl0; done).
  assert (∃ filename, p = path_join d filename ∧
    l1 = set_writer (Some (mkJob filename (map log_line queued) (reached queued (committed l)))) l) as (filename & Hpf & Hl1).
  { subst l1 p. unfold log_path, flush_diagnostic_events_to_disk. unfold mbind, comp_bind. cbn [get].
    rewrite build_lines_spec. fold queued. rewrite (Hb _ Hq).
    destruct (utc_date_of (unix_seconds m)) as [[year month] day]. rewrite Hw. by eexists. }
  clearbody p.
  assert (∃ f, ready d f ∧ content_at f p = Some (c ++ rows_on c (map log_line flushed)) ∧
    l2 = mkLogger f s' (reached flushed (committed l)) (writer l1)) as (f & Hrf & Hcf & Hl2).
  { subst l2. rewrite Hl1. unfold flush_diagnostic_events_to_disk_sync. unfold mbind, comp_bind. cbn [get].
    rewrite build_lines_spec. cbn [log_store set_log_store committed set_writer]. fold flushed. rewrite (Hb _ Hfl).
    rewrite <- Hp1 in Hc |- *. unfold log_path in *. destruct (utc_date_of (unix_seconds m1)) as [[year month] day].
    unfold attempt. match goal with |- context [append_log_lines_sync_internal _ _ _ ?fn ?ls ?st] =>
      destruct (append_ready m1 d fn ls st c Hr Hc Hm1) as (f & E & Hrf & Hcf); rewrite E end.
    exists f. done. }
  subst l3. rewrite Hl2, Hl1. unfold writer_step, mbind, comp_bind. cbn [get writer set_writer].
  unfold attempt. cbn [job_filename job_lines job_last_sequence]. rewrite Hpf in Hcf.
  match goal with |- context [append_log_lines_sync_internal _ _ _ ?fn ?ls ?st] =>
    destruct (append_ready m2 d fn ls st _ Hrf Hcf Hm2) as (f3 & E & _ & Hc3); rewrite E end.
  cbn. rewrite Hpf. split; [|done]. rewrite Hc3, <- app_assoc. f_equal. f_equal. f_equal.
  unfold rows_on at 1, header_on. rewrite bool_decide_eq_false_2; [done|].
  intros [_ E2]%app_eq_nil. by apply (rows_nonempty c flushed).
Qed.
End Overlap.

(** ** The log is read back *)

(** [n] fields separated by commas and ended by a line feed. *)
Fixpoint read_log_record (n : nat) (s : str) : option (list str * str) :=
  match n with
  | O => None
  | S n' =>
      '(f, rest) ← read_field s;
      match rest with
      | 44 :: rest' => '(fs, r) ← read_log_record n' rest'; Some (f :: fs, r)
      | 10 :: rest' => Some ([f], rest')
      | _ => None
      end
  end.
Fixpoint read_log (rows n : nat) (s : str) : option (list (list str)) :=
  match rows with
  | O => match s with [] => Some [] | _ => None end
  | S rows' => '(fs, rest) ← read_log_record n s; cons fs <$> read_log rows' n rest
  end.

(** What a reader gets for a cell: a cell that looks like a formula is marked. *)
Definition log_value (cell : str) : str :=
  let field := truncate_utf8 cell MAX_FIELD_LENGTH in
  (if log_needs_neutralization field then [39] else []) ++ field.

Definition after_log_field (rest : str) : Prop :=
  match rest with c :: _ => c = 44 ∨ c = 10 | [] => False end.

Lemma read_log_plain f rest :
  existsb csv_special f = false → after_log_field rest → read_field (f ++ rest) = Some (f, rest).
Proof.
  intros Hf Hr. destruct rest as [|d rest]; [done|].
  pose proof (read_plain_spec f (d :: rest) Hf) as Hp.
  rewrite <- Hp by (destruct Hr; by subst d). unfold read_field.
  destruct f as [|c f]; cbn [app].
  - destruct (d =? 34) eqn:E; [|done]. cbn in Hr. lia.
  - cbn in Hf. apply orb_false_iff in Hf as [Hc _]. destruct (c =? 34) eqn:E; [|done].
    unfold csv_special in Hc. rewrite E in Hc. lia.
Qed.

Lemma read_log_quoted neutral f rest : after_log_field rest →
  read_field (([34] ++ (if neutral : bool then [39] else []) ++
    flat_map (λ c, if c =? 34 then [34; 34] else [c]) f ++ [34]) ++ rest) =
  Some ((if neutral then [39] else []) ++ f, rest).
Proof.
  intros Hr. rewrite <- !app_assoc. cbn [app read_field]. change (34 =? 34) with true. cbv iota.
  assert (match rest with 34 :: _ => False | _ => True end) as Hrest
    by (destruct rest as [|z rest]; [done|]; destruct Hr; by subst z).
  destruct neutral; cbn [app].
  - cbn [read_quoted]. change (39 =? 34) with false. cbv iota. by rewrite read_quoted_spec.
  - by rewrite read_quoted_spec.
Qed.

Lemma read_log_cell c rest : after_log_field rest → read_field (log_csv_escape c ++ rest) = Some (log_value c, rest).
Proof.
  intros Hr. unfold log_csv_escape, log_value. set (f := truncate_utf8 c MAX_FIELD_LENGTH).
  destruct (log_needs_neutralization f) eqn:Hn; rewrite ?andb_false_r; cbn [negb].
  - by apply (read_log_quoted true).
  - rewrite andb_true_r. destruct (existsb csv_special f) eqn:Hs; cbn [negb].
    + by apply (read_log_quoted false).
    + by apply read_log_plain.
Qed.

Lemma read_log_join {A} (enc val : A → str) (l : list A) n rest :
  (∀ a r, after_log_field r → a ∈ l → read_field (enc a ++ r) = Some (val a, r)) →
  l ≠ [] → (length l ≤ n)%nat →
  read_log_record n (join [44] (map enc l) ++ 10 :: rest) = Some (map val l, rest).
Proof.
  revert n. induction l as [|a l IH]; intros n Hf Hne Hn; [done|].
  destruct n as [|n]; [cbn in Hn; lia|]. destruct l as [|b l].
  - cbn [map join read_log_record]. rewrite Hf; [|by right|set_solver]. done.
  - change (join [44] (map enc (a :: b :: l)) ++ 10 :: rest)
      with ((enc a ++ [44] ++ join [44] (map enc (b :: l))) ++ 10 :: rest).
    rewrite <- !app_assoc. cbn [read_log_record].
    rewrite Hf; [|by left|set_solver]. cbn [mbind option_bind app].
    rewrite IH; [done|intros; apply Hf; [done|set_solver]|done|cbn in *; lia].
Qed.

Definition log_columns : list str := REPORT_COLUMNS ++ [lit "PrevHash"; lit "EntryHash"].
Definition log_text (evs : list DiagnosticEvent) : str :=
  LOG_HEADER ++ [10] ++ flat_map (λ e, log_line e ++ [10]) evs.

Lemma log_header_join : LOG_HEADER = join [44] log_columns.
Proof. by vm_compute. Qed.

Lemma log_rows_text evs : rows_on [] (map log_line evs) = utf8_encode (log_text evs).
Proof.
  unfold rows_on, header_on, log_text. rewrite bool_decide_eq_true_2 by done.
  rewrite !utf8_encode_app, app_assoc. f_equal. induction evs as [|e evs IH]; [done|].
  cbn [map lines_bytes flat_map]. rewrite utf8_encode_app. fold (lines_bytes (map log_line evs)). rewrite IH.
  unfold line_bytes. by rewrite utf8_encode_app.
Qed.

Lemma read_log_text evs : read_log (S (length evs)) 13 (log_text evs) =
  Some (log_columns :: map (λ e, map log_value (log_cells e)) evs).
Proof.
  unfold log_text. cbn [read_log]. rewrite log_header_join, <- (map_id log_columns) at 1.
  change ([10] ++ ?x) with (10 :: x). rewrite (read_log_join id id); [|..|done|done].
  - rewrite map_id. cbn [mbind option_bind]. induction evs as [|e evs IH]; [done|].
    cbn [map flat_map length read_log]. unfold log_line at 1. rewrite <- app_assoc. change ([10] ++ ?x) with (10 :: x).
    rewrite (read_log_join log_csv_escape log_value); [|intros; by apply read_log_cell|done|done].
    cbn [mbind option_bind]. destruct (read_log _ _ _) eqn:E in IH; [|done]. rewrite E. cbn in IH |- *. congruence.
  - intros a r Hr Ha. apply read_log_plain; [|done].
    assert (Forall (λ c, existsb csv_special c = false) log_columns) as Hall by (repeat constructor).
    rewrite Forall_forall in Hall. by apply Hall.
Qed.

(** ** The properties *)

Section Properties.
Context `{Sha256} (io_kind_label : IoKind → str) `{IoDisplay}.

(** A flush, whatever calls fail.  It appends to the log of the day, under the
    header when the log is empty, the rows of the events that are not persisted,
    or a prefix of them; the persisted sequence moves on, to the last of them,
    exactly when all of them were written (a log that the retention pass removed
    is gone as a whole); no file but the log changes, except that the pass
    removes daily logs of the directory. *)
Theorem flush_appends_only m d l r l' :
  (flush_diagnostic_events_to_disk_sync io_kind_label m d l : result unit unit * Logger) = (r, l') →
  let evs := fresh (events (log_store l)) (committed l) in
  let p := log_path d m in
  let old := held (log_fs l) p in
  ∃ (all : bool) w, committed l' = (if all then reached evs (committed l) else committed l) ∧
    w `prefix_of` rows_on old (map log_line evs) ∧ (all = true → w = rows_on old (map log_line evs)) ∧
    (nodes (log_fs l') !! p = nodes (log_fs l) !! p ∧ w = [] ∨ content_at (log_fs l') p = Some (old ++ w) ∨
     nodes (log_fs l') !! p = None ∧ daily_log d p) ∧
    ∀ q, q ≠ p → ¬ q `prefix_of` d → nodes (log_fs l') !! q = nodes (log_fs l) !! q ∨
      nodes (log_fs l') !! q = None ∧ daily_log d q.
Proof.
  intros E. apply flush_spec in E as (all & _ & _ & Hc & (w & H1 & H2 & H3 & H4) & _). by exists all, w.
Qed.

End Properties.

(** ** Witnesses *)

Definition sample_kind_label (k : IoKind) : str := lit "Other".
Definition sample_log_dir : path := [lit "logs"].
Definition sample_moment (s : Z) : Moment := mkMoment None s 7 7.
Definition sample_logger : Logger :=
  mkLogger (mkFs {[ [lit "logs"] := Dir; [lit "logs"; lit "true-tick-1970-01-02.csv"] := File [65] ]} [])
    (@store_new id 8) 0 None.

Lemma flush_appends_only_witness :
  let l := @log_step id sample_kind_label (λ _, []) sample_log_dir sample_logger (LRecord (sample_input "a" 1)) in
  ∃ (all : bool) w, content_at (log_fs (@log_step id sample_kind_label (λ _, []) sample_log_dir l (LFlush (sample_moment 86400))))
    (log_path sample_log_dir (sample_moment 86400)) = Some ([65] ++ w) ∧ all = true.
Proof.
  intros l.
  destruct (@flush_appends_only id sample_kind_label (λ _, []) (sample_moment 86400) sample_log_dir l _ _
    (surjective_pairing _)) as (all & w & Hc & _ & Hall & _).
  exists true. eexists. split; [vm_compute; reflexivity|reflexivity].
Defined.


Lemma overlapping_flushes_repeat_witness :
  let l := @log_step id sample_kind_label (λ _, []) sample_log_dir sample_logger (LRecord (sample_input "a" 1)) in
  let s' := @record_input id (log_store l) (sample_input "b" 2) in
  let m := sample_moment 86400 in
  let l1 := (flush_diagnostic_events_to_disk m l : result unit unit * Logger).2 in
  let l2 := (@flush_diagnostic_events_to_disk_sync id sample_kind_label (λ _, []) unit m sample_log_dir
               (set_log_store s' l1)).2 in
  let l3 := (@writer_step id sample_kind_label (λ _, []) unit m sample_log_dir l2).2 in
  committed l2 = 2 ∧ committed l3 = 1.
Proof.
  intros l s' m l1 l2 l3.
  destruct (@overlapping_flushes_repeat id sample_kind_label (λ _, []) m m m sample_log_dir l s' [65]) as (_ & H2 & H3);
    [reflexivity..| |reflexivity|reflexivity|discriminate|discriminate|].
  - split; [reflexivity|]. intros q [k Hk]. destruct q as [|x [|y q]]; [reflexivity| |discriminate Hk].
    injection Hk as <- _. reflexivity.
  - split; [exact H2|exact H3].
Defined.
