(* ===== verification/Launcher.v ===== *)
(** * Launcher: slot selection and recovery, [apps/launcher/src/main.rs]

    The package is a file system ([Files]); every call may fail.  Signatures and
    SHA-256 are parameters, as are the display of paths and system errors, and
    Unicode lowercasing.  The diagnostic lines on standard error are left out. *)
From S2P Require Import Prelude Text Hex Diagnostics Files Crypto.

Module Slot.
Inductive Slot := A | B.
End Slot.
Abbreviation Slot := Slot.Slot.
#[export] Instance Slot_eq_dec : EqDecision Slot.
Proof. solve_decision. Defined.

Definition slot_name (s : Slot) : str := match s with Slot.A => lit "A" | Slot.B => lit "B" end.
Definition alternate (s : Slot) : Slot := match s with Slot.A => Slot.B | Slot.B => Slot.A end.

Module SelectionError.
Inductive SelectionError :=
  | MetadataRead (error : IoError)
  | InvalidMetadata (value : str)
  | ExecutableMissing (p : path)
  | ExecutableNotFile (p : path)
  | ManifestMissing (p : path)
  | ManifestHashMissing (p : path)
  | ManifestRead (error : IoError)
  | ChecksumMismatch (target expected actual : str)
  | CrashLoopDetected (slot : Slot) (consecutive_failures : Z)
  | BothSlotsCorrupted (active standby : str)
  | HealthTrackingFailure
  | SignedManifestRead (error : IoError)
  | TrustAnchorMissing (p : path)
  | TrustAnchorRead (error : IoError)
  | TrustAnchorInvalid (cause : CryptoError)
  | SignedManifestMalformed (cause : CryptoError)
  | SignatureVerificationFailed (cause : CryptoError)
  | ReleaseCounterStateFailure
  | ReleaseCounterRejected (cause : CryptoError)
  | SignedDigestMismatch (target : str) (cause : CryptoError).
End SelectionError.
Abbreviation SelectionError := SelectionError.SelectionError.

Abbreviation L := (comp Fs SelectionError).

Section Launcher.
Context `{Ed25519} `{Sha256} `{IoDisplay} `{PathDisplay} `{ToLowercase}.

Definition selection_error_display (e : SelectionError) : str :=
  match e with
  | SelectionError.MetadataRead e => lit "active slot metadata cannot be read: " ++ io_display e
  | SelectionError.InvalidMetadata v => lit "active slot metadata is invalid: " ++ v
  | SelectionError.ExecutableMissing p => lit "selected slot executable is missing: " ++ path_display p
  | SelectionError.ExecutableNotFile p => lit "selected slot executable is not a file: " ++ path_display p
  | SelectionError.ManifestMissing p => lit "package manifest SHA256SUMS.txt is missing: " ++ path_display p
  | SelectionError.ManifestHashMissing p =>
      lit "package manifest SHA256SUMS.txt has no hash entry for " ++ path_display p
  | SelectionError.ManifestRead e => lit "package manifest SHA256SUMS.txt cannot be read: " ++ io_display e
  | SelectionError.ChecksumMismatch target expected actual =>
      lit "integrity verification failed for " ++ target ++ lit ": expected " ++ expected ++
      lit " but computed " ++ actual
  | SelectionError.CrashLoopDetected slot n =>
      lit "crash loop detected for slot " ++ slot_name slot ++ lit ": " ++ show_u n ++ lit " consecutive failures"
  | SelectionError.BothSlotsCorrupted active standby =>
      lit "both slots failed verification and require package repair: active slot rejected with [" ++ active ++
      lit "] and standby slot rejected with [" ++ standby ++ lit "]"
  | SelectionError.HealthTrackingFailure => lit "failed to read or update slot health tracking state"
  | SelectionError.SignedManifestRead e => lit "signed manifest manifest.sig cannot be read: " ++ io_display e
  | SelectionError.TrustAnchorMissing p =>
      lit "signed manifest is present but trust anchor is missing: " ++ path_display p
  | SelectionError.TrustAnchorRead e => lit "trust anchor trust-anchor.pub cannot be read: " ++ io_display e
  | SelectionError.TrustAnchorInvalid c => lit "trust anchor trust-anchor.pub is invalid: " ++ crypto_error_display c
  | SelectionError.SignedManifestMalformed c => lit "signed manifest is malformed: " ++ crypto_error_display c
  | SelectionError.SignatureVerificationFailed c =>
      lit "signed manifest signature verification failed: " ++ crypto_error_display c
  | SelectionError.ReleaseCounterStateFailure => lit "failed to read or persist the release counter state"
  | SelectionError.ReleaseCounterRejected c =>
      lit "signed manifest release counter rejected as replay or downgrade: " ++ crypto_error_display c
  | SelectionError.SignedDigestMismatch target c =>
      lit "signed manifest digest verification failed for " ++ target ++ lit ": " ++ crypto_error_display c
  end.

(** ** Paths of the package *)

Section Root.
Context (root : path) (process_id : Z).

(** [root.join(..).join(..)] *)
Definition under (names : list str) : path := root ++ names.

Definition exe_name : str := lit "true-tick.exe".
Definition slot_dir_names (slot : Slot) : list str := [lit "Slots"; slot_name slot].
Definition state_names : list str := [lit "Data"; lit "state"].
Definition slot_executable (slot : Slot) : path := under (slot_dir_names slot ++ [exe_name]).
Definition recovery_executable : path := under [lit "Recovery"; exe_name].
Definition golden_config : path := under [lit "Recovery"; lit "true-tick.toml"].
Definition manifest_sig : path := under [lit "manifest.sig"].
Definition checksums : path := under [lit "SHA256SUMS.txt"].
Definition active_slot_file : path := under [lit "active-slot.txt"].
Definition rollback_log : path := under [lit "Data"; lit "logs"; lit "launcher-rollback.log"].
(** The release build's anchor. *)
Definition resolve_trust_anchor_path : path := under [lit "trust-anchor.pub"].
Definition release_counter_state_path : path := under (state_names ++ [lit "release-counter.state"]).
Definition health_name (slot : Slot) : str := lit "slot-" ++ slot_name slot ++ lit "-health.state".
Definition health_path (slot : Slot) : path := under (state_names ++ [health_name slot]).

(** The staging file for [base] in a directory. *)
Definition staging_name (base : str) : str := base ++ lit ".staging." ++ show_u process_id ++ lit ".tmp".
Definition staging_in (dir : list str) (base : str) : path := under (dir ++ [staging_name base]).

(** A query that cannot fail. *)
Definition query {T} (m : comp Fs IoError T) : L T := map_err SelectionError.MetadataRead m.

Definition compute_sha256 (p : path) : FS str := bs ← fs_read p; mret (hex (sha256 bs)).

(** ** Signed manifests *)

Definition load_signed_manifest : L (option SignedManifest) :=
  present ← query (fs_exists manifest_sig);
  if negb present then mret None
  else
    text ← map_err SelectionError.SignedManifestRead (fs_read_to_string manifest_sig);
    match parse_signed_manifest text with
    | Ok m => mret (Some m)
    | Err c => fail (SelectionError.SignedManifestMalformed c)
    end.

Definition load_trust_anchor : L TrustAnchor :=
  present ← query (fs_exists resolve_trust_anchor_path);
  if negb present then fail (SelectionError.TrustAnchorMissing resolve_trust_anchor_path)
  else
    bs ← map_err SelectionError.TrustAnchorRead (fs_read resolve_trust_anchor_path);
    match anchor_from_bytes bs with
    | Ok a => mret a
    | Err c => fail (SelectionError.TrustAnchorInvalid c)
    end.

Definition read_release_counter : L Z :=
  present ← query (fs_exists release_counter_state_path);
  if negb present then mret 0
  else
    content ← map_err (λ _, SelectionError.ReleaseCounterStateFailure) (fs_read_to_string release_counter_state_path);
    lift (ok_or (parse_u 64 (trim content)) SelectionError.ReleaseCounterStateFailure).

(** [atomic_replace], the staging file removed when the rename fails. *)
Definition atomic_replace (staging target : path) : L unit :=
  r ← attempt (fs_replace staging target);
  match r with
  | Ok _ => mret tt
  | Err e => _ ← map_err SelectionError.MetadataRead (ignore (fs_remove_file staging));
             fail (SelectionError.MetadataRead e)
  end.
Definition remove_quietly (p : path) : L unit := map_err SelectionError.MetadataRead (ignore (fs_remove_file p)).

Definition persist_release_counter (counter : Z) : L unit :=
  let failure {E} (_ : E) := SelectionError.ReleaseCounterStateFailure in
  _ ← map_err failure (fs_create_dir_all (under state_names));
  let staging := staging_in state_names (lit "release-counter.state") in
  _ ← map_err failure (fs_write staging (utf8_encode (show_u counter ++ [10])));
  _ ← atomic_replace staging release_counter_state_path;
  remove_quietly staging.

Definition RECOVERY_EXECUTABLE_REL : str := lit "Recovery/true-tick.exe".
Definition target_rel_path (slot : Slot) : str := lit "Slots/" ++ slot_name slot ++ lit "/true-tick.exe".

Definition verify_digest (m : SignedManifest) (target : str) (bs : bytes) : L unit :=
  match verify_entry_digest m target bs with
  | Ok _ => mret tt
  | Err c => fail (SelectionError.SignedDigestMismatch target c)
  end.

Definition verify_recovery_integrity_signed (m : SignedManifest) : L unit :=
  if negb (existsb (λ e, str_eqb (entry_path e) RECOVERY_EXECUTABLE_REL) (manifest_entries m)) then mret tt
  else
    bs ← map_err SelectionError.MetadataRead (fs_read recovery_executable);
    verify_digest m RECOVERY_EXECUTABLE_REL bs.

Definition verify_slot_integrity_signed (slot : Slot) (m : SignedManifest) : L unit :=
  bs ← map_err SelectionError.MetadataRead (fs_read (slot_executable slot));
  verify_digest m (target_rel_path slot) bs.

(** The counter to commit, from the manifest's and the one already seen. *)
Definition pending_counter (m : SignedManifest) (previously_seen : Z) : result SelectionError (option Z) :=
  if release_counter m <? previously_seen
  then Err (SelectionError.ReleaseCounterRejected CryptoError.SignatureInvalid)
  else if release_counter m =? previously_seen then Ok None
  else match check_release_counter m previously_seen with
       | Ok _ => Ok (Some (release_counter m))
       | Err c => Err (SelectionError.ReleaseCounterRejected c)
       end.

Definition prepare_signed_manifest (slot : Slot) : L (option (SignedManifest * option Z)) :=
  loaded ← load_signed_manifest;
  match loaded with
  | None => mret None
  | Some m =>
      anchor ← load_trust_anchor;
      _ ← match verify_manifest m anchor with
          | Ok _ => mret tt
          | Err c => fail (SelectionError.SignatureVerificationFailed c)
          end;
      previously_seen ← read_release_counter;
      pending ← lift (pending_counter m previously_seen);
      _ ← verify_slot_integrity_signed slot m;
      _ ← verify_recovery_integrity_signed m;
      mret (Some (m, pending))
  end.

(** ** Checksums *)

(** The hash of the first line that names the target. *)
Fixpoint expected_hash (target normalized : str) (ls : list str) : option str :=
  match ls with
  | [] => None
  | line :: ls =>
      match split_whitespace (trim line) with
      | hash :: filename :: _ =>
          if str_eqb filename target || str_eqb filename normalized then Some (to_lowercase hash)
          else expected_hash target normalized ls
      | _ => expected_hash target normalized ls
      end
  end.

Definition backslashes (s : str) : str := map (λ c, if c =? 47 then 92 else c) s.

(** What the two checksum verifications share: the file at [executable] must
    have the hash that SHA256SUMS.txt gives for [target]. *)
Definition verify_checksum (executable : path) (target : str) : L unit :=
  present ← query (fs_exists checksums);
  if negb present then fail (SelectionError.ManifestMissing checksums)
  else
    content ← map_err SelectionError.ManifestRead (fs_read_to_string checksums);
    expected ← lift (ok_or (expected_hash target (backslashes target) (lines content))
                       (SelectionError.ManifestHashMissing executable));
    actual ← map_err SelectionError.MetadataRead (compute_sha256 executable);
    if negb (str_eqb (to_lowercase actual) expected)
    then fail (SelectionError.ChecksumMismatch target expected actual) else mret tt.

Definition verify_slot_integrity_checksum (slot : Slot) : L unit :=
  verify_checksum (slot_executable slot) (target_rel_path slot).

Definition verify_slot_integrity (slot : Slot) : L (option Z) :=
  prepared ← prepare_signed_manifest slot;
  match prepared with
  | Some (_, pending) => mret pending
  | None => _ ← verify_slot_integrity_checksum slot; mret None
  end.

(** A file that must exist and be one. *)
Definition require_executable (p : path) : L unit :=
  present ← query (fs_exists p);
  if negb present then fail (SelectionError.ExecutableMissing p)
  else
    is_file ← query (fs_is_file p);
    if negb is_file then fail (SelectionError.ExecutableNotFile p) else mret tt.

Definition verify_slot_executable (slot : Slot) : L (path * option Z) :=
  let executable := slot_executable slot in
  _ ← require_executable executable;
  pending ← verify_slot_integrity slot;
  mret (executable, pending).

(** ** Slot health *)

Definition BOOT_FAILURE_THRESHOLD : Z := 3.

Definition health_failure {E} (_ : E) : SelectionError := SelectionError.HealthTrackingFailure.

Definition read_slot_health (slot : Slot) : L Z :=
  present ← query (fs_exists (health_path slot));
  if negb present then mret 0
  else
    content ← map_err health_failure (fs_read_to_string (health_path slot));
    lift (ok_or (parse_u 32 (trim content)) SelectionError.HealthTrackingFailure).

Definition increment_slot_health (slot : Slot) : L Z :=
  _ ← map_err health_failure (fs_create_dir_all (under state_names));
  failures ← read_slot_health slot;
  let count := sat_add 32 failures 1 in
  let staging := staging_in state_names (health_name slot) in
  _ ← map_err health_failure (fs_write staging (utf8_encode (show_u count ++ [10])));
  _ ← map_err health_failure (atomic_replace staging (health_path slot));
  _ ← remove_quietly staging;
  mret count.

Definition clear_slot_health (slot : Slot) : L unit :=
  present ← query (fs_exists (health_path slot));
  if (present : bool) then map_err health_failure (fs_remove_file (health_path slot)) else mret tt.

(** ** The rollback log, the active slot and the golden master *)

Definition append_rollback_log (entry : str) : L unit :=
  _ ← map_err health_failure (fs_create_dir_all (under [lit "Data"; lit "logs"]));
  _ ← map_err health_failure (fs_open_append rollback_log);
  map_err health_failure (fs_write_all rollback_log (utf8_encode entry)).

Definition record_golden_master_restoration (target : Slot) : L unit :=
  append_rollback_log (lit "event=autonomous_golden_master_restoration target=Slot::" ++ slot_name target ++
                       lit " status=restored" ++ [10]).
Definition record_rollback_decision (from to : Slot) (cause : SelectionError) : L unit :=
  append_rollback_log (lit "event=autonomous_slot_rollback from=" ++ slot_name from ++ lit " to=" ++ slot_name to ++
                       lit " cause=" ++ selection_error_display cause ++ [10]).

Definition write_active_slot (slot : Slot) : L unit :=
  let staging := staging_in [] (lit "active-slot.txt") in
  _ ← map_err SelectionError.MetadataRead (fs_write staging (utf8_encode (slot_name slot ++ [10])));
  _ ← atomic_replace staging active_slot_file;
  remove_quietly staging.

Definition verify_golden_master : L path :=
  _ ← require_executable recovery_executable;
  _ ← verify_checksum recovery_executable RECOVERY_EXECUTABLE_REL;
  mret recovery_executable.

Definition restore_from_golden_master : L (path * option Z) :=
  let io {T} (m : FS T) : L T := map_err SelectionError.MetadataRead m in
  golden_executable ← verify_golden_master;
  config_present ← query (fs_is_file golden_config);
  if negb config_present then fail (SelectionError.ExecutableMissing golden_config)
  else
    let dir := slot_dir_names Slot.A in
    _ ← io (fs_create_dir_all (under dir));
    let executable := slot_executable Slot.A in
    let staging := staging_in dir exe_name in
    _ ← io (fs_copy golden_executable staging);
    staging_hash ← io (compute_sha256 staging);
    golden_source_hash ← io (compute_sha256 golden_executable);
    if negb (str_eqb staging_hash golden_source_hash)
    then
      _ ← remove_quietly staging;
      fail (SelectionError.ChecksumMismatch RECOVERY_EXECUTABLE_REL golden_source_hash staging_hash)
    else
      _ ← atomic_replace staging executable;
      _ ← remove_quietly staging;
      _ ← io (fs_copy golden_config (under (dir ++ [lit "true-tick.toml"])));
      '(_, pending) ← verify_slot_executable Slot.A;
      _ ← record_golden_master_restoration Slot.A;
      _ ← write_active_slot Slot.A;
      mret (executable, pending).

(** ** Reading the active slot *)

Definition MAX_NORMALIZATION_PASSES : nat := 8.
Definition is_active_slot_noise (c : Z) : bool :=
  is_whitespace c || (c =? 13) || (c =? 10) || (c =? 0) || (c =? 0xFEFF).

Fixpoint normalize_passes (passes : nat) (value : str) : str :=
  match passes with
  | O => value
  | S passes =>
      let next := trim_matches is_active_slot_noise value in
      if str_eqb next value then value else normalize_passes passes next
  end.
Definition normalize_active_slot (raw : str) : str := normalize_passes MAX_NORMALIZATION_PASSES raw.

Definition parse_active_slot (raw : str) : option Slot :=
  let value := normalize_active_slot raw in
  if str_eqb value (lit "A") then Some Slot.A else if str_eqb value (lit "B") then Some Slot.B else None.

Definition commit_release_counter (pending : option Z) : L unit :=
  match pending with Some counter => persist_release_counter counter | None => mret tt end.

Definition fallback_slot_from_installed_executables : L (option Slot) :=
  a ← query (fs_exists (slot_executable Slot.A));
  if (a : bool) then mret (Some Slot.A)
  else
    b ← query (fs_exists (slot_executable Slot.B));
    mret (if (b : bool) then Some Slot.B else None).

(** ** Selection *)

Definition verify_and_check_slot (target_slot : Slot) : L (path * option Z) :=
  failures ← read_slot_health target_slot;
  if BOOT_FAILURE_THRESHOLD <=? failures then fail (SelectionError.CrashLoopDetected target_slot failures)
  else verify_slot_executable target_slot.

Definition is_health_failure (e : SelectionError) : bool :=
  match e with SelectionError.HealthTrackingFailure => true | _ => false end.

(** The slot that active-slot.txt names, or the installed one. *)
Definition choose_slot : L Slot :=
  raw ← map_err SelectionError.MetadataRead (fs_read_to_string active_slot_file);
  match parse_active_slot raw with
  | Some slot => mret slot
  | None =>
      fallback ← fallback_slot_from_installed_executables;
      match fallback with
      | Some slot => mret slot
      | None => fail (SelectionError.InvalidMetadata (normalize_active_slot raw))
      end
  end.

(** Both slots are refused: the golden master. *)
Definition select_golden_master (active_error standby_error : SelectionError) : L (Slot * path) :=
  restored ← attempt restore_from_golden_master;
  match restored with
  | Ok (executable, pending) =>
      _ ← clear_slot_health Slot.A;
      _ ← clear_slot_health Slot.B;
      _ ← commit_release_counter pending;
      mret (Slot.A, executable)
  | Err _ =>
      fail (SelectionError.BothSlotsCorrupted (selection_error_display active_error)
              (selection_error_display standby_error))
  end.

(** The active slot is refused. *)
Definition select_standby (slot : Slot) (active_error : SelectionError) : L (Slot * path) :=
  if is_health_failure active_error then fail active_error
  else
    _ ← increment_slot_health slot;
    let standby := alternate slot in
    checked ← attempt (verify_and_check_slot standby);
    match checked with
    | Ok (executable, pending) =>
        _ ← record_rollback_decision slot standby active_error;
        _ ← write_active_slot standby;
        _ ← clear_slot_health standby;
        _ ← commit_release_counter pending;
        mret (standby, executable)
    | Err standby_error =>
        if is_health_failure standby_error then fail standby_error
        else
          _ ← increment_slot_health standby;
          select_golden_master active_error standby_error
    end.

Definition select : L (Slot * path) :=
  slot ← choose_slot;
  checked ← attempt (verify_and_check_slot slot);
  match checked with
  | Ok (executable, pending) =>
      _ ← clear_slot_health slot;
      _ ← commit_release_counter pending;
      mret (slot, executable)
  | Err active_error => select_standby slot active_error
  end.

Definition repair_reason (error : str) : str :=
  lit "True" ++ [0x2122] ++ lit " Tick launcher repair required: " ++ error ++ [10; 10] ++
  lit "Package root: " ++ path_display root.
End Root.

(** [run]: the executable's own path, then the selection and the launch, whose
    outcome is [spawn]'s. *)
Definition run (process_id : Z) (current_exe : result IoError path) (spawn : path → option IoError)
    : comp Fs str Z :=
  launcher ← lift (match current_exe with Ok p => Ok p | Err e => Err (io_display e) end);
  root ← lift (ok_or (path_parent launcher) (lit "Launcher.exe has no workspace root"));
  '(slot, executable) ← map_err (λ e, repair_reason root (selection_error_display e)) (select root process_id);
  match spawn executable with
  | None => mret 0
  | Some e => fail (repair_reason root (lit "selected slot " ++ slot_name slot ++ lit " could not be launched: " ++
                                        io_display e))
  end.
End Launcher.
