(* ===== verification/LauncherFacts.v ===== *)
(** * LauncherFacts: what slot selection guarantees

    The executable that is launched was verified; the release counter moves last;
    a selection is stable.  [LauncherFacts] first shows which files each step of
    the launcher leaves alone. *)
From S2P Require Import Prelude Text Hex Diagnostics Files FileFrames Crypto Launcher.

(** ** Paths of a package *)

Definition last_char (l : list str) : option Z := n ← last l; last n.

(** The path [l] is no staging file, no part of the directories [dirs] made, and
    none of [files]. *)
Definition apart (l : list str) (dirs files : list (list str)) : bool :=
  negb (bool_decide (last_char l = Some 112)) &&
  forallb (λ d, negb (bool_decide (l `prefix_of` d))) dirs && forallb (λ f, negb (bool_decide (l = f))) files.

Section Paths.
Context (root : path) (pid : Z).

Lemma under_inj l1 l2 : under root l1 = under root l2 → l1 = l2.
Proof. apply app_inv_head. Qed.
Lemma apart_file l dirs files f : apart l dirs files = true → f ∈ files → under root l ≠ under root f.
Proof.
  unfold apart. intros [_ Hf]%andb_prop Hin He%under_inj. rewrite forallb_forall in Hf.
  apply list_elem_of_In, Hf, negb_true_iff, bool_decide_eq_false in Hin. done.
Qed.
Lemma apart_dir l dirs files d : apart l dirs files = true → d ∈ dirs → ¬ under root l `prefix_of` under root d.
Proof.
  unfold apart. intros [[_ Hd]%andb_prop _]%andb_prop Hin Hp%prefix_app_inv. rewrite forallb_forall in Hd.
  apply list_elem_of_In, Hd, negb_true_iff, bool_decide_eq_false in Hin. done.
Qed.
Lemma staging_last dir base : last_char (dir ++ [staging_name pid base]) = Some 112.
Proof.
  unfold last_char, staging_name. rewrite last_snoc. cbn [mbind option_bind].
  rewrite !last_app. by change (last (lit ".tmp")) with (Some 112).
Qed.
Lemma apart_staging l dirs files dir base : apart l dirs files = true → under root l ≠ staging_in root pid dir base.
Proof.
  unfold apart. intros [[Hl _]%andb_prop _]%andb_prop He%under_inj. subst l.
  rewrite staging_last in Hl. done.
Qed.
End Paths.
#[local] Hint Extern 3 (under _ _ ≠ under _ _) => eapply apart_file; [eassumption|set_solver] : files.
#[local] Hint Extern 3 (¬ under _ _ `prefix_of` under _ _) => eapply apart_dir; [eassumption|set_solver] : files.
#[local] Hint Extern 3 (under _ _ ≠ staging_in _ _ _ _) => eapply apart_staging; eassumption : files.

Ltac launcher_unfold :=
  unfold verify_golden_master, verify_and_check_slot, verify_slot_executable, verify_slot_integrity, verify_slot_integrity_checksum,
    prepare_signed_manifest, load_signed_manifest, load_trust_anchor, read_release_counter,
    verify_slot_integrity_signed, verify_recovery_integrity_signed, verify_digest, verify_checksum, require_executable,
    compute_sha256, read_slot_health, choose_slot, fallback_slot_from_installed_executables, query.

(** The first step of a successful computation. *)
Ltac step Hr x s1 E1 := apply bind_ok_inv in Hr as (x & s1 & E1 & Hr).

Section Facts.
Context `{Ed25519} `{Sha256} `{IoDisplay} `{PathDisplay} `{ToLowercase}.
Context (root : path) (pid : Z).

(** ** What the steps leave alone *)

Section Leaves.
Context (l : list str).

Lemma leaves_remove_staging dir base : apart l [] [] = true →
  leaves (under root l) (remove_quietly (staging_in root pid dir base)).
Proof. intros Ha. unfold remove_quietly, ignore. frame_tac. Qed.
Lemma leaves_atomic_replace dir base f : apart l [] [f] = true →
  leaves (under root l) (atomic_replace (staging_in root pid dir base) (under root f)).
Proof. intros Ha. unfold atomic_replace, ignore. frame_tac. Qed.
Lemma apart_weaken dirs files dirs' files' : apart l dirs files = true →
  (∀ d, d ∈ dirs' → d ∈ dirs) → (∀ f, f ∈ files' → f ∈ files) → apart l dirs' files' = true.
Proof.
  unfold apart. intros [[-> Hd]%andb_prop Hf]%andb_prop Hs1 Hs2. rewrite forallb_forall in Hd, Hf.
  rewrite andb_true_iff. split; [apply forallb_forall|apply forallb_forall].
  - intros d Hin%list_elem_of_In. apply Hd, list_elem_of_In, Hs1, Hin.
  - intros f Hin%list_elem_of_In. apply Hf, list_elem_of_In, Hs2, Hin.
Qed.
End Leaves.
#[local] Hint Extern 4 (apart _ _ _ = true) => eapply apart_weaken; [eassumption|set_solver|set_solver] : files.
#[local] Hint Resolve leaves_remove_staging leaves_atomic_replace : files.

Lemma leaves_persist l counter : apart l [state_names] [state_names ++ [lit "release-counter.state"]] = true →
  leaves (under root l) (persist_release_counter root pid counter).
Proof. intros Ha. unfold persist_release_counter, release_counter_state_path. frame_tac. Qed.
Lemma leaves_increment l slot : apart l [state_names] [state_names ++ [health_name slot]] = true →
  leaves (under root l) (increment_slot_health root pid slot).
Proof. intros Ha. unfold increment_slot_health, read_slot_health, query, health_path. frame_tac. Qed.
Lemma leaves_clear l slot : apart l [] [state_names ++ [health_name slot]] = true →
  leaves (under root l) (clear_slot_health root slot).
Proof. intros Ha. unfold clear_slot_health, query, health_path. frame_tac. Qed.
Lemma leaves_log l entry : apart l [[lit "Data"; lit "logs"]] [[lit "Data"; lit "logs"; lit "launcher-rollback.log"]] = true →
  leaves (under root l) (append_rollback_log root entry).
Proof. intros Ha. unfold append_rollback_log, rollback_log. frame_tac. Qed.
Lemma leaves_write_active l slot : apart l [] [[lit "active-slot.txt"]] = true →
  leaves (under root l) (write_active_slot root pid slot).
Proof. intros Ha. unfold write_active_slot, active_slot_file. frame_tac. Qed.

(** ** Replacing a file *)

Lemma quiet_never_fails p s e s' : remove_quietly p s ≠ (Err e, s').
Proof. unfold remove_quietly, map_err, ignore, mbind, comp_bind, attempt. by destruct (fs_remove_file p s). Qed.

Lemma atomic_replace_inv dir base f c s r s' : apart f [] [] = true →
  atomic_replace (staging_in root pid dir base) (under root f) s = (r, s') →
  content_at s (staging_in root pid dir base) = Some c →
  match r with
  | Ok _ => content_at s' (under root f) = Some c
  | Err _ => nodes s' !! under root f = nodes s !! under root f
  end.
Proof.
  intros Ha Hr Hc. apply bind_inv in Hr as [(x & s1 & E1 & Hr)|(e & E1 & _)];
    [|unfold attempt in E1; by destruct (fs_replace _ _ s)].
  apply attempt_inv in E1 as (y & [= ->] & E1). destruct y as [[]|e].
  - injection Hr as <- <-. eapply replace_ok in E1.
    + unfold content_at. by rewrite E1, lookup_insert_eq.
    + unfold content_at in Hc. by destruct (nodes s !! _) as [[]|]; [injection Hc as ->|..].
  - apply replace_err in E1. rewrite <- E1.
    apply bind_inv in Hr as [(u & s2 & E2 & Hr)|(e' & E2 & _)]; [|by apply (quiet_never_fails _ _ _ _) in E2].
    injection Hr as <- <-. by apply (leaves_at _ _ _ _ _ (leaves_remove_staging f dir base Ha) E2).
Qed.

(** Writing a file through its staging file. *)
Definition commit_file (f : IoError → SelectionError) (dir : list str) (base : str) (target : list str) (bs : bytes)
    : L unit :=
  _ ← map_err f (fs_write (staging_in root pid dir base) bs);
  _ ← atomic_replace (staging_in root pid dir base) (under root target);
  remove_quietly (staging_in root pid dir base).
Lemma commit_file_inv f dir base target bs s r s' : apart target [] [] = true →
  commit_file f dir base target bs s = (r, s') →
  match r with
  | Ok _ => content_at s' (under root target) = Some bs
  | Err _ => nodes s' !! under root target = nodes s !! under root target
  end.
Proof.
  intros Ha Hr.
  assert (leaves (under root target) (map_err f (fs_write (staging_in root pid dir base) bs))) as Hw by frame_tac.
  apply bind_inv in Hr as [([] & s1 & E1 & Hr)|(e & E1 & ->)]; [|by apply (leaves_at _ _ _ _ _ Hw E1)].
  pose proof (leaves_at _ _ _ _ _ Hw E1) as N1. apply map_err_ok, write_ok in E1.
  apply bind_inv in Hr as [([] & s2 & E2 & Hr)|(e & E2 & ->)].
  - apply (atomic_replace_inv _ _ _ bs _ _ _ Ha) in E2; [|exact E1]. destruct r as [[]|e]; [|by apply quiet_never_fails in Hr].
    unfold content_at in *. by rewrite (leaves_at _ _ _ _ _ (leaves_remove_staging target dir base Ha) Hr).
  - apply (atomic_replace_inv _ _ _ bs _ _ _ Ha) in E2; [|exact E1]. by rewrite E2.
Qed.

Abbreviation counter_names := (state_names ++ [lit "release-counter.state"]).

Lemma persist_inv n s r s' : persist_release_counter root pid n s = (r, s') →
  match r with
  | Ok _ => content_at s' (release_counter_state_path root) = Some (utf8_encode (show_u n ++ [10]))
  | Err _ => nodes s' !! release_counter_state_path root = nodes s !! release_counter_state_path root
  end.
Proof.
  intros Hr. assert (apart counter_names [state_names] [] = true) as Ha by (vm_compute; reflexivity).
  assert (leaves (under root counter_names) (map_err (λ _, SelectionError.ReleaseCounterStateFailure)
    (fs_create_dir_all (under root state_names)))) as Hl by frame_tac.
  unfold persist_release_counter in Hr. change (release_counter_state_path root) with (under root counter_names).
  apply bind_inv in Hr as [([] & s1 & E1 & Hr)|(e & E1 & ->)]; [|by apply (leaves_at _ _ _ _ _ Hl E1)].
  apply (commit_file_inv (λ _, SelectionError.ReleaseCounterStateFailure) _ _ counter_names) in Hr;
    [|vm_compute; reflexivity].
  destruct r; [exact Hr|]. rewrite Hr. by apply (leaves_at _ _ _ _ _ Hl E1).
Qed.

(** ** Verification only reads *)

Lemma reads_verify_slot slot : reads (verify_slot_executable root slot).
Proof. launcher_unfold. frame_tac. Qed.
Lemma reads_check_slot slot : reads (verify_and_check_slot root slot).
Proof. launcher_unfold. frame_tac. Qed.
Lemma reads_choose_slot : reads (choose_slot root).
Proof. launcher_unfold. frame_tac. Qed.
Lemma reads_golden_master : reads (verify_golden_master root).
Proof. launcher_unfold. frame_tac. Qed.

(** ** What a verification that succeeds has seen *)

(** The signed manifest of the package and its verification. *)
Definition signed_by (s : Fs) (m : SignedManifest) : Prop :=
  ∃ bs text key anchor, content_at s (manifest_sig root) = Some bs ∧ utf8_decode bs = Some text ∧
    parse_signed_manifest text = Ok m ∧ content_at s (resolve_trust_anchor_path root) = Some key ∧
    anchor_from_bytes key = Ok anchor ∧ verify_manifest m anchor = Ok tt.
(** The hash of [bs] is the one that SHA256SUMS.txt gives for [target]. *)
Definition summed_by (s : Fs) (target : str) (bs : bytes) : Prop :=
  ∃ c text h, content_at s (checksums root) = Some c ∧ utf8_decode c = Some text ∧
    expected_hash target (backslashes target) (lines text) = Some h ∧ to_lowercase (hex (sha256 bs)) = h.
(** Why the executable of a slot may be launched, and the counter to commit. *)
Definition authorized (s : Fs) (slot : Slot) (pending : option Z) : Prop :=
  ∃ bs, content_at s (slot_executable root slot) = Some bs ∧
    ((∃ m, signed_by s m ∧ verify_entry_digest m (target_rel_path slot) bs = Ok tt ∧
        (pending = None ∨ pending = Some (release_counter m))) ∨
     (summed_by s (target_rel_path slot) bs ∧ pending = None)).

Lemma lift_ok {E T} (r : result E T) s x s' : (lift r : comp Fs E T) s = (Ok x, s') → r = Ok x ∧ s' = s.
Proof. unfold lift. by intros [= -> <-]. Qed.
Lemma ret_ok {E T} (x y : T) s s' : (mret x : comp Fs E T) s = (Ok y, s') → x = y ∧ s' = s.
Proof. by intros [= -> <-]. Qed.

Lemma require_ok p s u s' : require_executable p s = (Ok u, s') → nodes s' = nodes s.
Proof. intros Hr. eapply reads_at; [|exact Hr]. launcher_unfold. frame_tac. Qed.

(** After a reading step the files are those of the start. *)
Ltac same_files E1 N1 := apply reads_at in E1 as N1; [|unfold query; frame_tac].

Lemma load_manifest_ok s o s' : load_signed_manifest root s = (Ok o, s') → nodes s' = nodes s ∧
  match o with
  | Some m => ∃ bs text, content_at s (manifest_sig root) = Some bs ∧ utf8_decode bs = Some text ∧
      parse_signed_manifest text = Ok m
  | None => True
  end.
Proof.
  intros Hr. split; [eapply reads_at; [|exact Hr]; launcher_unfold; frame_tac|].
  unfold load_signed_manifest in Hr. step Hr b s1 E1. same_files E1 N1. destruct b; cbn [negb] in Hr.
  - step Hr t s2 E2. apply map_err_ok, read_to_string_ok in E2 as (bs & Hbs & Ht).
    destruct (parse_signed_manifest t) as [m|c] eqn:Ep; [|done]. apply ret_ok in Hr as [<- _].
    exists bs, t. split; [|done]. unfold content_at in *. by rewrite <- N1.
  - by apply ret_ok in Hr as [<- _].
Qed.

Lemma load_anchor_ok s a s' : load_trust_anchor root s = (Ok a, s') → nodes s' = nodes s ∧
  ∃ key, content_at s (resolve_trust_anchor_path root) = Some key ∧ anchor_from_bytes key = Ok a.
Proof.
  intros Hr. split; [eapply reads_at; [|exact Hr]; launcher_unfold; frame_tac|].
  unfold load_trust_anchor in Hr. step Hr b s1 E1. same_files E1 N1. destruct b; cbn [negb] in Hr; [|done].
  step Hr key s2 E2. apply map_err_ok, read_ok in E2. destruct (anchor_from_bytes key) as [a'|c] eqn:Ea; [|done].
  apply ret_ok in Hr as [<- _]. exists key. split; [|done]. unfold content_at in *. by rewrite <- N1.
Qed.

Lemma pending_some m seen p : pending_counter m seen = Ok p → p = None ∨ p = Some (release_counter m).
Proof.
  unfold pending_counter. destruct (_ <? _); [done|]. destruct (_ =? _); [intros [= <-]; by left|].
  destruct (check_release_counter m seen); [|done]. intros [= <-]. by right.
Qed.

Lemma slot_digest_ok slot m s u s' : verify_slot_integrity_signed root slot m s = (Ok u, s') → nodes s' = nodes s ∧
  ∃ bs, content_at s (slot_executable root slot) = Some bs ∧ verify_entry_digest m (target_rel_path slot) bs = Ok tt.
Proof.
  intros Hr. split; [eapply reads_at; [|exact Hr]; launcher_unfold; frame_tac|].
  unfold verify_slot_integrity_signed in Hr. step Hr bs s1 E1. apply map_err_ok, read_ok in E1.
  exists bs. split; [done|]. unfold verify_digest in Hr.
  by destruct (verify_entry_digest m (target_rel_path slot) bs) as [[]|c].
Qed.

Lemma checksum_ok p target s u s' : verify_checksum root p target s = (Ok u, s') → nodes s' = nodes s ∧
  ∃ bs, content_at s p = Some bs ∧ summed_by s target bs.
Proof.
  intros Hr. split; [eapply reads_at; [|exact Hr]; launcher_unfold; frame_tac|].
  unfold verify_checksum in Hr. step Hr b s1 E1. same_files E1 N1. destruct b; cbn [negb] in Hr; [|done].
  step Hr t s2 E2. same_files E2 N2. apply map_err_ok, read_to_string_ok in E2 as (c & Hc & Ht).
  step Hr h s3 E3. apply lift_ok in E3 as [Eh ->]. apply ok_or_ok in Eh. step Hr x s4 E4.
  apply map_err_ok in E4. unfold compute_sha256 in E4. step E4 bs s5 E5. apply read_ok in E5.
  apply ret_ok in E4 as [<- _]. destruct (str_eqb _ h) eqn:Es; [|done]. apply str_eqb_spec in Es.
  exists bs. unfold content_at in *. rewrite <- N1, <- N2. split; [done|]. exists c, t, h.
  unfold content_at. by rewrite <- N1.
Qed.

Lemma nodes_content s s' q : nodes s' = nodes s → content_at s' q = content_at s q.
Proof. unfold content_at. by intros ->. Qed.

Lemma prepare_ok slot s o s' : prepare_signed_manifest root slot s = (Ok o, s') → nodes s' = nodes s ∧
  match o with
  | Some (m, pending) => signed_by s m ∧ (pending = None ∨ pending = Some (release_counter m)) ∧
      ∃ bs, content_at s (slot_executable root slot) = Some bs ∧ verify_entry_digest m (target_rel_path slot) bs = Ok tt
  | None => True
  end.
Proof.
  intros Hr. split; [eapply reads_at; [|exact Hr]; launcher_unfold; frame_tac|].
  unfold prepare_signed_manifest in Hr. step Hr lo s1 E1. apply load_manifest_ok in E1 as [N1 E1].
  destruct lo as [m|]; [|by apply ret_ok in Hr as [<- _]]. destruct E1 as (bs & t & Hbs & Ht & Hp).
  step Hr a s2 E2. apply load_anchor_ok in E2 as (N2 & key & Hkey & Ha). step Hr u s3 E3.
  destruct (verify_manifest m a) as [[]|c] eqn:Ev; [|done]. apply ret_ok in E3 as [_ ->].
  step Hr seen s4 E4. apply reads_at in E4 as N4; [|launcher_unfold; frame_tac].
  step Hr pending s5 E5. apply lift_ok in E5 as [E5 ->]. apply pending_some in E5.
  step Hr v s6 E6. apply slot_digest_ok in E6 as (_ & exe & Hexe & Hd). step Hr v' s7 E7.
  apply ret_ok in Hr as [<- _]. split; [|split; [exact E5|]].
  - rewrite (nodes_content s s1 _ N1) in Hkey. by exists bs, t, key, a.
  - exists exe. split; [|done]. rewrite <- Hexe. symmetry. apply nodes_content. congruence.
Qed.

Lemma verify_slot_ok slot s p pending s' : verify_slot_executable root slot s = (Ok (p, pending), s') →
  nodes s' = nodes s ∧ p = slot_executable root slot ∧ authorized s slot pending.
Proof.
  intros Hr. split; [eapply reads_at; [apply reads_verify_slot|exact Hr]|].
  unfold verify_slot_executable in Hr. step Hr u s1 E1. apply require_ok in E1 as N1.
  step Hr pending' s2 E2. apply ret_ok in Hr as [[= <- <-] _]. split; [done|].
  unfold verify_slot_integrity in E2. step E2 o s3 E3. apply prepare_ok in E3 as [N3 E3].
  assert (∀ q, content_at s3 q = content_at s q) as C3 by (intros q; apply nodes_content; congruence).
  assert (∀ q, content_at s1 q = content_at s q) as C1 by (intros q; by apply nodes_content).
  destruct o as [[m pd]|].
  - apply ret_ok in E2 as [<- _]. destruct E3 as (Hs & Hp & bs & Hbs & Hd). exists bs. rewrite <- C1. split; [done|].
    left. exists m. split; [|done]. unfold signed_by in *. by setoid_rewrite <- C1.
  - step E2 v s4 E4. apply ret_ok in E2 as [<- _]. apply checksum_ok in E4 as (_ & bs & Hbs & Hs). exists bs.
    rewrite <- C3. split; [done|]. right. split; [|done]. unfold summed_by in *. by setoid_rewrite <- C3.
Qed.

Lemma check_slot_ok slot s p pending s' : verify_and_check_slot root slot s = (Ok (p, pending), s') →
  nodes s' = nodes s ∧ p = slot_executable root slot ∧ authorized s slot pending.
Proof.
  intros Hr. unfold verify_and_check_slot in Hr. step Hr n s1 E1.
  apply reads_at in E1 as N1; [|launcher_unfold; frame_tac]. destruct (_ <=? n); [done|].
  apply verify_slot_ok in Hr as (N2 & -> & bs & Hbs & Ha). split; [congruence|]. split; [done|].
  assert (∀ q, content_at s1 q = content_at s q) as C1 by (intros q; by apply nodes_content).
  exists bs. rewrite <- C1. split; [done|]. unfold signed_by, summed_by in *. by setoid_rewrite <- C1.
Qed.

(** The files an authorization rests on. *)
Definition evidence_names (slot : Slot) : list (list str) :=
  [slot_dir_names slot ++ [exe_name]; [lit "manifest.sig"]; [lit "trust-anchor.pub"]; [lit "SHA256SUMS.txt"]].
Lemma authorized_keep s s' slot pending :
  (∀ l, l ∈ evidence_names slot → nodes s' !! under root l = nodes s !! under root l) →
  authorized s slot pending → authorized s' slot pending.
Proof.
  intros Hk (bs & Hbs & Ha). assert (∀ l, l ∈ evidence_names slot → content_at s' (under root l) = content_at s (under root l)) as C
    by (intros l Hl; by apply content_same, Hk).
  exists bs. unfold slot_executable. rewrite C by set_solver. split; [done|].
  unfold signed_by, summed_by, manifest_sig, resolve_trust_anchor_path, checksums in *.
  rewrite !C by set_solver. done.
Qed.

(** ** The steps of a selection *)

Abbreviation logs_names := [lit "Data"; lit "logs"].
Abbreviation log_names := [lit "Data"; lit "logs"; lit "launcher-rollback.log"].
Abbreviation active_names := [lit "active-slot.txt"].
Definition health_names (slot : Slot) : list str := state_names ++ [health_name slot].

(** What a selection writes besides the restored slot. *)
Definition bookkeeping : list (list str) :=
  [counter_names; health_names Slot.A; health_names Slot.B; log_names; active_names].
Definition safe (l : list str) : Prop := apart l [state_names; logs_names] bookkeeping = true.

Lemma evidence_safe slot l : l ∈ evidence_names slot → safe l.
Proof.
  assert (forallb (λ l, apart l [state_names; logs_names] bookkeeping) (evidence_names slot) = true) as Hall
    by (destruct slot; vm_compute; reflexivity).
  rewrite forallb_forall in Hall. intros Hl%list_elem_of_In. by apply Hall.
Qed.

Lemma safe_apart l dirs files : safe l → (∀ d, d ∈ dirs → d ∈ [state_names; logs_names]) →
  (∀ f, f ∈ files → f ∈ bookkeeping) → apart l dirs files = true.
Proof. intros Hs. by apply apart_weaken. Qed.
Lemma health_booked slot : health_names slot ∈ bookkeeping.
Proof. destruct slot; unfold bookkeeping; set_solver. Qed.

Section Safe.
Context (l : list str) (Hl : safe l).
Lemma safe_persist n : leaves (under root l) (persist_release_counter root pid n).
Proof. apply leaves_persist, safe_apart; unfold bookkeeping; [done|set_solver..]. Qed.
Lemma safe_commit o : leaves (under root l) (commit_release_counter root pid o).
Proof. destruct o; [apply safe_persist|apply leaves_ret]. Qed.
Lemma safe_increment slot : leaves (under root l) (increment_slot_health root pid slot).
Proof.
  apply leaves_increment, safe_apart; [done|set_solver|]. intros f ->%list_elem_of_singleton. apply health_booked.
Qed.
Lemma safe_clear slot : leaves (under root l) (clear_slot_health root slot).
Proof. apply leaves_clear, safe_apart; [done|set_solver|]. intros f ->%list_elem_of_singleton. apply health_booked. Qed.
Lemma safe_log entry : leaves (under root l) (append_rollback_log root entry).
Proof. apply leaves_log, safe_apart; unfold bookkeeping; [done|set_solver..]. Qed.
Lemma safe_write_active slot : leaves (under root l) (write_active_slot root pid slot).
Proof. apply leaves_write_active, safe_apart; unfold bookkeeping; [done|set_solver..]. Qed.
End Safe.
#[local] Hint Resolve safe_persist safe_commit safe_increment safe_clear safe_log safe_write_active : files.

(** Nothing of the bookkeeping but the commit writes the counter. *)
Lemma counter_increment slot : leaves (release_counter_state_path root) (increment_slot_health root pid slot).
Proof. apply (leaves_increment counter_names). destruct slot; vm_compute; reflexivity. Qed.
Lemma counter_clear slot : leaves (release_counter_state_path root) (clear_slot_health root slot).
Proof. apply (leaves_clear counter_names). destruct slot; vm_compute; reflexivity. Qed.
Lemma counter_log entry : leaves (release_counter_state_path root) (append_rollback_log root entry).
Proof. apply (leaves_log counter_names). vm_compute. reflexivity. Qed.
Lemma counter_write_active slot : leaves (release_counter_state_path root) (write_active_slot root pid slot).
Proof. apply (leaves_write_active counter_names). vm_compute. reflexivity. Qed.
Lemma counter_restore : leaves (release_counter_state_path root) (restore_from_golden_master root pid).
Proof.
  assert (apart counter_names [slot_dir_names Slot.A; logs_names]
    [slot_dir_names Slot.A ++ [exe_name]; slot_dir_names Slot.A ++ [lit "true-tick.toml"]] = true) as Ha
    by (vm_compute; reflexivity).
  change (release_counter_state_path root) with (under root counter_names). unfold restore_from_golden_master.
  apply leaves_bind; [apply leaves_reads, reads_golden_master|intros golden]. cbv zeta. unfold query, compute_sha256.
  frame_tac; first
    [ apply leaves_atomic_replace; by eapply apart_weaken; [exact Ha|set_solver..]
    | apply leaves_reads, reads_verify_slot
    | apply counter_log
    | apply counter_write_active ].
Qed.

#[local] Hint Resolve counter_increment counter_clear counter_log counter_write_active counter_restore : files.
#[local] Hint Extern 2 (leaves _ (verify_and_check_slot _ _)) => apply leaves_reads, reads_check_slot : files.
#[local] Hint Extern 2 (leaves _ (choose_slot _)) => apply leaves_reads, reads_choose_slot : files.
#[local] Hint Extern 2 (err_leaves _ (fail _)) => apply err_leaves_leaves, leaves_fail : files.
#[local] Hint Extern 2 (∀ _ _ _ _, mret _ _ ≠ _) => intros; discriminate : files.

Lemma err_commit o : err_leaves (release_counter_state_path root) (commit_release_counter root pid o).
Proof.
  destruct o as [n|]; [|apply err_leaves_leaves, leaves_ret]. intros s e s' Hr. exact (persist_inv n s (Err e) s' Hr).
Qed.

(** A failing bind: the first part leaves the path, or it is the last to change it. *)
Ltac err_step :=
  lazymatch goal with
  | |- err_leaves _ (commit_release_counter _ _ _ ≫= _) =>
      apply err_leaves_last; [apply err_commit|intros; discriminate]
  | |- err_leaves _ (_ ≫= _) => apply err_leaves_bind; [frame_tac|intros ?]
  | |- err_leaves _ (match ?x with _ => _ end) => destruct x
  | |- err_leaves _ (let _ := _ in _) => cbv zeta
  | |- err_leaves _ _ => solve [auto with files]
  end.

(** A selection that fails has not moved the release counter, whatever file
    system calls failed: the counter is written last, once a verified slot has
    been committed. *)
Theorem failed_selection_keeps_counter s e s' : select root pid s = (Err e, s') →
  nodes s' !! release_counter_state_path root = nodes s !! release_counter_state_path root.
Proof.
  revert s e s'. change (err_leaves (release_counter_state_path root) (select root pid)).
  unfold select, select_standby, select_golden_master, record_rollback_decision. repeat err_step.
Qed.

(** ** The launched executable *)

Lemma commit_ok pending s u s' : commit_release_counter root pid pending s = (Ok u, s') →
  match pending with
  | None => nodes s' !! release_counter_state_path root = nodes s !! release_counter_state_path root
  | Some n => content_at s' (release_counter_state_path root) = Some (utf8_encode (show_u n ++ [10]))
  end.
Proof.
  destruct pending as [n|]; intros Hr; [exact (persist_inv n s (Ok u) s' Hr)|]. by apply ret_ok in Hr as [_ ->].
Qed.

(** A launch that was committed. *)
Definition committed (s s' : Fs) (slot : Slot) : Prop :=
  ∃ pending, authorized s' slot pending ∧
    match pending with
    | None => nodes s' !! release_counter_state_path root = nodes s !! release_counter_state_path root
    | Some n => content_at s' (release_counter_state_path root) = Some (utf8_encode (show_u n ++ [10]))
    end.

(** What has happened between two states is bookkeeping, the counter apart. *)
Definition booked (s s' : Fs) : Prop :=
  (∀ l, safe l → nodes s' !! under root l = nodes s !! under root l) ∧
  nodes s' !! release_counter_state_path root = nodes s !! release_counter_state_path root.
Lemma booked_trans s1 s2 s3 : booked s1 s2 → booked s2 s3 → booked s1 s3.
Proof. intros [A1 B1] [A2 B2]. split; [intros l Hl; by rewrite A2, A1|by rewrite B2, B1]. Qed.
Lemma booked_same s s' : nodes s' = nodes s → booked s s'.
Proof. intros E. by split; [intros|]; rewrite E. Qed.
Lemma booked_by {E T} (m : comp Fs E T) s r s' : (∀ l, safe l → leaves (under root l) m) →
  leaves (release_counter_state_path root) m → m s = (r, s') → booked s s'.
Proof. intros Hm Hc E1. split; [intros l Hl; by apply (leaves_at _ _ _ _ _ (Hm l Hl) E1)|by apply (leaves_at _ _ _ _ _ Hc E1)]. Qed.
Ltac booked_tac E1 := eapply booked_by; [| |exact E1]; intros;
  unfold record_rollback_decision, record_golden_master_restoration; auto with files.

Lemma authorized_booked s s' slot pending : booked s s' → authorized s slot pending → authorized s' slot pending.
Proof. intros [Hb _]. apply authorized_keep. intros l Hl. by apply Hb, (evidence_safe slot). Qed.

(** The last step of a selection. *)
Lemma commit_tail slot pending s s1 u s' : authorized s1 slot pending →
  nodes s1 !! release_counter_state_path root = nodes s !! release_counter_state_path root →
  commit_release_counter root pid pending s1 = (Ok u, s') → committed s s' slot.
Proof.
  intros Ha Hn E1. exists pending. split.
  - eapply authorized_keep; [|exact Ha]. intros l Hl%evidence_safe.
    by apply (leaves_at _ _ _ _ _ (safe_commit l Hl pending) E1).
  - apply commit_ok in E1. destruct pending; [done|]. by rewrite E1.
Qed.

Lemma restore_ok s p pending s' : restore_from_golden_master root pid s = (Ok (p, pending), s') →
  p = slot_executable root Slot.A ∧ authorized s' Slot.A pending.
Proof.
  intros Hr. unfold restore_from_golden_master in Hr. step Hr golden s1 E1. step Hr b s2 E2.
  destruct (negb b); [done|]. step Hr u3 s3 E3. step Hr u4 s4 E4. step Hr h5 s5 E5. step Hr h6 s6 E6.
  destruct (negb _); [step Hr u7 s7 E7; done|]. step Hr u7 s7 E7. step Hr u8 s8 E8. step Hr u9 s9 E9.
  apply bind_ok_inv in Hr as ([q pd] & s10 & E10 & Hr). step Hr u11 s11 E11. step Hr u12 s12 E12.
  apply ret_ok in Hr as [[= <- <-] ->]. split; [done|]. apply verify_slot_ok in E10 as (N10 & _ & Ha).
  eapply authorized_booked; [|exact Ha]. eapply booked_trans; [exact (booked_same _ _ N10)|].
  eapply booked_trans; [booked_tac E11|booked_tac E12].
Qed.

Lemma select_standby_ok slot e s slot' exe s' : select_standby root pid slot e s = (Ok (slot', exe), s') →
  exe = slot_executable root slot' ∧ committed s s' slot'.
Proof.
  intros Hr. unfold select_standby in Hr. destruct (is_health_failure e); [done|]. step Hr n s1 E1. step Hr o s2 E2.
  assert (booked s s1) as B1 by booked_tac E1. apply attempt_inv in E2 as (r & [= ->] & E2).
  assert (booked s1 s2) as B2 by (apply booked_same; by apply reads_at in E2; [|apply reads_check_slot]).
  destruct r as [[p pending]|e2].
  - apply check_slot_ok in E2 as (N2 & -> & Ha). step Hr u3 s3 E3. step Hr u4 s4 E4. step Hr u5 s5 E5. step Hr u6 s6 E6.
    apply ret_ok in Hr as [[= <- <-] ->]. split; [done|].
    assert (booked s2 s5) as B5.
    { eapply booked_trans; [booked_tac E3|]. eapply booked_trans; [booked_tac E4|booked_tac E5]. }
    eapply commit_tail; [| |exact E6].
    + eapply authorized_booked; [exact (booked_trans _ _ _ B2 B5)|exact Ha].
    + destruct B1 as [_ B1], B2 as [_ B2], B5 as [_ B5]. congruence.
  - destruct (is_health_failure e2); [done|]. step Hr n3 s3 E3. assert (booked s2 s3) as B3 by booked_tac E3.
    unfold select_golden_master in Hr. step Hr o s4 E4. apply attempt_inv in E4 as (r & [= ->] & E4).
    destruct r as [[p pending]|e4]; [|done]. apply (leaves_at _ _ _ _ _ counter_restore) in E4 as N4.
    apply restore_ok in E4 as [-> Ha]. step Hr u5 s5 E5. step Hr u6 s6 E6. step Hr u7 s7 E7.
    apply ret_ok in Hr as [[= <- <-] ->]. split; [done|].
    assert (booked s4 s6) as B6 by (eapply booked_trans; [booked_tac E5|booked_tac E6]).
    eapply commit_tail; [exact (authorized_booked _ _ _ _ B6 Ha)| |exact E7].
    destruct B1 as [_ B1], B2 as [_ B2], B3 as [_ B3], B6 as [_ B6]. congruence.
Qed.

(** C19: what is launched was verified: whatever file system calls failed, the
    executable of a successful selection is that of the selected slot, and at the
    end its bytes are those a signed manifest of the package, verified under its
    trust anchor, has the digest of, or those whose hash SHA256SUMS.txt gives; the
    release counter was left alone or now holds the counter of that manifest. *)
Theorem launch_authorized s slot exe s' : select root pid s = (Ok (slot, exe), s') →
  exe = slot_executable root slot ∧ committed s s' slot.
Proof.
  intros Hr. unfold select in Hr. step Hr slot0 s1 E1. step Hr o s2 E2.
  apply reads_at in E1 as N1; [|apply reads_choose_slot]. apply attempt_inv in E2 as (r & [= ->] & E2).
  destruct r as [[p pending]|e].
  - apply check_slot_ok in E2 as (N2 & -> & Ha). step Hr u3 s3 E3. step Hr u4 s4 E4.
    apply ret_ok in Hr as [[= <- <-] ->]. split; [done|].
    assert (booked s1 s3) as B3 by (eapply booked_trans; [exact (booked_same _ _ N2)|booked_tac E3]).
    eapply commit_tail; [exact (authorized_booked _ _ _ _ B3 Ha)| |exact E4]. destruct B3 as [_ B3]. by rewrite B3, N1.
  - apply reads_at in E2 as N2; [|apply reads_check_slot].
    apply select_standby_ok in Hr as [-> (pd & Ha & Hc)]. split; [done|]. exists pd. split; [done|].
    destruct pd; [done|]. by rewrite Hc, N2, N1.
Qed.
End Facts.
