(* ===== verification/LauncherStable.v ===== *)
(** * LauncherStable: a selection stands

    Where no file system call fails, starting the launcher again selects the same
    slot again and changes nothing: only refused verifications are counted, never
    the end of the launched process. *)
From S2P Require Import Prelude Text Hex Diagnostics Files FileFrames Crypto Launcher LauncherFacts.

Section Stable.
Context `{Ed25519} `{Sha256} `{IoDisplay} `{PathDisplay} `{ToLowercase}.
Context (root : path) (pid : Z).

(** ** No call fails *)

Ltac steps_unfold :=
  unfold select, select_standby, select_golden_master, restore_from_golden_master, record_rollback_decision,
    record_golden_master_restoration, append_rollback_log, write_active_slot, commit_release_counter,
    persist_release_counter, increment_slot_health, clear_slot_health, atomic_replace, remove_quietly; launcher_unfold.

Lemma faultless_select : faultless (select root pid).
Proof. steps_unfold. frame_tac. Qed.
Lemma faultless_choose : faultless (choose_slot root).
Proof. launcher_unfold. frame_tac. Qed.
Lemma faultless_check slot : faultless (verify_and_check_slot root slot).
Proof. launcher_unfold. frame_tac. Qed.

(** ** A verification again *)

Section Again.
Context (slot : Slot) (s s' : Fs) (F : faults s = []) (F' : faults s' = []).

(** The files a verification reads, the counter apart. *)
Definition source_names : list (list str) := evidence_names slot ++ [[lit "Recovery"; exe_name]].
Definition sources : list path := map (under root) source_names.
Context (agree : ∀ p, p ∈ sources → nodes s !! p = nodes s' !! p).

Lemma in_sources l : l ∈ source_names → under root l ∈ sources.
Proof. intros Hl. apply list_elem_of_fmap. by exists l. Qed.

(** The counter in [s'], once [pending] was committed. *)
Definition counter_after (pending : option Z) : Prop :=
  match pending with
  | None => nodes s !! release_counter_state_path root = nodes s' !! release_counter_state_path root
  | Some n => content_at s' (release_counter_state_path root) = Some (utf8_encode (show_u n ++ [10]))
  end.

(** A step that reads the sources only. *)
Ltac again E1 R1 :=
  match type of E1 with ?m _ = _ =>
    let Hd := fresh in
    assert (depends sources m) as Hd by (launcher_unfold; frame_tac; apply in_sources; unfold source_names; set_solver);
    let R := fresh in
    pose proof (run_again sources m s s' _ _ Hd ltac:(launcher_unfold; frame_tac) ltac:(launcher_unfold; frame_tac)
      F F' agree E1) as [-> R1]; clear Hd
  end.

Lemma counter_depends : depends [release_counter_state_path root] (read_release_counter root).
Proof. launcher_unfold. frame_tac. Qed.
Lemma counter_reads : reads (read_release_counter root).
Proof. launcher_unfold. frame_tac. Qed.
Lemma counter_faultless : faultless (read_release_counter root).
Proof. launcher_unfold. frame_tac. Qed.
Lemma counter_state n s1 : read_release_counter root s = (Ok n, s1) → s1 = s.
Proof. intros E1. by apply (run_again _ _ s s _ _ counter_depends counter_reads counter_faultless F F (λ _ _, eq_refl) E1). Qed.

Lemma counter_again n p s1 : read_release_counter root s = (Ok n, s1) → counter_after p →
  ∀ m, is_u64 (release_counter m) → pending_counter m n = Ok p →
  ∃ n', read_release_counter root s' = (Ok n', s') ∧ pending_counter m n' = Ok None.
Proof.
  intros E1 Hp m Hm Hpc. destruct p as [k|].
  - assert (k = release_counter m) as -> by (apply pending_some in Hpc as [?|[= ->]]; done).
    exists (release_counter m). cbn in Hp. unfold content_at in Hp.
    destruct (nodes s' !! release_counter_state_path root) as [[c|]|] eqn:En; [|done..]. injection Hp as ->.
    split; [|unfold pending_counter; by rewrite Z.ltb_irrefl, Z.eqb_refl].
    unfold read_release_counter, query.
    rewrite (bind_run _ _ _ true s') by (unfold map_err; rewrite run_exists, En by done; done). cbn [negb].
    unfold fs_read_to_string.
    rewrite (bind_run _ _ _ (show_u (release_counter m) ++ [10]) s').
    + unfold lift. unfold trim. rewrite trim_trailing; [by rewrite parse_show by exact Hm|done|].
      pose proof (digits_not_whitespace _ (show_u_digits (release_counter m) ltac:(unfold is_u64 in Hm; lia))) as Hw.
      rewrite Forall_forall in Hw. split; intros c Hc; apply Hw; [by apply head_Some_elem_of|by apply last_Some_elem_of].
    + unfold map_err. rewrite (bind_run _ _ _ (utf8_encode (show_u (release_counter m) ++ [10])) s')
        by (rewrite run_read, En by done; done).
      rewrite utf8_decode_encode; [done|]. apply Forall_app. split; [|by repeat constructor].
      eapply Forall_impl; [apply show_u_digits; unfold is_u64 in Hm; lia|]. unfold is_ascii_digit, is_scalar. intros c. lia.
  - exists n. split; [|done]. apply (run_again _ _ s s' _ _ counter_depends counter_reads counter_faultless F F') in E1 as [_ E1]; [done|].
    intros p ->%list_elem_of_singleton. exact Hp.
Qed.

Lemma prepare_again o s1 : prepare_signed_manifest root slot s = (Ok o, s1) → s1 = s ∧
  match o with
  | None => prepare_signed_manifest root slot s' = (Ok None, s')
  | Some (m, pending) => counter_after pending → prepare_signed_manifest root slot s' = (Ok (Some (m, None)), s')
  end.
Proof.
  unfold prepare_signed_manifest. intros Hr. step Hr lo s2 E1. apply load_manifest_ok in E1 as L1. destruct L1 as [_ L1].
  again E1 R1. rewrite (bind_run _ _ _ _ _ R1). destruct lo as [m|]; [|by apply ret_ok in Hr as [<- ->]].
  destruct L1 as (bs & text & _ & _ & Hm%parsed_counter_u64). step Hr a s3 E2. again E2 R2. rewrite (bind_run _ _ _ _ _ R2).
  destruct (verify_manifest m a) as [[]|c]; [|done]. step Hr u s4 E3. apply ret_ok in E3 as [_ ->].
  step Hr n s5 E4. step Hr pending s6 E5. apply lift_ok in E5 as [E5 ->].
  apply counter_state in E4 as E4'. subst s5.
  step Hr v s7 E6. again E6 R6. step Hr v' s8 E7. again E7 R7. apply ret_ok in Hr as [<- ->]. split; [done|].
  intros Hp. destruct (counter_again _ _ _ E4 Hp m Hm E5) as (n' & R4 & Hn').
  rewrite (bind_run (mret tt : L unit) _ s' tt s') by done. rewrite (bind_run _ _ _ _ _ R4).
  rewrite (bind_run _ _ _ None s') by (unfold lift; by rewrite Hn').
  rewrite (bind_run _ _ _ _ _ R6), (bind_run _ _ _ _ _ R7). done.
Qed.

Lemma verify_again p pending s1 : verify_slot_executable root slot s = (Ok (p, pending), s1) → counter_after pending →
  verify_slot_executable root slot s' = (Ok (p, None), s').
Proof.
  unfold verify_slot_executable. intros Hr Hp. step Hr u s2 E1. again E1 R1. rewrite (bind_run _ _ _ _ _ R1).
  step Hr pd s3 E2. apply ret_ok in Hr as [[= <- <-] ->]. unfold verify_slot_integrity in *. step E2 o s4 E3.
  apply prepare_again in E3 as [-> E3]. destruct o as [[m pd']|].
  - apply ret_ok in E2 as [-> ->]. specialize (E3 Hp).
    rewrite (bind_run _ _ s' None s'); [done|]. by rewrite (bind_run _ _ _ _ _ E3).
  - step E2 v s5 E4. again E4 R4. rewrite (bind_run _ _ s' None s'); [done|].
    rewrite (bind_run _ _ _ _ _ E3). by rewrite (bind_run _ _ _ _ _ R4).
Qed.
End Again.

(** ** The state a selection ends in *)

Lemma faultless_at {E T} (m : comp Fs E T) s r s' : faultless m → faults s = [] → m s = (r, s') → faults s' = [].
Proof. intros Hm F Em. specialize (Hm s F). by rewrite Em in Hm. Qed.
(** No call fails after a step either. *)
Ltac no_faults E1 F1 :=
  match type of E1 with ?m ?s = _ =>
    match goal with F : faults s = [] |- _ =>
      pose proof (faultless_at m s _ _ ltac:(steps_unfold; frame_tac) F E1) as F1 end end.

Lemma clear_ok slot s u s1 : faults s = [] → clear_slot_health root slot s = (Ok u, s1) →
  nodes s1 !! health_path root slot = None.
Proof.
  intros F. unfold clear_slot_health, query. unfold mbind, comp_bind. unfold map_err at 1. rewrite run_exists by done.
  unfold exists_at. case_bool_decide as Hn.
  - intros Hr%map_err_ok. apply remove_spec in Hr; [exact Hr|]. unfold truthful. rewrite F. constructor.
  - intros [_ ->]%ret_ok. by apply eq_None_not_Some.
Qed.

Lemma write_active_ok slot s u s1 : write_active_slot root pid slot s = (Ok u, s1) →
  content_at s1 (active_slot_file root) = Some (utf8_encode (slot_name slot ++ [10])).
Proof.
  intros Hr. apply (commit_file_inv root pid SelectionError.MetadataRead [] (lit "active-slot.txt") [lit "active-slot.txt"] _ s (Ok u) s1);
    [vm_compute; reflexivity|exact Hr].
Qed.

Lemma choose_written slot s : faults s = [] →
  content_at s (active_slot_file root) = Some (utf8_encode (slot_name slot ++ [10])) → choose_slot root s = (Ok slot, s).
Proof.
  intros F Hc. unfold content_at in Hc. destruct (nodes s !! _) as [[c|]|] eqn:En; [|done..]. injection Hc as ->.
  unfold choose_slot. rewrite (bind_run _ _ _ (slot_name slot ++ [10]) s).
  - by destruct slot.
  - unfold map_err, fs_read_to_string. rewrite (bind_run _ _ _ (utf8_encode (slot_name slot ++ [10])) s)
      by (rewrite run_read, En by done; done). by destruct slot.
Qed.

(** The active slot file and the health files through the bookkeeping. *)
Lemma active_clear slot : leaves (active_slot_file root) (clear_slot_health root slot).
Proof. apply (leaves_clear root [lit "active-slot.txt"]). destruct slot; vm_compute; reflexivity. Qed.
Lemma active_commit o : leaves (active_slot_file root) (commit_release_counter root pid o).
Proof.
  destruct o; [|apply leaves_ret]. apply (leaves_persist root pid [lit "active-slot.txt"]). vm_compute. reflexivity.
Qed.
Lemma health_commit slot o : leaves (health_path root slot) (commit_release_counter root pid o).
Proof.
  destruct o; [|apply leaves_ret]. apply (leaves_persist root pid (health_names slot)).
  destruct slot; vm_compute; reflexivity.
Qed.
Lemma health_clear_other : leaves (health_path root Slot.A) (clear_slot_health root Slot.B).
Proof. apply (leaves_clear root (health_names Slot.A)). vm_compute. reflexivity. Qed.

Lemma sources_safe slot l : l ∈ source_names slot → safe l.
Proof.
  unfold source_names. rewrite elem_of_app. intros [Hl%evidence_safe| ->%list_elem_of_singleton]; [done|].
  unfold safe. vm_compute. reflexivity.
Qed.

(** Verified, then only bookkeeping and the commit: the verification stands. *)
Lemma verified_end slot s p pending s1 s2 u s' : faults s = [] → faults s' = [] →
  verify_slot_executable root slot s = (Ok (p, pending), s1) → booked root s s2 →
  commit_release_counter root pid pending s2 = (Ok u, s') →
  verify_slot_executable root slot s' = (Ok (p, None), s').
Proof.
  intros F F' E1 [Hb Hc] E2. eapply (verify_again slot s s' F F'); [|exact E1|].
  - intros q (l & -> & Hl)%list_elem_of_fmap. apply sources_safe in Hl.
    by rewrite (leaves_at _ _ _ _ _ (safe_commit root pid l Hl pending) E2), Hb.
  - apply commit_ok in E2. unfold counter_after. destruct pending; [done|]. by rewrite E2, Hc.
Qed.

(** Such a state is selected again, and kept. *)
Lemma stable_end slot exe s : faults s = [] → choose_slot root s = (Ok slot, s) →
  nodes s !! health_path root slot = None → verify_slot_executable root slot s = (Ok (exe, None), s) →
  select root pid s = (Ok (slot, exe), s).
Proof.
  intros F Ec Hh Ev. unfold select. rewrite (bind_run _ _ _ _ _ Ec).
  assert (query (fs_exists (health_path root slot)) s = (Ok false, s)) as Eh
    by (unfold query, map_err; by rewrite run_exists, Hh by done).
  rewrite (bind_run _ _ _ (Ok (exe, None)) s).
  - unfold clear_slot_health. rewrite (bind_run _ _ _ tt s); [done|]. by rewrite (bind_run _ _ _ _ _ Eh).
  - apply attempt_run. unfold verify_and_check_slot, read_slot_health.
    rewrite (bind_run _ _ _ 0 s); [exact Ev|]. by rewrite (bind_run _ _ _ _ _ Eh).
Qed.

Lemma check_verified slot s x s1 : faults s = [] → verify_and_check_slot root slot s = (Ok x, s1) →
  verify_slot_executable root slot s = (Ok x, s1).
Proof.
  intros F. unfold verify_and_check_slot. intros Hr. step Hr n s2 E2.
  assert (depends [health_path root slot] (read_slot_health root slot)) as Hd by (launcher_unfold; frame_tac).
  apply (run_again _ _ s s _ _ Hd ltac:(launcher_unfold; frame_tac) ltac:(launcher_unfold; frame_tac) F F (λ _ _, eq_refl))
    in E2 as [-> _]. by destruct (_ <=? n).
Qed.

Lemma restored_end s p pending s' : faults s = [] → restore_from_golden_master root pid s = (Ok (p, pending), s') →
  content_at s' (active_slot_file root) = Some (utf8_encode (slot_name Slot.A ++ [10])) ∧
  ∃ s1 s2, faults s1 = [] ∧ verify_slot_executable root Slot.A s1 = (Ok (p, pending), s2) ∧ booked root s1 s'.
Proof.
  intros F Hr. unfold restore_from_golden_master in Hr. step Hr golden s1 E1. no_faults E1 F1. clear F. step Hr b s2 E2.
  no_faults E2 F2. clear F1. destruct (negb b); [done|]. step Hr u3 s3 E3. no_faults E3 F3. clear F2.
  step Hr u4 s4 E4. no_faults E4 F4. clear F3. step Hr h5 s5 E5. no_faults E5 F5. clear F4. step Hr h6 s6 E6.
  no_faults E6 F6. clear F5. destruct (negb _); [step Hr u7 s7 E7; done|]. step Hr u7 s7 E7. no_faults E7 F7. clear F6.
  step Hr u8 s8 E8. no_faults E8 F8. clear F7. step Hr u9 s9 E9. no_faults E9 F9. clear F8.
  apply bind_ok_inv in Hr as ([q pd] & s10 & E10 & Hr). step Hr u11 s11 E11. step Hr u12 s12 E12.
  apply ret_ok in Hr as [[= <- <-] ->]. apply write_active_ok in E12 as W. split; [exact W|]. exists s9, s10. split; [done|].
  apply verify_slot_ok in E10 as V. destruct V as (N10 & -> & _). split; [done|].
  eapply booked_trans; [exact (booked_same root _ _ N10)|].
  eapply booked_trans; eapply booked_by; first [exact E11|exact E12|idtac]; intros;
    unfold record_golden_master_restoration; eauto using safe_log, safe_write_active, counter_log, counter_write_active.
Qed.

(** A verification, bookkeeping, the cleared health file and the commit: what was
    selected is selected again, if the active slot file says so. *)
Lemma stands slot exe pending s1 v s2 u s3 s4 w s' : faults s1 = [] → faults s2 = [] → faults s' = [] →
  verify_slot_executable root slot s1 = (Ok (exe, pending), v) → booked root s1 s2 →
  clear_slot_health root slot s2 = (Ok u, s3) → booked root s3 s4 →
  nodes s4 !! health_path root slot = nodes s3 !! health_path root slot →
  commit_release_counter root pid pending s4 = (Ok w, s') → choose_slot root s' = (Ok slot, s') →
  select root pid s' = (Ok (slot, exe), s').
Proof.
  intros F1 F2 F' Ev B2 E3 B4 Hh E4 Ec. apply stable_end; [done..| |].
  - rewrite (leaves_at _ _ _ _ _ (health_commit slot pending) E4), Hh. by apply (clear_ok _ _ _ _ F2 E3).
  - eapply verified_end; [exact F1|done|exact Ev| |exact E4]. eapply booked_trans; [exact B2|].
    eapply booked_trans; [|exact B4]. eapply booked_by; [| |exact E3]; eauto using safe_clear, counter_clear.
Qed.

Abbreviation chosen_by := [active_slot_file root; slot_executable root Slot.A; slot_executable root Slot.B].
Lemma choose_depends : depends chosen_by (choose_slot root).
Proof. launcher_unfold. frame_tac. Qed.

(** The active slot is accepted. *)
Lemma active_stands s slot p pending s2 u3 s3 u4 s' : faults s = [] → faults s' = [] →
  choose_slot root s = (Ok slot, s) → verify_and_check_slot root slot s = (Ok (p, pending), s2) →
  clear_slot_health root slot s2 = (Ok u3, s3) → commit_release_counter root pid pending s3 = (Ok u4, s') →
  select root pid s' = (Ok (slot, p), s').
Proof.
  intros F F' E1 E2 E3 E4. apply (faultless_at _ _ _ _ (faultless_check slot) F) in E2 as F2.
  apply reads_at in E2 as N2; [|apply reads_check_slot]. apply check_verified in E2; [|done].
  eapply (stands slot p pending s _ s2 _ s3 s3); [done..|exact E2|by apply booked_same|exact E3|by apply booked_same|done|exact E4|].
  assert (∀ l, safe l → nodes s' !! under root l = nodes s !! under root l) as Hs.
  { intros l Hl. rewrite (leaves_at _ _ _ _ _ (safe_commit root pid l Hl pending) E4).
    by rewrite (leaves_at _ _ _ _ _ (safe_clear root l Hl slot) E3), N2. }
  apply (run_again _ _ s s' _ _ choose_depends (reads_choose_slot root) faultless_choose F F') in E1 as [_ E1]; [done|].
  intros q Hq. rewrite !elem_of_cons, elem_of_nil in Hq. destruct Hq as [->|[->|[->|[]]]].
  - rewrite (leaves_at _ _ _ _ _ (active_commit pending) E4). by rewrite (leaves_at _ _ _ _ _ (active_clear slot) E3), N2.
  - symmetry. apply Hs. unfold safe. vm_compute. reflexivity.
  - symmetry. apply Hs. unfold safe. vm_compute. reflexivity.
Qed.

Lemma golden_stands e1 e2 s slot exe s' : faults s = [] → faults s' = [] →
  select_golden_master root pid e1 e2 s = (Ok (slot, exe), s') → select root pid s' = (Ok (slot, exe), s').
Proof.
  intros F F' Hr. unfold select_golden_master in Hr. step Hr o s6 E6. apply attempt_inv in E6 as (r & [= ->] & E6).
  destruct r as [[p pending]|e6]; [|done]. no_faults E6 F6.
  apply (restored_end _ _ _ _ F) in E6 as (Ha & sv & sv' & Fv & Ev & Bv).
  step Hr u7 s7 E7. step Hr u8 s8 E8. step Hr u9 s9 E9. apply ret_ok in Hr as [[= <- <-] ->].
  eapply (stands Slot.A _ pending sv _ s6 _ s7 s8); [done..|exact Ev|exact Bv|exact E7| | |exact E9|].
  - eapply booked_by; [| |exact E8]; eauto using safe_clear, counter_clear.
  - by apply (leaves_at _ _ _ _ _ health_clear_other E8).
  - apply choose_written; [done|]. rewrite <- Ha. apply content_same.
    rewrite (leaves_at _ _ _ _ _ (active_commit pending) E9), (leaves_at _ _ _ _ _ (active_clear _) E8).
    by apply (leaves_at _ _ _ _ _ (active_clear _) E7).
Qed.

Lemma standby_stands slot0 e s slot exe s' : faults s = [] → faults s' = [] →
  select_standby root pid slot0 e s = (Ok (slot, exe), s') → select root pid s' = (Ok (slot, exe), s').
Proof.
  intros F F' Hr. unfold select_standby in Hr. destruct (is_health_failure e); [done|]. step Hr n s3 E3.
  no_faults E3 F3. clear F. step Hr o s4 E4. apply attempt_inv in E4 as (r & [= ->] & E4).
  apply (faultless_at _ _ _ _ (faultless_check _) F3) in E4 as F4. apply reads_at in E4 as N4; [|apply reads_check_slot].
  destruct r as [[p pending]|e2].
  - step Hr u5 s5 E5. no_faults E5 F5. step Hr u6 s6 E6. clear F4. no_faults E6 F6. step Hr u7 s7 E7. step Hr u8 s8 E8.
    apply ret_ok in Hr as [[= <- <-] ->]. apply check_verified in E4; [|done].
    eapply (stands _ p pending s3 _ s6 _ s7 s7); [done..|exact E4| |exact E7|by apply booked_same|done|exact E8|].
    + eapply booked_trans; [exact (booked_same root _ _ N4)|]. eapply booked_trans; eapply booked_by;
        first [exact E5|exact E6|idtac]; intros; unfold record_rollback_decision;
        eauto using safe_log, safe_write_active, counter_log, counter_write_active.
    + apply choose_written; [done|]. apply write_active_ok in E6. rewrite <- E6. apply content_same.
      rewrite (leaves_at _ _ _ _ _ (active_commit pending) E8). by apply (leaves_at _ _ _ _ _ (active_clear _) E7).
  - destruct (is_health_failure e2); [done|]. step Hr n5 s5 E5. clear F3. no_faults E5 F5. by apply (golden_stands _ _ _ _ _ _ F5) in Hr.
Qed.

(** C20: a selection stands: where no file system call fails, starting the launcher
    again after a successful selection selects the same slot and the same
    executable, and leaves the package as it is. *)
Theorem selection_stands s slot exe s' : faults s = [] → select root pid s = (Ok (slot, exe), s') →
  select root pid s' = (Ok (slot, exe), s').
Proof.
  intros F Hr. apply (faultless_at _ _ _ _ faultless_select F) in Hr as F'.
  unfold select in Hr. step Hr slot0 s1 E1. step Hr o s2 E2.
  destruct (run_again _ _ s s _ _ choose_depends (reads_choose_slot root) faultless_choose F F (λ _ _, eq_refl) E1) as [-> _].
  apply attempt_inv in E2 as (r & [= ->] & E2). destruct r as [[p pending]|e].
  - step Hr u3 s3 E3. step Hr u4 s4 E4. apply ret_ok in Hr as [[= <- <-] ->]. exact (active_stands s slot0 p pending s2 u3 s3 u4 _ F F' E1 E2 E3 E4).
  - apply (faultless_at _ _ _ _ (faultless_check slot0) F) in E2 as F2. by apply (standby_stands slot0 e s2).
Qed.
End Stable.

(** ** A signed package *)

#[local] Existing Instance toy_scheme.
#[local] Instance sample_hash : Sha256 := λ m, replicate 32 (foldr Z.add 0 m mod 256).
#[local] Instance sample_display : IoDisplay := λ _, lit "error".
#[local] Instance sample_path_display : PathDisplay := λ p, join (lit "\") p.
#[local] Instance sample_lowercase : ToLowercase := lowercase.

Definition sample_root : path := [lit "pkg"].
Definition sample_exe : bytes := [77; 90; 1; 2].
Definition sample_signed : bytes :=
  match sign_manifest (replicate 32 5) 12 [mkEntry (target_rel_path Slot.A) (sha256 sample_exe)] with
  | Ok t => utf8_encode t | Err _ => [] end.
(** Slot A is signed with release counter 12; the counter seen is [seen]. *)
Definition sample_package (seen : str) (fs : list (option Fault)) : Fs :=
  mkFs (list_to_map [
    (sample_root, Dir);
    (under sample_root [lit "Slots"; lit "A"], Dir);
    (slot_executable sample_root Slot.A, File sample_exe);
    (active_slot_file sample_root, File (lit "A"));
    (manifest_sig sample_root, File sample_signed);
    (resolve_trust_anchor_path sample_root, File (ed_public (replicate 32 5)));
    (under sample_root [lit "Data"], Dir);
    (under sample_root state_names, Dir);
    (release_counter_state_path sample_root, File (seen ++ [10]))]) fs.

Definition outcome (r : result SelectionError (Slot * path)) : option Slot :=
  match r with Ok (slot, _) => Some slot | Err _ => None end.

(** A current release is launched and its counter committed. *)
Example sample_upgrade :
  let r := select sample_root 7 (sample_package (lit "11") []) in
  outcome r.1 = Some Slot.A ∧ content_at r.2 (release_counter_state_path sample_root) = Some (lit "12" ++ [10]).
Proof. vm_compute. done. Qed.

Lemma launch_authorized_witness :
  let s' := (select sample_root 7 (sample_package (lit "11") [])).2 in
  slot_executable sample_root Slot.A = slot_executable sample_root Slot.A ∧
  committed sample_root (sample_package (lit "11") []) s' Slot.A.
Proof.
  intros s'. apply (launch_authorized sample_root 7 (sample_package (lit "11") []) Slot.A (slot_executable sample_root Slot.A) s').
  vm_compute. reflexivity.
Defined.

Lemma selection_stands_witness :
  let s' := (select sample_root 7 (sample_package (lit "11") [])).2 in
  select sample_root 7 s' = (Ok (Slot.A, slot_executable sample_root Slot.A), s').
Proof.
  intros s'. apply (selection_stands sample_root 7 (sample_package (lit "11") [])); vm_compute; reflexivity.
Defined.

(** An older release is refused, and the counter stays. *)
Lemma failed_selection_keeps_counter_witness :
  let s := sample_package (lit "20") [] in
  nodes (select sample_root 7 s).2 !! release_counter_state_path sample_root =
    nodes s !! release_counter_state_path sample_root.
Proof.
  intros s. destruct (select sample_root 7 s) as [[x|e] s'] eqn:Es; [exfalso; vm_compute in Es; discriminate|].
  exact (failed_selection_keeps_counter sample_root 7 s e s' Es).
Defined.

(** [Path::exists] is false when the query fails, and an absent counter is zero:
    one failing query and the older release is launched and the counter goes back. *)
Theorem failed_query_downgrades :
  let s := sample_package (lit "20") (replicate 8 None ++ [Some (mkFault denied 0)]) in
  let r := select sample_root 7 s in
  outcome r.1 = Some Slot.A ∧ content_at r.2 (release_counter_state_path sample_root) = Some (lit "12" ++ [10]) ∧
  outcome (select sample_root 7 (sample_package (lit "20") [])).1 = None.
Proof. vm_compute. done. Qed.
