(* ===== verification/Surface.v ===== *)
(** * Surface: what the tray shows, and the decisions derived from it

    Models the pure part of the tray: status, reconciliation, handoff and
    tooltip of [apps/true-tick/src/tray_surface.rs], [published_status] of
    [tray/status.rs], the quit decisions of [tray/quit.rs] and the shutdown gate
    of [shutdown.rs]. *)
From S2P Require Import Prelude Text Core Policy Ownership Pause.

Module TrayStatus.
Inductive TrayStatus :=
| Running | Starting | ScheduledStart | Pausing | Stopping | ScheduledStop | Paused | Pending
| Degraded | Unverified | Stopped | Blocked | Unsupported | Error.
End TrayStatus.
Abbreviation TrayStatus := TrayStatus.TrayStatus.
#[export] Instance TrayStatus_eq_dec : EqDecision TrayStatus.
Proof. solve_decision. Defined.

Module IconColor.
Inductive IconColor := Green | Yellow | Red.
End IconColor.
Abbreviation IconColor := IconColor.IconColor.

Definition icon_color (s : TrayStatus) : IconColor :=
  match s with
  | TrayStatus.Running => IconColor.Green
  | TrayStatus.Starting | TrayStatus.ScheduledStart | TrayStatus.Pausing | TrayStatus.Stopping
  | TrayStatus.ScheduledStop | TrayStatus.Paused | TrayStatus.Pending | TrayStatus.Degraded
  | TrayStatus.Unverified => IconColor.Yellow
  | TrayStatus.Stopped | TrayStatus.Blocked | TrayStatus.Unsupported | TrayStatus.Error => IconColor.Red
  end.

(** ** Reconciliation with the power state *)

Module PowerReconciliation.
Inductive PowerReconciliation :=
| Acquire | ReleaseBlocked | ShowStopped | PreserveOwned | PreserveUncertain.
End PowerReconciliation.
Abbreviation PowerReconciliation := PowerReconciliation.PowerReconciliation.

Definition power_reconciliation (automatic : bool) (power : PowerState) (ownership : OwnershipState)
    (battery_lockout : bool) : PowerReconciliation :=
  match power with
  | PowerState.Ac =>
      if automatic && bool_decide (ownership = OwnershipState.Released)
      then PowerReconciliation.Acquire
      else match ownership with
           | OwnershipState.Owned => PowerReconciliation.PreserveOwned
           | OwnershipState.Uncertain => PowerReconciliation.PreserveUncertain
           | OwnershipState.Released => PowerReconciliation.ShowStopped
           end
  | PowerState.Battery | PowerState.BatterySaver =>
      if negb battery_lockout then
        match ownership with
        | OwnershipState.Owned => PowerReconciliation.PreserveOwned
        | OwnershipState.Uncertain => PowerReconciliation.PreserveUncertain
        | OwnershipState.Released =>
            if automatic then PowerReconciliation.Acquire else PowerReconciliation.ShowStopped
        end
      else PowerReconciliation.ReleaseBlocked
  | PowerState.Unknown => PowerReconciliation.ReleaseBlocked
  end.

Definition uncertain_recovery_attempts_acquire (automatic : bool) (power : PowerState) : bool :=
  automatic && bool_decide (power = PowerState.Ac).

Definition resume_on_ac_applies (auto_resume pending : bool) (power : PowerState)
    (ownership : OwnershipState) : bool :=
  auto_resume && pending && bool_decide (power = PowerState.Ac)
  && bool_decide (ownership = OwnershipState.Released).

(** ** Status *)

Definition lifecycle_status (s : TrayStatus) (handoff_active : bool) : TrayStatus :=
  if handoff_active || bool_decide (s = TrayStatus.Pausing) then TrayStatus.Stopping else s.

Definition scheduled_lifecycle_status (s : TrayStatus) (handoff_active : bool)
    (scheduled : option DurationAction) : TrayStatus :=
  let s := lifecycle_status s handoff_active in
  if handoff_active then s
  else match s, scheduled with
       | TrayStatus.Stopped, Some DurationAction.Start => TrayStatus.ScheduledStart
       | TrayStatus.Running, Some DurationAction.Stop => TrayStatus.ScheduledStop
       | _, _ => s
       end.

Definition published_status (base : TrayStatus) (responsiveness_degraded : bool) : TrayStatus :=
  if responsiveness_degraded
     && match base with
        | TrayStatus.Running | TrayStatus.Stopped | TrayStatus.Paused => true | _ => false end
  then TrayStatus.Degraded else base.

(** ** Handoff after a release *)

Definition HANDOFF_POLL_INTERVAL_MS : Z := 250.
Definition HANDOFF_MAX_POLLS : Z := 12.

Module HandoffProgress.
Inductive HandoffProgress := Pending | Completed | TimedOut.
End HandoffProgress.
Abbreviation HandoffProgress := HandoffProgress.HandoffProgress.

Record HandoffTracker := mkHandoff {
  boundary : Z; released_status : TrayStatus; polls : Z; max_polls : Z }.

Definition handoff_new (b : Z) (s : TrayStatus) : HandoffTracker :=
  mkHandoff b s 0 HANDOFF_MAX_POLLS.

Definition handoff_observe (t : HandoffTracker) (effective : option Z)
    : HandoffProgress * HandoffTracker :=
  if match effective with Some v => boundary t <=? v | None => false end
  then (HandoffProgress.Completed, t)
  else
    let t := mkHandoff (boundary t) (released_status t) (sat_add 8 (polls t) 1) (max_polls t) in
    (if max_polls t <=? polls t then HandoffProgress.TimedOut else HandoffProgress.Pending, t).

Definition release_needs_handoff (b : Z) (effective : option Z) : bool :=
  match effective with Some v => v <? b | None => false end.

(** ** Timing values and the tooltip *)

Record TimingValues := mkTimingValues {
  tv_requested : option Z;
  tv_effective : option Z;
  external : bool;
  handoff_pending : bool;
  tv_invalid_interval : bool;
  valid : bool }.

Definition from_snapshot (s : TimingSnapshot) (handoff_pending external invalid_interval valid : bool)
    : TimingValues :=
  mkTimingValues (snap_requested s) (snap_effective s) external handoff_pending invalid_interval valid.

Definition remaining_display_seconds (d : Z) : Z :=
  sat_add 64 (d / 1000000000) (if d mod 1000000000 =? 0 then 0 else 1).

Definition scheduled_display_key (a : ScheduledAction) (now : Z) : DurationAction * Z * Z :=
  (action a, sched_generation a, remaining_display_seconds (remaining a now)).

Definition format_duration_seconds (seconds : Z) : str :=
  let hours := seconds / 3600 in
  let minutes := (seconds mod 3600) / 60 in
  let seconds := seconds mod 60 in
  if 0 <? hours then show_u hours ++ lit "h " ++ show_u minutes ++ lit "m"
  else if 0 <? minutes then show_u minutes ++ lit "m " ++ show_u seconds ++ lit "s"
  else show_u seconds ++ lit "s".
Definition format_remaining_duration (d : Z) : str :=
  format_duration_seconds (remaining_display_seconds d).

(** "True(TM) Tick" *)
Definition brand : str := lit "True" ++ [0x2122] ++ lit " Tick".

(** [format_milliseconds] has a value for every [u64]. *)
Definition effective_timing_suffix (t : TimingValues) : str :=
  if valid t && negb (tv_invalid_interval t) then
    match tv_effective t with
    | Some v => default [] (format_milliseconds v) ++ lit " ms"
    | None => lit "Timing unknown"
    end
  else lit "Timing unknown".

Definition block_reason_label (r : option PolicyReason) : str :=
  match r with
  | Some PolicyReason.BatteryRestricted => lit "Battery"
  | Some PolicyReason.BatterySaverRestricted => lit "Battery Saver"
  | Some PolicyReason.PowerUnknown => lit "Power unknown"
  | _ => []
  end.

Definition action_summary (s : TrayStatus) (scheduled : option ScheduledAction) (now : Z) : option str :=
  match s, scheduled with
  | TrayStatus.ScheduledStart, Some a =>
      Some (lit "Starting in " ++ format_remaining_duration (remaining a now))
  | TrayStatus.ScheduledStop, Some a =>
      Some (lit "Stopping in " ++ format_remaining_duration (remaining a now))
  | TrayStatus.Paused, Some a =>
      if bool_decide (action a = DurationAction.Pause)
      then Some (lit "Paused for " ++ format_remaining_duration (remaining a now)) else None
  | _, _ => None
  end.

(** [tooltip_at] returns early for the alarm states: [inl] is the whole text. *)
Definition state_text (s : TrayStatus) (t : TimingValues) (block_reason : option PolicyReason) : str + str :=
  match s with
  | TrayStatus.Running => inr (lit "Running")
  | TrayStatus.Starting | TrayStatus.ScheduledStart => inr (lit "Starting")
  | TrayStatus.Pausing | TrayStatus.ScheduledStop => inr (lit "Stopping")
  | TrayStatus.Stopping =>
      inr (if handoff_pending t then lit "Stopping, handoff" else lit "Stopping")
  | TrayStatus.Paused => inr (lit "Paused")
  | TrayStatus.Stopped => inr (lit "Stopped")
  | TrayStatus.Error => inl (brand ++ lit ": Error")
  | TrayStatus.Blocked =>
      let label := block_reason_label block_reason in
      if bool_decide (label = []) then inl (brand ++ lit ": Warning")
      else inr (lit "Blocked (" ++ label ++ lit ")")
  | TrayStatus.Pending | TrayStatus.Degraded | TrayStatus.Unsupported => inl (brand ++ lit ": Warning")
  | TrayStatus.Unverified => inl (brand ++ lit ": Timing unknown")
  end.

Definition tooltip_at (s : TrayStatus) (t : TimingValues) (scheduled : option ScheduledAction)
    (now : Z) (block_reason : option PolicyReason) : str :=
  match match action_summary s scheduled now with
        | Some summary => inr summary
        | None => state_text s t block_reason
        end with
  | inl text => text
  | inr state => brand ++ lit ": " ++ state ++ [32; 0xB7; 32] ++ effective_timing_suffix t
  end.

(** ** Quitting *)

Module QuitSafetyReason.
Inductive QuitSafetyReason := OwnedActive | OwnershipUncertain | TimingNotSettled.
End QuitSafetyReason.
Abbreviation QuitSafetyReason := QuitSafetyReason.QuitSafetyReason.

Module QuitDecision.
Inductive QuitDecision := ExitNormally | RequireSafetyDialog (reason : QuitSafetyReason).
End QuitDecision.
Abbreviation QuitDecision := QuitDecision.QuitDecision.

Definition quit_decision_for (s : TrayStatus) (ownership : OwnershipState) : QuitDecision :=
  match ownership with
  | OwnershipState.Owned => QuitDecision.RequireSafetyDialog QuitSafetyReason.OwnedActive
  | OwnershipState.Uncertain => QuitDecision.RequireSafetyDialog QuitSafetyReason.OwnershipUncertain
  | OwnershipState.Released =>
      match s with
      | TrayStatus.Running | TrayStatus.Starting | TrayStatus.Stopping | TrayStatus.Pending
      | TrayStatus.Degraded | TrayStatus.Unverified =>
          QuitDecision.RequireSafetyDialog QuitSafetyReason.TimingNotSettled
      | _ => QuitDecision.ExitNormally
      end
  end.

Definition quit_decision_for_handoff (s : TrayStatus) (ownership : OwnershipState)
    (handoff_active : bool) : QuitDecision :=
  if handoff_active && bool_decide (ownership = OwnershipState.Released)
  then QuitDecision.ExitNormally
  else if handoff_active then QuitDecision.RequireSafetyDialog QuitSafetyReason.TimingNotSettled
  else quit_decision_for s ownership.

(** ** The shutdown gate *)

Record ShutdownGate := mkGate { gate_verified : bool; attempts : Z }.
Definition gate_new : ShutdownGate := mkGate false 0.

(** [attempt]: the cleanup runs unless one has succeeded before. *)
Definition gate_attempt {S E} (cleanup : comp S E unit) (g : ShutdownGate) (s : S)
    : result E unit * ShutdownGate * S :=
  if gate_verified g then (Ok tt, g, s)
  else
    let g := mkGate (gate_verified g) (sat_add 32 (attempts g) 1) in
    match cleanup s with
    | (Ok _, s') => (Ok tt, mkGate true (attempts g), s')
    | (Err e, s') => (Err e, g, s')
    end.

Module MessageLoopExit.
Inductive MessageLoopExit := NormalQuit | GetMessageFailed (raw_error : Z).
End MessageLoopExit.
Abbreviation MessageLoopExit := MessageLoopExit.MessageLoopExit.

Definition message_loop_exit (r raw_error : Z) : option MessageLoopExit :=
  if r =? 0 then Some MessageLoopExit.NormalQuit
  else if r =? -1 then Some (MessageLoopExit.GetMessageFailed raw_error) else None.

Module ShutdownDisposition.
Inductive ShutdownDisposition :=
| Complete | ExitAfterMessageLoopError | KeepAliveForRetry | ExitWithUnresolvedCleanup.
End ShutdownDisposition.
Abbreviation ShutdownDisposition := ShutdownDisposition.ShutdownDisposition.

Definition shutdown_disposition (e : MessageLoopExit) (cleanup_verified ui_usable : bool)
    : ShutdownDisposition :=
  if cleanup_verified then
    match e with
    | MessageLoopExit.NormalQuit => ShutdownDisposition.Complete
    | MessageLoopExit.GetMessageFailed _ => ShutdownDisposition.ExitAfterMessageLoopError
    end
  else if match e with MessageLoopExit.NormalQuit => true | _ => false end && ui_usable
  then ShutdownDisposition.KeepAliveForRetry
  else ShutdownDisposition.ExitWithUnresolvedCleanup.

Definition shutdown_pump_bound_exceeded (elapsed_ms bound_ms : Z) : bool := bound_ms <=? elapsed_ms.

(** ** Power observation: [crates/tick-observation-windows/src/lib.rs] *)

Record PowerSnapshot := mkPower { power_state : PowerState; battery_saver : option bool }.
Definition power_unknown : PowerSnapshot := mkPower PowerState.Unknown None.

(** [query_power], from what [GetSystemPowerStatus] answers: the AC line status
    and the system status flag, or the error code. *)
Definition query_power (status : result Z (Z * Z)) : result CoreError PowerSnapshot :=
  match status with
  | Err raw => Err (CoreError.ObservationFailed raw)
  | Ok (ac_line_status, system_status_flag) =>
      let battery_saver := Z.odd system_status_flag in
      let base_state := if ac_line_status =? 1 then PowerState.Ac
                        else if ac_line_status =? 0 then PowerState.Battery else PowerState.Unknown in
      Ok (mkPower (if battery_saver then PowerState.BatterySaver else base_state) (Some battery_saver))
  end.

Record WindowsObservation := mkObserved { obs_power : PowerSnapshot; power_error : option CoreError }.
Definition observation_default : WindowsObservation := mkObserved power_unknown None.

Definition apply_power_query_result (r : result CoreError PowerSnapshot) (o : WindowsObservation)
    : WindowsObservation :=
  match r with
  | Ok snapshot => mkObserved snapshot None
  | Err error => mkObserved power_unknown (Some error)
  end.
