(* ===== verification/Menus.v ===== *)
(** * Menus: the texts and commands of the popup menu

    Models the part of [apps/true-tick/src/tray_surface.rs] that builds the
    items of the popup menu and decodes the commands it returns, with the anchor
    functions of [tray/menu.rs] and the command identifiers of
    [tray/commands.rs].  The menu itself, its handles and its handlers are in
    [TrayMenu] and [Tray]. *)
From S2P Require Import Prelude Text Core Policy Ownership Pause Surface.

Record MenuItem := mkItem { item_label : str; item_enabled : bool; command_id : option Z }.

(** ** Command identifiers *)

Definition ID_START : Z := 1001.
Definition ID_STOP : Z := 1002.
Definition ID_QUIT : Z := 1004.
Definition ID_STARTUP_ON : Z := 1005.
Definition ID_STARTUP_OFF : Z := 1006.
Definition ID_AUTOMATIC_ON : Z := 1007.
Definition ID_AUTOMATIC_OFF : Z := 1008.
Definition ID_AUTO_RESUME_ON : Z := 1009.
Definition ID_AUTO_RESUME_OFF : Z := 1010.
Definition START_IN_1_COMMAND_ID : Z := 1011.
Definition START_IN_5_COMMAND_ID : Z := 1012.
Definition START_IN_15_COMMAND_ID : Z := 1013.
Definition START_IN_30_COMMAND_ID : Z := 1014.
Definition START_IN_60_COMMAND_ID : Z := 1015.
Definition STOP_IN_1_COMMAND_ID : Z := 1016.
Definition STOP_IN_5_COMMAND_ID : Z := 1017.
Definition STOP_IN_15_COMMAND_ID : Z := 1018.
Definition STOP_IN_30_COMMAND_ID : Z := 1019.
Definition STOP_IN_60_COMMAND_ID : Z := 1020.
Definition PAUSE_FOR_5_COMMAND_ID : Z := 1021.
Definition PAUSE_FOR_15_COMMAND_ID : Z := 1022.
Definition PAUSE_FOR_30_COMMAND_ID : Z := 1023.
Definition PAUSE_FOR_60_COMMAND_ID : Z := 1024.
Definition CANCEL_SCHEDULED_COMMAND_ID : Z := 1025.
Definition CANCEL_PAUSE_COMMAND_ID : Z := 1026.
Definition BATTERY_LOCKOUT_ON_COMMAND_ID : Z := 1027.
Definition BATTERY_LOCKOUT_OFF_COMMAND_ID : Z := 1028.
Definition STATUS_STATE_COMMAND_ID : Z := 1030.
Definition STATUS_TIMING_COMMAND_ID : Z := 1031.
Definition STATUS_RUNNING_FOR_COMMAND_ID : Z := 1032.
Definition STATUS_NEXT_ACTION_COMMAND_ID : Z := 1033.
Definition STATUS_OWNERSHIP_COMMAND_ID : Z := 1034.
Definition LOGS_COMMAND_ID : Z := 1050.
Definition GITHUB_COMMAND_ID : Z := 1051.
Definition ID_RESET : Z := 1060.
Definition ID_SETTINGS_RESET : Z := 1061.
Definition DURATION_MENU_COMMAND_ID : Z := 1101.
Definition START_IN_MENU_COMMAND_ID : Z := 1102.
Definition STOP_IN_MENU_COMMAND_ID : Z := 1103.
Definition PAUSE_FOR_MENU_COMMAND_ID : Z := 1104.
Definition STATUS_MENU_COMMAND_ID : Z := 1105.
Definition SCHEDULE_PRESETS_COMMAND_ID : Z := 1106.
Definition START_PRESET_BASE_COMMAND_ID : Z := 1120.
Definition STOP_PRESET_BASE_COMMAND_ID : Z := 1140.
Definition PAUSE_PRESET_BASE_COMMAND_ID : Z := 1160.
Definition MAX_DYNAMIC_PRESETS : Z := 12.

(** A command among the patterns of one arm. *)
Definition among (c : Z) (ids : list Z) : bool := existsb (Z.eqb c) ids.

(** The command of the fixed durations, arm by arm. *)
Definition duration_arms : list (Z * (DurationAction * DurationChoice)) := [
  (START_IN_1_COMMAND_ID, (DurationAction.Start, DurationChoice.OneMinute));
  (START_IN_5_COMMAND_ID, (DurationAction.Start, DurationChoice.FiveMinutes));
  (START_IN_15_COMMAND_ID, (DurationAction.Start, DurationChoice.FifteenMinutes));
  (START_IN_30_COMMAND_ID, (DurationAction.Start, DurationChoice.ThirtyMinutes));
  (START_IN_60_COMMAND_ID, (DurationAction.Start, DurationChoice.OneHour));
  (STOP_IN_1_COMMAND_ID, (DurationAction.Stop, DurationChoice.OneMinute));
  (STOP_IN_5_COMMAND_ID, (DurationAction.Stop, DurationChoice.FiveMinutes));
  (STOP_IN_15_COMMAND_ID, (DurationAction.Stop, DurationChoice.FifteenMinutes));
  (STOP_IN_30_COMMAND_ID, (DurationAction.Stop, DurationChoice.ThirtyMinutes));
  (STOP_IN_60_COMMAND_ID, (DurationAction.Stop, DurationChoice.OneHour));
  (PAUSE_FOR_5_COMMAND_ID, (DurationAction.Pause, DurationChoice.FiveMinutes));
  (PAUSE_FOR_15_COMMAND_ID, (DurationAction.Pause, DurationChoice.FifteenMinutes));
  (PAUSE_FOR_30_COMMAND_ID, (DurationAction.Pause, DurationChoice.ThirtyMinutes));
  (PAUSE_FOR_60_COMMAND_ID, (DurationAction.Pause, DurationChoice.OneHour))].

(** The first arm with the command. *)
Fixpoint arm_of {T} (c : Z) (arms : list (Z * T)) : option T :=
  match arms with
  | [] => None
  | (id, x) :: arms => if c =? id then Some x else arm_of c arms
  end.

Definition duration_command (c : Z) : option (DurationAction * DurationChoice) := arm_of c duration_arms.
Definition duration_ids : list Z := map fst duration_arms.

(** The action and the index of the preset. *)
Definition preset_command (c : Z) : option (DurationAction * Z) :=
  if (START_PRESET_BASE_COMMAND_ID <=? c) && (c <? START_PRESET_BASE_COMMAND_ID + MAX_DYNAMIC_PRESETS)
  then Some (DurationAction.Start, c - START_PRESET_BASE_COMMAND_ID)
  else if (STOP_PRESET_BASE_COMMAND_ID <=? c) && (c <? STOP_PRESET_BASE_COMMAND_ID + MAX_DYNAMIC_PRESETS)
  then Some (DurationAction.Stop, c - STOP_PRESET_BASE_COMMAND_ID)
  else if (PAUSE_PRESET_BASE_COMMAND_ID <=? c) && (c <? PAUSE_PRESET_BASE_COMMAND_ID + MAX_DYNAMIC_PRESETS)
  then Some (DurationAction.Pause, c - PAUSE_PRESET_BASE_COMMAND_ID)
  else None.

Definition preset_command_base (a : DurationAction) : Z :=
  match a with
  | DurationAction.Start => START_PRESET_BASE_COMMAND_ID
  | DurationAction.Stop => STOP_PRESET_BASE_COMMAND_ID
  | DurationAction.Pause => PAUSE_PRESET_BASE_COMMAND_ID
  end.

Definition preset_menu_items (a : DurationAction) (presets : list DurationPreset) : list MenuItem :=
  imap (λ index preset,
    mkItem (format_label preset) true (Some (preset_command_base a + Z.of_nat index))) presets.

Definition duration_choices (a : DurationAction) : list MenuItem :=
  map (λ duration, mkItem (choice_label duration) true None)
    (match a with
     | DurationAction.Start | DurationAction.Stop => choice_all
     | DurationAction.Pause => pause_choices
     end).

(** ** Labels *)

Definition auto_start_label (enabled : bool) : str :=
  if enabled then lit "Auto-start: On" else lit "Auto-start: Off".
Definition automatic_label (enabled : bool) : str :=
  if enabled then lit "Auto-time: On" else lit "Auto-time: Off".
Definition auto_resume_label (enabled : bool) : str :=
  if enabled then lit "Auto-resume on AC: On" else lit "Auto-resume on AC: Off".
Definition battery_lockout_label (enabled : bool) : str :=
  if enabled then lit "Battery lockout: On" else lit "Battery lockout: Off".

(** [CARGO_PKG_VERSION] is the version of the workspace. *)
Definition CARGO_PKG_VERSION : str := lit "0.1.0".
Definition version_header : str := brand ++ lit " v" ++ CARGO_PKG_VERSION.

Definition state_label (s : TrayStatus) (t : TimingValues) : str :=
  match s with
  | TrayStatus.Running => lit "Running"
  | TrayStatus.Stopped => lit "Stopped"
  | TrayStatus.Starting | TrayStatus.ScheduledStart => lit "Starting"
  | TrayStatus.Stopping | TrayStatus.Pausing | TrayStatus.ScheduledStop =>
      if handoff_pending t then lit "Stopping, handoff" else lit "Stopping"
  | TrayStatus.Paused => lit "Paused"
  | TrayStatus.Blocked => lit "Warning"
  | TrayStatus.Error => lit "Error"
  | TrayStatus.Unsupported | TrayStatus.Pending | TrayStatus.Degraded => lit "Warning"
  | TrayStatus.Unverified => lit "Timing unknown"
  end.

Definition state_menu_label (s : TrayStatus) (t : TimingValues) (scheduled : option ScheduledAction)
    (now : Z) : str :=
  match s, scheduled with
  | TrayStatus.ScheduledStart, Some a => lit "Starting in " ++ format_remaining_duration (remaining a now)
  | TrayStatus.ScheduledStop, Some a => lit "Stopping in " ++ format_remaining_duration (remaining a now)
  | TrayStatus.Paused, Some a =>
      if bool_decide (action a = DurationAction.Pause)
      then lit "Paused for " ++ format_remaining_duration (remaining a now)
      else state_label s t
  | _, _ => state_label s t
  end.

Definition format_duration (d : Z) : str := format_duration_seconds (d / 1000000000).

Definition effective_timing_label (t : TimingValues) : str :=
  if valid t && negb (tv_invalid_interval t) then
    match tv_effective t with Some v => format_detailed v | None => lit "Timing unknown" end
  else lit "Timing unknown".

Definition running_for_label (running_for : option Z) : str :=
  match running_for with Some d => format_duration d | None => lit "Not running" end.

Definition next_action_label (scheduled : option ScheduledAction) (now : Z) : str :=
  match scheduled with
  | Some a => action_label (action a) ++ lit " in " ++ format_remaining_duration (remaining a now)
  | None => lit "none"
  end.

Definition ownership_label (o : OwnershipState) (t : TimingValues) : str :=
  match o with
  | OwnershipState.Owned => brand
  | OwnershipState.Uncertain => lit "Uncertain"
  | OwnershipState.Released => if external t then lit "External timing" else lit "Released"
  end.

(** ** Items *)

Definition duration_menu_items (scheduled : option ScheduledAction) : list MenuItem :=
  let is_pause := match scheduled with
                  | Some a => bool_decide (action a = DurationAction.Pause) | None => false end in
  let is_other := match scheduled with
                  | Some a => negb (bool_decide (action a = DurationAction.Pause)) | None => false end in
  [mkItem (lit "Start in >") true None;
   mkItem (lit "Stop in >") true None;
   mkItem (lit "Pause for >") true None;
   mkItem (lit "Interval presets...") true (Some SCHEDULE_PRESETS_COMMAND_ID);
   mkItem (lit "Cancel scheduled action") is_other (Some CANCEL_SCHEDULED_COMMAND_ID);
   mkItem (lit "Resume now") is_pause (Some CANCEL_PAUSE_COMMAND_ID)].

Definition status_menu_items (s : TrayStatus) (t : TimingValues) (o : OwnershipState)
    (scheduled : option ScheduledAction) (running_for : option Z) (now : Z) : list MenuItem :=
  [mkItem (lit "State: " ++ state_menu_label s t scheduled now) false (Some STATUS_STATE_COMMAND_ID);
   mkItem (lit "Timing: " ++ effective_timing_label t) false (Some STATUS_TIMING_COMMAND_ID);
   mkItem (lit "Running for: " ++ running_for_label running_for) false (Some STATUS_RUNNING_FOR_COMMAND_ID);
   mkItem (lit "Next action: " ++ next_action_label scheduled now) false (Some STATUS_NEXT_ACTION_COMMAND_ID);
   mkItem (lit "Ownership: " ++ ownership_label o t) false (Some STATUS_OWNERSHIP_COMMAND_ID)].

Definition settings_menu_items (startup_enabled automatic auto_resume_on_ac battery_lockout : bool)
    : list MenuItem :=
  [mkItem (auto_start_label startup_enabled) true None;
   mkItem (automatic_label automatic) true None;
   mkItem (auto_resume_label auto_resume_on_ac) true None;
   mkItem (battery_lockout_label battery_lockout) true None].

Definition menu_items_with_duration (s : TrayStatus) (startup_enabled automatic : bool) (t : TimingValues)
    (paused : bool) : list MenuItem :=
  [mkItem version_header true None;
   mkItem (lit "Start")
     (negb paused && match s with TrayStatus.Running | TrayStatus.Starting => false | _ => true end) None;
   mkItem (lit "Stop")
     (negb paused && match s with
                     | TrayStatus.Stopped | TrayStatus.Pausing | TrayStatus.Stopping => false
                     | _ => true end) None;
   mkItem (lit "Schedule >") true None;
   mkItem (lit "Settings >") true None;
   mkItem (lit "Status >") true None;
   mkItem (lit "Logs") true None;
   mkItem (lit "Quit") true None].

Definition menu_items (s : TrayStatus) (startup_enabled automatic : bool) (t : TimingValues) : list MenuItem :=
  menu_items_with_duration s startup_enabled automatic t false.

(** ** Descriptions *)

Definition description_arms : list (list Z * str) := [
  ([ID_START], lit "Request the best supported timing");
  ([ID_STOP], lit "Release " ++ brand ++ lit " timing");
  ([ID_STARTUP_ON; ID_STARTUP_OFF], lit "Launch " ++ brand ++ lit " when you sign in");
  ([ID_AUTOMATIC_ON; ID_AUTOMATIC_OFF], lit "Request timing automatically on AC power");
  ([ID_AUTO_RESUME_ON; ID_AUTO_RESUME_OFF], lit "Resume timing when returning to AC power");
  ([BATTERY_LOCKOUT_ON_COMMAND_ID; BATTERY_LOCKOUT_OFF_COMMAND_ID], lit "Restrict timing requests on DC power");
  ([ID_RESET], lit "Clear all data and restart");
  ([ID_SETTINGS_RESET], lit "Reset settings to factory defaults");
  ([LOGS_COMMAND_ID], lit "Open status and session logs");
  ([GITHUB_COMMAND_ID], lit "Open " ++ brand ++ lit " on GitHub");
  ([DURATION_MENU_COMMAND_ID], lit "Schedule a bounded timing action");
  ([START_IN_MENU_COMMAND_ID], lit "Schedule a future guarded acquire");
  ([STOP_IN_MENU_COMMAND_ID], lit "Schedule a future guarded release");
  ([PAUSE_FOR_MENU_COMMAND_ID], lit "Suppress acquisition for a fixed duration");
  ([SCHEDULE_PRESETS_COMMAND_ID], lit "Manage interval presets");
  ([CANCEL_SCHEDULED_COMMAND_ID], lit "Clear the current scheduled action");
  ([CANCEL_PAUSE_COMMAND_ID], lit "Resume timing and cancel the pause");
  ([STATUS_MENU_COMMAND_ID], lit "View read-only lifecycle details");
  ([STATUS_STATE_COMMAND_ID], lit "Current True Tick lifecycle state");
  ([STATUS_TIMING_COMMAND_ID], lit "Latest verified effective timing observation");
  ([STATUS_RUNNING_FOR_COMMAND_ID], lit "Elapsed time since verified running");
  ([STATUS_NEXT_ACTION_COMMAND_ID], lit "Scheduled action and remaining time");
  ([STATUS_OWNERSHIP_COMMAND_ID], lit "True Tick ownership versus external timing");
  ([START_IN_1_COMMAND_ID], lit "Start in 1 minute");
  ([START_IN_5_COMMAND_ID], lit "Start in 5 minutes");
  ([START_IN_15_COMMAND_ID], lit "Start in 15 minutes");
  ([START_IN_30_COMMAND_ID], lit "Start in 30 minutes");
  ([START_IN_60_COMMAND_ID], lit "Start in 1 hour");
  ([STOP_IN_1_COMMAND_ID], lit "Stop in 1 minute");
  ([STOP_IN_5_COMMAND_ID], lit "Stop in 5 minutes");
  ([STOP_IN_15_COMMAND_ID], lit "Stop in 15 minutes");
  ([STOP_IN_30_COMMAND_ID], lit "Stop in 30 minutes");
  ([STOP_IN_60_COMMAND_ID], lit "Stop in 1 hour");
  ([PAUSE_FOR_5_COMMAND_ID], lit "Pause for 5 minutes");
  ([PAUSE_FOR_15_COMMAND_ID], lit "Pause for 15 minutes");
  ([PAUSE_FOR_30_COMMAND_ID], lit "Pause for 30 minutes");
  ([PAUSE_FOR_60_COMMAND_ID], lit "Pause for 1 hour");
  ([ID_QUIT], lit "Stop safely and quit")].

Fixpoint pattern_arm {T} (c : Z) (arms : list (list Z * T)) : option T :=
  match arms with
  | [] => None
  | (ids, x) :: arms => if among c ids then Some x else pattern_arm c arms
  end.

Definition menu_description (c : Z) : option str := pattern_arm c description_arms.

(** ** The icon *)

Definition dpi_to_icon_canvas (dpi : Z) : Z :=
  let dpi := if dpi =? 0 then 96 else dpi in
  if dpi <=? 107 then 16 else if dpi <=? 132 then 20 else if dpi <=? 168 then 24
  else if dpi <=? 288 then 32 else 64.

Definition icon_pixel_color (s : TrayStatus) : Z :=
  match icon_color s with
  | IconColor.Green => 0xFF00B000
  | IconColor.Yellow => 0xFFD0D000
  | IconColor.Red => 0xFFD00000
  end.

(** ** What a command does to the menu, and when it is accepted *)

Inductive TrayClickAction := OpenMenu.
Definition tray_click_action (notification : Z) : option TrayClickAction :=
  if among notification [0x0202; 0x0205] then Some OpenMenu else None.

Definition tray_notification_opens_menu (notification : Z) (menu_active : bool) : bool :=
  negb menu_active && match tray_click_action notification with Some OpenMenu => true | None => false end.

Definition menu_command_dispatch_allowed (menu_active from_popup_return : bool) : bool :=
  from_popup_return || negb menu_active.

Definition menu_action_keeps_open (c : Z) : bool :=
  among c ([ID_START; ID_STOP; ID_STARTUP_ON; ID_STARTUP_OFF; ID_AUTOMATIC_ON; ID_AUTOMATIC_OFF;
            ID_AUTO_RESUME_ON; ID_AUTO_RESUME_OFF; BATTERY_LOCKOUT_ON_COMMAND_ID;
            BATTERY_LOCKOUT_OFF_COMMAND_ID] ++ duration_ids ++
           [CANCEL_SCHEDULED_COMMAND_ID; CANCEL_PAUSE_COMMAND_ID; SCHEDULE_PRESETS_COMMAND_ID])
  || bool_decide (is_Some (preset_command c)).

Definition menu_command_is_enabled_with_pause (c : Z) (s : TrayStatus)
    (startup_enabled automatic auto_resume_on_ac battery_lockout schedule_active : bool) : bool :=
  if c =? ID_START then
    match s with
    | TrayStatus.Running | TrayStatus.Starting | TrayStatus.Stopping | TrayStatus.Paused => false
    | _ => true end
  else if c =? ID_STOP then
    match s with
    | TrayStatus.Running | TrayStatus.Starting | TrayStatus.ScheduledStop | TrayStatus.Unverified => true
    | _ => false end
  else if c =? ID_STARTUP_ON then negb startup_enabled
  else if c =? ID_STARTUP_OFF then startup_enabled
  else if c =? ID_AUTOMATIC_ON then negb automatic
  else if c =? ID_AUTOMATIC_OFF then automatic
  else if c =? ID_AUTO_RESUME_ON then negb auto_resume_on_ac
  else if c =? ID_AUTO_RESUME_OFF then auto_resume_on_ac
  else if c =? BATTERY_LOCKOUT_ON_COMMAND_ID then negb battery_lockout
  else if c =? BATTERY_LOCKOUT_OFF_COMMAND_ID then battery_lockout
  else if among c [LOGS_COMMAND_ID; GITHUB_COMMAND_ID; SCHEDULE_PRESETS_COMMAND_ID; ID_QUIT; ID_RESET;
                   ID_SETTINGS_RESET] then true
  else if among c duration_ids then true
  else if among c [CANCEL_SCHEDULED_COMMAND_ID; CANCEL_PAUSE_COMMAND_ID] then schedule_active
  else bool_decide (is_Some (preset_command c)).

Definition menu_command_is_enabled (c : Z) (s : TrayStatus)
    (startup_enabled automatic auto_resume_on_ac battery_lockout : bool) : bool :=
  menu_command_is_enabled_with_pause c s startup_enabled automatic auto_resume_on_ac battery_lockout false.

(** ** The anchor: [tray/menu.rs] and [tray/native.rs] *)

Definition TPM_LEFTALIGN : Z := 0x0000.
Definition TPM_TOPALIGN : Z := 0x0000.
Definition TPM_RIGHTALIGN : Z := 0x0008.
Definition TPM_BOTTOMALIGN : Z := 0x0020.
Definition ABE_RIGHT : Z := 2.
Definition ABE_BOTTOM : Z := 3.
Definition i32_min : Z := - 2 ^ 31.
Definition i32_max : Z := 2 ^ 31 - 1.

Record Point := mkPoint { pt_x : Z; pt_y : Z }.
Record Rect := mkRect { left : Z; top : Z; right : Z; bottom : Z }.

Definition popup_track_flags (edge : option Z) (horizontal vertical : Z) : Z :=
  let horizontal := if bool_decide (edge = Some ABE_RIGHT) then TPM_RIGHTALIGN else horizontal in
  let vertical := if bool_decide (edge = Some ABE_BOTTOM) then TPM_BOTTOMALIGN else vertical in
  Z.lor horizontal vertical.

Module MenuAnchorSource.
Inductive MenuAnchorSource := IconRect | CursorFallback.
End MenuAnchorSource.
Abbreviation MenuAnchorSource := MenuAnchorSource.MenuAnchorSource.

Record MenuAnchor := mkAnchor { anchor_point : Point; anchor_flags : Z; anchor_source : MenuAnchorSource }.

Definition menu_anchor (icon_rect : option Rect) (edge : option Z) (cursor : Point) : MenuAnchor :=
  match icon_rect with
  | Some rect =>
      mkAnchor (mkPoint (left rect) (top rect)) (Z.lor TPM_BOTTOMALIGN TPM_LEFTALIGN) MenuAnchorSource.IconRect
  | None => mkAnchor cursor (popup_track_flags edge TPM_LEFTALIGN TPM_TOPALIGN) MenuAnchorSource.CursorFallback
  end.

(** [saturating_sub] on [i32]; [clamp] panics when its bounds are out of order,
    which the upper bounds taken here exclude. *)
Definition sat_pred (x : Z) : Z := Z.max i32_min (x - 1).
Definition clamp_menu_anchor (p : Point) (work : Rect) : Point :=
  let max_x := Z.max (sat_pred (right work)) (left work) in
  let max_y := Z.max (sat_pred (bottom work)) (top work) in
  mkPoint (clamp (pt_x p) (left work) max_x) (clamp (pt_y p) (top work) max_y).

Definition returned_menu_command (result : Z) : option Z := if 0 <? result then Some result else None.

(** Two coordinates in one message parameter. *)
Definition track_position_lparam (x y : Z) : Z :=
  Z.lor (Z.land (wrap 32 x) 0xffff) (Z.shiftl (Z.land (wrap 32 y) 0xffff) 16).
