(* ===== verification/Engine.v ===== *)
(** * Engine: the tray application's state machine

    Models the handlers of [apps/true-tick/src/tray/tier.rs], [schedule.rs] and
    [power.rs], and [publish] and the power and IPC handlers of
    [controller.rs].  The engine is generic in the timer platform, as the
    controller is, and in the desktop (clock, timers, shell and power query of
    the operating system).

    The handlers call each other in cycles: [publish] evaluates the tier, a tier
    change may release, a release publishes.  They are functions on the
    application state with fuel, [OutOfFuel] when it ends; the theorems say when
    fuel never suffices and how much always does.  The journal keeps the names
    and outcomes of the recorded events, not their texts; the counters that other
    threads advance are read as they stand when a handler starts. *)
From coqutil Require Import Datatypes.RecordSetters.
From S2P Require Import Prelude Text Core Policy Watchdog Diagnostics Platform Ownership Wire Pause Files Config Surface.
Import TriangleBracketNotations.

Definition HANDOFF_TIMER_ID : Z := 0x5449.
Definition DURATION_TIMER_ID_BASE : Z := 0x6000.
Definition DURATION_TIMER_ID_MASK : Z := 0x07FF.
Definition SURFACE_RECOVERY_TIMER_ID : Z := 0x6A00.
Definition SCHEDULE_DISPLAY_TIMER_ID : Z := 0x7100.
Definition SCHEDULE_DISPLAY_INTERVAL_MS : Z := 1000.
Definition POWER_DEBOUNCE_TIMER_ID : Z := 0x7200.
Definition POWER_DEBOUNCE_INTERVAL_MS : Z := 2000.
Definition SURFACE_RECOVERY_ATTEMPTS : Z := 3.
Definition SURFACE_RECOVERY_SPACING_MS : Z := 2000.

Definition duration_timer_id_of (generation : Z) : Z :=
  DURATION_TIMER_ID_BASE + Z.land generation DURATION_TIMER_ID_MASK.

(** The operating system, as the engine uses it. *)
Class Desktop (W : Type) := {
  instant_now : W → Z * W;
  (** [SetTimer] and [KillTimer]: whether they succeeded. *)
  win_set_timer : Z → Z → W → bool * W;
  win_kill_timer : Z → W → bool * W;
  (** [update_icon], [NotifyIconData::new], and [Shell_NotifyIconW] adding it. *)
  shell_modify : TrayStatus → str → W → bool * W;
  shell_create : W → bool * W;
  shell_add : W → bool * W;
  system_power_status : W → result Z (Z * Z) * W }.

Record PublicationKey := mkKey {
  key_status : TrayStatus;
  key_ownership : OwnershipState;
  key_effective : option Z;
  key_requested : option Z;
  key_handoff : bool;
  key_scheduled : option (DurationAction * Z * Z);
  key_block_reason : option PolicyReason }.
#[export] Instance PublicationKey_eq_dec : EqDecision PublicationKey.
Proof. solve_decision. Defined.

Inductive Diverged := OutOfFuel.

Record App (P W : Type) := mkApp {
  controller : TimerController P;
  world : W;
  power_observation : WindowsObservation;
  config : Config;
  tray_status : TrayStatus;
  last_block_reason : option PolicyReason;
  operating_tier : OperatingTier;
  kernel_rejected_requests : Z;
  unhandled_anomalies : Z;
  (** [pending_anomalies] with its reasons, the watchdog's counter, the sequence
      numbers of the stored [storage.*] failures, and the caught panics. *)
  pending_anomalies : Z;
  pending_anomaly_reasons : nat;
  watchdog : option Z;
  storage_failure_events : list Z;
  caught_dispatch_panics : Z;
  last_watchdog_episodes : Z;
  consumed_log_write_failures : Z;
  consumed_dispatch_panics : Z;
  surface_recovery_attempts : Z;
  surface_recovery_due : option Z;
  surface_recovery_exhausted : bool;
  tray_icon : bool;
  timing_snapshot : TimingSnapshot;
  timing_snapshot_valid : bool;
  invalid_interval : bool;
  external_timing : bool;
  desired_intent : DesiredIntentQueue;
  schedule_display_timer_active : bool;
  handoff : option HandoffTracker;
  pause : DurationCoordinator;
  presets_manager : PresetsManager;
  duration_timer_id : option Z;
  duration_timer_generation : option Z;
  running_since : option Z;
  pending_resume_on_ac : bool;
  last_publication : option PublicationKey;
  power_debounce_active : bool;
  power_debounce_target_state : option PowerState;
  responsiveness_degraded : bool;
  heartbeat : Z;
  ownership_flag : bool;
  emergency_interval : Z;
  tracked_interval : Z;
  ipc_schedule_id : Z;
  journal : list (string * option DiagnosticOutcome) }.
Arguments mkApp {P W}.
Arguments controller {P W} _. Arguments world {P W} _. Arguments power_observation {P W} _.
Arguments config {P W} _. Arguments tray_status {P W} _. Arguments last_block_reason {P W} _.
Arguments operating_tier {P W} _. Arguments kernel_rejected_requests {P W} _.
Arguments unhandled_anomalies {P W} _. Arguments pending_anomalies {P W} _.
Arguments pending_anomaly_reasons {P W} _. Arguments watchdog {P W} _.
Arguments storage_failure_events {P W} _. Arguments caught_dispatch_panics {P W} _.
Arguments last_watchdog_episodes {P W} _. Arguments consumed_log_write_failures {P W} _.
Arguments consumed_dispatch_panics {P W} _. Arguments surface_recovery_attempts {P W} _.
Arguments surface_recovery_due {P W} _. Arguments surface_recovery_exhausted {P W} _.
Arguments tray_icon {P W} _. Arguments timing_snapshot {P W} _.
Arguments timing_snapshot_valid {P W} _. Arguments invalid_interval {P W} _.
Arguments external_timing {P W} _. Arguments desired_intent {P W} _.
Arguments schedule_display_timer_active {P W} _. Arguments handoff {P W} _.
Arguments pause {P W} _. Arguments presets_manager {P W} _.
Arguments duration_timer_id {P W} _. Arguments duration_timer_generation {P W} _.
Arguments running_since {P W} _. Arguments pending_resume_on_ac {P W} _.
Arguments last_publication {P W} _. Arguments power_debounce_active {P W} _.
Arguments power_debounce_target_state {P W} _. Arguments responsiveness_degraded {P W} _.
Arguments heartbeat {P W} _. Arguments ownership_flag {P W} _.
Arguments emergency_interval {P W} _. Arguments tracked_interval {P W} _.
Arguments ipc_schedule_id {P W} _. Arguments journal {P W} _.

Section Engine.
Context {P : Type} `{TimerPlatform P} {W : Type} `{Desktop W}.
Abbreviation A := (App P W).
Abbreviation E := (comp A Diverged).

(** ** Journal, operating system and controller calls *)

Definition record (name : string) : E unit :=
  modify (λ a, a <| journal ::= (λ j, j ++ [(name, None)]) |>).
Definition record_with_outcome (name : string) (outcome : DiagnosticOutcome) : E unit :=
  modify (λ a, a <| journal ::= (λ j, j ++ [(name, Some outcome)]) |>).

Definition on_world {T} (f : W → T * W) : E T := λ a : A,
  let '(x, w) := f (world a) in (Ok x, a <| world := w |>).
Definition now : E Z := on_world instant_now.
Definition SetTimer (id ms : Z) : E bool := on_world (win_set_timer id ms).
Definition update_icon (s : TrayStatus) (tip : str) : E bool := on_world (shell_modify s tip).
Definition KillTimer (id : Z) : E bool := on_world (win_kill_timer id).

Definition on_controller {T} (m : comp (TimerController P) TimerError T) : E (result TimerError T) :=
  λ a, let '(r, c) := m (controller a) in (Ok r, a <| controller := c |>).
Definition modify_controller (f : TimerController P → TimerController P) : E unit :=
  modify (λ a, a <| controller ::= f |>).

Definition power_of (a : A) : PowerState := power_state (obs_power (power_observation a)).
Definition refresh_power : E unit :=
  status ← on_world system_power_status;
  modify (λ a, a <| power_observation ::= apply_power_query_result (query_power status) |>).

Definition when (b : bool) (m : E unit) : E unit := if b then m else mret tt.
Definition set_tray_status (s : TrayStatus) : E unit := modify (λ a, a <| tray_status := s |>).

Definition sync_timing_snapshot : E unit :=
  modify (λ a, a <| timing_snapshot := snapshot (controller a) |>).

Definition lifecycle (a : A) : TrayStatus :=
  scheduled_lifecycle_status (tray_status a) (bool_decide (is_Some (handoff a)))
    (action <$> scheduled (pause a)).

Definition timing_values (a : A) : TimingValues :=
  let external := external_timing a
    || (bool_decide (ownership (controller a) = OwnershipState.Released)
        && match snap_requested (timing_snapshot a), snap_effective (timing_snapshot a) with
           | Some requested, Some effective => effective <? requested
           | _, _ => false
           end) in
  from_snapshot (timing_snapshot a) (bool_decide (is_Some (handoff a))) external
    (invalid_interval a) (timing_snapshot_valid a).

(** [decide] as the handlers call it. *)
Definition power_decision (a : A) : PolicyDecision :=
  decide (mkPolicyInput true true (power_of a) (battery_lockout (config a))).
Definition power_allows (a : A) : bool := bool_decide (status (power_decision a) = Status.Requested).

Definition owns (a : A) : bool := bool_decide (ownership (controller a) = OwnershipState.Owned).
Definition owned_or_uncertain (a : A) : bool :=
  negb (bool_decide (ownership (controller a) = OwnershipState.Released)).
Definition pausing_or_stopping (a : A) : TrayStatus :=
  if pause_active (pause a) then TrayStatus.Pausing else TrayStatus.Stopping.
Definition paused_or_stopped (a : A) : TrayStatus :=
  if pause_active (pause a) then TrayStatus.Paused else TrayStatus.Stopped.

(** ** Anomalies *)

Definition storage_max (l : list Z) : Z := foldr Z.max 0 l.

Definition drain_pending : E unit :=
  a ← get;
  when (0 <? pending_anomalies a)
    (_ ← modify (λ a, a <| unhandled_anomalies ::= (λ n, sat_add 32 n (pending_anomalies a)) |>);
     _ ← modify (λ a, a <| journal ::= (λ j, j ++
           replicate (pending_anomaly_reasons a) ("tier.anomaly.observed"%string, None)) |>);
     modify (λ a, a <| pending_anomalies := 0 |> <| pending_anomaly_reasons := 0%nat |>)).

Definition drain_watchdog : E unit :=
  a ← get;
  match watchdog a with
  | None => mret tt
  | Some episodes =>
      when (last_watchdog_episodes a <? episodes)
        (let new_episodes := episodes - last_watchdog_episodes a in
         _ ← modify (λ a, a <| last_watchdog_episodes := episodes |>
               <| unhandled_anomalies ::= (λ n, sat_add 32 n new_episodes) |>);
         record "tier.anomaly.observed")
  end.

Definition drain_storage : E unit :=
  a ← get;
  let storage_failures := storage_max (storage_failure_events a) in
  when (consumed_log_write_failures a <? storage_failures)
    (let delta := wrap 32 (Z.of_nat (length (List.filter
        (λ s, (consumed_log_write_failures a <? s) && (s <=? storage_failures))
        (storage_failure_events a)))) in
     _ ← modify (λ a, a <| consumed_log_write_failures := storage_failures |>
           <| unhandled_anomalies ::= (λ n, sat_add 32 n delta) |>);
     record "tier.anomaly.observed").

Definition drain_panics : E unit :=
  a ← get;
  let observed_panics := caught_dispatch_panics a in
  when (consumed_dispatch_panics a <? observed_panics)
    (let delta := observed_panics - consumed_dispatch_panics a in
     _ ← modify (λ a, a <| consumed_dispatch_panics := observed_panics |>
           <| unhandled_anomalies ::= (λ n, sat_add 32 n delta) |>);
     record "tier.anomaly.observed").

Definition drain_anomaly_producers : E unit :=
  _ ← drain_pending; _ ← drain_watchdog; _ ← drain_storage; drain_panics.

Definition report_anomaly (a : A) : A :=
  a <| pending_anomalies ::= (λ n, wrap 32 (n + 1)) |> <| pending_anomaly_reasons ::= S |>.

(** The context [refresh_operating_tier] evaluates. *)
Definition tier_context (a : A) : TierContext :=
  mkTierContext (tray_icon a) (kernel_rejected_requests a) (unhandled_anomalies a)
    (match operating_tier a with OperatingTier.MetrologyDegraded f => f | _ => 0 end)
    (tray_icon a && (kernel_rejected_requests a =? 0) && (unhandled_anomalies a =? 0)).

Definition is_stay (t : TierTransition) : bool := bool_decide (t = TierTransition.Stay).

(** The state changes of a transition, before a release it may cause. *)
Definition enter_tier (t : TierTransition) : E unit :=
  match t with
  | TierTransition.Stay => mret tt
  | TierTransition.EnterSurfaceDegraded =>
      _ ← modify (λ a, a <| operating_tier := OperatingTier.SurfaceDegraded |>
            <| surface_recovery_attempts := 0 |> <| surface_recovery_exhausted := false |>);
      t ← now;
      _ ← modify (λ a, a <| surface_recovery_due := Some (t + SURFACE_RECOVERY_SPACING_MS * 1000000) |>);
      _ ← SetTimer SURFACE_RECOVERY_TIMER_ID SURFACE_RECOVERY_SPACING_MS;
      record "tier.surface_recovery.armed"
  | TierTransition.EnterMetrologyDegraded floored_hns =>
      _ ← modify (λ a, a <| operating_tier := OperatingTier.MetrologyDegraded floored_hns |>);
      modify_controller (clamp_requested_interval_floor floored_hns)
  | TierTransition.EnterQuiescent => modify (λ a, a <| operating_tier := OperatingTier.Quiescent |>)
  | TierTransition.Recover =>
      modify (λ a, a <| operating_tier := OperatingTier.Nominal |>
        <| kernel_rejected_requests := 0 |> <| unhandled_anomalies := 0 |>
        <| last_watchdog_episodes := default 0 (watchdog a) |>
        <| consumed_log_write_failures := storage_max (storage_failure_events a) |>
        <| surface_recovery_attempts := 0 |> <| surface_recovery_exhausted := false |>
        <| surface_recovery_due := None |>
        <| consumed_dispatch_panics := caught_dispatch_panics a |>)
  end.

Definition leaving_surface (tier : OperatingTier) (t : TierTransition) : bool :=
  bool_decide (tier = OperatingTier.SurfaceDegraded)
  && negb (is_stay t || bool_decide (t = TierTransition.EnterSurfaceDegraded)).

(** ** Schedule timers *)

Definition cancel_duration_timer : E unit :=
  a ← get;
  match duration_timer_id a with
  | None => modify (λ a, a <| duration_timer_generation := None |>)
  | Some timer_id =>
      _ ← modify (λ a, a <| duration_timer_id := None |> <| duration_timer_generation := None |>);
      when (tray_icon a)
        (killed ← KillTimer timer_id;
         when (negb killed) (record_with_outcome "native.KillTimer.duration.error" DiagnosticOutcome.Failed))
  end.

Definition begin_schedule_display_timer : E unit :=
  a ← get;
  if schedule_display_timer_active a then mret tt
  else if negb (tray_icon a) then record "duration.display_timer"
  else
    armed ← SetTimer SCHEDULE_DISPLAY_TIMER_ID SCHEDULE_DISPLAY_INTERVAL_MS;
    if negb armed
    then record_with_outcome "native.SetTimer.duration_display.error" DiagnosticOutcome.Failed
    else modify (λ a, a <| schedule_display_timer_active := true |>).

Definition kill_schedule_display_timer : E unit :=
  a ← get;
  when (schedule_display_timer_active a)
    (_ ← modify (λ a, a <| schedule_display_timer_active := false |>);
     when (tray_icon a) (_ ← KillTimer SCHEDULE_DISPLAY_TIMER_ID; mret tt)).

(** ** Publication *)

(** What [publish] stores for the other threads, before the tier is evaluated. *)
Definition publish_ownership : E unit :=
  t ← now;
  modify (λ a,
    let owned := owns a in
    let status := lifecycle a in
    a <| heartbeat := monotonic_ms t |>
      <| ownership_flag := owned |>
      <| emergency_interval := if owned then default 0 (selected_interval (controller a)) else 0 |>
      <| tracked_interval ::= (λ old, default old (selected_interval (controller a))) |>
      <| running_since ::= (λ r,
           if negb (bool_decide (status = TrayStatus.Running)) || negb owned then None else r) |>
      <| tray_status := status |>).

(** The rest of [publish] but for the second tier evaluation: whether the shell
    registration was lost. *)
Definition publish_surface (status : TrayStatus) : E bool :=
  t ← now;
  a ← get;
  let timing := timing_values a in
  let key := mkKey status (ownership (controller a)) (tv_effective timing) (tv_requested timing)
    (handoff_pending timing) ((λ s, scheduled_display_key s t) <$> scheduled (pause a))
    (last_block_reason a) in
  if bool_decide (last_publication a = Some key) then mret false
  else
    _ ← modify (λ a, a <| last_publication := Some key |>);
    _ ← record "tray.status.changed";
    _ ← record "ownership.state";
    _ ← record "effective.system.state";
    if match operating_tier a with
       | OperatingTier.SurfaceDegraded | OperatingTier.Quiescent => true | _ => false end
    then _ ← record "tier.surface_refresh_skipped"; mret false
    else if negb (tray_icon a) then mret false
    else
      shown ← now;
      updated ← update_icon status (tooltip_at status timing (scheduled (pause a)) shown (last_block_reason a));
      if (updated : bool) then mret false
      else
        _ ← record_with_outcome "native.Shell_NotifyIconW.modify.error" DiagnosticOutcome.Failed;
        _ ← modify (λ a, a <| tray_icon := false |>);
        mret true.

(** ** The cycle: publication, tier, release, acquisition *)

Fixpoint publish (fuel : nat) : E unit :=
  match fuel with
  | O => fail OutOfFuel
  | S fuel =>
      _ ← publish_ownership;
      a ← get;
      let status := lifecycle a in
      _ ← refresh_operating_tier fuel;
      a ← get;
      surface_lost ← publish_surface (published_status status (responsiveness_degraded a));
      when surface_lost (refresh_operating_tier fuel)
  end

with refresh_operating_tier (fuel : nat) : E unit :=
  match fuel with
  | O => fail OutOfFuel
  | S fuel =>
      _ ← drain_anomaly_producers;
      a ← get;
      let transition := evaluate_tier (operating_tier a) (tier_context a) in
      _ ← when (leaving_surface (operating_tier a) transition)
            (_ ← KillTimer SURFACE_RECOVERY_TIMER_ID; mret tt);
      _ ← enter_tier transition;
      when (negb (is_stay transition))
        (_ ← record "tier.transition";
         a ← get;
         when (bool_decide (transition = TierTransition.EnterQuiescent) && owns a)
           (_ ← record "tier.quiescent.restorative_release";
            released ← guarded_release fuel TrayStatus.Stopped;
            when (negb (is_ok released)) (record "ownership.release.caller_failed")))
  end

with guarded_release (fuel : nat) (released_status : TrayStatus) : E (result unit bool) :=
  match fuel with
  | O => fail OutOfFuel
  | S fuel =>
      a ← get;
      if bool_decide (is_Some (handoff a))
      then _ ← record "ownership.release.repeated"; mret (Err tt)
      else
        _ ← record "ownership.release.request";
        _ ← modify (λ a, a <| external_timing := false |> <| running_since := None |>
              <| tray_status := pausing_or_stopping a |>);
        _ ← publish fuel;
        stop_result ← on_controller stop;
        _ ← sync_timing_snapshot;
        _ ← modify (λ a, a <| timing_snapshot_valid := is_ok stop_result |>);
        match stop_result with
        | Ok released =>
            _ ← record "ownership.changed";
            a ← get;
            let effective := snap_effective (timing_snapshot a) in
            handed_off ←
              match snap_requested (timing_snapshot a) with
              | Some boundary =>
                  if released && release_needs_handoff boundary effective
                  then begin_handoff fuel boundary (paused_or_stopped a)
                  else mret false
              | None => mret false
              end;
            if (handed_off : bool) then mret (Ok released)
            else
              _ ← record "ownership.result";
              _ ← modify_controller clear_release_boundary;
              _ ← sync_timing_snapshot;
              _ ← modify (λ a, a <| timing_snapshot_valid := true |>
                    <| tray_status := released_status |>);
              _ ← publish fuel;
              a ← get;
              _ ← when (pause_active (pause a)) (_ ← arm_duration_timer fuel; mret tt);
              mret (Ok released)
        | Err _ =>
            _ ← modify (λ a, a <| timing_snapshot_valid := false |> <| running_since := None |>);
            _ ← record_with_outcome "ownership.release.error" DiagnosticOutcome.Failed;
            _ ← set_tray_status TrayStatus.Unverified;
            _ ← publish fuel;
            mret (Err tt)
        end
  end

(** [begin_handoff]: whether the poll timer watches the release. *)
with begin_handoff (fuel : nat) (boundary : Z) (released_status : TrayStatus) : E bool :=
  match fuel with
  | O => fail OutOfFuel
  | S fuel =>
      _ ← cancel_duration_timer;
      a ← get;
      timer ← (if tray_icon a then SetTimer HANDOFF_TIMER_ID HANDOFF_POLL_INTERVAL_MS else mret false);
      if (timer : bool) then
        _ ← modify (λ a, a <| handoff := Some (handoff_new boundary released_status) |>
              <| tray_status := if bool_decide (released_status = TrayStatus.Paused)
                                then TrayStatus.Pausing else TrayStatus.Stopping |>);
        _ ← record "handoff.started";
        _ ← publish fuel;
        mret true
      else
        _ ← record "handoff.timeout";
        _ ← when (tray_icon a) (record "ownership.result");
        _ ← modify (λ a, a <| external_timing := true |>);
        _ ← modify_controller clear_release_boundary;
        _ ← sync_timing_snapshot;
        _ ← set_tray_status (if bool_decide (released_status = TrayStatus.Paused)
                             then TrayStatus.Unverified else TrayStatus.Stopped);
        _ ← publish fuel;
        _ ← process_desired_intent fuel;
        a ← get;
        _ ← when (pause_active (pause a)) (_ ← arm_duration_timer fuel; mret tt);
        mret false
  end

(** [arm_duration_timer]: whether the timer of the current schedule is set. *)
with arm_duration_timer (fuel : nat) : E bool :=
  match fuel with
  | O => fail OutOfFuel
  | S fuel =>
      a ← get;
      match coordinator_deadline (pause a) with
      | None => mret false
      | Some deadline =>
          if negb (tray_icon a) then _ ← record "duration.timer"; mret false
          else
            let generation := generation (pause a) in
            let timer_id := duration_timer_id_of generation in
            t ← now;
            armed ← SetTimer timer_id (timer_interval_ms (sat_sub deadline t));
            if (armed : bool) then
              _ ← modify (λ a, a <| duration_timer_id := Some timer_id |>
                    <| duration_timer_generation := Some generation |>);
              _ ← record "duration.timer.armed";
              mret true
            else
              _ ← record_with_outcome "native.SetTimer.duration.error" DiagnosticOutcome.Failed;
              _ ← modify (λ a, a <| pause ::= (λ c, (cancel c).2) |>);
              _ ← kill_schedule_display_timer;
              _ ← modify (λ a, a <| duration_timer_id := None |>
                    <| duration_timer_generation := None |> <| tray_status := TrayStatus.Error |>);
              _ ← publish fuel;
              mret false
      end
  end

with process_desired_intent (fuel : nat) : E unit :=
  match fuel with
  | O => fail OutOfFuel
  | S fuel =>
      a ← get;
      if bool_decide (is_Some (handoff a))
      then _ ← set_tray_status (pausing_or_stopping a); publish fuel
      else
        let '(intent, queue) := intent_take (desired_intent a) in
        _ ← modify (λ a, a <| desired_intent := queue |>);
        match intent with
        | None => mret tt
        | Some DesiredIntent.Acquire =>
            if pause_active (pause a) then
              _ ← record "lifecycle.acquire.suppressed";
              when (bool_decide (ownership (controller a) = OwnershipState.Released))
                (_ ← set_tray_status TrayStatus.Paused;
                 _ ← publish fuel;
                 _ ← arm_duration_timer fuel;
                 mret tt)
            else if power_allows a then acquire_timer fuel
            else release_for_policy fuel (reason (power_decision a))
        | Some DesiredIntent.Release =>
            if bool_decide (tray_status a = TrayStatus.Starting) then
              _ ← modify (λ a, a <| desired_intent ::= (λ q, intent_request q DesiredIntent.Release) |>);
              record "lifecycle.release_queued"
            else if owned_or_uncertain a then
              released ← guarded_release fuel (paused_or_stopped a);
              when (negb (is_ok released)) (record "ownership.release.caller_failed")
            else
              _ ← set_tray_status
                    (if pause_active (pause a) && negb (bool_decide (tray_status a = TrayStatus.Unverified))
                     then TrayStatus.Paused else TrayStatus.Stopped);
              _ ← publish fuel;
              a ← get;
              when (pause_active (pause a)) (_ ← arm_duration_timer fuel; mret tt)
        end
  end

with acquire_timer (fuel : nat) : E unit :=
  match fuel with
  | O => fail OutOfFuel
  | S fuel =>
      a ← get;
      if owned_or_uncertain a then show_ownership_status fuel TrayStatus.Stopped
      else if negb (tier_allows_high_resolution (operating_tier a)) then
        _ ← record "tier.acquisition_blocked";
        _ ← set_tray_status (paused_or_stopped a);
        publish fuel
      else
        _ ← set_tray_status TrayStatus.Starting;
        _ ← publish fuel;
        _ ← record "ownership.acquire.request";
        start_result ← on_controller start;
        _ ← sync_timing_snapshot;
        _ ← modify (λ a, a
              <| timing_snapshot_valid :=
                   match start_result with
                   | Ok (Verification.Verified | Verification.FinerThanRequested) => true
                   | _ => false end |>
              <| invalid_interval :=
                   match start_result with Err TimerError.InvalidInterval => true | _ => false end |>);
        _ ← when (match start_result with Err (TimerError.RequestFailed _) => true | _ => false end)
              (modify (λ a, a <| kernel_rejected_requests ::= (λ n, sat_add 32 n 1) |>));
        status ← match start_result with
                 | Ok (Verification.Verified | Verification.FinerThanRequested) =>
                     _ ← record "verification.result"; _ ← record "ownership.changed";
                     mret TrayStatus.Running
                 | Ok _ => _ ← record "verification.result"; mret TrayStatus.Unverified
                 | Err error =>
                     _ ← record_with_outcome "ownership.acquire.error" DiagnosticOutcome.Failed;
                     mret match error with
                          | TimerError.Unsupported => TrayStatus.Unsupported
                          | _ => TrayStatus.Error end
                 end;
        _ ← when (is_ok start_result) (modify (λ a, a <| last_block_reason := None |>));
        t ← now;
        _ ← modify (λ a, a
              <| running_since := if bool_decide (status = TrayStatus.Running) then Some t else None |>
              <| tray_status := status |>);
        _ ← publish fuel;
        a ← get;
        when (bool_decide (is_Some (Core.pending (desired_intent a)))) (process_desired_intent fuel)
  end

with release_for_policy (fuel : nat) (reason : PolicyReason) : E unit :=
  match fuel with
  | O => fail OutOfFuel
  | S fuel =>
      a ← get;
      if bool_decide (is_Some (handoff a)) then queue_intent fuel DesiredIntent.Release
      else
        let is_power_restriction :=
          match reason with
          | PolicyReason.BatteryRestricted | PolicyReason.BatterySaverRestricted
          | PolicyReason.PowerUnknown => true
          | _ => false end in
        _ ← when (is_power_restriction && owned_or_uncertain a)
              (_ ← modify (λ a, a <| pending_resume_on_ac := true |>);
               record "policy.power_resume_pending");
        let released_status :=
          match reason with
          | PolicyReason.NoEligibleProfile | PolicyReason.EligibleProfile => TrayStatus.Stopped
          | _ => TrayStatus.Blocked end in
        _ ← modify (λ a, a <| last_block_reason :=
              if bool_decide (released_status = TrayStatus.Blocked) then Some reason else None |>);
        if owned_or_uncertain a then
          released ← guarded_release fuel released_status;
          when (negb (is_ok released)) (record "ownership.release.caller_failed")
        else
          _ ← set_tray_status released_status;
          publish fuel
  end

with queue_intent (fuel : nat) (intent : DesiredIntent) : E unit :=
  match fuel with
  | O => fail OutOfFuel
  | S fuel =>
      _ ← modify (λ a, a <| desired_intent ::= (λ q, intent_request q intent) |>);
      _ ← record "lifecycle.desired_intent";
      a ← get;
      if bool_decide (is_Some (handoff a))
      then _ ← set_tray_status (pausing_or_stopping a); publish fuel
      else process_desired_intent fuel
  end

with show_ownership_status (fuel : nat) (released_status : TrayStatus) : E unit :=
  match fuel with
  | O => fail OutOfFuel
  | S fuel =>
      a ← get;
      _ ← set_tray_status
            (if bool_decide (is_Some (handoff a)) then pausing_or_stopping a
             else match ownership (controller a) with
                  | OwnershipState.Released =>
                      if pause_active (pause a) then TrayStatus.Paused else released_status
                  | OwnershipState.Owned => TrayStatus.Running
                  | OwnershipState.Uncertain => TrayStatus.Unverified
                  end);
      publish fuel
  end.

(** ** Handlers: [tier.rs] *)

Definition refresh_timing_observation : E unit :=
  r ← on_controller controller_query;
  _ ← sync_timing_snapshot;
  _ ← modify (λ a, a <| timing_snapshot_valid := is_ok r |>);
  match r with
  | Ok _ => record_with_outcome "timer.query.observation" DiagnosticOutcome.Completed
  | Err _ => record_with_outcome "timer.query.error" DiagnosticOutcome.Failed
  end.

Definition apply_policy (fuel : nat) : E unit :=
  a ← get;
  let decision := power_decision a in
  _ ← record "policy.evaluation";
  let queue intent :=
    a ← get;
    _ ← when (bool_decide (is_Some (handoff a))) (record "policy.recalculate.deferred");
    queue_intent fuel intent in
  if pause_active (pause a) then _ ← record "policy.pause_suppressed"; queue DesiredIntent.Release
  else match scheduled (pause a) with
       | Some s =>
           match action s with
           | DurationAction.Start | DurationAction.Stop =>
               if power_allows a then
                 _ ← record "policy.duration.deferred"; show_ownership_status fuel TrayStatus.Stopped
               else
                 _ ← record "policy.duration.suppressed"; release_for_policy fuel (reason decision)
           | DurationAction.Pause => queue DesiredIntent.Release
           end
       | None =>
           if acquisition_is_allowed false (automatic (config a)) (power_of a) (battery_lockout (config a))
           then queue DesiredIntent.Acquire else queue DesiredIntent.Release
       end.

Definition reconcile (fuel : nat) : E unit :=
  _ ← record "policy.recalculate"; _ ← refresh_timing_observation; apply_policy fuel.

Definition finish_handoff_timer : E unit :=
  a ← get;
  when (tray_icon a)
    (killed ← KillTimer HANDOFF_TIMER_ID;
     when (negb killed) (record_with_outcome "native.KillTimer.handoff.error" DiagnosticOutcome.Failed)).

(** The end of a handoff: the queued intent is processed. *)
Definition end_handoff (fuel : nat) (next : TrayStatus) (external : bool) : E unit :=
  _ ← modify_controller clear_release_boundary;
  _ ← sync_timing_snapshot;
  _ ← modify (λ a, a <| tray_status := next |> <| external_timing := external |>);
  _ ← publish fuel;
  _ ← process_desired_intent fuel;
  a ← get;
  when (pause_active (pause a)) (_ ← arm_duration_timer fuel; mret tt).

Definition handle_handoff_timer (fuel : nat) : E unit :=
  a ← get;
  match handoff a with
  | None => mret tt
  | Some tracker =>
      r ← on_controller (observe_current (boundary tracker));
      _ ← sync_timing_snapshot;
      _ ← modify (λ a, a <| timing_snapshot_valid := is_ok r |>);
      _ ← match r with
          | Ok _ => record "timer.handoff.observation"
          | Err _ => record_with_outcome "timer.handoff.query.error" DiagnosticOutcome.Failed
          end;
      let effective := match r with Ok o => Some (reported_current o) | Err _ => None end in
      let '(progress, tracker) := handoff_observe tracker effective in
      _ ← modify (λ a, a <| handoff := None |>);
      _ ← record "handoff.observation";
      let paused := bool_decide (released_status tracker = TrayStatus.Paused) in
      match progress with
      | HandoffProgress.Pending =>
          _ ← modify (λ a, a <| handoff := Some tracker |>
                <| tray_status := if paused then TrayStatus.Pausing else TrayStatus.Stopping |>);
          publish fuel
      | HandoffProgress.Completed =>
          _ ← finish_handoff_timer; _ ← record "handoff.completed"; _ ← record "ownership.result";
          end_handoff fuel (released_status tracker) false
      | HandoffProgress.TimedOut =>
          _ ← finish_handoff_timer; _ ← record "handoff.timeout"; _ ← record "ownership.result";
          end_handoff fuel (if paused then TrayStatus.Unverified else TrayStatus.Stopped) true
      end
  end.

Definition advance_surface_recovery (fuel : nat) (recovered : bool) : E unit :=
  _ ← modify (λ a, a <| surface_recovery_attempts ::= (λ n, sat_add 32 n 1) |>);
  if recovered then
    _ ← record "tier.surface_recovered";
    _ ← modify (λ a, a <| surface_recovery_due := None |> <| surface_recovery_attempts := 0 |>);
    _ ← KillTimer SURFACE_RECOVERY_TIMER_ID;
    publish fuel
  else
    _ ← record_with_outcome "tier.surface_recovery.attempt" DiagnosticOutcome.Failed;
    a ← get;
    _ ← (if SURFACE_RECOVERY_ATTEMPTS <=? surface_recovery_attempts a then
           _ ← modify (λ a, a <| surface_recovery_exhausted := true |> <| surface_recovery_due := None |>);
           _ ← KillTimer SURFACE_RECOVERY_TIMER_ID;
           record "tier.surface_recovery_exhausted"
         else
           t ← now;
           modify (λ a, a <| surface_recovery_due := Some (t + SURFACE_RECOVERY_SPACING_MS * 1000000) |>));
    publish fuel.

Definition attempt_surface_restore : E bool :=
  created ← on_world shell_create;
  if negb created
  then _ ← record_with_outcome "native.tray_icon.create.error" DiagnosticOutcome.Failed; mret false
  else
    added ← on_world shell_add;
    if negb added
    then _ ← record_with_outcome "native.Shell_NotifyIconW.add.error" DiagnosticOutcome.Failed; mret false
    else _ ← modify (λ a, a <| tray_icon := true |> <| last_publication := None |>); mret true.

Definition service_surface_recovery (fuel : nat) : E unit :=
  a ← get;
  if negb (bool_decide (operating_tier a = OperatingTier.SurfaceDegraded)) || tray_icon a
     || surface_recovery_exhausted a then mret tt
  else match surface_recovery_due a with
       | None =>
           t ← now;
           modify (λ a, a <| surface_recovery_due := Some (t + SURFACE_RECOVERY_SPACING_MS * 1000000) |>)
       | Some due =>
           t ← now;
           if t <? due then mret tt
           else recovered ← attempt_surface_restore; advance_surface_recovery fuel recovered
       end.

(** ** Handlers: [power.rs] and the power messages of [controller.rs] *)

Definition apply_power_reconciliation (fuel : nat) : E unit :=
  a ← get;
  if pause_active (pause a) then
    _ ← record "policy.power_reconciliation.suppressed"; queue_intent fuel DesiredIntent.Release
  else if resume_on_ac_applies (auto_resume_on_ac (config a)) (pending_resume_on_ac a) (power_of a)
            (ownership (controller a)) then
    _ ← modify (λ a, a <| pending_resume_on_ac := false |>);
    _ ← record "policy.power_resume_applied";
    queue_intent fuel DesiredIntent.Acquire
  else
    let action := power_reconciliation (automatic (config a)) (power_of a) (ownership (controller a))
                    (battery_lockout (config a)) in
    _ ← record "policy.power_reconciliation";
    match action with
    | PowerReconciliation.Acquire => apply_policy fuel
    | PowerReconciliation.ReleaseBlocked =>
        release_for_policy fuel
          match power_of a with
          | PowerState.Battery => PolicyReason.BatteryRestricted
          | PowerState.BatterySaver => PolicyReason.BatterySaverRestricted
          (* [Ac] is unreachable here *)
          | PowerState.Unknown | PowerState.Ac => PolicyReason.PowerUnknown
          end
    | PowerReconciliation.ShowStopped | PowerReconciliation.PreserveOwned =>
        show_ownership_status fuel TrayStatus.Stopped
    | PowerReconciliation.PreserveUncertain =>
        if uncertain_recovery_attempts_acquire (automatic (config a)) (power_of a) then
          settle ← guarded_release fuel TrayStatus.Stopped;
          _ ← record "policy.power_reconciliation.uncertain_settle";
          a ← get;
          if is_ok settle && bool_decide (ownership (controller a) = OwnershipState.Released)
          then apply_policy fuel
          else _ ← record "policy.power_reconciliation.uncertain_unsettled";
               show_ownership_status fuel TrayStatus.Stopped
        else show_ownership_status fuel TrayStatus.Stopped
    end.

Definition release_for_power_change (fuel : nat) : E unit :=
  _ ← record "power.transition"; _ ← refresh_timing_observation; apply_power_reconciliation fuel.

Definition clear_debounce : E unit :=
  modify (λ a, a <| power_debounce_active := false |> <| power_debounce_target_state := None |>).

Definition kill_power_debounce_timer : E unit :=
  a ← get;
  when (power_debounce_active a)
    (_ ← clear_debounce;
     _ ← when (tray_icon a) (_ ← KillTimer POWER_DEBOUNCE_TIMER_ID; mret tt);
     record "power.debounce.suppressed").

(** Arms the debounce timer for a candidate state. *)
Definition start_debounce (target : PowerState) : E unit :=
  armed ← SetTimer POWER_DEBOUNCE_TIMER_ID POWER_DEBOUNCE_INTERVAL_MS;
  if (armed : bool)
  then modify (λ a, a <| power_debounce_active := true |> <| power_debounce_target_state := Some target |>)
  else record_with_outcome "native.SetTimer.power_debounce.error" DiagnosticOutcome.Failed.

Definition handle_power_broadcast_event (fuel : nat) : E unit :=
  a ← get;
  let current_power := power_of a in
  if bool_decide (battery_saver (obs_power (power_observation a)) = Some true) then
    _ ← when (power_debounce_active a)
          (_ ← KillTimer POWER_DEBOUNCE_TIMER_ID; _ ← clear_debounce; record "power.debounce.suppressed");
    release_for_power_change fuel
  else
    let restart := _ ← start_debounce current_power; record "power.debounce.started" in
    match power_debounce_target_state a with
    | Some target =>
        if bool_decide (target = current_power) then
          armed ← SetTimer POWER_DEBOUNCE_TIMER_ID POWER_DEBOUNCE_INTERVAL_MS;
          _ ← when (negb armed)
                (_ ← clear_debounce;
                 record_with_outcome "native.SetTimer.power_debounce.error" DiagnosticOutcome.Failed);
          record "power.debounce.extended"
        else
          _ ← KillTimer POWER_DEBOUNCE_TIMER_ID; _ ← clear_debounce; _ ← record "power.debounce.suppressed";
          restart
    | None => restart
    end.

Definition handle_power_debounce_timer (fuel : nat) : E unit :=
  _ ← KillTimer POWER_DEBOUNCE_TIMER_ID;
  a ← get;
  let target := power_debounce_target_state a in
  _ ← clear_debounce;
  if bool_decide (power_of a = PowerState.Unknown) then
    _ ← start_debounce PowerState.Unknown; record "power.debounce.rearmed"
  else if bool_decide (target = Some (power_of a)) then
    _ ← record "power.debounce.stabilized"; release_for_power_change fuel
  else record "power.debounce.discarded".

(** The [WM_POWERBROADCAST] messages of [window_proc]. *)
Inductive PowerBroadcast := PbtSuspend | PbtResume | PbtStatusChange | PbtOther.

Definition handle_power_broadcast (fuel : nat) (m : PowerBroadcast) : E unit :=
  _ ← record "power.broadcast";
  match m with
  | PbtSuspend =>
      _ ← modify (λ a, a <| running_since := None |>); release_for_power_change fuel
  | PbtResume | PbtOther =>
      _ ← refresh_power; _ ← apply_power_reconciliation fuel; handle_power_broadcast_event fuel
  | PbtStatusChange =>
      _ ← record "native.GetSystemPowerStatus.call"; _ ← refresh_power;
      _ ← record "power.observation.raw"; _ ← record "power.observation";
      handle_power_broadcast_event fuel
  end.

(** ** Handlers: [schedule.rs] *)

Definition manual_start (fuel : nat) : E unit :=
  _ ← record "tray.command"; _ ← record "lifecycle.start_request"; queue_intent fuel DesiredIntent.Acquire.

Definition manual_stop (fuel : nat) : E unit :=
  _ ← modify (λ a, a <| pending_resume_on_ac := false |>);
  _ ← record "tray.command"; _ ← record "lifecycle.stop_request"; queue_intent fuel DesiredIntent.Release.

Definition refresh_power_for_duration : E unit :=
  _ ← record "native.GetSystemPowerStatus.call"; _ ← refresh_power;
  _ ← record "power.observation.raw"; record "duration.power_observation".

Definition schedule_duration_action (fuel : nat) (act : DurationAction) (d : DurationPreset) : E unit :=
  t ← now;
  a ← get;
  let replacing_pause := pause_active (pause a) in
  _ ← when (active (pause a))
        (_ ← record "duration.schedule.replacement"; record "duration.schedule.replacement.timing");
  _ ← cancel_duration_timer;
  _ ← modify (λ a, a <| pause ::= (λ c, (schedule c act d t).2) |>);
  _ ← record "duration.schedule"; _ ← record "duration.schedule.timing"; _ ← record "duration.schedule.policy";
  armed ← arm_duration_timer fuel;
  if negb armed then
    _ ← modify (λ a, a <| pause ::= (λ c, (cancel c).2) |>);
    _ ← record_with_outcome "duration.schedule.result" DiagnosticOutcome.Failed;
    _ ← set_tray_status TrayStatus.Error;
    publish fuel
  else
    _ ← begin_schedule_display_timer;
    _ ← record "duration.schedule.result";
    _ ← when (replacing_pause && negb (bool_decide (act = DurationAction.Pause)))
          (show_ownership_status fuel TrayStatus.Stopped);
    if bool_decide (act = DurationAction.Pause) then
      _ ← set_tray_status TrayStatus.Pausing;
      _ ← publish fuel;
      queue_intent fuel DesiredIntent.Release
    else publish fuel.

Definition schedule_preset_action (fuel : nat) (act : DurationAction) (preset_index : nat) : E unit :=
  a ← get;
  match presets (presets_manager a) !! preset_index with
  | None => record "duration.schedule.preset"
  | Some preset => schedule_duration_action fuel act preset
  end.

Definition cancel_scheduled_action (fuel : nat) : E unit :=
  a ← get;
  if negb (active (pause a)) then record "duration.cancel"
  else
    _ ← record "duration.cancel.request"; _ ← record "duration.cancel.timing";
    _ ← cancel_duration_timer;
    _ ← kill_schedule_display_timer;
    _ ← modify (λ a, a <| pause ::= (λ c, (cancel c).2) |>);
    _ ← record_with_outcome "duration.cancel" DiagnosticOutcome.Cancelled;
    _ ← refresh_power_for_duration;
    apply_power_reconciliation fuel.

Definition handle_schedule_display_timer (fuel : nat) : E unit :=
  a ← get;
  if active (pause a) then publish fuel else kill_schedule_display_timer.

Definition execute_scheduled_action (fuel : nat) (s : ScheduledAction) : E unit :=
  _ ← record "duration.deadline"; _ ← record "duration.deadline.timing";
  _ ← match action s with
      | DurationAction.Start =>
          _ ← refresh_power_for_duration;
          a ← get;
          _ ← record "duration.start.policy"; _ ← record "duration.start.policy.timing";
          if power_allows a then
            _ ← record "duration.start.result";
            if bool_decide (ownership (controller a) = OwnershipState.Released)
            then queue_intent fuel DesiredIntent.Acquire
            else show_ownership_status fuel TrayStatus.Stopped
          else
            _ ← record "duration.start.suppressed"; _ ← record "duration.start.suppressed.timing";
            release_for_policy fuel (reason (power_decision a))
      | DurationAction.Stop =>
          a ← get;
          _ ← (if bool_decide (ownership (controller a) = OwnershipState.Released)
               then _ ← record "duration.stop.result"; show_ownership_status fuel TrayStatus.Stopped
               else _ ← guarded_release fuel TrayStatus.Stopped; record "duration.stop.result");
          record "duration.stop.timing"
      | DurationAction.Pause =>
          _ ← record "duration.pause.expired"; _ ← refresh_power_for_duration; reconcile fuel
      end;
  a ← get;
  match action s with
  | DurationAction.Pause => mret tt
  | _ =>
      let timing_verified :=
        match action s with
        | DurationAction.Start =>
            owns a && match verification (controller a) with
                      | Verification.Verified | Verification.FinerThanRequested => true | _ => false end
        | _ => bool_decide (ownership (controller a) = OwnershipState.Released)
               && negb (bool_decide (is_Some (handoff a)))
        end in
      record_with_outcome "schedule.action.verify"
        (if timing_verified then DiagnosticOutcome.Completed else DiagnosticOutcome.Unverified)
  end.

Definition handle_duration_timer (fuel : nat) (timer_id : Z) : E unit :=
  a ← get;
  if negb (bool_decide (duration_timer_id a = Some timer_id)) then record "duration.timer"
  else
    t ← now;
    match timer_event (pause a) (default 0 (duration_timer_generation a)) t with
    | CoordinatorTimerEvent.Early _ _ _ => _ ← record "duration.timer"; _ ← arm_duration_timer fuel; mret tt
    | CoordinatorTimerEvent.Expired s =>
        _ ← cancel_duration_timer;
        _ ← kill_schedule_display_timer;
        _ ← modify (λ a, a <| pause ::= (λ c, (cancel c).2) |>);
        execute_scheduled_action fuel s
    | CoordinatorTimerEvent.Stale => record "duration.timer"
    end.

(** ** Handlers: the IPC commands of [controller.rs] *)

Definition handle_ipc_acquire (fuel : nat) (payload : bytes) : E IpcResponse :=
  let acquire :=
    _ ← manual_start fuel;
    a ← get;
    let timing := timing_values a in
    if negb (valid timing) || tv_invalid_interval timing
    then mret (IpcResponse.Error IpcError.Unsupported)
    else mret (IpcResponse.Acquired (default 0 (tv_effective timing))) in
  if bool_decide (payload = []) then acquire
  else if negb (length payload =? 8)%nat then mret (IpcResponse.Error IpcError.PayloadTruncated)
  else match Wire.validate_interval_hns (le_value payload) with
       | Err error => mret (IpcResponse.Error error)
       | Ok interval =>
           _ ← modify (λ a, a <| config ::= (λ c,
                 mkConfig (automatic c) (startup_enabled c) (auto_resume_on_ac c) (battery_lockout c) interval
                   (schedule_presets_seconds c)) |>);
           acquire
       end.

Definition handle_ipc_schedule (fuel : nat) (payload : bytes) : E IpcResponse :=
  match payload with
  | [tag; b0; b1; b2; b3] =>
      let action := if tag =? SCHEDULE_TAG_START then Some DurationAction.Start
                    else if tag =? SCHEDULE_TAG_STOP then Some DurationAction.Stop
                    else if tag =? SCHEDULE_TAG_PAUSE then Some DurationAction.Pause else None in
      match action with
      | None => mret (IpcResponse.Error IpcError.Unsupported)
      | Some action =>
          let seconds := le_value [b0; b1; b2; b3] in
          match preset_new seconds with
          | Err _ => mret (IpcResponse.Error (IpcError.ScheduleOutOfBounds seconds))
          | Ok duration =>
              _ ← schedule_duration_action fuel action duration;
              a ← get;
              if negb (active (pause a)) then
                _ ← cancel_scheduled_action fuel;
                _ ← record_with_outcome "ipc.schedule.arm_failed" DiagnosticOutcome.Failed;
                mret (IpcResponse.Error IpcError.Unsupported)
              else
                let action_id := Z.max (sat_add 32 (ipc_schedule_id a) 1) 1 in
                _ ← modify (λ a, a <| ipc_schedule_id := action_id |>);
                mret (IpcResponse.Scheduled action_id)
          end
      end
  | _ => mret (IpcResponse.Error IpcError.PayloadTruncated)
  end.

Definition handle_ipc_cancel_schedule (fuel : nat) (payload : bytes) : E IpcResponse :=
  let cancel := _ ← cancel_scheduled_action fuel; mret IpcResponse.Cancelled in
  if bool_decide (payload = []) then cancel
  else if negb (length payload =? 4)%nat then mret (IpcResponse.Error IpcError.PayloadTruncated)
  else
    a ← get;
    if negb (le_value payload =? ipc_schedule_id a)
    then mret (IpcResponse.Error (IpcError.ScheduleIdMismatch (le_value payload)))
    else cancel.

Definition handle_ipc_command (fuel : nat) (verb : CommandVerb) (payload : bytes) : E IpcResponse :=
  match verb with
  | CommandVerb.RequestAcquire => handle_ipc_acquire fuel payload
  | CommandVerb.RequestRelease => _ ← manual_stop fuel; mret IpcResponse.Released
  | CommandVerb.ScheduleAction => handle_ipc_schedule fuel payload
  | CommandVerb.CancelSchedule => handle_ipc_cancel_schedule fuel payload
  | CommandVerb.QueryStatus => mret (IpcResponse.Error IpcError.Unsupported)
  end.

(** ** The message loop's events *)

Inductive Event :=
| EvManualStart
| EvManualStop
| EvReconcile
| EvPublish
| EvHandoffTimer
| EvSurfaceTimer
| EvDisplayTimer
| EvDebounceTimer
| EvDurationTimer (timer_id : Z)
| EvPowerBroadcast (m : PowerBroadcast)
| EvSchedule (action : DurationAction) (preset_index : nat)
| EvCancelSchedule
| EvIpc (verb : CommandVerb) (payload : bytes)
(** A producer's [report_anomaly], between two messages. *)
| EvAnomaly.

Definition handle (fuel : nat) (e : Event) : E unit :=
  match e with
  | EvManualStart => manual_start fuel
  | EvManualStop => manual_stop fuel
  | EvReconcile => reconcile fuel
  | EvPublish => publish fuel
  | EvHandoffTimer => handle_handoff_timer fuel
  | EvSurfaceTimer => service_surface_recovery fuel
  | EvDisplayTimer => handle_schedule_display_timer fuel
  | EvDebounceTimer => handle_power_debounce_timer fuel
  | EvDurationTimer timer_id => handle_duration_timer fuel timer_id
  | EvPowerBroadcast m => handle_power_broadcast fuel m
  | EvSchedule act preset_index => schedule_preset_action fuel act preset_index
  | EvCancelSchedule => cancel_scheduled_action fuel
  | EvIpc verb payload => _ ← handle_ipc_command fuel verb payload; mret tt
  | EvAnomaly => modify report_anomaly
  end.

(** The message loop: one event after the other. *)
Fixpoint run (fuel : nat) (es : list Event) : E unit :=
  match es with
  | [] => mret tt
  | e :: es => _ ← handle fuel e; run fuel es
  end.

(** The application as [controller.rs] builds it, before the tray icon is added:
    from the loaded configuration, the first power observation and the anomalies
    of the startup. *)
Definition app_new (platform : P) (w : W) (loaded : Config) (startup_anomalies : nat) : A :=
  let '(power, w) := system_power_status w in
  let '(t, w) := instant_now w in
  let observation := apply_power_query_result (query_power power) observation_default in
  mkApp (Ownership.new platform (request_interval loaded)) w observation loaded
    (if bool_decide (is_Some (power_error observation)) then TrayStatus.Degraded else TrayStatus.Stopped)
    None OperatingTier.Nominal 0 0 (wrap 32 (Z.of_nat startup_anomalies)) startup_anomalies None [] 0
    0 0 0 0 None false false timing_default false false false intent_queue_new false None
    coordinator_new (from_seconds_list (schedule_presets_seconds loaded)) None None None false None false None
    false (monotonic_ms t) false 0 0 0 [].

(** The unfolding equations of the cycle. *)
Lemma publish_S fuel : (publish (S fuel) : E _) =
  ltac:(let t := eval cbn [publish] in (publish (S fuel) : E _) in exact t).
Proof. reflexivity. Qed.
Lemma refresh_operating_tier_S fuel : (refresh_operating_tier (S fuel) : E _) =
  ltac:(let t := eval cbn [refresh_operating_tier] in (refresh_operating_tier (S fuel) : E _) in exact t).
Proof. reflexivity. Qed.
Lemma guarded_release_S fuel s : (guarded_release (S fuel) s : E _) =
  ltac:(let t := eval cbn [guarded_release] in (guarded_release (S fuel) s : E _) in exact t).
Proof. reflexivity. Qed.
Lemma begin_handoff_S fuel b s : (begin_handoff (S fuel) b s : E _) =
  ltac:(let t := eval cbn [begin_handoff] in (begin_handoff (S fuel) b s : E _) in exact t).
Proof. reflexivity. Qed.
Lemma arm_duration_timer_S fuel : (arm_duration_timer (S fuel) : E _) =
  ltac:(let t := eval cbn [arm_duration_timer] in (arm_duration_timer (S fuel) : E _) in exact t).
Proof. reflexivity. Qed.
Lemma process_desired_intent_S fuel : (process_desired_intent (S fuel) : E _) =
  ltac:(let t := eval cbn [process_desired_intent] in (process_desired_intent (S fuel) : E _) in exact t).
Proof. reflexivity. Qed.
Lemma acquire_timer_S fuel : (acquire_timer (S fuel) : E _) =
  ltac:(let t := eval cbn [acquire_timer] in (acquire_timer (S fuel) : E _) in exact t).
Proof. reflexivity. Qed.
Lemma release_for_policy_S fuel r : (release_for_policy (S fuel) r : E _) =
  ltac:(let t := eval cbn [release_for_policy] in (release_for_policy (S fuel) r : E _) in exact t).
Proof. reflexivity. Qed.
Lemma queue_intent_S fuel i : (queue_intent (S fuel) i : E _) =
  ltac:(let t := eval cbn [queue_intent] in (queue_intent (S fuel) i : E _) in exact t).
Proof. reflexivity. Qed.
Lemma show_ownership_status_S fuel s : (show_ownership_status (S fuel) s : E _) =
  ltac:(let t := eval cbn [show_ownership_status] in (show_ownership_status (S fuel) s : E _) in exact t).
Proof. reflexivity. Qed.

End Engine.
