(* ===== verification/EngineSteps.v ===== *)
(** * EngineSteps: reasoning about the engine's computations

    The number of anomalies the next tier evaluation finds ([total_anomalies]),
    and three ways to say what a computation does: [neutral] (it returns and
    leaves a view of the state alone), [starves] (no fuel suffices), [settles] (it
    returns, from a precondition to a postcondition), with their tactics. *)
From coqutil Require Import Datatypes.RecordSetters.
From S2P Require Import Prelude Text Core Policy Watchdog Diagnostics Platform Ownership Wire Pause Files Config Surface Engine.
Import TriangleBracketNotations.

Section Engine.
Context {P : Type} `{TimerPlatform P} {W : Type} `{Desktop W}.
Abbreviation A := (App P W).
Abbreviation E := (comp A Diverged).
Implicit Types a : A.

(** ** Anomaly totals *)

(** What [refresh_operating_tier] will find once it has drained the producers. *)
Definition total_of (unhandled pending : Z) (episodes : option Z) (last : Z) (failures : list Z)
    (consumed panics consumed_panics : Z) : Z :=
  let u := if 0 <? pending then sat_add 32 unhandled pending else unhandled in
  let u := match episodes with
           | Some e => if last <? e then sat_add 32 u (e - last) else u
           | None => u
           end in
  let m := storage_max failures in
  let u := if consumed <? m
           then sat_add 32 u (wrap 32 (Z.of_nat (length (List.filter
                  (λ s, (consumed <? s) && (s <=? m)) failures))))
           else u in
  if consumed_panics <? panics then sat_add 32 u (panics - consumed_panics) else u.
Definition total_anomalies a : Z :=
  total_of (unhandled_anomalies a) (pending_anomalies a) (watchdog a) (last_watchdog_episodes a)
    (storage_failure_events a) (consumed_log_write_failures a)
    (caught_dispatch_panics a) (consumed_dispatch_panics a).

(** The fields the tier evaluation reads. *)
Definition anomaly_view a :=
  (unhandled_anomalies a, pending_anomalies a, watchdog a, last_watchdog_episodes a,
   (storage_failure_events a, consumed_log_write_failures a),
   (caught_dispatch_panics a, consumed_dispatch_panics a)).

Lemma total_view a a' : anomaly_view a' = anomaly_view a → total_anomalies a' = total_anomalies a.
Proof.
  unfold anomaly_view. intros [= H1 H2 H3 H4 H5 H6 H7 H8]. unfold total_anomalies. congruence.
Qed.

(** The rest of the state. *)
Definition main_view a :=
  (controller a, world a, power_observation a, config a, tray_status a, operating_tier a,
   kernel_rejected_requests a, tray_icon a, (desired_intent a, handoff a, pause a)).

(** Producers with nothing new. *)
Definition quiet_pending a : Prop := pending_anomalies a ≤ 0.
Definition quiet_watchdog a : Prop :=
  match watchdog a with Some e => e ≤ last_watchdog_episodes a | None => True end.
Definition quiet_storage a : Prop :=
  storage_max (storage_failure_events a) ≤ consumed_log_write_failures a.
Definition quiet_panics a : Prop := caught_dispatch_panics a ≤ consumed_dispatch_panics a.

Lemma total_quiet a : quiet_pending a → quiet_watchdog a → quiet_storage a → quiet_panics a →
  total_anomalies a = unhandled_anomalies a.
Proof.
  unfold quiet_pending, quiet_watchdog, quiet_storage, quiet_panics, total_anomalies, total_of. intros H1 H2 H3 H4.
  replace (0 <? pending_anomalies a) with false by lia.
  replace (consumed_log_write_failures a <? _) with false by lia.
  replace (consumed_dispatch_panics a <? _) with false by lia.
  destruct (watchdog a); [|done]. by replace (last_watchdog_episodes a <? z) with false by lia.
Qed.

(** A step that only moves counts, to the same total. *)
Definition drains (m : E unit) (before after : A → Prop) : Prop := ∀ a, before a → ∃ a',
  m a = (Ok tt, a') ∧ main_view a' = main_view a ∧
  (total_anomalies a' = total_anomalies a ∧ (0 ≤ pending_anomalies a → 0 ≤ pending_anomalies a')) ∧ after a'.

Lemma drain_pending_spec : drains drain_pending (λ _, True) quiet_pending.
Proof.
  intros a _. unfold drain_pending, when. change ((get ≫= ?f) a) with (f a a). cbv beta.
  destruct (0 <? pending_anomalies a) eqn:E1.
  - eexists. split; [reflexivity|]. split; [reflexivity|]. split; [|apply Z.le_refl].
    split; [|intros _; apply Z.le_refl].
    transitivity (total_of (sat_add 32 (unhandled_anomalies a) (pending_anomalies a)) 0 (watchdog a)
      (last_watchdog_episodes a) (storage_failure_events a) (consumed_log_write_failures a)
      (caught_dispatch_panics a) (consumed_dispatch_panics a)); [reflexivity|].
    unfold total_anomalies, total_of. by rewrite E1.
  - exists a. split_and!; try done. unfold quiet_pending. lia.
Qed.

Lemma drain_watchdog_spec : drains drain_watchdog quiet_pending (λ a, quiet_pending a ∧ quiet_watchdog a).
Proof.
  intros a Hp. unfold drain_watchdog, when. change ((get ≫= ?f) a) with (f a a). cbv beta.
  unfold quiet_pending, quiet_watchdog in *. destruct (watchdog a) as [e|] eqn:Ew.
  - destruct (last_watchdog_episodes a <? e) eqn:E1.
    + eexists. split; [reflexivity|]. split; [reflexivity|]. split; [split; [|by intros ?]|split; [exact Hp|]].
      * transitivity (total_of (sat_add 32 (unhandled_anomalies a) (e - last_watchdog_episodes a))
          (pending_anomalies a) (watchdog a) e (storage_failure_events a) (consumed_log_write_failures a)
          (caught_dispatch_panics a) (consumed_dispatch_panics a)); [reflexivity|].
        unfold total_anomalies, total_of. rewrite Ew. cbv beta iota zeta. rewrite E1, Z.ltb_irrefl.
        by replace (0 <? pending_anomalies a) with false by lia.
      * change (match watchdog a with Some e' => e' ≤ e | None => True end). rewrite Ew. apply Z.le_refl.
    + exists a. split_and!; try done. rewrite Ew. lia.
  - exists a. split_and!; try done. by rewrite Ew.
Qed.

Lemma drain_storage_spec : drains drain_storage (λ a, quiet_pending a ∧ quiet_watchdog a)
  (λ a, quiet_pending a ∧ quiet_watchdog a ∧ quiet_storage a).
Proof.
  intros a [Hp Hw]. unfold drain_storage, when. change ((get ≫= ?f) a) with (f a a). cbv beta zeta.
  destruct (consumed_log_write_failures a <? _) eqn:E1.
  - eexists. split; [reflexivity|]. split; [reflexivity|]. split; [split; [|by intros ?]|split_and!; [exact Hp|exact Hw|apply Z.le_refl]].
    set (delta := wrap 32 _).
    transitivity (total_of (sat_add 32 (unhandled_anomalies a) delta) (pending_anomalies a) (watchdog a)
      (last_watchdog_episodes a) (storage_failure_events a) (storage_max (storage_failure_events a))
      (caught_dispatch_panics a) (consumed_dispatch_panics a)); [reflexivity|].
    unfold total_anomalies, total_of. rewrite E1, Z.ltb_irrefl.
    unfold quiet_pending, quiet_watchdog in *. replace (0 <? pending_anomalies a) with false by lia.
    destruct (watchdog a) as [e|]; [|done]. by replace (last_watchdog_episodes a <? e) with false by lia.
  - exists a. split_and!; try done. unfold quiet_storage. lia.
Qed.

Definition all_quiet a : Prop :=
  quiet_pending a ∧ quiet_watchdog a ∧ quiet_storage a ∧ quiet_panics a.

Lemma drain_panics_spec :
  drains drain_panics (λ a, quiet_pending a ∧ quiet_watchdog a ∧ quiet_storage a) all_quiet.
Proof.
  intros a (Hp & Hw & Hs). unfold drain_panics, when. change ((get ≫= ?f) a) with (f a a). cbv beta zeta.
  destruct (consumed_dispatch_panics a <? _) eqn:E1.
  - eexists. split; [reflexivity|]. split; [reflexivity|].
    set (a' := (_ <| journal ::= _ |>)). assert (all_quiet a') as Hq.
    { split_and!; try done. apply Z.le_refl. }
    split; [split; [|by intros ?]|done]. rewrite total_quiet by apply Hq.
    transitivity (sat_add 32 (unhandled_anomalies a) (caught_dispatch_panics a - consumed_dispatch_panics a));
      [reflexivity|]. unfold total_anomalies, total_of. rewrite E1.
    unfold quiet_pending, quiet_watchdog, quiet_storage in *.
    replace (0 <? pending_anomalies a) with false by lia.
    replace (consumed_log_write_failures a <? _) with false by lia.
    destruct (watchdog a) as [e|]; [|done]. by replace (last_watchdog_episodes a <? e) with false by lia.
  - exists a. unfold all_quiet, quiet_panics. split_and!; try done. lia.
Qed.

Lemma drain_bind m k (b mid f : A → Prop) : drains m b mid → drains k mid f →
  drains (_ ← m; k) b f.
Proof.
  intros Hm Hk a Ha. destruct (Hm a Ha) as (a1 & E1 & V1 & [T1 P1] & Q1).
  destruct (Hk a1 Q1) as (a2 & E2 & V2 & [T2 P2] & Q2). exists a2. unfold mbind, comp_bind. rewrite E1.
  split_and!; [done|congruence|congruence|by auto|done].
Qed.

Lemma drain_spec : drains drain_anomaly_producers (λ _, True) all_quiet.
Proof.
  unfold drain_anomaly_producers. eapply drain_bind; [apply drain_pending_spec|].
  eapply drain_bind; [apply drain_watchdog_spec|]. eapply drain_bind; [apply drain_storage_spec|].
  apply drain_panics_spec.
Qed.

(** ** Steps that return and leave a view of the state as it is *)

Definition neutral {V T} (view : A → V) (m : E T) : Prop :=
  ∀ a, ∃ x a', m a = (Ok x, a') ∧ view a' = view a.

Section Neutral.
Context {V : Type} (view : A → V).

Lemma neutral_ret {T} (x : T) : neutral view (mret x).
Proof. intros a. by exists x, a. Qed.
Lemma neutral_get : neutral view get.
Proof. intros a. by exists a, a. Qed.
Lemma neutral_modify (g : A → A) : (∀ a, view (g a) = view a) → neutral view (modify g).
Proof. intros Hg a. by exists tt, (g a). Qed.
Lemma neutral_bind {T U} (m : E T) (k : T → E U) :
  neutral view m → (∀ x, neutral view (k x)) → neutral view (m ≫= k).
Proof.
  intros Hm Hk a. destruct (Hm a) as (x & a1 & E1 & V1). destruct (Hk x a1) as (y & a2 & E2 & V2).
  exists y, a2. unfold mbind, comp_bind. rewrite E1. split; [done|congruence].
Qed.
Lemma neutral_when b m : neutral view m → neutral view (when b m).
Proof. intros Hm. destruct b; [done|apply neutral_ret]. Qed.
Lemma neutral_if {T} (b : bool) (m k : E T) : neutral view m → neutral view k → neutral view (if b then m else k).
Proof. by destruct b. Qed.
Lemma neutral_world {T} (f : W → T * W) :
  (∀ a w, view (a <| world := w |>) = view a) → neutral view (on_world f).
Proof. intros Hv a. unfold on_world. destruct (f (world a)) as [x w]. by exists x, (a <| world := w |>). Qed.
End Neutral.

(** Computations that never have enough fuel. *)
Definition starves {T} (m : E T) a : Prop := (m a).1 = Err OutOfFuel.

Lemma starves_bind {T U} (m : E T) (k : T → E U) a : starves m a → starves (m ≫= k) a.
Proof. unfold starves, mbind, comp_bind. destruct (m a) as [[x|e] a']; cbn; [done|]. by destruct e. Qed.
Lemma starves_after {T U} (m : E T) (k : T → E U) a x a' :
  m a = (Ok x, a') → starves (k x) a' → starves (m ≫= k) a.
Proof. unfold starves, mbind, comp_bind. by intros ->. Qed.
Lemma starves_neutral {V T U} (view : A → V) (m : E T) (k : T → E U) a :
  neutral view m → (∀ x a', view a' = view a → starves (k x) a') → starves (m ≫= k) a.
Proof. intros Hm Hk. destruct (Hm a) as (x & a' & E1 & V1). eapply starves_after; [done|by apply Hk]. Qed.

(** ** Below the threshold every handler returns *)

(** [m] returns from every state with [pre], in a state with [post]. *)
Definition settles {T} (pre post : A → Prop) (m : E T) : Prop :=
  ∀ a, pre a → ∃ x a', m a = (Ok x, a') ∧ post a'.

Lemma settles_bind {T U} (pre mid post : A → Prop) (m : E T) (k : T → E U) :
  settles pre mid m → (∀ x, settles mid post (k x)) → settles pre post (m ≫= k).
Proof.
  intros Hm Hk a Ha. destruct (Hm a Ha) as (x & a1 & E1 & H1). destruct (Hk x a1 H1) as (y & a2 & E2 & H2).
  exists y, a2. unfold mbind, comp_bind. by rewrite E1.
Qed.
Lemma settles_ret {T} (pre : A → Prop) (x : T) : settles pre pre (mret x).
Proof. intros a Ha. by exists x, a. Qed.
Lemma settles_get {T} (pre post : A → Prop) (k : A → E T) :
  (∀ a, pre a → settles (λ a', a' = a) post (k a)) → settles pre post (get ≫= k).
Proof. intros Hk a Ha. by apply (Hk a Ha a). Qed.
Lemma settles_weaken {T} (pre pre' post post' : A → Prop) (m : E T) :
  settles pre' post' m → (∀ a, pre a → pre' a) → (∀ a, post' a → post a) → settles pre post m.
Proof. intros Hm H1 H2 a Ha. destruct (Hm a (H1 a Ha)) as (x & a' & E1 & HQ). eauto. Qed.
Lemma settles_when (pre : A → Prop) b m : settles pre pre m → settles pre pre (when b m).
Proof. intros Hm. destruct b; [done|apply settles_ret]. Qed.

(** Fewer than [n] anomalies to count, and a property of the intent queue. *)
Definition few (n : Z) a : Prop := total_anomalies a < n ∧ 0 ≤ pending_anomalies a.
Definition calm (n : Z) (D : DesiredIntentQueue → Prop) a : Prop := few n a ∧ D (desired_intent a).
Definition any_intent (q : DesiredIntentQueue) : Prop := True.
Definition no_intent (q : DesiredIntentQueue) : Prop := Core.pending q = None.

Definition calm_view a := (anomaly_view a, desired_intent a).

Lemma few_view n a a' : anomaly_view a' = anomaly_view a → few n a → few n a'.
Proof.
  intros Hv [H1 H2]. split; [by rewrite (total_view a a')|]. unfold anomaly_view in Hv. congruence.
Qed.

Lemma calm_neutral {T} n D (m : E T) : neutral calm_view m → settles (calm n D) (calm n D) m.
Proof.
  intros Hm a [Ht Hd]. destruct (Hm a) as (x & a' & E1 & V1). exists x, a'. split; [done|].
  unfold calm_view in V1. split.
  - apply (few_view n a); [congruence|done].
  - by replace (desired_intent a') with (desired_intent a) by congruence.
Qed.

Lemma neutral_controller {V T} (view : A → V) (m : comp (TimerController P) TimerError T) :
  (∀ a c, view (a <| controller := c |>) = view a) → neutral view (on_controller m).
Proof.
  intros Hv a. unfold on_controller. destruct (m (controller a)) as [r c].
  by exists r, (a <| controller := c |>).
Qed.


End Engine.

(** Discharges [neutral], by the structure of the computation. *)
Ltac calm_tac :=
  unfold now, SetTimer, KillTimer, update_icon, record, record_with_outcome, set_tray_status,
    sync_timing_snapshot, modify_controller;
  repeat first
    [ progress intros
    | apply neutral_bind | apply neutral_when | apply neutral_get | apply neutral_ret
    | apply neutral_modify; intros; reflexivity
    | apply neutral_world; intros; reflexivity
    | apply neutral_controller; intros; reflexivity
    | apply neutral_if | progress cbv zeta | case_match ].

(** The first step of a computation keeps [calm], or [calm_quiet]. *)
Ltac calm_keep := eapply settles_bind; [apply calm_neutral; solve [calm_tac]|intros ?].

Section Calm.
Context {P : Type} `{TimerPlatform P} {W : Type} `{Desktop W}.
Abbreviation A := (App P W).
Abbreviation E := (comp A Diverged).
Implicit Types a : A.

Lemma publish_ownership_calm : neutral calm_view (publish_ownership : E unit).
Proof. unfold publish_ownership. calm_tac. Qed.
Lemma publish_surface_calm s : neutral calm_view (publish_surface s : E bool).
Proof. unfold publish_surface. calm_tac. Qed.
Lemma cancel_duration_timer_calm : neutral calm_view (cancel_duration_timer : E unit).
Proof. unfold cancel_duration_timer. calm_tac. Qed.
Lemma begin_display_calm : neutral calm_view (begin_schedule_display_timer : E unit).
Proof. unfold begin_schedule_display_timer. calm_tac. Qed.
Lemma kill_display_calm : neutral calm_view (kill_schedule_display_timer : E unit).
Proof. unfold kill_schedule_display_timer. calm_tac. Qed.

Lemma total_bound a : all_quiet a → total_anomalies a = unhandled_anomalies a.
Proof. intros (H1 & H2 & H3 & H4). by apply total_quiet. Qed.

Lemma all_quiet_view a a' : anomaly_view a' = anomaly_view a → all_quiet a → all_quiet a'.
Proof.
  unfold anomaly_view, all_quiet, quiet_pending, quiet_watchdog, quiet_storage, quiet_panics.
  intros [= H1 H2 H3 H4 H5 H6 H7 H8]. by rewrite H2, H3, H4, H5, H6, H7, H8.
Qed.

Definition calm_quiet n D a : Prop := calm n D a ∧ all_quiet a.
Lemma calm_quiet_neutral {T} n D (m : E T) :
  neutral calm_view m → settles (calm_quiet n D) (calm_quiet n D) m.
Proof.
  intros Hm a [Ha Hq]. destruct (calm_neutral n D m Hm a Ha) as (x & a' & E1 & Ha').
  exists x, a'. split_and!; [done|split; [done|]]. destruct (Hm a) as (x2 & a2 & E2 & V2).
  assert (a' = a2) as -> by congruence. apply (all_quiet_view a); [unfold calm_view in V2; congruence|done].
Qed.

Lemma recover_calm n D : 1 ≤ n →
  settles (calm_quiet n D) (calm n D) (enter_tier TierTransition.Recover).
Proof.
  intros Hn a [[[_ Hz] Hd] (Hp & _)]. eexists tt, _. split; [reflexivity|]. split; [split; [|exact Hz]|exact Hd].
  apply (Z.lt_le_trans _ 1); [|exact Hn]. rewrite total_quiet; [apply eq_refl|exact Hp| | |].
  - unfold quiet_watchdog. change (match watchdog a with Some e => e ≤ default 0 (watchdog a) | None => True end).
    destruct (watchdog a); [apply Z.le_refl|done].
  - apply Z.le_refl.
  - apply Z.le_refl.
Qed.

Lemma enter_tier_calm n D t : 1 ≤ n → t ≠ TierTransition.EnterQuiescent →
  settles (calm_quiet n D) (calm n D) (enter_tier t).
Proof.
  intros Hn Ht. assert (t = TierTransition.Recover ∨ t ≠ TierTransition.Recover) as [->|Hr]
    by (destruct t; auto); [by apply recover_calm|].
  eapply settles_weaken; [apply (calm_neutral n D)|by intros a [Ha _]|done].
  destruct t; try done; cbn [enter_tier]; calm_tac.
Qed.

Lemma drain_calm n D : settles (calm n D) (calm_quiet n D) drain_anomaly_producers.
Proof.
  intros a [[Hc Hz] Hd]. destruct (drain_spec a I) as (a1 & E1 & V1 & [T1 P1] & Q1). exists tt, a1.
  split; [done|]. split; [|done]. split; [split; [lia|auto]|].
  assert (desired_intent a1 = desired_intent a) as -> by (unfold main_view in V1; congruence). done.
Qed.

End Calm.
