(* ===== verification/EngineFuel.v ===== *)
(** * EngineFuel: more fuel does not change a result

    The engine's functions only use fuel to bound their recursion: whatever they
    return with some fuel, they return with more. *)
From coqutil Require Import Datatypes.RecordSetters.
From S2P Require Import Prelude Text Core Policy Watchdog Diagnostics Platform Ownership Wire Pause Files Config Surface Engine.
Import TriangleBracketNotations.

Section Extends.
Context {P : Type} `{TimerPlatform P} {W : Type} `{Desktop W}.
Abbreviation A := (App P W).
Abbreviation E := (comp A Diverged).

(** Every result of [m] is one of [k]. *)
Definition extends {T} (m k : E T) : Prop := ∀ a x a', m a = (Ok x, a') → k a = (Ok x, a').

Lemma extends_refl {T} (m : E T) : extends m m.
Proof. by intros a x a'. Qed.
Lemma extends_out_of_fuel {T} (k : E T) : extends (fail OutOfFuel) k.
Proof. intros a x a' [=]. Qed.
Lemma extends_bind {T U} (m m' : E T) (k k' : T → E U) :
  extends m m' → (∀ x, extends (k x) (k' x)) → extends (m ≫= k) (m' ≫= k').
Proof.
  intros Hm Hk a y a'. unfold mbind, comp_bind. destruct (m a) as [[x|e] a1] eqn:E1; [|by intros [=]].
  rewrite (Hm _ _ _ E1). apply Hk.
Qed.
Lemma extends_when b (m m' : E unit) : extends m m' → extends (when b m) (when b m').
Proof. intros Hm. destruct b; [done|apply extends_refl]. Qed.
End Extends.

(** Descends into two computations that differ in fuel only. *)
Ltac extends_tac :=
  repeat lazymatch goal with
    | |- extends (_ ≫= _) (_ ≫= _) => refine (extends_bind _ _ _ _ _ _); [|intros ?]
    | |- extends (when _ _) (when _ _) => refine (extends_when _ _ _ _)
    | |- extends (let _ := _ in _) _ => cbv zeta
    | |- extends (match ?x with _ => _ end) _ => destruct x
    | |- _ => first [exact (extends_refl _) | eassumption | solve [eauto with nocore engine_fuel]]
    end.

Create HintDb engine_fuel.

Section Engine.
Context {P : Type} `{TimerPlatform P} {W : Type} `{Desktop W}.
Abbreviation A := (App P W).
Abbreviation E := (comp A Diverged).

(** The nine functions of the cycle, at two levels of fuel. *)
Definition cycle_extends (f g : nat) : Prop :=
  extends (publish f : E _) (publish g) ∧ extends (refresh_operating_tier f : E _) (refresh_operating_tier g) ∧
  (∀ s, extends (guarded_release f s : E _) (guarded_release g s)) ∧
  (∀ b s, extends (begin_handoff f b s : E _) (begin_handoff g b s)) ∧
  extends (arm_duration_timer f : E _) (arm_duration_timer g) ∧
  extends (process_desired_intent f : E _) (process_desired_intent g) ∧
  extends (acquire_timer f : E _) (acquire_timer g) ∧
  (∀ r, extends (release_for_policy f r : E _) (release_for_policy g r)) ∧
  (∀ i, extends (queue_intent f i : E _) (queue_intent g i)) ∧
  ∀ s, extends (show_ownership_status f s : E _) (show_ownership_status g s).

Lemma cycle_fuel f g : (f ≤ g)%nat → cycle_extends f g.
Proof.
  revert g. induction f as [|f IH]; intros g Hg; [split_and!; intros; apply extends_out_of_fuel|].
  destruct g as [|g]; [lia|]. destruct (IH g ltac:(lia)) as (H1 & H2 & H3 & H4 & H5 & H6 & H7 & H8 & H9 & H10).
  clear IH. split_and!; intros.
  - rewrite !publish_S. extends_tac.
  - rewrite !refresh_operating_tier_S. extends_tac.
  - rewrite !guarded_release_S. extends_tac.
  - rewrite !begin_handoff_S. extends_tac.
  - rewrite !arm_duration_timer_S. extends_tac.
  - rewrite !process_desired_intent_S. extends_tac.
  - rewrite !acquire_timer_S. extends_tac.
  - rewrite !release_for_policy_S. extends_tac.
  - rewrite !queue_intent_S. extends_tac.
  - rewrite !show_ownership_status_S. extends_tac.
Qed.

Context (f g : nat) (Hfg : (f ≤ g)%nat).

Lemma publish_fuel : extends (publish f : E _) (publish g).
Proof. by apply cycle_fuel. Qed.
Lemma guarded_release_fuel s : extends (guarded_release f s : E _) (guarded_release g s).
Proof. by apply cycle_fuel. Qed.
Lemma arm_fuel : extends (arm_duration_timer f : E _) (arm_duration_timer g).
Proof. by apply cycle_fuel. Qed.
Lemma process_fuel : extends (process_desired_intent f : E _) (process_desired_intent g).
Proof. by apply cycle_fuel. Qed.
Lemma release_for_policy_fuel r : extends (release_for_policy f r : E _) (release_for_policy g r).
Proof. by apply cycle_fuel. Qed.
Lemma queue_fuel i : extends (queue_intent f i : E _) (queue_intent g i).
Proof. by apply cycle_fuel. Qed.
Lemma show_fuel s : extends (show_ownership_status f s : E _) (show_ownership_status g s).
Proof. by apply cycle_fuel. Qed.
End Engine.

#[export] Hint Resolve publish_fuel guarded_release_fuel arm_fuel process_fuel release_for_policy_fuel
  queue_fuel show_fuel : engine_fuel.

Section Handlers.
Context {P : Type} `{TimerPlatform P} {W : Type} `{Desktop W}.
Abbreviation A := (App P W).
Abbreviation E := (comp A Diverged).
Context (f g : nat) (Hfg : (f ≤ g)%nat).

Lemma apply_policy_fuel : extends (apply_policy f : E _) (apply_policy g).
Proof. unfold apply_policy. extends_tac. Qed.
#[local] Hint Resolve apply_policy_fuel : engine_fuel.
Lemma reconcile_fuel : extends (reconcile f : E _) (reconcile g).
Proof. unfold reconcile. extends_tac. Qed.
#[local] Hint Resolve reconcile_fuel : engine_fuel.
Lemma power_reconciliation_fuel : extends (apply_power_reconciliation f : E _) (apply_power_reconciliation g).
Proof. unfold apply_power_reconciliation. extends_tac. Qed.
#[local] Hint Resolve power_reconciliation_fuel : engine_fuel.
Lemma broadcast_event_fuel : extends (handle_power_broadcast_event f : E _) (handle_power_broadcast_event g).
Proof. unfold handle_power_broadcast_event, release_for_power_change. extends_tac. Qed.
#[local] Hint Resolve broadcast_event_fuel : engine_fuel.
Lemma schedule_fuel act d : extends (schedule_duration_action f act d : E _) (schedule_duration_action g act d).
Proof. unfold schedule_duration_action. extends_tac. Qed.
Lemma cancel_fuel : extends (cancel_scheduled_action f : E _) (cancel_scheduled_action g).
Proof. unfold cancel_scheduled_action. extends_tac. Qed.
Lemma execute_fuel s : extends (execute_scheduled_action f s : E _) (execute_scheduled_action g s).
Proof. unfold execute_scheduled_action. extends_tac. Qed.
#[local] Hint Resolve schedule_fuel cancel_fuel execute_fuel : engine_fuel.
Lemma ipc_fuel verb payload : extends (handle_ipc_command f verb payload : E _) (handle_ipc_command g verb payload).
Proof.
  unfold handle_ipc_command, handle_ipc_acquire, handle_ipc_schedule, handle_ipc_cancel_schedule,
    manual_start, manual_stop. extends_tac.
Qed.
#[local] Hint Resolve ipc_fuel : engine_fuel.

Lemma handle_fuel e : extends (handle f e : E _) (handle g e).
Proof.
  destruct e; cbn [handle]; [unfold manual_start|unfold manual_stop| | |unfold handle_handoff_timer, end_handoff
    |unfold service_surface_recovery, advance_surface_recovery|unfold handle_schedule_display_timer
    |unfold handle_power_debounce_timer, release_for_power_change|unfold handle_duration_timer
    |unfold handle_power_broadcast, release_for_power_change|unfold schedule_preset_action| | |];
    extends_tac.
Qed.
#[local] Hint Resolve handle_fuel : engine_fuel.

Lemma run_fuel es : extends (run f es : E _) (run g es).
Proof. induction es; cbn [run]; extends_tac. Qed.
End Handlers.
