(* ===== verification/EngineTermination.v ===== *)
(** * EngineTermination: when the engine returns

    The handlers call each other in cycles.  [tier_cycle_starves]: with three
    anomalies counted and the request held, the cycle of publication, tier and
    release never ends.  Below that threshold fuel ten is enough for every
    handler, and the count stays below it. *)
From coqutil Require Import Datatypes.RecordSetters.
From S2P Require Import Prelude Text Core Policy Watchdog Diagnostics Platform Ownership Wire Pause Files Config Surface Engine EngineSteps EngineFuel.
Import TriangleBracketNotations.

Section Engine.
Context {P : Type} `{TimerPlatform P} {W : Type} `{Desktop W}.
Abbreviation A := (App P W).
Abbreviation E := (comp A Diverged).
Implicit Types a : A.

(** ** The quiescent cycle *)

(** What the tier cycle reads. *)
Definition loop_view a := (controller a, handoff a, anomaly_view a).


Lemma record_loop name : neutral loop_view (record name : E unit).
Proof. apply neutral_modify. reflexivity. Qed.
Lemma publish_ownership_loop : neutral loop_view (publish_ownership : E unit).
Proof. unfold publish_ownership, now. calm_tac. Qed.
Lemma kill_loop (b : bool) id : neutral loop_view (when b (_ ← KillTimer id; mret tt) : E unit).
Proof. unfold KillTimer. calm_tac. Qed.
Lemma quiescent_loop : neutral loop_view (enter_tier TierTransition.EnterQuiescent : E unit).
Proof. apply neutral_modify. reflexivity. Qed.

(** The tier machine wants the quiescent release, which nothing stops. *)
Definition stuck a : Prop :=
  ownership (controller a) = OwnershipState.Owned ∧ handoff a = None ∧
  MAX_ANOMALIES_BEFORE_QUIESCENT ≤ total_anomalies a.

Lemma stuck_view a a' : loop_view a' = loop_view a → stuck a → stuck a'.
Proof.
  unfold loop_view, stuck. intros Hv (H1 & H2 & H3). rewrite (total_view a a') by congruence.
  assert (controller a' = controller a) as -> by congruence.
  assert (handoff a' = handoff a) as -> by congruence. done.
Qed.

Lemma tier_cycle_starves fuel a : stuck a →
  starves (publish fuel) a ∧ starves (refresh_operating_tier fuel) a ∧
  ∀ s, starves (guarded_release fuel s) a.
Proof.
  revert a. induction fuel as [|fuel IH]; intros a Ha; [done|]. split_and!.
  - rewrite publish_S. apply (starves_neutral loop_view); [apply publish_ownership_loop|]. intros _ a1 V1.
    apply (starves_neutral loop_view); [apply neutral_get|]. intros a2 a3 V3.
    apply starves_bind. apply IH. by apply (stuck_view a); [congruence|].
  - rewrite refresh_operating_tier_S. destruct (drain_spec a I) as (a1 & E1 & V1 & T1 & Q1).
    pose proof (total_quiet a1 ltac:(apply Q1) ltac:(apply Q1) ltac:(apply Q1) ltac:(apply Q1)) as U1.
    eapply starves_after; [exact E1|]. eapply starves_after; [reflexivity|]. cbv zeta.
    destruct Ha as (Ho & Hh & Ht). 
    assert (controller a1 = controller a ∧ handoff a1 = handoff a) as [Vc Vh]
      by (unfold main_view in V1; split; congruence).
    assert (evaluate_tier (operating_tier a1) (tier_context a1) = TierTransition.EnterQuiescent) as ->.
    { unfold evaluate_tier, tier_context. cbn [ctx_unhandled_anomalies].
      by replace (_ <=? unhandled_anomalies a1) with true by lia. }
    assert (stuck a1) as Ha1 by (split_and!; [congruence|congruence|lia]).
    apply (starves_neutral loop_view); [apply kill_loop|]. intros _ a2 V2.
    apply (starves_neutral loop_view); [apply quiescent_loop|]. intros _ a3 V3.
    change (negb (is_stay TierTransition.EnterQuiescent)) with true. unfold when at 1.
    apply (starves_neutral loop_view); [apply record_loop|]. intros _ a4 V4.
    eapply starves_after; [reflexivity|]. assert (stuck a4) as Ha4 by (apply (stuck_view a1); [congruence|done]).
    assert (owns a4 = true) as -> by (apply bool_decide_eq_true; apply Ha4).
    rewrite bool_decide_eq_true_2 by done. cbn [andb]. unfold when.
    apply (starves_neutral loop_view); [apply record_loop|]. intros _ a5 V5.
    apply starves_bind. apply IH. by apply (stuck_view a4).
  - intros s. rewrite guarded_release_S. eapply starves_after; [reflexivity|].
    destruct Ha as (Ho & Hh & Ht). rewrite Hh. rewrite bool_decide_eq_false_2 by (intros [? ?]; done).
    apply (starves_neutral loop_view); [apply record_loop|]. intros _ a1 V1.
    eapply starves_after; [reflexivity|]. apply starves_bind. apply IH.
    apply (stuck_view a1); [reflexivity|]. by apply (stuck_view a).
Qed.

(** ** The cycle returns below the threshold *)

Context (n : Z) (Hn : 1 ≤ n ≤ MAX_ANOMALIES_BEFORE_QUIESCENT).
Abbreviation calm := (EngineSteps.calm n).
Abbreviation calm_quiet := (EngineSteps.calm_quiet n).

Lemma evaluate_calm D a : calm_quiet D a →
  evaluate_tier (operating_tier a) (tier_context a) ≠ TierTransition.EnterQuiescent.
Proof.
  intros [[[Hc _] _] Hq]. rewrite (total_bound a Hq) in Hc. unfold evaluate_tier, tier_context.
  cbn [ctx_unhandled_anomalies]. replace (_ <=? unhandled_anomalies a) with false by lia.
  repeat case_match; congruence.
Qed.

Lemma refresh_calm D fuel : (1 ≤ fuel)%nat →
  settles (calm D) (calm D) (refresh_operating_tier fuel).
Proof.
  destruct fuel as [|fuel]; [lia|]. intros _. rewrite refresh_operating_tier_S.
  eapply settles_bind; [apply drain_calm|]. intros _. apply settles_get. intros a Ha. cbv zeta.
  pose proof (evaluate_calm D a Ha) as Ht. revert Ht. generalize (evaluate_tier (operating_tier a) (tier_context a)).
  intros t Ht. eapply settles_weaken with (pre' := calm_quiet D) (post' := calm D); [|by intros ? ->|done].
  eapply settles_bind; [apply calm_quiet_neutral; calm_tac|intros _].
  eapply settles_bind; [apply enter_tier_calm; [lia|done]|]. intros _. apply settles_when.
  calm_keep. apply settles_get. intros a2 Ha2. rewrite bool_decide_eq_false_2 by done.
  eapply settles_weaken; [apply settles_ret|by intros ? ->|done].
Qed.

Lemma publish_calm D fuel : (2 ≤ fuel)%nat → settles (calm D) (calm D) (publish fuel).
Proof.
  destruct fuel as [|fuel]; [lia|]. intros Hf. rewrite publish_S.
  eapply settles_bind; [apply calm_neutral, publish_ownership_calm|]. intros _.
  eapply settles_bind; [apply calm_neutral, neutral_get|]. intros a1. cbv zeta.
  eapply settles_bind; [apply refresh_calm; lia|]. intros _.
  eapply settles_bind; [apply calm_neutral, neutral_get|]. intros a2.
  eapply settles_bind; [apply calm_neutral, publish_surface_calm|]. intros lost.
  apply settles_when, refresh_calm. lia.
Qed.

(** The first step of the goal keeps [calm]. *)
Ltac calm_step :=
  first [ apply settles_ret
        | apply publish_calm; lia
        | eapply settles_bind; [apply publish_calm; lia|intros ?]
        | apply calm_neutral; solve [calm_tac]
        | calm_keep
        | progress cbv zeta
        | apply settles_when
        | case_match ].

Lemma calm_weak D a : calm D a → calm any_intent a.
Proof. by intros [Hc _]. Qed.
Lemma settles_any {T} (pre : A → Prop) (m : E T) :
  settles pre (calm no_intent) m → settles pre (calm any_intent) m.
Proof. intros Hm. eapply settles_weaken; [exact Hm|done|]. intros a. apply calm_weak. Qed.
Lemma settles_from {T} D (post : A → Prop) (m : E T) :
  settles (calm any_intent) post m → settles (calm D) post m.
Proof. intros Hm. eapply settles_weaken; [exact Hm|intros a; apply calm_weak|done]. Qed.

Lemma show_calm D fuel s : (3 ≤ fuel)%nat → settles (calm D) (calm D) (show_ownership_status fuel s).
Proof. destruct fuel as [|fuel]; [lia|]. intros Hf. rewrite show_ownership_status_S. repeat calm_step. Qed.

Lemma arm_calm D fuel : (3 ≤ fuel)%nat → settles (calm D) (calm D) (arm_duration_timer fuel).
Proof.
  destruct fuel as [|fuel]; [lia|]. intros Hf. rewrite arm_duration_timer_S. repeat calm_step.
Qed.

Lemma set_intent_calm D D' q : D' q → settles (calm D) (calm D') (modify (λ a, a <| desired_intent := q |>)).
Proof. intros Hq a [Hc _]. eexists tt, _. split; [reflexivity|]. split; [exact Hc|exact Hq]. Qed.
Lemma request_intent_calm D i :
  settles (calm D) (calm any_intent) (modify (λ a, a <| desired_intent ::= (λ q, intent_request q i) |>)).
Proof. intros a [Hc _]. eexists tt, _. split; [reflexivity|]. split; [exact Hc|done]. Qed.

Lemma neutral_settles {V T} (view : A → V) (pre : A → Prop) (m : E T) :
  (∀ a a', view a' = view a → pre a → pre a') → neutral view m → settles pre pre m.
Proof. intros Hv Hm a Ha. destruct (Hm a) as (x & a' & E1 & V1). exists x, a'. eauto. Qed.

(** A release requested during a handoff waits for it. *)
Definition calm_pending D a : Prop := calm D a ∧ is_Some (handoff a).
Lemma queue_pending_calm D fuel i : (3 ≤ fuel)%nat →
  settles (calm_pending D) (calm any_intent) (queue_intent fuel i).
Proof.
  destruct fuel as [|fuel]; [lia|]. intros Hf. rewrite queue_intent_S.
  eapply settles_bind with (mid := calm_pending any_intent).
  { intros a [[Hc _] Hh]. eexists tt, _. split; [reflexivity|]. split; [split; [exact Hc|done]|exact Hh]. }
  intros _. eapply settles_bind.
  { apply (neutral_settles (λ a, (anomaly_view a, handoff a))).
    - intros a a' [= V1 V2 V3 V4 V5 V6 V7 V8 V9] [[Hc _] Hh]. split; [split; [|done]|congruence].
      apply (few_view n a); [unfold anomaly_view; congruence|done].
    - apply neutral_modify. reflexivity. }
  intros _. apply settles_get. intros a [Ha Hh]. rewrite bool_decide_eq_true_2 by done.
  eapply settles_weaken with (pre' := calm any_intent) (post' := calm any_intent); [|by intros ? ->|done].
  repeat calm_step.
Qed.

Lemma process_none_calm fuel : (3 ≤ fuel)%nat →
  settles (calm no_intent) (calm no_intent) (process_desired_intent fuel).
Proof.
  destruct fuel as [|fuel]; [lia|]. intros Hf. rewrite process_desired_intent_S.
  apply settles_get. intros a Ha.
  eapply settles_weaken with (pre' := calm no_intent) (post' := calm no_intent); [|by intros ? ->|done].
  case_bool_decide; [calm_keep; apply publish_calm; lia|]. unfold intent_take. destruct Ha as [_ Hq]. rewrite Hq.
  eapply settles_bind; [by apply (set_intent_calm _ no_intent)|]. intros _. apply settles_ret.
Qed.

(** The levels above depend on what processing a queued intent does. *)
Lemma acquire_calm_gen D fuel : (3 ≤ fuel)%nat →
  settles (calm D) (calm D)
    (a ← get; when (bool_decide (is_Some (Core.pending (desired_intent a)))) (process_desired_intent fuel)) →
  settles (calm D) (calm D) (acquire_timer (S fuel)).
Proof.
  intros Hf Hp. rewrite acquire_timer_S. calm_keep.
  case_match; [apply show_calm; lia|]. case_match; [repeat calm_step|].
  calm_keep. eapply settles_bind; [apply publish_calm; lia|intros ?].
  do 9 calm_keep. eapply settles_bind; [apply publish_calm; lia|intros ?]. exact Hp.
Qed.

Lemma begin_handoff_calm_gen D D' fuel b s : (3 ≤ fuel)%nat →
  (∀ a, calm D a → calm D' a) →
  settles (calm D) (calm D') (process_desired_intent fuel) →
  settles (calm D) (calm D') (begin_handoff (S fuel) b s).
Proof.
  intros Hf Hdd Hp. rewrite begin_handoff_S.
  eapply settles_bind; [apply calm_neutral, cancel_duration_timer_calm|intros _].
  do 2 calm_keep. case_match.
  - eapply settles_weaken with (pre' := calm D) (post' := calm D); [|done|exact Hdd].
    do 2 calm_keep. eapply settles_bind; [apply publish_calm; lia|intros ?]. apply settles_ret.
  - do 6 calm_keep. eapply settles_bind; [apply publish_calm; lia|intros ?].
    eapply settles_bind; [exact Hp|intros ?]. calm_keep.
    eapply settles_bind; [|intros ?; apply settles_ret]. apply settles_when.
    eapply settles_bind; [apply arm_calm; lia|intros ?; apply settles_ret].
Qed.

Lemma guarded_release_calm_gen D D' fuel s : (3 ≤ fuel)%nat →
  (∀ a, calm D a → calm D' a) →
  (∀ b s', settles (calm D) (calm D') (begin_handoff fuel b s')) →
  settles (calm D) (calm D') (guarded_release (S fuel) s).
Proof.
  intros Hf Hdd Hb. rewrite guarded_release_S. calm_keep. case_match.
  { eapply settles_weaken with (pre' := calm D) (post' := calm D); [|done|exact Hdd]. repeat calm_step. }
  do 2 calm_keep. eapply settles_bind; [apply publish_calm; lia|intros ?].
  do 3 calm_keep. case_match.
  - do 2 calm_keep. cbv zeta. eapply settles_bind with (mid := calm D').
    + case_match; [case_match; [apply Hb|]|];
        (eapply settles_weaken; [apply settles_ret|exact Hdd|done]).
    + intros handed. destruct handed; [apply settles_ret|].
      do 4 calm_keep. eapply settles_bind; [apply publish_calm; lia|intros ?]. calm_keep.
      eapply settles_bind; [|intros ?; apply settles_ret]. apply settles_when.
      eapply settles_bind; [apply arm_calm; lia|intros ?; apply settles_ret].
  - eapply settles_weaken with (pre' := calm D) (post' := calm D); [|done|exact Hdd].
    do 3 calm_keep. eapply settles_bind; [apply publish_calm; lia|intros ?]. apply settles_ret.
Qed.

Lemma release_for_policy_calm_gen D fuel r : (3 ≤ fuel)%nat →
  (∀ s', settles (calm D) (calm any_intent) (guarded_release fuel s')) →
  settles (calm D) (calm any_intent) (release_for_policy (S fuel) r).
Proof.
  intros Hf Hg. rewrite release_for_policy_S. apply settles_get. intros a Ha. case_bool_decide as Hh.
  { eapply settles_weaken with (pre' := calm_pending D); [by apply queue_pending_calm| |done].
    intros ? ->. split; assumption. }
  clear Hh. eapply settles_weaken with (pre' := calm D) (post' := calm any_intent); [|by intros ? ->|done].
  cbv zeta. do 2 calm_keep. case_match.
  - eapply settles_bind; [apply Hg|intros ?]. repeat calm_step.
  - eapply settles_weaken; [|exact (calm_weak D)|done]. repeat calm_step.
Qed.

Lemma no_pending_process fuel : settles (calm no_intent) (calm no_intent)
  (a ← get; when (bool_decide (is_Some (Core.pending (desired_intent a)))) (process_desired_intent fuel)).
Proof.
  apply settles_get. intros a [Hc Hq]. rewrite Hq, bool_decide_eq_false_2 by (by intros [? ?]).
  eapply settles_weaken with (pre' := calm no_intent); [apply settles_ret|by intros ? ->|done].
Qed.

Lemma acquire_none_calm fuel : (4 ≤ fuel)%nat → settles (calm no_intent) (calm no_intent) (acquire_timer fuel).
Proof.
  destruct fuel as [|fuel]; [lia|]. intros Hf. apply acquire_calm_gen; [lia|apply no_pending_process].
Qed.
Lemma begin_handoff_none_calm fuel b s : (4 ≤ fuel)%nat →
  settles (calm no_intent) (calm no_intent) (begin_handoff fuel b s).
Proof.
  destruct fuel as [|fuel]; [lia|]. intros Hf.
  apply begin_handoff_calm_gen; [lia|done|apply process_none_calm; lia].
Qed.
Lemma guarded_release_none_calm fuel s : (5 ≤ fuel)%nat →
  settles (calm no_intent) (calm no_intent) (guarded_release fuel s).
Proof.
  destruct fuel as [|fuel]; [lia|]. intros Hf.
  apply guarded_release_calm_gen; [lia|done|]. intros b s'. apply begin_handoff_none_calm. lia.
Qed.
Lemma release_for_policy_none_calm fuel r : (6 ≤ fuel)%nat →
  settles (calm no_intent) (calm any_intent) (release_for_policy fuel r).
Proof.
  destruct fuel as [|fuel]; [lia|]. intros Hf.
  apply release_for_policy_calm_gen; [lia|]. intros s. apply settles_any, guarded_release_none_calm. lia.
Qed.

Lemma process_calm fuel : (7 ≤ fuel)%nat →
  settles (calm any_intent) (calm any_intent) (process_desired_intent fuel).
Proof.
  destruct fuel as [|fuel]; [lia|]. intros Hf. rewrite process_desired_intent_S. calm_keep.
  case_bool_decide; [repeat calm_step|]. unfold intent_take.
  eapply settles_bind; [by apply (set_intent_calm _ no_intent)|intros _].
  destruct (Core.pending (desired_intent x)) as [[]|].
  - destruct (pause_active _); [|destruct (power_allows _)].
    + apply settles_any. calm_keep. apply settles_when. calm_keep.
      eapply settles_bind; [apply publish_calm; lia|intros _].
      eapply settles_bind; [apply arm_calm; lia|intros ?; apply settles_ret].
    + apply settles_any, acquire_none_calm. lia.
    + apply release_for_policy_none_calm. lia.
  - case_bool_decide; [|destruct (owned_or_uncertain _)].
    + eapply settles_bind; [apply request_intent_calm|intros _]. apply calm_neutral. calm_tac.
    + apply settles_any. eapply settles_bind; [apply guarded_release_none_calm; lia|intros ?]. repeat calm_step.
    + apply settles_any. calm_keep. eapply settles_bind; [apply publish_calm; lia|intros _]. calm_keep.
      apply settles_when. eapply settles_bind; [apply arm_calm; lia|intros ?; apply settles_ret].
  - apply settles_any, settles_ret.
Qed.

Lemma queue_calm fuel i : (8 ≤ fuel)%nat → settles (calm any_intent) (calm any_intent) (queue_intent fuel i).
Proof.
  destruct fuel as [|fuel]; [lia|]. intros Hf. rewrite queue_intent_S.
  eapply settles_bind; [apply request_intent_calm|intros _]. do 2 calm_keep.
  case_match; [repeat calm_step|apply process_calm; lia].
Qed.
Lemma acquire_calm fuel : (8 ≤ fuel)%nat → settles (calm any_intent) (calm any_intent) (acquire_timer fuel).
Proof.
  destruct fuel as [|fuel]; [lia|]. intros Hf. apply acquire_calm_gen; [lia|]. calm_keep.
  apply settles_when, process_calm. lia.
Qed.
Lemma begin_handoff_calm fuel b s : (8 ≤ fuel)%nat →
  settles (calm any_intent) (calm any_intent) (begin_handoff fuel b s).
Proof.
  destruct fuel as [|fuel]; [lia|]. intros Hf. apply begin_handoff_calm_gen; [lia|done|apply process_calm; lia].
Qed.
Lemma guarded_release_calm fuel s : (9 ≤ fuel)%nat →
  settles (calm any_intent) (calm any_intent) (guarded_release fuel s).
Proof.
  destruct fuel as [|fuel]; [lia|]. intros Hf. apply guarded_release_calm_gen; [lia|done|].
  intros b s'. apply begin_handoff_calm. lia.
Qed.
Lemma release_for_policy_calm fuel r : (10 ≤ fuel)%nat →
  settles (calm any_intent) (calm any_intent) (release_for_policy fuel r).
Proof.
  destruct fuel as [|fuel]; [lia|]. intros Hf. apply release_for_policy_calm_gen; [lia|].
  intros s. apply guarded_release_calm. lia.
Qed.


(** *** The handlers *)

Ltac calm_call :=
  first [ apply queue_calm; lia | apply release_for_policy_calm; lia | apply guarded_release_calm; lia
        | apply process_calm; lia | apply show_calm; lia | apply arm_calm; lia | apply publish_calm; lia
        | apply calm_neutral; first [apply cancel_duration_timer_calm|apply kill_display_calm|apply begin_display_calm]
        | solve [eauto with nocore engine_calm] ].
Ltac calm_handler :=
  repeat lazymatch goal with
    | |- settles _ _ (mret _) => apply settles_ret
    | |- settles _ _ (when _ _) => apply settles_when
    | |- settles _ _ (let _ := _ in _) => cbv zeta
    | |- settles _ _ (match ?x with _ => _ end) => destruct x
    | |- settles _ _ (_ ≫= _) =>
        first [ calm_call | eapply settles_bind; [first [calm_call | apply calm_neutral; solve [calm_tac]]|intros ?]
              | refine (settles_bind (calm any_intent) (calm any_intent) (calm any_intent) _ _ _ _); [|intros ?] ]
    | |- _ => first [calm_call | apply calm_neutral; solve [calm_tac]]
    end.

Abbreviation returns m := (settles (calm any_intent) (calm any_intent) (m : E _)).
Create HintDb engine_calm.
Context (fuel : nat) (Hf : (10 ≤ fuel)%nat).

Lemma refresh_power_calm : returns refresh_power.
Proof. apply calm_neutral. unfold refresh_power. calm_tac. Qed.
Lemma refresh_timing_calm : returns refresh_timing_observation.
Proof. apply calm_neutral. unfold refresh_timing_observation. calm_tac. Qed.
#[local] Hint Resolve refresh_power_calm refresh_timing_calm : engine_calm.

Lemma apply_policy_calm : returns (apply_policy fuel).
Proof. unfold apply_policy. calm_handler. Qed.
#[local] Hint Resolve apply_policy_calm : engine_calm.
Lemma reconcile_calm : returns (reconcile fuel).
Proof. unfold reconcile. calm_handler. Qed.
#[local] Hint Resolve reconcile_calm : engine_calm.
Lemma power_reconciliation_calm : returns (apply_power_reconciliation fuel).
Proof. unfold apply_power_reconciliation. calm_handler. Qed.
#[local] Hint Resolve power_reconciliation_calm : engine_calm.

Lemma broadcast_event_calm : returns (handle_power_broadcast_event fuel).
Proof. unfold handle_power_broadcast_event, release_for_power_change, start_debounce, clear_debounce. calm_handler. Qed.
#[local] Hint Resolve broadcast_event_calm : engine_calm.
Lemma schedule_calm act d : returns (schedule_duration_action fuel act d).
Proof. unfold schedule_duration_action. calm_handler. Qed.
Lemma refresh_power_for_duration_calm : returns refresh_power_for_duration.
Proof. unfold refresh_power_for_duration. calm_handler. Qed.
#[local] Hint Resolve refresh_power_for_duration_calm schedule_calm : engine_calm.
Lemma cancel_calm : returns (cancel_scheduled_action fuel).
Proof. unfold cancel_scheduled_action. calm_handler. Qed.
#[local] Hint Resolve cancel_calm : engine_calm.
Lemma execute_calm s : returns (execute_scheduled_action fuel s).
Proof. unfold execute_scheduled_action. calm_handler. Qed.
#[local] Hint Resolve execute_calm : engine_calm.
Lemma end_handoff_calm next external : returns (end_handoff fuel next external).
Proof. unfold end_handoff. calm_handler. Qed.
Lemma finish_handoff_calm : returns finish_handoff_timer.
Proof. unfold finish_handoff_timer. calm_handler. Qed.
#[local] Hint Resolve end_handoff_calm finish_handoff_calm : engine_calm.
Lemma advance_calm recovered : returns (advance_surface_recovery fuel recovered).
Proof. unfold advance_surface_recovery. calm_handler. Qed.
Lemma attempt_calm : returns attempt_surface_restore.
Proof. unfold attempt_surface_restore. calm_handler. Qed.
#[local] Hint Resolve advance_calm attempt_calm : engine_calm.
Lemma manual_start_calm : returns (manual_start fuel).
Proof. unfold manual_start. calm_handler. Qed.
Lemma manual_stop_calm : returns (manual_stop fuel).
Proof. unfold manual_stop. calm_handler. Qed.
#[local] Hint Resolve manual_start_calm manual_stop_calm : engine_calm.
Lemma ipc_calm verb payload : returns (handle_ipc_command fuel verb payload).
Proof.
  unfold handle_ipc_command, handle_ipc_acquire, handle_ipc_schedule, handle_ipc_cancel_schedule. calm_handler.
Qed.
#[local] Hint Resolve ipc_calm : engine_calm.
Lemma duration_timer_calm timer_id : returns (handle_duration_timer fuel timer_id).
Proof. unfold handle_duration_timer. calm_handler. Qed.
Lemma handoff_timer_calm : returns (handle_handoff_timer fuel).
Proof. unfold handle_handoff_timer. calm_handler. Qed.
Lemma broadcast_calm m : returns (handle_power_broadcast fuel m).
Proof. unfold handle_power_broadcast, release_for_power_change. calm_handler. Qed.
Lemma debounce_calm : returns (handle_power_debounce_timer fuel).
Proof. unfold handle_power_debounce_timer, release_for_power_change, start_debounce, clear_debounce. calm_handler. Qed.
Lemma surface_recovery_calm : returns (service_surface_recovery fuel).
Proof. unfold service_surface_recovery. calm_handler. Qed.

Lemma handle_calm e : e ≠ EvAnomaly → returns (handle fuel e).
Proof.
  intros He. destruct e; cbn [handle]; first
    [ apply manual_start_calm | apply manual_stop_calm | apply reconcile_calm | apply publish_calm; lia
    | apply handoff_timer_calm | apply surface_recovery_calm | apply debounce_calm | apply duration_timer_calm
    | apply broadcast_calm | apply cancel_calm | idtac ].
  - unfold handle_schedule_display_timer. calm_handler.
  - unfold schedule_preset_action. calm_handler.
  - calm_handler.
  - done.
Qed.

End Engine.

(** ** Sequences of events *)

Section Run.
Context {P : Type} `{TimerPlatform P} {W : Type} `{Desktop W}.
Abbreviation A := (App P W).
Abbreviation E := (comp A Diverged).
Implicit Types a : A.

(** A report adds one anomaly at most. *)
Lemma report_few n a : n ≤ MAX_ANOMALIES_BEFORE_QUIESCENT → few n a → few (n + 1) (report_anomaly a).
Proof.
  intros Hn [Ht Hp]. split.
  - change (total_of (unhandled_anomalies a) (wrap 32 (pending_anomalies a + 1)) (watchdog a)
      (last_watchdog_episodes a) (storage_failure_events a) (consumed_log_write_failures a)
      (caught_dispatch_panics a) (consumed_dispatch_panics a) < n + 1).
    unfold total_anomalies, total_of in *. revert Ht.
    set (k := wrap 32 (Z.of_nat _)). assert (0 ≤ k) by (apply wrap_bound; lia).
    assert (0 ≤ wrap 32 (pending_anomalies a + 1) ≤ pending_anomalies a + 1) as Hw.
    { split; [apply wrap_bound; lia|apply Z.mod_le; lia]. }
    unfold sat_add, MAX_ANOMALIES_BEFORE_QUIESCENT in *. destruct (watchdog a); repeat case_match; lia.
  - change (0 ≤ wrap 32 (pending_anomalies a + 1)). apply wrap_bound. lia.
Qed.

Definition reports (es : list Event) : Z :=
  Z.of_nat (length (List.filter (λ e, match e with EvAnomaly => true | _ => false end) es)).

Lemma handle_few n e a : few n a → 1 ≤ n ≤ MAX_ANOMALIES_BEFORE_QUIESCENT →
  n + reports [e] ≤ MAX_ANOMALIES_BEFORE_QUIESCENT →
  ∃ a', handle 10 e a = (Ok tt, a') ∧ few (n + reports [e]) a'.
Proof.
  intros Ha Hn Hr. assert (e = EvAnomaly ∨ e ≠ EvAnomaly) as [->|He] by (destruct e; auto).
  - exists (report_anomaly a). split; [done|]. apply report_few; [lia|done].
  - destruct (handle_calm n Hn 10 (le_n _) e He a (conj Ha I)) as ([] & a' & E1 & [Hf _]).
    exists a'. split; [done|]. replace (reports [e]) with 0 by (by destruct e). by rewrite Z.add_0_r.
Qed.

Lemma run_few es n a : few n a → 1 ≤ n → n + reports es ≤ MAX_ANOMALIES_BEFORE_QUIESCENT →
  ∃ a', run 10 es a = (Ok tt, a') ∧ few (n + reports es) a'.
Proof.
  revert n a. induction es as [|e es IH]; intros n a Ha H1 Hn.
  { exists a. change (reports []) with 0. by rewrite Z.add_0_r. }
  assert (reports (e :: es) = reports [e] + reports es) as Hr by (unfold reports; destruct e; cbn; lia).
  assert (0 ≤ reports [e] ∧ 0 ≤ reports es) as [? ?] by (unfold reports; lia). rewrite Hr in Hn |- *.
  destruct (handle_few n e a Ha) as (a1 & E1 & Ha1); [lia|lia|].
  destruct (IH (n + reports [e]) a1 Ha1) as (a2 & E2 & Ha2); [lia|lia|].
  exists a2. cbn [run]. unfold mbind, comp_bind. rewrite E1. by rewrite Z.add_assoc.
Qed.

(** C3: the engine always returns while fewer than three anomalies are counted:
    a sequence of events (commands, timers, power broadcasts, IPC commands,
    and reports of anomalies between them) run from a state whose pending and
    unhandled anomalies, with the reports of the sequence, number at most two,
    reaches a state, the same with any fuel from ten, and the count is still
    within the limit. *)
Theorem run_returns es a : 0 ≤ pending_anomalies a → 0 ≤ total_anomalies a →
  total_anomalies a + reports es < MAX_ANOMALIES_BEFORE_QUIESCENT →
  ∃ a', (∀ fuel, (10 ≤ fuel)%nat → run fuel es a = (Ok tt, a')) ∧
    total_anomalies a' ≤ total_anomalies a + reports es.
Proof.
  intros Hp Ht Hr. destruct (run_few es (total_anomalies a + 1) a) as (a' & E1 & Hf & _);
    [split; lia|lia|lia|].
  exists a'. split; [|lia]. intros fuel Hfuel. by apply (run_fuel 10 fuel Hfuel).
Qed.

End Run.

(** ** The quiescent release never returns *)

Section Divergence.
Context {P : Type} `{TimerPlatform P} {W : Type} `{Desktop W}.
Abbreviation A := (App P W).
Implicit Types a : A.

(** C11: with three anomalies counted while the request is held and no handoff is
    pending, publication never returns: it enters the quiescent tier, whose
    restorative release publishes before it stops, and that publication enters
    the tier again. *)
Theorem quiescent_release_diverges fuel a :
  ownership (controller a) = OwnershipState.Owned → handoff a = None →
  MAX_ANOMALIES_BEFORE_QUIESCENT ≤ total_anomalies a →
  (handle fuel EvPublish a).1 = Err OutOfFuel.
Proof. intros Ho Hh Ht. by apply tier_cycle_starves. Qed.

End Divergence.

(** ** A desktop where every call succeeds, on mains power *)

Definition sample_desktop : Desktop Z := {|
  instant_now := λ t, (t, t + 1000000);
  win_set_timer := λ _ _ t, (true, t);
  win_kill_timer := λ _ t, (true, t);
  shell_modify := λ _ _ t, (true, t);
  shell_create := λ t, (true, t);
  shell_add := λ t, (true, t);
  system_power_status := λ t, (Ok (1, 0), t) |}.

#[local] Existing Instance single_client_kernel.
#[local] Existing Instance sample_desktop.

Definition sample_config : Config := mkConfig false false false false 5000 [60].

(** The application just started, with its icon. *)
Definition sample_app :=
  (app_new (with_diagnostics 156250) 0 sample_config 0) <| tray_icon := true |>.

Lemma run_returns_witness :
  ∃ a', (∀ fuel, (10 ≤ fuel)%nat → run fuel [EvManualStart; EvAnomaly; EvAnomaly; EvManualStop] sample_app
    = (Ok tt, a')) ∧ total_anomalies a' ≤ 2.
Proof. apply (run_returns [EvManualStart; EvAnomaly; EvAnomaly; EvManualStop] sample_app); vm_compute; congruence. Defined.

Lemma quiescent_release_diverges_witness :
  let a := (run 10 [EvManualStart; EvAnomaly; EvAnomaly; EvAnomaly] sample_app).2 in
  tray_status a = TrayStatus.Running ∧ ∀ fuel, (handle fuel EvPublish a).1 = Err OutOfFuel.
Proof.
  intros a. split; [vm_compute; reflexivity|]. intros fuel.
  apply (quiescent_release_diverges fuel a); vm_compute; congruence.
Defined.
