(* ===== verification/EngineSafety.v ===== *)
(** * EngineSafety: when the engine acquires the timer

    Every acquisition of the engine is guarded: a handler that ends with a held or
    uncertain request it did not start with, ends with the power policy satisfied
    and no pause active.  Through every handler, the controller's ownership keeps
    describing the kernel's request ([Ownership.tracks]). *)
From coqutil Require Import Datatypes.RecordSetters.
From S2P Require Import Prelude Text Core Policy Watchdog Diagnostics Platform Ownership Wire Pause Files Config Surface Engine EngineSteps EngineTermination.
Import TriangleBracketNotations.

Section Guard.
Context {P : Type} `{TimerPlatformLaws P} {W : Type} `{Desktop W}.
Abbreviation A := (App P W).
Abbreviation E := (comp A Diverged).
Implicit Types a : A.

Definition owned_by a : OwnershipState := ownership (controller a).

(** Acquiring is allowed. *)
Definition guard a : Prop := power_allows a = true ∧ pause_active (pause a) = false.

(** What the power decision reads. *)
Definition power_view a := (power_observation a, battery_lockout (config a)).

(** A part of a handler: power and policy unchanged, no pause begun, ownership
    still that of the kernel, and a request newly held only under the guard. *)
Definition step a a' : Prop :=
  power_view a' = power_view a ∧
  (pause_active (pause a) = false → pause_active (pause a') = false) ∧
  (tracks (controller a) → tracks (controller a')) ∧
  (owned_by a' ≠ OwnershipState.Released → owned_by a' = owned_by a ∨ guard a').

Lemma guard_step a a' : step a a' → guard a → guard a'.
Proof.
  intros (Hp & Hs & _ & _) [Hg Hn]. split; [|by auto]. rewrite <- Hg.
  unfold power_view in Hp. unfold power_allows, power_decision, power_of.
  assert (power_observation a' = power_observation a) as -> by congruence.
  by assert (battery_lockout (config a') = battery_lockout (config a)) as -> by congruence.
Qed.

Lemma step_refl a : step a a.
Proof. split_and!; auto. Qed.
Lemma step_trans a b c : step a b → step b c → step a c.
Proof.
  intros Hab Hbc. pose proof (guard_step b c Hbc) as Hg.
  destruct Hab as (P1 & N1 & T1 & O1), Hbc as (P2 & N2 & T2 & O2). split_and!; [congruence|auto|auto|].
  intros Hr. destruct (O2 Hr) as [E2|]; [|by auto]. rewrite E2 in Hr |- *. destruct (O1 Hr); auto.
Qed.

(** [m] is such a part, from the states of [pre]. *)
Definition moves {T} (pre : A → Prop) (m : E T) : Prop :=
  ∀ a x a', pre a → m a = (Ok x, a') → step a a'.
Definition anywhere a : Prop := True.
Definition stable (pre : A → Prop) : Prop := ∀ a a', step a a' → pre a → pre a'.

Lemma moves_bind {T U} pre (m : E T) (k : T → E U) : stable pre →
  moves pre m → (∀ x, moves pre (k x)) → moves pre (m ≫= k).
Proof.
  intros Hs Hm Hk a y a' Ha. unfold mbind, comp_bind. destruct (m a) as [[x|e] b] eqn:Eb; [|by intros [=]].
  intros Ey. pose proof (Hm a x b Ha Eb) as Hab. apply (step_trans a b); [done|].
  apply (Hk x b y); [by apply (Hs a)|done].
Qed.
Lemma moves_get {T} pre (k : A → E T) : (∀ a, pre a → moves (λ b, b = a) (k a)) → moves pre (get ≫= k).
Proof. intros Hk a y a' Ha Ey. by apply (Hk a Ha a y). Qed.
Lemma moves_pre {T} (pre pre' : A → Prop) (m : E T) : (∀ a, pre a → pre' a) → moves pre' m → moves pre m.
Proof. intros Hp Hm a x a' Ha. apply Hm. auto. Qed.
Lemma moves_ret {T} pre (x : T) : moves pre (mret x).
Proof. intros a y a' _ [= _ <-]. apply step_refl. Qed.
Lemma moves_when pre b m : moves pre m → moves pre (when b m).
Proof. intros Hm. destruct b; [done|apply moves_ret]. Qed.
Lemma moves_out_of_fuel {T} pre : moves pre (fail OutOfFuel : E T).
Proof. intros a x a' _ [=]. Qed.

(** Computations that touch none of it. *)
Definition guard_view a := (power_view a, pause a, Ownership.view (controller a)).
Lemma step_view a a' : guard_view a' = guard_view a → step a a'.
Proof.
  unfold guard_view. intros Hv. split_and!; [congruence| | |].
  - assert (pause a' = pause a) as -> by congruence. auto.
  - apply tracks_view. congruence.
  - intros _. left. unfold owned_by, Ownership.view in *. congruence.
Qed.
Lemma moves_neutral {T} pre (m : E T) : neutral guard_view m → moves pre m.
Proof.
  intros Hm a x a' _ Ea. destruct (Hm a) as (x1 & a1 & E1 & V1).
  assert (a' = a1) as -> by congruence. by apply step_view.
Qed.

Lemma anywhere_stable : stable anywhere.
Proof. done. Qed.
Lemma guard_stable : stable guard.
Proof. intros a a'. apply guard_step. Qed.

(** Controller calls that keep the view. *)
Lemma controller_neutral {T} (m : comp (TimerController P) TimerError T) :
  keeps Ownership.view m → neutral guard_view (on_controller m).
Proof.
  intros Hm a. unfold on_controller. specialize (Hm (controller a)). destruct (m (controller a)) as [r c].
  exists r, (a <| controller := c |>). split; [done|]. unfold guard_view.
  change (controller (a <| controller := c |>)) with c. cbn in Hm. by rewrite Hm.
Qed.
Lemma query_neutral : neutral guard_view (on_controller controller_query).
Proof. apply controller_neutral, still_controller_query. Qed.
Lemma observe_neutral b : neutral guard_view (on_controller (observe_current b)).
Proof. apply controller_neutral, still_observe. Qed.
Lemma clamp_neutral f : neutral guard_view (modify_controller (clamp_requested_interval_floor f) : E unit).
Proof.
  apply neutral_modify. intros a. unfold guard_view.
  assert (Ownership.view (clamp_requested_interval_floor f (controller a)) = Ownership.view (controller a)) as Hc
    by (unfold clamp_requested_interval_floor; by repeat case_match).
  transitivity (power_view a, pause a, Ownership.view (clamp_requested_interval_floor f (controller a)));
    [done|by rewrite Hc].
Qed.

(** Stopping ends released or keeps the ownership; starting needs the guard. *)
Lemma with_controller pre {T} (m : comp (TimerController P) TimerError T) (d : Action) :
  (∀ c, (m c).2 = act d c) →
  (∀ a, pre a → wp m (controller a) (λ _ c,
    ownership c ≠ OwnershipState.Released → ownership c = owned_by a ∨ guard a)) →
  moves pre (on_controller m).
Proof.
  intros Hd Hm a r a' Ha. unfold on_controller. pose proof (Hm a Ha) as Ho. unfold wp in Ho.
  pose proof (act_tracks d (controller a)) as Ht. rewrite <- Hd in Ht.
  destruct (m (controller a)) as [r1 c]. intros [= _ <-].
  split_and!; [done|done|exact Ht|]. intros Hr. destruct (Ho Hr) as [|Hg]; [by left|right; exact Hg].
Qed.
Lemma stop_moves pre : moves pre (on_controller stop).
Proof.
  apply (with_controller _ _ DoStop); [done|]. intros a _. eapply wp_mono; [apply stop_wp|].
  intros [[]|e] c Hs Hr; cbn in Hs.
  - destruct Hs as (_ & [= Ho] & _). congruence.
  - destruct Hs as [-> Ho]. by rewrite Ho in Hr.
  - left. apply Hs.
Qed.
Lemma start_moves : moves guard (on_controller start).
Proof.
  apply (with_controller _ _ DoStart); [done|]. intros a Ha. eapply wp_mono; [apply start_wp|].
  intros [v|e] c _ _; by right.
Qed.

End Guard.

(** Discharges [neutral guard_view]. *)
Ltac guard_tac :=
  unfold now, SetTimer, KillTimer, update_icon, record, record_with_outcome, set_tray_status, sync_timing_snapshot;
  repeat first
    [ progress intros
    | apply neutral_bind | apply neutral_when | apply neutral_get | apply neutral_ret
    | apply clamp_neutral | apply query_neutral | apply observe_neutral
    | apply neutral_modify; intros; reflexivity
    | apply neutral_world; intros; reflexivity
    | apply neutral_if | progress cbv zeta | case_match ].

Section Parts.
Context {P : Type} `{TimerPlatformLaws P} {W : Type} `{Desktop W}.
Abbreviation A := (App P W).
Abbreviation E := (comp A Diverged).

Lemma drain_guard : neutral guard_view (drain_anomaly_producers : E unit).
Proof. unfold drain_anomaly_producers, drain_pending, drain_watchdog, drain_storage, drain_panics. guard_tac. Qed.
Lemma publish_ownership_guard : neutral guard_view (publish_ownership : E unit).
Proof. unfold publish_ownership. guard_tac. Qed.
Lemma publish_surface_guard s : neutral guard_view (publish_surface s : E bool).
Proof. unfold publish_surface. guard_tac. Qed.
Lemma enter_tier_guard t : neutral guard_view (enter_tier t : E unit).
Proof. destruct t; cbn [enter_tier]; guard_tac. Qed.
Lemma cancel_duration_timer_guard : neutral guard_view (cancel_duration_timer : E unit).
Proof. unfold cancel_duration_timer. guard_tac. Qed.
Lemma begin_display_guard : neutral guard_view (begin_schedule_display_timer : E unit).
Proof. unfold begin_schedule_display_timer. guard_tac. Qed.
Lemma kill_display_guard : neutral guard_view (kill_schedule_display_timer : E unit).
Proof. unfold kill_schedule_display_timer. guard_tac. Qed.
Lemma clear_boundary_guard : neutral guard_view (modify_controller clear_release_boundary : E unit).
Proof. apply neutral_modify. reflexivity. Qed.
Lemma cancel_pause_moves pre : moves pre (modify (λ a, a <| pause ::= (λ c, (cancel c).2) |>) : E unit).
Proof.
  intros a x a' _ [= _ <-]. split_and!; [done| |by intros ?|by left].
  intros _. change (pause_active (cancel (pause a)).2 = false). unfold cancel. by destruct (scheduled (pause a)).
Qed.
End Parts.

#[export] Hint Resolve drain_guard publish_ownership_guard publish_surface_guard enter_tier_guard
  cancel_duration_timer_guard begin_display_guard kill_display_guard clear_boundary_guard : engine_guard.
#[export] Hint Resolve anywhere_stable guard_stable cancel_pause_moves stop_moves start_moves : engine_moves.

(** Descends into a computation that [moves]. *)
Ltac moves_leaf :=
  first [ solve [auto with nocore engine_moves]
        | apply moves_neutral; solve [auto with nocore engine_guard | guard_tac] ].
Ltac moves_tac :=
  repeat lazymatch goal with
    | |- moves _ (mret _) => apply moves_ret
    | |- moves _ (when _ _) => apply moves_when
    | |- moves _ (let _ := _ in _) => cbv zeta
    | |- moves _ (match ?x with _ => _ end) => destruct x
    | |- moves _ (_ ≫= _) => apply moves_bind; [auto with nocore engine_moves| |intros ?]
    | |- _ => moves_leaf
    end.

Section Cycle.
Context {P : Type} `{TimerPlatformLaws P} {W : Type} `{Desktop W}.
Abbreviation A := (App P W).
Abbreviation E := (comp A Diverged).

(** The ten functions of the cycle; only [acquire_timer] needs the guard. *)
Definition cycle_moves (f : nat) : Prop :=
  (∀ pre, moves pre (publish f : E _)) ∧ (∀ pre, moves pre (refresh_operating_tier f : E _)) ∧
  (∀ pre s, moves pre (guarded_release f s : E _)) ∧
  (∀ pre b s, moves pre (begin_handoff f b s : E _)) ∧
  (∀ pre, moves pre (arm_duration_timer f : E _)) ∧
  (∀ pre, moves pre (process_desired_intent f : E _)) ∧
  moves guard (acquire_timer f : E _) ∧
  (∀ pre r, moves pre (release_for_policy f r : E _)) ∧
  (∀ pre i, moves pre (queue_intent f i : E _)) ∧
  ∀ pre s, moves pre (show_ownership_status f s : E _).

Lemma moves_any {T} (m : E T) : moves anywhere m → ∀ pre, moves pre m.
Proof. intros Hm pre. by apply (moves_pre _ anywhere). Qed.

(** Processing an intent checks the guard before it acquires. *)
Lemma process_moves f : (∀ pre, moves pre (publish f : E _)) →
  (∀ pre s, moves pre (guarded_release f s : E _)) → (∀ pre, moves pre (arm_duration_timer f : E _)) →
  moves guard (acquire_timer f : E _) → (∀ pre r, moves pre (release_for_policy f r : E _)) →
  moves anywhere (process_desired_intent (S f) : E _).
Proof.
  intros Hp Hg Ha Hq Hr. rewrite process_desired_intent_S. apply moves_get. intros a _.
  case_bool_decide; [apply moves_any; moves_tac|]. destruct (intent_take _) as [intent q].
  set (pre (b : A) := power_allows a = true → pause_active (pause a) = false → guard b).
  apply (moves_pre _ pre); [by intros ? -> ? ?|].
  assert (stable pre) as Hs by (intros b b' Hb Hpre ? ?; apply (guard_step b); auto).
  apply moves_bind; [done|moves_leaf|intros _]. destruct intent as [[]|]; [|apply moves_any; moves_tac..].
  destruct (pause_active (pause a)) eqn:E1; [apply moves_any; moves_tac|].
  destruct (power_allows a) eqn:E2; [|apply Hr].
  apply (moves_pre _ guard); [|exact Hq]. intros b Hb. by apply Hb.
Qed.

Lemma cycle_guarded f : cycle_moves f.
Proof.
  induction f as [|f (H3 & H4 & H5 & H6 & H7 & H8 & H9 & H10 & H11 & H12)];
    [split_and!; intros; apply moves_out_of_fuel|].
  split_and!; intros; lazymatch goal with |- moves guard _ => idtac | |- _ => apply moves_any end.
  - rewrite publish_S. moves_tac.
  - rewrite refresh_operating_tier_S. moves_tac.
  - rewrite guarded_release_S. moves_tac.
  - rewrite begin_handoff_S. moves_tac.
  - rewrite arm_duration_timer_S. moves_tac.
  - by apply process_moves.
  - rewrite acquire_timer_S. moves_tac.
  - rewrite release_for_policy_S. moves_tac.
  - rewrite queue_intent_S. moves_tac.
  - rewrite show_ownership_status_S. moves_tac.
Qed.
End Cycle.

Section Leaves.
Context {P : Type} `{TimerPlatformLaws P} {W : Type} `{Desktop W}.
Abbreviation A := (App P W).
Abbreviation E := (comp A Diverged).
Context (f : nat).
Implicit Types pre : A → Prop.

Lemma publish_moves pre : moves pre (publish f : E _).
Proof. apply cycle_guarded. Qed.
Lemma guarded_release_moves pre s : moves pre (guarded_release f s : E _).
Proof. apply cycle_guarded. Qed.
Lemma arm_moves pre : moves pre (arm_duration_timer f : E _).
Proof. apply cycle_guarded. Qed.
Lemma process_intent_moves pre : moves pre (process_desired_intent f : E _).
Proof. apply cycle_guarded. Qed.
Lemma release_for_policy_moves pre r : moves pre (release_for_policy f r : E _).
Proof. apply cycle_guarded. Qed.
Lemma queue_moves pre i : moves pre (queue_intent f i : E _).
Proof. apply cycle_guarded. Qed.
Lemma show_moves pre s : moves pre (show_ownership_status f s : E _).
Proof. apply cycle_guarded. Qed.
End Leaves.

#[export] Hint Resolve publish_moves guarded_release_moves arm_moves process_intent_moves
  release_for_policy_moves queue_moves show_moves : engine_moves.

Section Handlers.
Context {P : Type} `{TimerPlatformLaws P} {W : Type} `{Desktop W}.
Abbreviation A := (App P W).
Abbreviation E := (comp A Diverged).
Implicit Types a : A.

(** A whole handler, which may observe the power and begin a pause first. *)
Definition guarded {T} (m : E T) : Prop := ∀ a x a', m a = (Ok x, a') →
  (tracks (controller a) → tracks (controller a')) ∧
  (owned_by a' ≠ OwnershipState.Released → owned_by a' = owned_by a ∨ guard a').

Definition controller_view a := Ownership.view (controller a).

Lemma guarded_moves {T} (m : E T) : moves anywhere m → guarded m.
Proof. intros Hm a x a' Ea. destruct (Hm a x a' I Ea) as (_ & _ & Ht & Ho). auto. Qed.
Lemma guarded_setup {T U} (m : E T) (k : T → E U) :
  neutral controller_view m → (∀ x, guarded (k x)) → guarded (m ≫= k).
Proof.
  intros Hm Hk a y a'. unfold mbind, comp_bind. destruct (Hm a) as (x & b & Eb & Vb). rewrite Eb.
  intros Ey. destruct (Hk x b y a' Ey) as [Ht Ho]. unfold controller_view in Vb. split.
  - intros Ha. apply Ht. by apply (tracks_view (controller a)).
  - replace (owned_by a) with (owned_by b); [done|]. unfold owned_by, Ownership.view in *. congruence.
Qed.
Lemma guarded_then {T U} (m : E T) (k : T → E U) :
  guarded m → (∀ x, moves anywhere (k x)) → guarded (m ≫= k).
Proof.
  intros Hm Hk a y a'. unfold mbind, comp_bind. destruct (m a) as [[x|e] b] eqn:Eb; [|by intros [=]].
  intros Ey. destruct (Hm a x b Eb) as [Ht Ho]. destruct (Hk x b y a' I Ey) as (Hp & Hn & Ht2 & Ho2).
  split; [auto|]. intros Hr. destruct (Ho2 Hr) as [E2|]; [|by right]. rewrite E2 in Hr |- *.
  destruct (Ho Hr); [by left|]. right. apply (guard_step b); [|done]. by split_and!.
Qed.
End Handlers.

(** Discharges [neutral controller_view]. *)
Ltac setup_tac :=
  unfold now, SetTimer, KillTimer, record, record_with_outcome, set_tray_status, refresh_power,
    cancel_duration_timer, kill_schedule_display_timer;
  repeat first
    [ progress intros
    | apply neutral_bind | apply neutral_when | apply neutral_get | apply neutral_ret
    | apply neutral_modify; intros; reflexivity
    | apply neutral_world; intros; reflexivity
    | progress cbv zeta | case_match ].

(** A handler: set up, then move. *)
Ltac guarded_tac :=
  repeat lazymatch goal with
    | |- guarded (let _ := _ in _) => cbv zeta
    | |- guarded (match ?x with _ => _ end) => destruct x
    | |- guarded (_ ≫= _) =>
        first [ apply guarded_moves; solve [moves_tac]
              | apply guarded_setup; [solve [setup_tac]|intros ?]
              | apply guarded_then; [|intros ?; solve [moves_tac]] ]
    | |- _ => first [ solve [auto with nocore engine_guarded] | apply guarded_moves; solve [moves_tac] ]
    end.
Create HintDb engine_guarded.

Section Events.
Context {P : Type} `{TimerPlatformLaws P} {W : Type} `{Desktop W}.
Abbreviation A := (App P W).
Abbreviation E := (comp A Diverged).
Implicit Types a : A.
Context (f : nat).

Lemma apply_policy_moves pre : moves pre (apply_policy f : E _).
Proof. revert pre. apply moves_any. unfold apply_policy. moves_tac. Qed.
#[local] Hint Resolve apply_policy_moves : engine_moves.
Lemma refresh_timing_guard : neutral guard_view (refresh_timing_observation : E _).
Proof. unfold refresh_timing_observation. guard_tac. Qed.
#[local] Hint Resolve refresh_timing_guard : engine_guard.
Lemma reconcile_moves pre : moves pre (reconcile f : E _).
Proof. revert pre. apply moves_any. unfold reconcile. moves_tac. Qed.
Lemma power_reconciliation_moves pre : moves pre (apply_power_reconciliation f : E _).
Proof. revert pre. apply moves_any. unfold apply_power_reconciliation. moves_tac. Qed.
#[local] Hint Resolve reconcile_moves power_reconciliation_moves : engine_moves.
Lemma broadcast_event_moves pre : moves pre (handle_power_broadcast_event f : E _).
Proof.
  revert pre. apply moves_any. unfold handle_power_broadcast_event, release_for_power_change, start_debounce, clear_debounce.
  moves_tac.
Qed.
#[local] Hint Resolve broadcast_event_moves : engine_moves.
Lemma finish_handoff_guard : neutral guard_view (finish_handoff_timer : E _).
Proof. unfold finish_handoff_timer. guard_tac. Qed.
#[local] Hint Resolve finish_handoff_guard : engine_guard.

Lemma schedule_guarded act d : guarded (schedule_duration_action f act d : E _).
Proof. unfold schedule_duration_action. guarded_tac. Qed.
Lemma refresh_power_for_duration_view : neutral controller_view (refresh_power_for_duration : E _).
Proof. unfold refresh_power_for_duration. setup_tac. Qed.
Lemma cancel_guarded : guarded (cancel_scheduled_action f : E _).
Proof. unfold cancel_scheduled_action, refresh_power_for_duration. guarded_tac. Qed.
Lemma execute_guarded s : guarded (execute_scheduled_action f s : E _).
Proof. unfold execute_scheduled_action, refresh_power_for_duration. guarded_tac. Qed.
#[local] Hint Resolve schedule_guarded cancel_guarded execute_guarded : engine_guarded.

(** Cancelling without a schedule only records. *)
Lemma cancel_inactive a : active (pause a) = false →
  cancel_scheduled_action f a = record "duration.cancel"%string a.
Proof. intros Ha. unfold cancel_scheduled_action. change ((get ≫= ?k) a) with (k a a). cbv beta. by rewrite Ha. Qed.

Lemma ipc_schedule_guarded payload : guarded (handle_ipc_schedule f payload : E _).
Proof.
  unfold handle_ipc_schedule. destruct payload as [|t [|b0 [|b1 [|b2 [|b3 []]]]]]; try solve [guarded_tac].
  cbv zeta. destruct (if t =? _ then _ else _); [|guarded_tac]. destruct (preset_new _); [|guarded_tac].
  apply guarded_then; [apply schedule_guarded|]. intros _. apply moves_get. intros a _.
  destruct (active (pause a)) eqn:Ea; cbn [negb].
  - apply moves_any. moves_tac.
  - intros b x b' ->. unfold mbind at 1, comp_bind at 1. rewrite cancel_inactive by done.
    change (record ?n a) with (@Ok Diverged unit tt, (record n a).2). cbv beta iota. intros Ex.
    apply (step_trans a (record (P := P) "duration.cancel"%string a).2); [by apply step_view|].
    assert (moves anywhere (_ ← record_with_outcome "ipc.schedule.arm_failed"%string DiagnosticOutcome.Failed;
      mret (IpcResponse.Error IpcError.Unsupported) : E _)) as Hm by moves_tac.
    exact (Hm _ _ _ I Ex).
Qed.

Lemma ipc_guarded verb payload : guarded (handle_ipc_command f verb payload : E _).
Proof.
  unfold handle_ipc_command, handle_ipc_acquire, handle_ipc_cancel_schedule, manual_start, manual_stop.
  destruct verb; first [apply ipc_schedule_guarded | guarded_tac].
Qed.
#[local] Hint Resolve ipc_guarded : engine_guarded.

Lemma handle_guarded e : guarded (handle f e : E _).
Proof.
  destruct e; cbn [handle]; [unfold manual_start|unfold manual_stop| | |unfold handle_handoff_timer, end_handoff
    |unfold service_surface_recovery, advance_surface_recovery, attempt_surface_restore
    |unfold handle_schedule_display_timer
    |unfold handle_power_debounce_timer, release_for_power_change, start_debounce, clear_debounce
    |unfold handle_duration_timer|unfold handle_power_broadcast, release_for_power_change
    |unfold schedule_preset_action| | | ]; guarded_tac.
Qed.
End Events.

Section Safety.
Context {P : Type} `{TimerPlatformLaws P} {W : Type} `{Desktop W}.
Abbreviation A := (App P W).
Implicit Types a : A.

(** C4: acquisitions are guarded: when a handler ends with the request owned or
    uncertain and it was not so before, the power policy allows it in the final
    state and no pause is active. *)
Theorem acquisition_guarded f e a a' : handle f e a = (Ok tt, a') →
  ownership (controller a') ≠ OwnershipState.Released →
  ownership (controller a') ≠ ownership (controller a) →
  power_allows a' = true ∧ pause_active (pause a') = false.
Proof. intros Ea Hr Hn. destruct (handle_guarded f e a tt a' Ea) as [_ Ho]. by destruct (Ho Hr). Qed.

Lemma handle_tracks f e a a' : handle f e a = (Ok tt, a') → tracks (controller a) → tracks (controller a').
Proof. intros Ea. by destruct (handle_guarded f e a tt a' Ea). Qed.

(** Through every sequence of events that returns, from a freshly built
    application over a platform that holds no request, the controller's
    ownership describes the kernel: released means no request is held, owned
    means one is. *)
Theorem engine_tracks_kernel f es (p : P) (w : W) loaded n a' : held p = false →
  run f es (app_new p w loaded n) = (Ok tt, a') →
  match ownership (controller a') with
  | OwnershipState.Released => held (platform (controller a')) = false
  | OwnershipState.Owned => held (platform (controller a')) = true
  | OwnershipState.Uncertain => verification (controller a') = Verification.Unverified
  end.
Proof.
  intros Hp Er. assert (tracks (controller (app_new p w loaded n))) as Ht.
  { unfold app_new. destruct (system_power_status w) as [? w1], (instant_now w1). by split. }
  revert Er Ht. generalize (app_new p w loaded n). induction es as [|e es IH]; intros a.
  - intros [= <-] Ht. unfold tracks in Ht. destruct (ownership _); [apply Ht..|exact Ht].
  - cbn [run]. unfold mbind, comp_bind. destruct (handle f e a) as [[[]|?] b] eqn:Eb; [|by intros [=]].
    intros Er Ht. apply (IH b Er). by apply (handle_tracks f e a).
Qed.

End Safety.

#[local] Existing Instance single_client_kernel.
#[local] Existing Instance sample_desktop.

Lemma acquisition_guarded_witness :
  let a := sample_app in let a' := (handle 10 EvManualStart a).2 in
  ownership (controller a') = OwnershipState.Owned ∧ power_allows a' = true ∧ pause_active (pause a') = false.
Proof.
  intros a a'. split; [vm_compute; reflexivity|].
  apply (acquisition_guarded 10 EvManualStart a a'); vm_compute; congruence.
Defined.

Lemma engine_tracks_kernel_witness :
  let a' := (run 10 [EvManualStart; EvManualStop; EvManualStart]
    (app_new (with_diagnostics 156250) 0 sample_config 0)).2 in
  held (platform (controller a')) = true.
Proof.
  intros a'. unshelve epose proof (engine_tracks_kernel 10 [EvManualStart; EvManualStop; EvManualStart]
    (with_diagnostics 156250) 0 sample_config 0 a' _ _) as Ht;
    [vm_compute; reflexivity..|].
  assert (ownership (controller a') = OwnershipState.Owned) as Ho by (vm_compute; reflexivity).
  rewrite Ho in Ht. exact Ht.
Defined.
