(* ===== verification/EngineIpc.v ===== *)
(** * EngineIpc: what the engine's IPC commands can change

    The interval of an acquire command goes to the configuration; no handler reads
    it there.  Two computations that agree on everything else take the same steps
    ([blind]), so the command acquires exactly as one without an interval does. *)
From coqutil Require Import Datatypes.RecordSetters.
From S2P Require Import Prelude Text Core Policy Watchdog Diagnostics Platform Ownership Wire Pause Files Config Surface Engine EngineTermination.
Import TriangleBracketNotations.

Section Blind.
Context {P : Type} `{TimerPlatform P} {W : Type} `{Desktop W}.
Abbreviation A := (App P W).
Abbreviation E := (comp A Diverged).
Implicit Types a : A.

Definition reinterval (v : Z) a : A := a <| config ::= (λ c,
  mkConfig (automatic c) (startup_enabled c) (auto_resume_on_ac c) (battery_lockout c) v (schedule_presets_seconds c)) |>.

(** [m] does not depend on the configured interval, nor change it. *)
Definition blind {T} (m : E T) : Prop := ∀ v a,
  m (reinterval v a) = ((m a).1, reinterval v (m a).2).

Lemma blind_ret {T} (x : T) : blind (mret x).
Proof. done. Qed.
Lemma blind_fail {T} e : blind (fail e : E T).
Proof. done. Qed.
Lemma blind_bind {T U} (m : E T) (k : T → E U) : blind m → (∀ x, blind (k x)) → blind (m ≫= k).
Proof.
  intros Hm Hk v a. unfold mbind, comp_bind. rewrite Hm. destruct (m a) as [[x|e] b]; cbn [fst snd]; [|done].
  apply Hk.
Qed.
Lemma blind_get {T} (k : A → E T) : (∀ v a, k (reinterval v a) = k a) → (∀ a, blind (k a)) → blind (get ≫= k).
Proof.
  intros Hk Hb v a. change ((get ≫= k) (reinterval v a)) with (k (reinterval v a) (reinterval v a)).
  rewrite Hk. apply Hb.
Qed.
Lemma blind_when b m : blind m → blind (when b m).
Proof. intros Hm. destruct b; [done|apply blind_ret]. Qed.
Lemma blind_modify (g : A → A) : (∀ v a, g (reinterval v a) = reinterval v (g a)) → blind (modify g).
Proof. intros Hg v a. unfold modify. cbn [fst snd]. by rewrite Hg. Qed.
Lemma blind_world {T} (f : W → T * W) : blind (on_world f).
Proof. intros v a. unfold on_world. change (world (reinterval v a)) with (world a). by destruct (f (world a)). Qed.
Lemma blind_controller {T} (m : comp (TimerController P) TimerError T) : blind (on_controller m).
Proof.
  intros v a. unfold on_controller. change (controller (reinterval v a)) with (controller a).
  by destruct (m (controller a)).
Qed.
End Blind.

Create HintDb engine_blind.
Ltac blind_tac :=
  unfold now, SetTimer, KillTimer, update_icon, record, record_with_outcome, set_tray_status, sync_timing_snapshot,
    modify_controller;
  repeat lazymatch goal with
    | |- blind (mret _) => apply blind_ret
    | |- blind (fail _) => apply blind_fail
    | |- blind (when _ _) => apply blind_when
    | |- blind (modify _) => apply blind_modify; intros; reflexivity
    | |- blind (on_world _) => apply blind_world
    | |- blind (on_controller _) => apply blind_controller
    | |- blind (get ≫= _) => apply blind_get; [intros; reflexivity|intros ?]
    | |- blind (_ ≫= _) => apply blind_bind; [|intros ?]
    | |- blind (let _ := _ in _) => cbv zeta
    | |- blind (match ?x with _ => _ end) => destruct x
    | |- _ => solve [auto with nocore engine_blind]
    end.

Section Cycle.
Context {P : Type} `{TimerPlatform P} {W : Type} `{Desktop W}.
Abbreviation A := (App P W).
Abbreviation E := (comp A Diverged).
Implicit Types a : A.

Lemma drain_blind : blind (drain_anomaly_producers : E _).
Proof. unfold drain_anomaly_producers, drain_pending, drain_watchdog, drain_storage, drain_panics. blind_tac. Qed.
Lemma publish_ownership_blind : blind (publish_ownership : E _).
Proof. unfold publish_ownership. blind_tac. Qed.
Lemma publish_surface_blind s : blind (publish_surface s : E _).
Proof. unfold publish_surface. blind_tac. Qed.
Lemma enter_tier_blind t : blind (enter_tier t : E _).
Proof. unfold enter_tier. blind_tac. Qed.
Lemma cancel_duration_timer_blind : blind (cancel_duration_timer : E _).
Proof. unfold cancel_duration_timer. blind_tac. Qed.
Lemma kill_display_blind : blind (kill_schedule_display_timer : E _).
Proof. unfold kill_schedule_display_timer. blind_tac. Qed.
#[local] Hint Resolve drain_blind publish_ownership_blind publish_surface_blind enter_tier_blind
  cancel_duration_timer_blind kill_display_blind : engine_blind.

Definition cycle_blind (f : nat) : Prop :=
  blind (publish f : E _) ∧ blind (refresh_operating_tier f : E _) ∧
  (∀ s, blind (guarded_release f s : E _)) ∧ (∀ b s, blind (begin_handoff f b s : E _)) ∧
  blind (arm_duration_timer f : E _) ∧ blind (process_desired_intent f : E _) ∧
  blind (acquire_timer f : E _) ∧ (∀ r, blind (release_for_policy f r : E _)) ∧
  (∀ i, blind (queue_intent f i : E _)) ∧ ∀ s, blind (show_ownership_status f s : E _).

Lemma cycle_is_blind f : cycle_blind f.
Proof.
  induction f as [|f (H1 & H2 & H3 & H4 & H5 & H6 & H7 & H8 & H9 & H10)]; [split_and!; intros; apply blind_fail|].
  split_and!; intros.
  - rewrite publish_S. blind_tac.
  - rewrite refresh_operating_tier_S. blind_tac.
  - rewrite guarded_release_S. blind_tac.
  - rewrite begin_handoff_S. blind_tac.
  - rewrite arm_duration_timer_S. blind_tac.
  - rewrite process_desired_intent_S. blind_tac.
  - rewrite acquire_timer_S. blind_tac.
  - rewrite release_for_policy_S. blind_tac.
  - rewrite queue_intent_S. blind_tac.
  - rewrite show_ownership_status_S. blind_tac.
Qed.

Lemma queue_blind f i : blind (queue_intent f i : E _).
Proof. apply cycle_is_blind. Qed.
#[local] Hint Resolve queue_blind : engine_blind.

(** What an acquire command does once its payload is accepted. *)
Lemma acquire_blind f : blind (handle_ipc_acquire f [] : E _).
Proof. unfold handle_ipc_acquire, manual_start. rewrite bool_decide_eq_true_2 by done. blind_tac. Qed.

(** The interval of an IPC acquire command has no effect on the acquisition:
    a command with an accepted interval answers and acts as one without, and the
    only difference it makes is the configured interval. *)
Theorem ipc_interval_ignored f payload v a :
  length payload = 8%nat → Wire.validate_interval_hns (le_value payload) = Ok v →
  handle_ipc_acquire f payload a =
    ((handle_ipc_acquire f [] a).1, reinterval v (handle_ipc_acquire f [] a).2).
Proof.
  intros Hl Hv. rewrite <- acquire_blind. unfold handle_ipc_acquire.
  rewrite bool_decide_eq_false_2 by (by intros ->). rewrite Hl, Hv. by rewrite bool_decide_eq_true_2.
Qed.
End Cycle.

#[local] Existing Instance single_client_kernel.
#[local] Existing Instance sample_desktop.

Lemma ipc_interval_ignored_witness :
  let a := (handle_ipc_acquire 10 (le_bytes 8 156250) sample_app).2 in
  request_interval (config a) = 156250 ∧ requested_interval (controller a) = 5000 ∧
  selected_interval (controller a) = Some 5000.
Proof.
  intros a. assert (a = reinterval 156250 (handle_ipc_acquire 10 [] sample_app).2) as ->.
  { unfold a. rewrite (ipc_interval_ignored 10 (le_bytes 8 156250) 156250 sample_app); reflexivity. }
  vm_compute. auto.
Defined.
