(* ===== verification/IpcServer.v ===== *)
(** * IpcServer: the named pipe server and its command queue

    [tray/ipc.rs], [tray/ipc_queue.rs] and the queue's users in
    [tray/controller.rs].  Three kinds of threads share the server's state: the
    accept loop ([server_loop]), at most eight connection workers
    ([handle_pipe_connection]) and the UI thread, which alone touches the
    application.  Each has a program counter, one step is the code between two
    accesses to shared state, and a schedule is the list of steps taken.  What the
    operating system answers is an input of the step. *)
From coqutil Require Import Datatypes.RecordSetters.
From S2P Require Import Prelude Text Core Wire.
Import TriangleBracketNotations.

#[export] Instance command_verb_eq_dec : EqDecision CommandVerb.
Proof. solve_decision. Defined.

(** ** Constants *)

Definition MAX_CONCURRENT_WORKERS : nat := 8.
Definition MAX_PENDING_IPC_COMMANDS : nat := 64.
Definition ERROR_INVALID_DATA : Z := 13.
Definition ERROR_PIPE_CONNECTED : Z := 535.
Definition ERROR_PIPE_BUSY : Z := 231.
Definition ERROR_IO_PENDING : Z := 997.
Definition WAIT_OBJECT_0 : Z := 0.
Definition WAIT_TIMEOUT : Z := 0x102.

(** ** The status snapshot *)

Record IpcStatusInner := mkStatus {
  status_label : str;
  ownership_label : str;
  effective_hns : option Z;
  requested_hns : option Z;
}.
Definition status_default : IpcStatusInner := mkStatus (lit "starting") (lit "released") None None.

Definition unknown_or (o : option Z) : str := match o with Some v => show_u v | None => lit "unknown" end.
Definition status_text (s : IpcStatusInner) : str :=
  lit "status=" ++ status_label s ++ lit " ownership=" ++ ownership_label s ++
  lit " effective_hns=" ++ unknown_or (effective_hns s) ++
  lit " requested_hns=" ++ unknown_or (requested_hns s).
Definition status_payload (s : IpcStatusInner) : bytes := utf8_encode (status_text s).

(** The payload is decoded again by [String::from_utf8_lossy]; the encoding of a
    string is valid, so nothing is replaced. *)
Definition handle_query_status (s : IpcStatusInner) : IpcResponse :=
  IpcResponse.Status (default [] (utf8_decode (status_payload s))).

(** ** Validation on the pipe side *)

Definition handle_request_acquire (p : bytes) : IpcResponse :=
  if bool_decide (p = []) then IpcResponse.Acquired 0
  else if negb (length p =? 8)%nat then IpcResponse.Error IpcError.PayloadTruncated
  else match validate_interval_hns (le_value p) with
       | Ok hns => IpcResponse.Acquired hns
       | Err e => IpcResponse.Error e
       end.

Definition handle_schedule_action (p : bytes) : IpcResponse :=
  if negb (length p =? 5)%nat then IpcResponse.Error IpcError.PayloadTruncated
  else IpcResponse.Scheduled (le_value (slice p 1 5)).

(** ** The pipe calls, over what the operating system answers *)

(** [CreateEventW] gave an event, [ConnectNamedPipe]'s result, the last error and
    the result of the wait, if there is one. *)
Record ConnectIo := mkConnect { connect_event : bool; connected : bool; connect_error : Z; connect_wait : Z }.

Definition wait_for_client (io : ConnectIo) : bool :=
  if negb (connect_event io) then false
  else if connected io || (connect_error io =? ERROR_PIPE_CONNECTED) then true
  else if (connect_error io =? ERROR_IO_PENDING) || (connect_error io =? ERROR_PIPE_BUSY)
  then connect_wait io =? WAIT_OBJECT_0
  else false.

(** [read_data] holds the bytes the buffer has when the read ends, as many as the
    call reports; [read_completed] is [GetOverlappedResult] of a pending read. *)
Record ReadIo := mkRead {
  read_event : bool; read_result : bool; read_error : Z; read_wait : Z; read_completed : bool;
  read_data : bytes;
}.

Definition ERROR_MORE_DATA : Z := 234.
Definition ERROR_BROKEN_PIPE : Z := 109.

Definition read_frame (io : ReadIo) : result IpcError IpcFrame :=
  if negb (read_event io) then Err IpcError.PayloadTruncated
  else if read_result io then deserialize (read_data io)
  else if negb (read_error io =? ERROR_IO_PENDING) then
    Err (if read_error io =? ERROR_MORE_DATA then IpcError.PayloadTruncated
         else if read_error io =? ERROR_BROKEN_PIPE then IpcError.PayloadTruncated
         else IpcError.TransportIo (as_i32 (read_error io)))
  else if read_wait io =? WAIT_TIMEOUT then Err IpcError.PayloadTruncated
  else if negb (read_wait io =? WAIT_OBJECT_0) then Err IpcError.PayloadTruncated
  else if negb (read_completed io) then Err IpcError.PayloadTruncated
  else deserialize (read_data io).

Record WriteIo := mkWrite { write_event : bool; write_result : bool; write_error : Z; write_wait : Z }.

(** Nothing was handed to [WriteFile], the write failed, it was cancelled at its
    deadline, or it went through and the buffers were flushed. *)
Inductive WriteOutcome := NotWritten | WriteFailed | WriteCancelled | Flushed.

Definition write_pipe (io : WriteIo) : WriteOutcome :=
  if negb (write_event io) then NotWritten
  else if write_result io then Flushed
  else if negb (write_error io =? ERROR_IO_PENDING) then WriteFailed
  else if negb (write_wait io =? WAIT_OBJECT_0) then WriteCancelled
  else Flushed.

(** The pause of the accept loop after its [n]th failure in a row. *)
Definition backoff_ms (n : Z) : Z := Z.min (Z.shiftl 100 (Z.min (n - 1) 5)) 2000.

(** ** The threads *)

(** A worker is named by the number of its connection.  The responder of a request
    is the sender of its worker's one-shot channel. *)
Record IpcCommandRequest := mkRequest { req_id : nat; req_verb : CommandVerb; req_payload : bytes }.

(** Where a worker stands, with the locals it still needs: [handle_pipe_connection]
    up to [Dispatch], [forward_to_ui_thread] from [Forward] to [Await]. *)
Inductive Pc :=
| WaitClient
| ClientPid
| RateLimit (client_pid : Z)
| Read
| Dispatch (frame : IpcFrame)
| Forward (v : CommandVerb) (p : bytes)
| Push (v : CommandVerb) (p : bytes)
| Post (v : CommandVerb) (p : bytes)
| PopBack (v : CommandVerb) (p : bytes)
| Await
| Respond (r : IpcResponse)
| Disconnect
| Close.

Inductive Accept := AcceptTop | AcceptCreated | AcceptPrune | AcceptSleep (ms : Z) | AcceptDone.

(** The UI thread, seen from the queue: [Executing] is inside
    [drain_ipc_command_queue], [Destroying] inside the handler of [WM_DESTROY]. *)
Inductive Ui :=
| Idle
| Draining
| Executing (r : IpcCommandRequest)
| Replying (id : nat) (response : IpcResponse)
| Destroying
| Refusing (id : nat)
| Destroyed.

(** What an observer of all threads would have written down. *)
Inductive Event :=
| Allowed (id : nat) (client_pid now : Z)
| Received (id : nat) (frame : IpcFrame)
| Executed (id : nat) (v : CommandVerb) (p : bytes) (response : IpcResponse)
| Responded (id : nat) (response : bytes) (o : WriteOutcome).

(** What the queue's consumer does with the application. [None]: the handler does
    not come back. *)
Class UiThread (U : Type) := {
  ipc_handle : CommandVerb → bytes → U → option (IpcResponse * U);
  (** [app.record("ipc.command.reply_dropped", ..)] *)
  ipc_reply_dropped : U → U;
  (** What [refresh_ipc_status] reads from the application. *)
  ipc_status : U → IpcStatusInner;
}.

Section Server.
Context {U : Type} `{UiThread U}.

Record Server := mkServer {
  running : bool;
  accept : Accept;
  consecutive_failures : Z;
  total_failures : Z;
  connection_count : Z;
  rejections : Z;
  over_release : Z;
  session_token : SessionToken;
  limiter : PidRateLimiter;
  limiter_poisoned : bool;
  status : IpcStatusInner;
  teardown : bool;
  available : nat;
  next_id : nat;
  workers : gmap nat Pc;
  queue : list IpcCommandRequest;
  replies : gmap nat IpcResponse;
  posted : nat;
  ui : Ui;
  application : U;
  trace : list Event;
}.
Implicit Types s : Server.

(** The state when the accept loop starts. *)
Definition server_start (token : SessionToken) (u : U) : Server :=
  mkServer true AcceptTop 0 0 0 0 0 token limiter_new false status_default false
    MAX_CONCURRENT_WORKERS 0 ∅ [] ∅ 0 Idle u [].

(** *** The queue and the pool *)

Definition push (r : IpcCommandRequest) s : bool * Server :=
  if (MAX_PENDING_IPC_COMMANDS <=? length (queue s))%nat then (false, s)
  else (true, s <| queue ::= (λ q, q ++ [r]) |>).

Definition pop s : option IpcCommandRequest * Server :=
  match queue s with
  | [] => (None, s)
  | r :: q => (Some r, s <| queue := q |>)
  end.

Definition try_acquire s : option Server :=
  match available s with
  | O => None
  | S n => Some (s <| available := n |>)
  end.

(** [PoolPermit::drop] *)
Definition drop_permit s : Server :=
  if (available s <? MAX_CONCURRENT_WORKERS)%nat
  then s <| available ::= S |>
  else s <| available := MAX_CONCURRENT_WORKERS |> <| over_release ::= (λ n, wrap 64 (n + 1)) |>.

(** *** The accept loop *)

Inductive AcceptIo :=
| Created (r : result Z unit)
| Spawned (ok : bool)
| PrunedAt (now : Z)
| Woken.

(** [dispatch_connection]: the closure of a thread that did not start drops its
    permit. *)
Definition dispatch_connection (spawned : bool) s : Server :=
  match try_acquire s with
  | None => s <| rejections ::= (λ n, wrap 64 (n + 1)) |>
  | Some s =>
      if spawned
      then s <| workers ::= <[next_id s := WaitClient]> |> <| next_id ::= S |>
      else drop_permit s
  end.

Definition accept_step (io : AcceptIo) s : option Server :=
  match accept s, io with
  | AcceptTop, Created r =>
      if negb (running s) then Some (s <| accept := AcceptDone |>)
      else match r with
           | Ok _ => Some (s <| consecutive_failures := 0 |> <| accept := AcceptCreated |>)
           | Err _ =>
               let n := sat_add 32 (consecutive_failures s) 1 in
               Some (s <| consecutive_failures := n |> <| total_failures ::= (λ t, sat_add 64 t 1) |>
                       <| accept := AcceptSleep (backoff_ms n) |>)
           end
  | AcceptCreated, Spawned ok =>
      if negb (running s) then Some (s <| accept := AcceptDone |>)
      else Some ((dispatch_connection ok s) <| accept := AcceptPrune |>)
  | AcceptPrune, PrunedAt now =>
      Some ((if connection_count s mod 8 =? 0 then s <| limiter ::= (λ l, prune_idle_callers l now) |> else s)
              <| connection_count ::= (λ n, wrap 64 (n + 1)) |> <| accept := AcceptTop |>)
  | AcceptSleep _, Woken => Some (s <| accept := AcceptTop |>)
  | _, _ => None
  end.

(** *** A worker *)

Inductive WorkerIo :=
| IoNone
| IoConnect (io : ConnectIo)
| IoPid (pid : option Z)
| IoClock (now : Z)
| IoRead (io : ReadIo)
| IoPost (ok : bool)
| IoTimeout
| IoWrite (io : WriteIo).

(** [dispatch_command], up to the call of [forward_to_ui_thread]. *)
Definition dispatch_command (st : IpcStatusInner) (f : IpcFrame) : Pc :=
  match verb f with
  | CommandVerb.QueryStatus => Respond (handle_query_status st)
  | CommandVerb.RequestAcquire =>
      match handle_request_acquire (payload f) with
      | IpcResponse.Error e => Respond (IpcResponse.Error e)
      | _ => Forward (verb f) (payload f)
      end
  | CommandVerb.ScheduleAction =>
      match handle_schedule_action (payload f) with
      | IpcResponse.Error e => Respond (IpcResponse.Error e)
      | _ => Forward (verb f) (payload f)
      end
  | CommandVerb.RequestRelease | CommandVerb.CancelSchedule => Forward (verb f) (payload f)
  end.

(** The request of worker [id] still has its sender: it is queued, or in the hands
    of the UI thread. *)
Definition sender_alive (id : nat) s : bool :=
  existsb (λ r, (req_id r =? id)%nat) (queue s) ||
  match ui s with
  | Executing r => (req_id r =? id)%nat
  | Replying i _ | Refusing i => (i =? id)%nat
  | _ => false
  end.

(** The worker has not left [forward_to_ui_thread] yet. *)
Definition receiver_alive (id : nat) s : bool :=
  match workers s !! id with
  | Some (Post _ _ | PopBack _ _ | Await) => true
  | _ => false
  end.

Definition transport_timeout : IpcResponse := IpcResponse.Error (IpcError.TransportIo WAIT_TIMEOUT).
Definition transport_lost : IpcResponse := IpcResponse.Error (IpcError.TransportIo (-1)).

Definition goto (id : nat) (pc : Pc) s : Server := s <| workers ::= <[id := pc]> |>.
Definition note (e : Event) s : Server := s <| trace ::= cons e |>.

(** Checks the teardown flag, queues the request, posts the message, and waits for
    the answer; or takes the request back. *)
Definition forward_to_ui_thread (id : nat) (pc : Pc) (io : WorkerIo) s : option Server :=
  match pc, io with
  | Forward v p, IoNone => Some (goto id (if teardown s then Respond transport_timeout else Push v p) s)
  | Push v p, IoNone =>
      let '(ok, s) := push (mkRequest id v p) s in
      Some (goto id (if ok then Post v p else Respond transport_timeout) s)
  | Post v p, IoPost ok =>
      if ok then Some (goto id Await (s <| posted ::= S |>)) else Some (goto id (PopBack v p) s)
  | PopBack v p, IoNone =>
      match pop s with
      | (None, s) => Some (goto id (Respond transport_lost) s)
      | (Some r, s) =>
          if bool_decide (req_verb r = v) && bool_decide (req_payload r = p)
          then Some (goto id (Respond transport_lost) s)
          else Some s
      end
  | Await, IoNone =>
      match replies s !! id with
      | Some r => Some (goto id (Respond r) s)
      | None => if sender_alive id s then None else Some (goto id (Respond transport_lost) s)
      end
  | Await, IoTimeout =>
      match replies s !! id with
      | Some _ => None
      | None => if sender_alive id s then Some (goto id (Respond transport_timeout) s) else None
      end
  | _, _ => None
  end.

(** The rest of a connection. *)
Definition handle_pipe_connection (id : nat) (pc : Pc) (io : WorkerIo) s : option Server :=
  match pc, io with
  | WaitClient, IoConnect c => Some (goto id (if wait_for_client c then ClientPid else Close) s)
  | ClientPid, IoPid None => Some (goto id (Respond (IpcResponse.Error IpcError.UnauthorizedToken)) s)
  | ClientPid, IoPid (Some p) => Some (goto id (RateLimit p) s)
  | RateLimit p, IoClock now =>
      if limiter_poisoned s
      then Some (goto id (Respond (IpcResponse.Error (IpcError.TransportIo ERROR_INVALID_DATA))) s)
      else let '(r, l) := check_and_record (limiter s) p now in
           let s := s <| limiter := l |> in
           match r with
           | Ok _ => Some (goto id Read (note (Allowed id p now) s))
           | Err e => Some (goto id (Respond (IpcResponse.Error e)) s)
           end
  | Read, IoRead rd =>
      match read_frame rd with
      | Err e => Some (goto id (Respond (IpcResponse.Error e)) s)
      | Ok f =>
          let s := note (Received id f) s in
          if negb (matches (frame_token f) (session_token s))
          then Some (goto id (Respond (IpcResponse.Error IpcError.UnauthorizedToken)) s)
          else Some (goto id (Dispatch f) s)
      end
  | Dispatch f, IoNone => Some (goto id (dispatch_command (status s) f) s)
  | Respond r, IoWrite w =>
      Some (goto id Disconnect (note (Responded id (encode_response r) (write_pipe w)) s))
  | Disconnect, IoNone => Some (goto id Close s)
  | Close, IoNone => Some (drop_permit (s <| workers ::= delete id |>))
  | _, _ => None
  end.

Definition worker_step (id : nat) (io : WorkerIo) s : option Server :=
  pc ← workers s !! id;
  match pc with
  | Forward _ _ | Push _ _ | Post _ _ | PopBack _ _ | Await => forward_to_ui_thread id pc io s
  | _ => handle_pipe_connection id pc io s
  end.

(** *** The UI thread *)

Inductive UiAction :=
| Deliver            (* the message loop dispatches [WM_APP_IPC] *)
| Continue           (* the next statement of the handler it is in *)
| Publish            (* [refresh_ipc_status], at the end of a publication *)
| DestroyWindow.     (* [WM_DESTROY] *)

(** [responder.send(..)]: false when the receiver is gone. *)
Definition send (id : nat) (r : IpcResponse) s : bool * Server :=
  if receiver_alive id s then (true, s <| replies ::= <[id := r]> |>) else (false, s).

Definition ui_step (a : UiAction) s : option Server :=
  match ui s, a with
  | Destroyed, Publish => None
  | _, Publish => Some (s <| status := ipc_status (application s) |>)
  | Idle, Deliver =>
      match posted s with
      | O => None
      | S n => Some (s <| posted := n |> <| ui := Draining |>)
      end
  | Draining, Continue =>
      match pop s with
      | (None, s) => Some (s <| ui := Idle |>)
      | (Some r, s) => Some (s <| ui := Executing r |>)
      end
  | Executing r, Continue =>
      '(response, u) ← ipc_handle (req_verb r) (req_payload r) (application s);
      Some ((note (Executed (req_id r) (req_verb r) (req_payload r) response) s)
              <| application := u |> <| ui := Replying (req_id r) response |>)
  | Replying id response, Continue =>
      let '(ok, s) := send id response s in
      Some ((if ok then s else s <| application ::= ipc_reply_dropped |>) <| ui := Draining |>)
  | Idle, DestroyWindow => Some (s <| teardown := true |> <| ui := Destroying |>)
  | Destroying, Continue =>
      match pop s with
      | (None, s) => Some (s <| ui := Destroyed |>)
      | (Some r, s) => Some (s <| ui := Refusing (req_id r) |>)
      end
  | Refusing id, Continue => Some ((send id transport_lost s).2 <| ui := Destroying |>)
  | _, _ => None
  end.

(** *** Schedules *)

Inductive Action :=
| AcceptAct (io : AcceptIo)
| WorkerAct (id : nat) (io : WorkerIo)
| UiAct (a : UiAction)
| Shutdown.          (* [IpcServer::shutdown] clears [running] *)

Definition step (a : Action) s : option Server :=
  match a with
  | AcceptAct io => accept_step io s
  | WorkerAct id io => worker_step id io s
  | UiAct a => ui_step a s
  | Shutdown => Some (s <| running := false |>)
  end.

(** A step that is not possible is not taken: the schedule is stuck there. *)
Fixpoint run (l : list Action) s : option Server :=
  match l with
  | [] => Some s
  | a :: l => s ← step a s; run l s
  end.

Definition reachable (token : SessionToken) (u : U) s : Prop :=
  ∃ l, run l (server_start token u) = Some s.

End Server.
Arguments Server : clear implicits.
