(* ===== verification/IpcProtocol.v ===== *)
(** * IpcProtocol: the life of a request, as an abstract machine

    What of the server's state decides who runs what: the free permits, the
    workers, the queue, the pending window messages, the UI thread's place in the
    drain and the log.  [life] lists the moves of that machine, without the
    system calls, the limiter, the snapshot and the teardown flag; [step_refines]
    shows that every step of the server is such a move or changes none of this. *)
From coqutil Require Import Datatypes.RecordSetters.
From S2P Require Import Prelude Text Core Wire IpcServer.
Import TriangleBracketNotations.

Record View := mkView {
  v_token : SessionToken;
  v_free : nat;
  v_over : Z;
  v_next : nat;
  v_workers : gmap nat Pc;
  v_queue : list IpcCommandRequest;
  v_replies : gmap nat IpcResponse;
  v_posted : nat;
  v_ui : Ui;
  v_log : list Event;
}.

(** The requests a worker may forward. *)
Definition is_error (r : IpcResponse) : bool := match r with IpcResponse.Error _ => true | _ => false end.
Definition is_status (r : IpcResponse) : bool := match r with IpcResponse.Status _ => true | _ => false end.
Definition acceptable (v : CommandVerb) (p : bytes) : bool :=
  match v with
  | CommandVerb.QueryStatus => false
  | CommandVerb.RequestAcquire => negb (is_error (handle_request_acquire p))
  | CommandVerb.ScheduleAction => negb (is_error (handle_schedule_action p))
  | CommandVerb.RequestRelease | CommandVerb.CancelSchedule => true
  end.

Definition v_drop (v : View) : View :=
  if (v_free v <? MAX_CONCURRENT_WORKERS)%nat then v <| v_free ::= S |>
  else v <| v_free := MAX_CONCURRENT_WORKERS |> <| v_over ::= (λ n, wrap 64 (n + 1)) |>.
Definition v_goto (id : nat) (pc : Pc) (v : View) : View := v <| v_workers ::= <[id := pc]> |>.
Definition v_note (e : Event) (v : View) : View := v <| v_log ::= cons e |>.

(** The moves of one worker that touch nothing else. *)
Inductive move (v : View) (id : nat) : Pc → Pc → Prop :=
| mv_connect : move v id WaitClient ClientPid
| mv_no_client : move v id WaitClient Close
| mv_pid p : move v id ClientPid (RateLimit p)
| mv_no_pid e : move v id ClientPid (Respond (IpcResponse.Error e))
| mv_limited p e : move v id (RateLimit p) (Respond (IpcResponse.Error e))
| mv_unread e : move v id Read (Respond (IpcResponse.Error e))
| mv_answered f r : is_error r || is_status r = true → move v id (Dispatch f) (Respond r)
| mv_forward f : acceptable (verb f) (payload f) = true → move v id (Dispatch f) (Forward (verb f) (payload f))
| mv_torn w p : move v id (Forward w p) (Respond transport_timeout)
| mv_go w p : move v id (Forward w p) (Push w p)
| mv_full w p : move v id (Push w p) (Respond transport_timeout)
| mv_unposted w p : move v id (Post w p) (PopBack w p)
| mv_nothing_left w p : v_queue v = [] → move v id (PopBack w p) (Respond transport_lost)
| mv_reply r : v_replies v !! id = Some r → move v id Await (Respond r)
| mv_no_reply e : v_replies v !! id = None → move v id Await (Respond (IpcResponse.Error e))
| mv_disconnect : move v id Disconnect Close.

Section Life.
Context {U : Type} `{UiThread U}.
Implicit Types (v : View) (s : Server U).

Inductive life : View → View → Prop :=
| l_spawn v n : v_free v = S n →
    life v (v <| v_free := n |> <| v_workers ::= <[v_next v := WaitClient]> |> <| v_next ::= S |>)
| l_no_thread v n : v_free v = S n → life v (v_drop (v <| v_free := n |>))
| l_move v id pc pc' : v_workers v !! id = Some pc → move v id pc pc' → life v (v_goto id pc' v)
| l_admit v id p now : v_workers v !! id = Some (RateLimit p) →
    life v (v_goto id Read (v_note (Allowed id p now) v))
| l_receive v id f : v_workers v !! id = Some Read → matches (frame_token f) (v_token v) = true →
    life v (v_goto id (Dispatch f) (v_note (Received id f) v))
| l_stranger v id f e : v_workers v !! id = Some Read →
    life v (v_goto id (Respond (IpcResponse.Error e)) (v_note (Received id f) v))
| l_push v id w p : v_workers v !! id = Some (Push w p) →
    (length (v_queue v) < MAX_PENDING_IPC_COMMANDS)%nat →
    life v (v_goto id (Post w p) (v <| v_queue ::= (λ q, q ++ [mkRequest id w p]) |>))
| l_post v id w p : v_workers v !! id = Some (Post w p) → life v (v_goto id Await (v <| v_posted ::= S |>))
| l_pop_back v id w p r q : v_workers v !! id = Some (PopBack w p) → v_queue v = r :: q →
    req_verb r = w → req_payload r = p →
    life v (v_goto id (Respond transport_lost) (v <| v_queue := q |>))
| l_pop_other v id w p r q : v_workers v !! id = Some (PopBack w p) → v_queue v = r :: q →
    life v (v <| v_queue := q |>)
| l_respond v id r o : v_workers v !! id = Some (Respond r) →
    life v (v_goto id Disconnect (v_note (Responded id (encode_response r) o) v))
| l_close v id : v_workers v !! id = Some Close → life v (v_drop (v <| v_workers ::= delete id |>))
| l_deliver v n : v_ui v = Idle → v_posted v = S n → life v (v <| v_posted := n |> <| v_ui := Draining |>)
| l_drained v : v_ui v = Draining → v_queue v = [] → life v (v <| v_ui := Idle |>)
| l_take v r q : v_ui v = Draining → v_queue v = r :: q →
    life v (v <| v_queue := q |> <| v_ui := Executing r |>)
| l_execute v r a a' response : v_ui v = Executing r →
    ipc_handle (req_verb r) (req_payload r) a = Some (response, a') →
    life v ((v_note (Executed (req_id r) (req_verb r) (req_payload r) response) v)
              <| v_ui := Replying (req_id r) response |>)
| l_reply v id response : v_ui v = Replying id response → is_Some (v_workers v !! id) →
    life v (v <| v_replies ::= <[id := response]> |> <| v_ui := Draining |>)
| l_no_receiver v id response : v_ui v = Replying id response → life v (v <| v_ui := Draining |>)
| l_destroy v : v_ui v = Idle → life v (v <| v_ui := Destroying |>)
| l_destroyed v : v_ui v = Destroying → v_queue v = [] → life v (v <| v_ui := Destroyed |>)
| l_refuse v r q : v_ui v = Destroying → v_queue v = r :: q →
    life v (v <| v_queue := q |> <| v_ui := Refusing (req_id r) |>)
| l_refused v id : v_ui v = Refusing id → is_Some (v_workers v !! id) →
    life v (v <| v_replies ::= <[id := transport_lost]> |> <| v_ui := Destroying |>)
| l_refused_unheard v id : v_ui v = Refusing id → life v (v <| v_ui := Destroying |>).

Definition view s : View :=
  mkView (session_token s) (available s) (over_release s) (next_id s) (workers s) (queue s) (replies s)
    (posted s) (ui s) (trace s).

Lemma view_drop s : view (drop_permit s) = v_drop (view s).
Proof. unfold drop_permit, v_drop. cbn [view v_free]. by destruct (_ <? _)%nat. Qed.

(** ** Every step is a move *)

Lemma dispatch_refines ok s : view (dispatch_connection ok s) = view s ∨ life (view s) (view (dispatch_connection ok s)).
Proof.
  unfold dispatch_connection, try_acquire. destruct (available s) as [|n] eqn:Ea; [by left|]. right.
  destruct ok; [by apply (l_spawn (view s) n)|]. rewrite view_drop. by apply (l_no_thread (view s) n).
Qed.

Lemma accept_refines io s s' : accept_step io s = Some s' → view s' = view s ∨ life (view s) (view s').
Proof.
  unfold accept_step. destruct (accept s), io; try done.
  - destruct (negb _); [intros [= <-]; by left|]. destruct r; intros [= <-]; by left.
  - destruct (negb _); intros [= <-]; [by left|]. apply (dispatch_refines ok s).
  - intros [= <-]. left. by destruct (_ mod _ =? _).
  - intros [= <-]. by left.
Qed.

Lemma dispatch_command_move v id st f : move v id (Dispatch f) (dispatch_command st f).
Proof.
  unfold dispatch_command. destruct (verb f) eqn:Ev.
  - by apply mv_answered.
  - destruct (handle_request_acquire _) eqn:Ea; try (by apply mv_answered);
      rewrite <- Ev; apply mv_forward; by rewrite Ev; cbn; rewrite Ea.
  - rewrite <- Ev. apply mv_forward. by rewrite Ev.
  - destruct (handle_schedule_action _) eqn:Ea; try (by apply mv_answered);
      rewrite <- Ev; apply mv_forward; by rewrite Ev; cbn; rewrite Ea.
  - rewrite <- Ev. apply mv_forward. by rewrite Ev.
Qed.

Lemma move_refines id pc pc' s : workers s !! id = Some pc → move (view s) id pc pc' →
  life (view s) (view (goto id pc' s)).
Proof. intros Hw Hm. by apply (l_move (view s) id pc pc'). Qed.

Lemma worker_refines id io s s' : worker_step id io s = Some s' → view s' = view s ∨ life (view s) (view s').
Proof.
  unfold worker_step, forward_to_ui_thread, handle_pipe_connection. destruct (workers s !! id) as [pc|] eqn:Ew; [|done]. cbn [mbind option_bind].
  destruct pc, io; try done.
  - intros [= <-]. right. apply (move_refines id _ _ s Ew). destruct (wait_for_client io); constructor.
  - destruct pid as [p|]; intros [= <-]; right; apply (move_refines id _ _ s Ew); constructor.
  - destruct (limiter_poisoned s); [intros [= <-]; right; apply (move_refines id _ _ s Ew); constructor|].
    destruct (check_and_record _ _ _) as [[[]|e] l]; intros [= <-]; right.
    + by apply (l_admit (view s) id client_pid now).
    + apply (l_move (view s) id (RateLimit client_pid)); [done|constructor].
  - destruct (read_frame io) as [f|e]; [|intros [= <-]; right; apply (move_refines id _ _ s Ew); constructor].
    destruct (matches _ _) eqn:Em; intros [= <-]; right.
    + by apply (l_receive (view s) id f).
    + by apply (l_stranger (view s) id f).
  - intros [= <-]. right. apply (move_refines id _ _ s Ew), dispatch_command_move.
  - intros [= <-]. right. apply (move_refines id _ _ s Ew). destruct (teardown s); constructor.
  - unfold push. destruct (_ <=? _)%nat eqn:El; intros [= <-]; right.
    + apply (move_refines id _ _ s Ew). constructor.
    + apply (l_push (view s) id v p Ew). apply Nat.leb_gt in El. exact El.
  - destruct ok; intros [= <-]; right; [by apply (l_post (view s) id v p)|].
    apply (move_refines id _ _ s Ew). constructor.
  - unfold pop. destruct (queue s) as [|r q] eqn:Eq.
    + intros [= <-]. right. apply (move_refines id _ _ s Ew). by constructor.
    + destruct (_ && _) eqn:Em; intros [= <-]; right; [|by apply (l_pop_other (view s) id v p r q)].
      apply andb_prop in Em as [E1%bool_decide_eq_true E2%bool_decide_eq_true].
      by apply (l_pop_back (view s) id v p r q).
  - destruct (replies s !! id) as [r|] eqn:Er; [|destruct (sender_alive id s); [done|]]; intros [= <-]; right;
      apply (move_refines id _ _ s Ew); by constructor.
  - destruct (replies s !! id) as [r|] eqn:Er; [done|]. destruct (sender_alive id s); [|done].
    intros [= <-]. right. apply (move_refines id _ _ s Ew). by constructor.
  - intros [= <-]. right. by apply (l_respond (view s) id r).
  - intros [= <-]. right. apply (move_refines id _ _ s Ew). constructor.
  - intros [= <-]. right. rewrite view_drop. by apply (l_close (view s) id).
Qed.

Lemma receiver_worker id s : receiver_alive id s = true → is_Some (workers s !! id).
Proof. unfold receiver_alive. by destruct (workers s !! id). Qed.

Lemma ui_refines a s s' : ui_step a s = Some s' → view s' = view s ∨ life (view s) (view s').
Proof.
  unfold ui_step. destruct (ui s) eqn:Eu, a; try done; try (intros [= <-]; by left).
  - destruct (posted s) as [|n] eqn:Ep; [done|]. intros [= <-]. right. by apply (l_deliver (view s) n).
  - intros [= <-]. right. by apply (l_destroy (view s)).
  - unfold pop. destruct (queue s) as [|r q] eqn:Eq; intros [= <-]; right;
      [by apply (l_drained (view s))|by apply (l_take (view s) r q)].
  - destruct (ipc_handle _ _ _) as [[response u]|] eqn:Eh; [|done]. intros [= <-]. right.
    by apply (l_execute (view s) r (application s) u response).
  - unfold send. destruct (receiver_alive _ _) eqn:Er; intros [= <-]; right;
      [apply (l_reply (view s) id response); [done|by apply receiver_worker]|by apply (l_no_receiver (view s) id response)].
  - unfold pop. destruct (queue s) as [|r q] eqn:Eq; intros [= <-]; right;
      [by apply (l_destroyed (view s))|by apply (l_refuse (view s) r q)].
  - unfold send. destruct (receiver_alive _ _) eqn:Er; intros [= <-]; right;
      [apply (l_refused (view s) id); [done|by apply receiver_worker]|by apply (l_refused_unheard (view s) id)].
Qed.

Lemma step_refines a s s' : step a s = Some s' → view s' = view s ∨ life (view s) (view s').
Proof.
  destruct a; cbn [step]; eauto using accept_refines, worker_refines, ui_refines.
  intros [= <-]. by left.
Qed.
End Life.
