(* ===== verification/IpcFacts.v ===== *)
(** * IpcFacts: what no schedule of the IPC server can do

    The invariants of the abstract machine of [IpcProtocol], by induction on its
    moves, and what they mean for every state the server can reach. *)
From coqutil Require Import Datatypes.RecordSetters.
From S2P Require Import Prelude Text Core Wire IpcServer IpcProtocol.
Import TriangleBracketNotations.

(** Open the records of a move. *)
Ltac view_simpl :=
  repeat match goal with v : View |- _ => destruct v end;
  unfold v_goto, v_note, constant in *; cbn in *; destruct_and?; subst; cbn in *.

Section Facts.
Context {U : Type} `{UiThread U}.
Implicit Types (v : View) (s : Server U) (log : list Event).

Definition view_start (token : SessionToken) : View :=
  mkView token MAX_CONCURRENT_WORKERS 0 0 ∅ [] ∅ 0 Idle [].

(** A property of the abstract machine that holds at the start and survives every
    move holds of the view of every reachable state. *)
Lemma schedule_refines l s s' : IpcServer.run l s = Some s' → rtc life (view s) (view s').
Proof.
  revert s. induction l as [|a l IH]; intros s; cbn [IpcServer.run]; [by intros [= ->]|].
  destruct (step a s) as [s1|] eqn:Es; [|done]. cbn [mbind option_bind]. intros Hr.
  destruct (step_refines _ _ _ Es) as [<-|Hl]; [by apply IH|]. eapply rtc_l; [done|by apply IH].
Qed.
Lemma reachable_invariant (I : View → Prop) token u s :
  I (view_start token) → (∀ v v', I v → life v v' → I v') → reachable token u s → I (view s).
Proof.
  intros H0 Hs [l Hl]. apply schedule_refines in Hl. change (view (server_start token u)) with (view_start token) in Hl.
  revert H0. induction Hl as [|v v' v'' Hv _ IH]; eauto.
Qed.

(** ** The pool and the queue *)

Definition bounded v : Prop :=
  (v_free v + size (v_workers v) = MAX_CONCURRENT_WORKERS)%nat ∧ v_over v = 0 ∧
  (length (v_queue v) ≤ MAX_PENDING_IPC_COMMANDS)%nat ∧
  ∀ id, is_Some (v_workers v !! id) → (id < v_next v)%nat.

Lemma drop_bounded v : (v_free v < MAX_CONCURRENT_WORKERS)%nat → v_drop v = v <| v_free ::= S |>.
Proof. intros Hf. unfold v_drop. by apply Nat.ltb_lt in Hf as ->. Qed.

Lemma life_bounded v v' : bounded v → life v v' → bounded v'.
Proof.
  intros Hb Hl. unfold bounded in *.
  destruct Hl as [| | | | | | | | | | |v id Hc| | | | | | | | | | |]; try rewrite drop_bounded; view_simpl;
    repeat split; try done; try lia; try (rewrite map_size_insert_Some by eauto; lia);
    try (intros i; rewrite lookup_insert_is_Some'; intros [<-|Hi]; eauto; fail).
  - rewrite map_size_insert_None; [lia|]. apply eq_None_not_Some. intros Hi%H5. lia.
  - intros i. rewrite lookup_insert_is_Some'. intros [<-|Hi%H5]; lia.
  - rewrite length_app. cbn. lia.
  - rewrite (map_size_delete_Some id) by eauto.
    assert (size v_workers ≠ 0)%nat as Hs by (intros Hz%map_size_empty_inv; by rewrite Hz in Hc). lia.
  - intros i. rewrite lookup_delete_is_Some. naive_solver.
  - assert (size v_workers ≠ 0)%nat as Hs by (intros Hz%map_size_empty_inv; by rewrite Hz in Hc). lia.
Qed.

(** ** No command is left waiting without a message to wake the UI thread *)

(** The workers that have queued their request and not yet posted the message, or
    are taking it back. *)
Definition posting (pc : Pc) : bool := match pc with Post _ _ | PopBack _ _ => true | _ => false end.
Definition posters (m : gmap nat Pc) : gmap nat Pc := filter (λ x, posting x.2 = true) m.

Definition awake v : Prop :=
  v_ui v = Idle → (length (v_queue v) ≤ v_posted v + size (posters (v_workers v)))%nat.

Lemma posters_insert m id pc pc' : m !! id = Some pc →
  (size (posters (<[id := pc']> m)) + (if posting pc then 1 else 0)
   = size (posters m) + (if posting pc' then 1 else 0))%nat.
Proof.
  intros Hm. unfold posters. rewrite <- (insert_delete_id m id pc Hm) at 2.
  rewrite <- insert_delete_eq, !map_filter_insert. rewrite !delete_delete_eq. cbn [snd].
  assert (filter (λ x, posting x.2 = true) (delete id m) !! id = None) as Hn
    by (apply map_lookup_filter_None; left; apply lookup_delete_eq).
  destruct (posting pc'), (posting pc); repeat (destruct (decide _); try done);
    rewrite ?map_size_insert_None by done; lia.
Qed.
Lemma posters_delete m id pc : m !! id = Some pc →
  (size (posters (delete id m)) + (if posting pc then 1 else 0) = size (posters m))%nat.
Proof.
  intros Hm. pose proof (posters_insert m id pc Close Hm) as He. cbn in He. rewrite Nat.add_0_r in He.
  rewrite <- He. f_equal. unfold posters. rewrite <- insert_delete_eq, map_filter_insert_False by done.
  by rewrite delete_delete_eq.
Qed.
Lemma posters_spawn m id : m !! id = None → size (posters (<[id := WaitClient]> m)) = size (posters m).
Proof.
  intros Hm. unfold posters. rewrite map_filter_insert_False by done. by rewrite delete_id.
Qed.
Lemma move_posting v id pc pc' : move v id pc pc' →
  posting pc = posting pc' ∨ posting pc = true ∧ v_queue v = [].
Proof. intros []; cbn; auto. Qed.

Lemma life_awake v v' : bounded v → awake v → life v v' → awake v'.
Proof.
  intros (_ & _ & _ & Hn) Ha Hl. unfold awake in *.
  destruct Hl as [| |v id pc pc' Hw Hm| | | | | | | | |v id Hw| | | | | | | | | | |];
    try (unfold v_drop; destruct (_ <? _)%nat); try apply move_posting in Hm; intros Hu; view_simpl; try done;
    try specialize (Ha eq_refl);
    try match goal with Hw : ?m !! ?id = Some ?pc |- context [<[?id := ?pc']> ?m] =>
      pose proof (posters_insert m id pc pc' Hw) as Hp; cbn in Hp end;
    rewrite ?length_app; cbn [length]; try lia;
    try (pose proof (posters_delete _ id Close Hw) as Hp; cbn in Hp; lia).
  - rewrite posters_spawn; [done|]. apply eq_None_not_Some. intros Hi%Hn. lia.
  - destruct Hm as [Hm|[Hm ->]]; [rewrite Hm in Hp|cbn]; lia.
Qed.

(** ** Where a command comes from *)

(** The log holds the admission of the connection by the limiter and the frame it
    sent, which carries the session's token and an acceptable command. *)
Definition cleared (token : SessionToken) log (id : nat) (w : CommandVerb) (p : bytes) : Prop :=
  ∃ c now f, Allowed id c now ∈ log ∧ Received id f ∈ log ∧ matches (frame_token f) token = true ∧
    verb f = w ∧ payload f = p ∧ acceptable w p = true.
Definition ran log (id : nat) (r : IpcResponse) : Prop := ∃ w p, Executed id w p r ∈ log.
Definition answers log (id : nat) (r : IpcResponse) : Prop := is_error r || is_status r = true ∨ ran log id r.

Definition pc_ok (token : SessionToken) log (id : nat) (pc : Pc) : Prop :=
  match pc with
  | Read => ∃ c now, Allowed id c now ∈ log
  | Dispatch f => ∃ c now, Allowed id c now ∈ log ∧ Received id f ∈ log ∧ matches (frame_token f) token = true
  | Forward w p | Push w p | Post w p | PopBack w p => cleared token log id w p
  | Respond r => answers log id r
  | _ => True
  end.
Definition event_ok (token : SessionToken) log (e : Event) : Prop :=
  match e with
  | Executed id w p r => cleared token log id w p ∧ ∃ a a', ipc_handle w p a = Some (r, a')
  | Responded id bs _ => ∃ r, bs = encode_response r ∧ answers log id r
  | _ => True
  end.
Fixpoint log_ok (token : SessionToken) log : Prop :=
  match log with [] => True | e :: log => event_ok token log e ∧ log_ok token log end.
Definition ui_ok (token : SessionToken) log (u : Ui) : Prop :=
  match u with
  | Executing r => cleared token log (req_id r) (req_verb r) (req_payload r)
  | Replying id r => ran log id r
  | _ => True
  end.

Definition justified v : Prop :=
  map_Forall (pc_ok (v_token v) (v_log v)) (v_workers v) ∧
  Forall (λ r, cleared (v_token v) (v_log v) (req_id r) (req_verb r) (req_payload r)) (v_queue v) ∧
  ui_ok (v_token v) (v_log v) (v_ui v) ∧
  map_Forall (answers (v_log v)) (v_replies v) ∧
  log_ok (v_token v) (v_log v).

(** All of it survives a longer log. *)
Lemma cleared_mono t log e id w p : cleared t log id w p → cleared t (e :: log) id w p.
Proof. intros (c & now & f & Ha & Hr & Hm). exists c, now, f. split_and!; [by right..|apply Hm|apply Hm|apply Hm|apply Hm]. Qed.
Lemma ran_mono log e id r : ran log id r → ran (e :: log) id r.
Proof. intros (w & p & He). exists w, p. by right. Qed.
Lemma answers_mono log e id r : answers log id r → answers (e :: log) id r.
Proof. intros [?|?]; [by left|right; by apply ran_mono]. Qed.
Lemma pc_ok_mono t log e id pc : pc_ok t log id pc → pc_ok t (e :: log) id pc.
Proof.
  destruct pc; cbn; eauto using cleared_mono, answers_mono.
  - intros (c & now & Hc). exists c, now. by right.
  - intros (c & now & Hc & Hr & Hm). exists c, now. split_and!; [by right..|done].
Qed.
Lemma ui_ok_mono t log e u : ui_ok t log u → ui_ok t (e :: log) u.
Proof. destruct u; cbn; eauto using cleared_mono, ran_mono. Qed.

Lemma justified_note e v : justified v → event_ok (v_token v) (v_log v) e → justified (v_note e v).
Proof.
  intros (Hw & Hq & Hu & Hr & Hl) He. unfold justified. view_simpl. split_and!; try done.
  - intros id pc Hi. by apply pc_ok_mono, (Hw id).
  - eapply Forall_impl; [done|]. cbn. intros r. apply cleared_mono.
  - by apply ui_ok_mono.
  - intros id r Hi. by apply answers_mono, (Hr id).
Qed.
Lemma justified_goto id pc v : justified v → pc_ok (v_token v) (v_log v) id pc → justified (v_goto id pc v).
Proof.
  intros (Hw & Hq & Hu & Hr & Hl) Hp. unfold justified. view_simpl. split_and!; try done.
  by apply map_Forall_insert_2.
Qed.
Lemma move_justified v id pc pc' : justified v → v_workers v !! id = Some pc → move v id pc pc' →
  pc_ok (v_token v) (v_log v) id pc'.
Proof.
  intros (Hw & Hq & Hu & Hr & Hl) Hi Hm. apply Hw in Hi. destruct Hm; cbn in *; auto; try (by left).
  - destruct Hi as (c & now & Hc & Hf & Hm). by exists c, now, f.
Qed.

Lemma life_justified v v' : justified v → life v v' → justified v'.
Proof.
  intros Hj Hl. pose proof Hj as (Hw & Hq & Hu & Hr & Hl').
  destruct Hl as [v n Hf|v n Hf|v id pc pc' Hi Hm|v id p now Hi|v id f Hi Hm|v id f e Hi|v id w p Hi Hn|v id w p Hi
    |v id w p r q Hi Hv _ _|v id w p r q Hi Hv|v id r o Hi|v id Hi|v n Hv|v Hv Hn|v r q Hv Hn|v r a a' response Hv Hh
    |v id r Hv Hi|v id r Hv|v Hv|v Hv Hn|v r q Hv Hn|v id Hv Hi|v id Hv].
  - split_and!; try done. by apply map_Forall_insert_2.
  - unfold v_drop. destruct (_ <? _)%nat; split_and!; done.
  - apply justified_goto; [done|]. by apply (move_justified v id pc).
  - apply justified_goto; [by apply justified_note|]. exists p, now. by left.
  - apply justified_goto; [by apply justified_note|]. apply Hw in Hi as (c & now & Hc).
    exists c, now. split_and!; [by right|by left|done].
  - apply justified_goto; [by apply justified_note|]. by left.
  - pose proof (Hw _ _ Hi) as Hc. apply justified_goto; [|done]. split_and!; try done.
    apply Forall_app. split; [done|]. by apply Forall_singleton.
  - pose proof (Hw _ _ Hi) as Hc. apply justified_goto; [|done]. split_and!; done.
  - apply (justified_goto id _ (v <| v_queue := q |>)); [|by left]. rewrite Hv in Hq. apply Forall_cons in Hq as [_ Hq].
    split_and!; done.
  - rewrite Hv in Hq. apply Forall_cons in Hq as [_ Hq]. split_and!; done.
  - pose proof (Hw _ _ Hi) as Ha. apply justified_goto; [|done]. apply justified_note; [done|]. by exists r.
  - assert (map_Forall (pc_ok (v_token v) (v_log v)) (delete id (v_workers v))) by by apply map_Forall_delete.
    unfold v_drop. destruct (_ <? _)%nat; split_and!; done.
  - split_and!; done.
  - split_and!; done.
  - rewrite Hn in Hq. apply Forall_cons in Hq as [Hc Hq]. split_and!; done.
  - rewrite Hv in Hu. assert (event_ok (v_token v) (v_log v) (Executed (req_id r) (req_verb r) (req_payload r) response))
      as He by (split; [exact Hu|by exists a, a']).
    destruct (justified_note _ v Hj He) as (Hw1 & Hq1 & _ & Hr1 & Hl1). split_and!; try done. eexists _, _. by left.
  - rewrite Hv in Hu. split_and!; try done. apply map_Forall_insert_2; [by right|done].
  - split_and!; done.
  - split_and!; done.
  - split_and!; done.
  - rewrite Hn in Hq. apply Forall_cons in Hq as [_ Hq]. split_and!; done.
  - split_and!; try done. apply map_Forall_insert_2; [by left|done].
  - split_and!; done.
Qed.

(** ** No command runs twice, no connection is answered twice *)

Definition executed_id (e : Event) : option nat := match e with Executed id _ _ _ => Some id | _ => None end.
Definition responded_id (e : Event) : option nat := match e with Responded id _ _ => Some id | _ => None end.
Definition holder (u : Ui) : list nat := match u with Executing r => [req_id r] | _ => [] end.
(** Every connection whose command is queued, in the UI thread's hands, or done. *)
Definition tickets v : list nat :=
  map req_id (v_queue v) ++ holder (v_ui v) ++ omap executed_id (v_log v).

Definition before_push (pc : Pc) : bool :=
  match pc with
  | WaitClient | ClientPid | RateLimit _ | Read | Dispatch _ | Forward _ _ | Push _ _ => true
  | _ => false
  end.
Definition before_answer (pc : Pc) : bool := match pc with Disconnect | Close => false | _ => true end.

Definition past v (id : nat) (f : Pc → bool) : Prop :=
  (id < v_next v)%nat ∧ ∀ pc, v_workers v !! id = Some pc → f pc = false.
Definition once v : Prop :=
  NoDup (tickets v) ∧ (∀ id, id ∈ tickets v → past v id before_push) ∧
  NoDup (omap responded_id (v_log v)) ∧ (∀ id, id ∈ omap responded_id (v_log v) → past v id before_answer).

(** A phase, once left, is not entered again. *)
Lemma past_goto v id i pc pc' f : v_workers v !! id = Some pc → (f pc = false → f pc' = false) →
  past v i f → past (v_goto id pc' v) i f.
Proof.
  intros Hw Hf [Hi Hp]. split; [done|]. intros x. change (<[id := pc']> (v_workers v) !! i = Some x → f x = false).
  destruct (decide (i = id)) as [->|Hne]; [rewrite lookup_insert_eq|rewrite lookup_insert_ne by done]; [|apply Hp].
  intros [= <-]. eauto.
Qed.
Lemma move_phases v id pc pc' : move v id pc pc' →
  (before_push pc = false → before_push pc' = false) ∧ (before_answer pc = false → before_answer pc' = false).
Proof. by intros []. Qed.

(** What is left of the tickets and phases when a worker moves on. *)
Lemma once_goto v id pc pc' : v_workers v !! id = Some pc →
  (before_push pc = false → before_push pc' = false) → (before_answer pc = false → before_answer pc' = false) →
  once v → once (v_goto id pc' v).
Proof.
  intros Hw Hb Ha (H1 & H2 & H3 & H4). split_and!; try done.
  - intros i Hi. apply (past_goto v id i pc); eauto.
  - intros i Hi. apply (past_goto v id i pc); eauto.
Qed.
Lemma once_queue v q : sublist q (v_queue v) → once v → once (v <| v_queue := q |>).
Proof.
  intros Hs (H1 & H2 & H3 & H4).
  assert (sublist (tickets (v <| v_queue := q |>)) (tickets v)) as Ht
    by (unfold tickets; view_simpl; apply sublist_app; [by apply Wire.sublist_map|done]).
  split_and!; [by apply (sublist_NoDup _ (tickets v))| |exact H3|exact H4].
  intros id Hi. by apply H2, (elem_of_sublist _ _ _ Hi).
Qed.
(** The tickets a step leaves are a rearrangement of those it finds. *)
Lemma once_tickets v v' : tickets v' ≡ₚ tickets v → v_next v' = v_next v → v_workers v' = v_workers v →
  omap responded_id (v_log v') = omap responded_id (v_log v) → once v → once v'.
Proof.
  intros Ht Hn Hw Hl. unfold once, past. rewrite Hn, Hw, Hl, Ht. by setoid_rewrite Ht.
Qed.
Lemma once_spawn v n : once v →
  once (v <| v_free := n |> <| v_workers ::= <[v_next v := WaitClient]> |> <| v_next ::= S |>).
Proof.
  intros (H1 & H2 & H3 & H4).
  assert (∀ id f, past v id f → past (v <| v_free := n |> <| v_workers ::= <[v_next v := WaitClient]> |> <| v_next ::= S |>) id f) as Hp.
  { unfold past. intros id f [Hi Hf]. view_simpl. split; [lia|]. rewrite lookup_insert_ne by lia. done. }
  split_and!; try done; intros id Hi; apply Hp; [by apply H2|by apply H4].
Qed.
Lemma once_drop v : once v → once (v_drop v).
Proof. unfold v_drop. by destruct (_ <? _)%nat. Qed.
Lemma once_delete v id : once v → once (v <| v_workers ::= delete id |>).
Proof.
  intros (H1 & H2 & H3 & H4).
  assert (∀ i f, past v i f → past (v <| v_workers ::= delete id |>) i f) as Hp.
  { intros i f [Hi Hf]. split; [done|]. intros pc Hpc. apply Hf.
    change (delete id (v_workers v) !! i = Some pc) in Hpc. by apply lookup_delete_Some in Hpc as [_ Hpc]. }
  split_and!; eauto.
Qed.
Lemma once_push v id w p : v_workers v !! id = Some (Push w p) → (id < v_next v)%nat → once v →
  once (v_goto id (Post w p) (v <| v_queue ::= (λ q, q ++ [mkRequest id w p]) |>)).
Proof.
  intros Hw Hn Ho.
  set (v1 := v_goto id (Post w p) v).
  assert (once v1) as (H1 & H2 & H3 & H4) by by apply (once_goto v id (Push w p)).
  assert (id ∉ tickets v1) as Hi.
  { intros Hi. destruct Ho as (_ & Ho & _). by destruct (Ho id Hi) as [_ Hf]; specialize (Hf _ Hw). }
  assert (tickets (v_goto id (Post w p) (v <| v_queue ::= (λ q, q ++ [mkRequest id w p]) |>)) ≡ₚ id :: tickets v1) as Ht.
  { unfold tickets, v1. view_simpl. rewrite map_app. cbn. rewrite <- app_assoc. cbn. by rewrite <- Permutation_middle. }
  split_and!; try done.
  - rewrite Ht. by constructor.
  - intros i. rewrite Ht. intros [->|Hx]%elem_of_cons; [|by apply H2]. split; [done|]. intros pc.
    change (<[id := Post w p]> (v_workers v) !! id = Some pc → before_push pc = false).
    rewrite lookup_insert_eq. by intros [= <-].
Qed.
Lemma once_respond v id r o : v_workers v !! id = Some (Respond r) → (id < v_next v)%nat → once v →
  once (v_goto id Disconnect (v_note (Responded id (encode_response r) o) v)).
Proof.
  intros Hw Hn Ho. set (v1 := v_goto id Disconnect v).
  assert (once v1) as (H1 & H2 & H3 & H4) by by apply (once_goto v id (Respond r)).
  assert (id ∉ omap responded_id (v_log v)) as Hi.
  { intros Hi. destruct Ho as (_ & _ & _ & Ho). by destruct (Ho id Hi) as [_ Hf]; specialize (Hf _ Hw). }
  split_and!; try done.
  - change (NoDup (id :: omap responded_id (v_log v))). by constructor.
  - intros i. change (i ∈ id :: omap responded_id (v_log v) → past v1 i before_answer).
    intros [->|Hx]%elem_of_cons; [|by apply H4]. split; [done|]. intros pc.
    change (<[id := Disconnect]> (v_workers v) !! id = Some pc → before_answer pc = false).
    rewrite lookup_insert_eq. by intros [= <-].
Qed.

Lemma life_once v v' : bounded v → once v → life v v' → once v'.
Proof.
  intros (_ & _ & _ & Hb) Ho Hl.
  destruct Hl as [v n Hf|v n Hf|v id pc pc' Hi Hm|v id p now Hi|v id f Hi Hm|v id f e Hi|v id w p Hi Hn|v id w p Hi
    |v id w p r q Hi Hv _ _|v id w p r q Hi Hv|v id r o Hi|v id Hi|v n Hv|v Hv Hn|v r q Hv Hn|v r a a' response Hv Hh
    |v id r Hv Hi|v id r Hv|v Hv|v Hv Hn|v r q Hv Hn|v id Hv Hi|v id Hv].
  - by apply once_spawn.
  - unfold v_drop. by destruct (_ <? _)%nat.
  - destruct (move_phases v id pc pc' Hm). by apply (once_goto v id pc).
  - by apply (once_goto (v_note _ v) id (RateLimit p)).
  - by apply (once_goto (v_note _ v) id Read).
  - by apply (once_goto (v_note _ v) id Read).
  - apply once_push; eauto.
  - by apply (once_goto (v <| v_posted ::= S |>) id (Post w p)).
  - apply (once_goto (v <| v_queue := q |>) id (PopBack w p)); try done. apply once_queue; [|done].
    rewrite Hv. by apply sublist_cons.
  - apply once_queue; [|done]. rewrite Hv. by apply sublist_cons.
  - apply once_respond; eauto.
  - by apply once_drop, once_delete.
  - by apply (once_tickets v); try done; unfold tickets; view_simpl.
  - by apply (once_tickets v); try done; unfold tickets; view_simpl.
  - apply (once_tickets v); try done; unfold tickets; view_simpl. by rewrite <- Permutation_middle.
  - by apply (once_tickets v); try done; unfold tickets; view_simpl.
  - by apply (once_tickets v); try done; unfold tickets; view_simpl.
  - by apply (once_tickets v); try done; unfold tickets; view_simpl.
  - by apply (once_tickets v); try done; unfold tickets; view_simpl.
  - by apply (once_tickets v); try done; unfold tickets; view_simpl.
  - apply (once_queue v q) in Ho; [|rewrite Hn; by apply sublist_cons].
    by apply (once_tickets (v <| v_queue := q |>)); try done; unfold tickets; view_simpl.
  - by apply (once_tickets v); try done; unfold tickets; view_simpl.
  - by apply (once_tickets v); try done; unfold tickets; view_simpl.
Qed.

(** ** All of it at once, in every reachable state *)

Lemma start_invariant token : bounded (view_start token) ∧ awake (view_start token) ∧
  justified (view_start token) ∧ once (view_start token).
Proof.
  split_and!.
  - split_and!; [done|done|cbn; lia|]. by intros id [pc Hpc].
  - intros _. cbn. lia.
  - split_and!; try done; apply map_Forall_empty.
  - split_and!; try apply NoDup_nil_2; by intros id Hid%not_elem_of_nil.
Qed.

Lemma reachable_facts token u s : reachable token u s →
  bounded (view s) ∧ awake (view s) ∧ justified (view s) ∧ once (view s).
Proof.
  apply (reachable_invariant (λ v, bounded v ∧ awake v ∧ justified v ∧ once v)); [apply start_invariant|].
  intros v v' (Hb & Ha & Hj & Ho) Hl.
  split_and!; eauto using life_bounded, life_awake, life_justified, life_once.
Qed.
End Facts.
