(* ===== verification/IpcSafety.v ===== *)
(** * IpcSafety: what the IPC server guarantees its clients and the engine

    The theorems about every schedule of the server, and the engine as its UI
    thread. *)
From coqutil Require Import Datatypes.RecordSetters.
From S2P Require Import Prelude Text Core Platform Ownership Wire Files Config Surface Engine EngineTermination.
From S2P Require Import IpcServer IpcProtocol IpcFacts.
Import TriangleBracketNotations.

(** ** The engine behind the queue *)

(** [format!("{status:?}").to_ascii_lowercase()] *)
Definition status_debug (st : TrayStatus) : str :=
  lit match st with
      | TrayStatus.Running => "running" | TrayStatus.Starting => "starting"
      | TrayStatus.ScheduledStart => "scheduledstart" | TrayStatus.Pausing => "pausing"
      | TrayStatus.Stopping => "stopping" | TrayStatus.ScheduledStop => "scheduledstop"
      | TrayStatus.Paused => "paused" | TrayStatus.Pending => "pending" | TrayStatus.Degraded => "degraded"
      | TrayStatus.Unverified => "unverified" | TrayStatus.Stopped => "stopped" | TrayStatus.Blocked => "blocked"
      | TrayStatus.Unsupported => "unsupported" | TrayStatus.Error => "error"
      end%string.

Definition refresh_ipc_status {P : Type} `{TimerPlatform P} {W : Type} `{Desktop W} (a : App P W) : IpcStatusInner :=
  let timing := timing_values a in
  mkStatus (status_debug (lifecycle a))
    (lit match ownership (controller a) with
         | OwnershipState.Owned => "owned"
         | OwnershipState.Released => "released"
         | OwnershipState.Uncertain => "uncertain"
         end%string)
    (if valid timing && negb (tv_invalid_interval timing) then tv_effective timing else None)
    (tv_requested timing).

(** [handle_ipc_command] with the fuel that is enough below the release threshold
    ([EngineTermination]); past it the handler recurses without end. *)
#[export] Instance engine_ui {P : Type} `{TimerPlatform P} {W : Type} `{Desktop W} : UiThread (App P W) := {
  ipc_handle v p a :=
    match handle_ipc_command 10 v p a with
    | (Ok response, a') => Some (response, a')
    | (Err _, _) => None
    end;
  ipc_reply_dropped a := (record (P := P) "ipc.command.reply_dropped" a).2;
  ipc_status := refresh_ipc_status;
}.

Section Safety.
Context {U : Type} `{UiThread U}.
Implicit Types s : Server U.

(** The token never changes. *)
Lemma reachable_token token u s : reachable token u s → session_token s = token.
Proof.
  apply (reachable_invariant (λ v, v_token v = token)); [done|]. intros v v' Ht Hl. rewrite <- Ht.
  destruct Hl; try (unfold v_drop; destruct (_ <? _)%nat); done.
Qed.

Lemma log_ok_app token (post pre : list Event) : log_ok token (post ++ pre) → log_ok token pre.
Proof. induction post as [|e post IH]; [done|]. intros [_ Ht]. by apply IH. Qed.

Lemma omap_once {A B} (f : A → option B) (post pre : list A) a b :
  f a = Some b → NoDup (omap f (post ++ a :: pre)) → b ∉ omap f (post ++ pre).
Proof.
  intros Hf. rewrite !omap_app. cbn. rewrite Hf. intros (H1 & H2 & H3)%NoDup_app. rewrite elem_of_app.
  inversion H3; subst. intros [Hp|Hp]; [|done]. apply (H2 b Hp). by left.
Qed.

(** C12: a command reaches the application only from a connection the limiter let
    in, which sent a frame with the session's token, this verb and this payload,
    both acceptable; it is run once, and not from a status query. *)
Theorem ipc_commands_authorized token u s post pre id w p r :
  reachable token u s → trace s = post ++ Executed id w p r :: pre →
  (∃ c now f, Allowed id c now ∈ pre ∧ Received id f ∈ pre ∧ matches (frame_token f) token = true ∧
     verb f = w ∧ payload f = p ∧ acceptable w p = true) ∧
  (∃ a a', ipc_handle w p a = Some (r, a')) ∧
  id ∉ omap executed_id (post ++ pre).
Proof.
  intros Hr Ht. pose proof (reachable_facts token u s Hr) as (_ & _ & (_ & _ & _ & _ & Hl) & (Hn & _)).
  change (v_token (view s)) with (session_token s) in Hl. change (v_log (view s)) with (trace s) in Hl.
  rewrite (reachable_token _ _ _ Hr), Ht in Hl. apply log_ok_app in Hl as [[Hc Hh] _]. split_and!; [done..|].
  unfold tickets in Hn. rewrite app_assoc in Hn. apply NoDup_app in Hn as (_ & _ & Hn).
  change (v_log (view s)) with (trace s) in Hn. rewrite Ht in Hn.
  by apply (omap_once executed_id post pre (Executed id w p r) id) in Hn.
Qed.


(** C14: permits are neither lost nor returned twice, so at most eight workers run;
    the queue never holds more than 64 commands; and when the UI thread is idle
    with no message pending and no worker between its push and its post, no
    command is left in the queue. *)
Theorem ipc_resources token u s : reachable token u s →
  (available s + size (workers s) = MAX_CONCURRENT_WORKERS)%nat ∧ over_release s = 0 ∧
  (length (queue s) ≤ MAX_PENDING_IPC_COMMANDS)%nat ∧
  (ui s = Idle → posted s = 0%nat → map_Forall (λ _ pc, posting pc = false) (workers s) → queue s = []).
Proof.
  intros Hr. pose proof (reachable_facts token u s Hr) as ((H1 & H2 & H3 & _) & Ha & _). split_and!; try done.
  intros Hu Hp Hf. specialize (Ha Hu). change (v_posted (view s)) with (posted s) in Ha.
  change (v_workers (view s)) with (workers s) in Ha. change (v_queue (view s)) with (queue s) in Ha.
  assert (posters (workers s) = ∅) as He.
  { apply map_empty. intros i. apply map_lookup_filter_None. right. intros pc Hi. cbn. by rewrite (Hf i pc Hi). }
  rewrite Hp, He, map_size_empty in Ha. apply length_zero_iff_nil. lia.
Qed.

(** ** A connection ends *)

Definition rank (pc : Pc) : nat :=
  match pc with
  | WaitClient => 12 | ClientPid => 11 | RateLimit _ => 10 | Read => 9 | Dispatch _ => 8 | Forward _ _ => 7
  | Push _ _ => 6 | Post _ _ => 5 | PopBack _ _ => 4 | Await => 4 | Respond _ => 3 | Disconnect => 2 | Close => 1
  end.
Definition effort s (id : nat) : nat :=
  match workers s !! id with Some pc => 2 * rank pc + length (queue s) | None => 0 end.

Lemma effort_goto s id pc : effort (goto id pc s) id = (2 * rank pc + length (queue s))%nat.
Proof. unfold effort, goto. cbn. by rewrite lookup_insert_eq. Qed.
Lemma dispatch_rank st f : (rank (dispatch_command st f) ≤ 7)%nat.
Proof. unfold dispatch_command. repeat case_match; cbn; lia. Qed.

Lemma effort_closed s id : workers s !! id = None → effort s id = 0%nat.
Proof. unfold effort. by intros ->. Qed.
Lemma workers_drop s : workers (drop_permit s) = workers s.
Proof. unfold drop_permit. by destruct (_ <? _)%nat. Qed.

(** Every step of a worker's own brings its end closer. *)
Lemma worker_step_effort id io s s' : worker_step id io s = Some s' → (effort s' id < effort s id)%nat.
Proof.
  unfold worker_step, forward_to_ui_thread, handle_pipe_connection. destruct (workers s !! id) as [pc|] eqn:Ew; [|done]. cbn [mbind option_bind].
  assert (effort s id = (2 * rank pc + length (queue s))%nat) as -> by (unfold effort; by rewrite Ew).
  destruct pc, io; try done; cbn [rank]; intros Hs;
    unfold push, pop in Hs; repeat (case_match; try done); simplify_eq; rewrite ?effort_goto;
    try match goal with |- context [drop_permit _] =>
      rewrite effort_closed by (rewrite workers_drop; apply lookup_delete_eq) end;
    try match goal with |- context [dispatch_command ?st ?f] => pose proof (dispatch_rank st f) end;
    repeat match goal with s : Server _ |- _ => destruct s end; unfold note, constant, effort in *; cbn -[Nat.mul] in *; subst; rewrite ?Ew, ?length_app;
    cbn -[Nat.mul]; lia.
Qed.

(** ... and it always has one, whatever the other threads do: no call it makes
    waits for long. *)
Lemma worker_progress id s : is_Some (workers s !! id) → ∃ io s', worker_step id io s = Some s'.
Proof.
  intros [pc Hpc]. unfold worker_step, forward_to_ui_thread, handle_pipe_connection. rewrite Hpc. cbn [mbind option_bind].
  destruct pc.
  - exists (IoConnect (mkConnect false false 0 0)). eauto.
  - exists (IoPid None). eauto.
  - exists (IoClock 0). destruct (limiter_poisoned s); [eauto|]. destruct (check_and_record _ _ _) as [[]]; eauto.
  - exists (IoRead (mkRead false false 0 0 false [])). cbn. eauto.
  - exists IoNone. eauto.
  - exists IoNone. eauto.
  - exists IoNone. destruct (push _ s). eauto.
  - exists (IoPost false). eauto.
  - exists IoNone. unfold pop. destruct (queue s); [eauto|]. destruct (_ && _); eauto.
  - destruct (replies s !! id) eqn:Er; [exists IoNone; rewrite ?Er; eauto|].
    destruct (sender_alive id s) eqn:Es; [exists IoTimeout|exists IoNone]; rewrite ?Es; eauto.
  - exists (IoWrite (mkWrite false false 0 0)). eauto.
  - exists IoNone. eauto.
  - exists IoNone. eauto.
Qed.


Lemma run_app l1 l2 s : IpcServer.run (l1 ++ l2) s = IpcServer.run l1 s ≫= IpcServer.run l2.
Proof.
  revert s. induction l1 as [|a l1 IH]; intros s; cbn; [done|]. destruct (step a s); cbn; [apply IH|done].
Qed.

(** ** When the message cannot be posted *)

Definition same_command (v : CommandVerb) (p : bytes) (r : IpcCommandRequest) : bool :=
  bool_decide (req_verb r = v) && bool_decide (req_payload r = p).

Lemma pop_back_step id v p r q s : workers s !! id = Some (PopBack v p) → queue s = r :: q →
  worker_step id IoNone s = Some (if same_command v p r then goto id (Respond transport_lost) (s <| queue := q |>)
                                  else s <| queue := q |>).
Proof.
  intros Hw Hq. unfold worker_step, forward_to_ui_thread, pop. rewrite Hw. cbn [mbind option_bind]. rewrite Hq.
  unfold same_command. by destruct (_ && _).
Qed.

(** A worker whose message could not be posted takes requests off the queue
    until one has its own verb and payload: every request in front of that one,
    whoever sent it, is dropped without being run, and the one removed may be
    another client's. *)
Theorem failed_post_discards s id v p l r rest :
  workers s !! id = Some (PopBack v p) → queue s = l ++ r :: rest →
  Forall (λ x, same_command v p x = false) l → same_command v p r = true →
  ∃ s', IpcServer.run (replicate (S (length l)) (WorkerAct id IoNone)) s = Some s' ∧
    queue s' = rest ∧ workers s' = <[id := Respond transport_lost]> (workers s) ∧ trace s' = trace s ∧
    posted s' = posted s ∧ ui s' = ui s ∧ replies s' = replies s.
Proof.
  intros Hw Hq Hl Hr. revert s Hw Hq. induction Hl as [|x l Hx _ IH]; intros s Hw Hq.
  - cbn. rewrite (pop_back_step id v p r rest s Hw Hq), Hr. eexists. done.
  - destruct (IH (s <| queue := l ++ r :: rest |>)) as (s' & Hs & H'); [exact Hw|by destruct s|].
    exists s'. split; [|exact H']. rewrite <- Hs. cbn [length replicate IpcServer.run step].
    by rewrite (pop_back_step id v p x (l ++ r :: rest) s Hw Hq), Hx.
Qed.

(** ** The accept loop while every permit is held *)

Definition accept_round (now : Z) : list Action :=
  [AcceptAct (Created (Ok tt)); AcceptAct (Spawned true); AcceptAct (PrunedAt now)].

Lemma saturated_round now s : accept s = AcceptTop → running s = true → available s = 0%nat →
  ∃ s', IpcServer.run (accept_round now) s = Some s' ∧ accept s' = AcceptTop ∧ running s' = true ∧
    available s' = 0%nat ∧ workers s' = workers s ∧ rejections s' = wrap 64 (rejections s + 1).
Proof.
  destruct s. cbn. intros -> -> ->. unfold constant. cbn.
  destruct (connection_count mod 8 =? 0); eexists; split_and!; done.
Qed.

(** With every permit held the accept loop comes back to its top without a
    pause: it creates a pipe instance, closes it, counts a rejection and starts
    over, as often as it gets to run, whether or not a client is there. *)
Theorem saturated_loop_spins n s now : accept s = AcceptTop → running s = true → available s = 0%nat →
  is_u64 (rejections s) →
  ∃ s', IpcServer.run (concat (replicate n (accept_round now))) s = Some s' ∧
    accept s' = AcceptTop ∧ workers s' = workers s ∧ rejections s' = wrap 64 (rejections s + Z.of_nat n).
Proof.
  revert s. induction n as [|n IH]; intros s Ha Hr Hf Hu.
  - exists s. split_and!; try done. by rewrite Z.add_0_r, wrap_id.
  - destruct (saturated_round now s Ha Hr Hf) as (s1 & H1 & Ha1 & Hr1 & Hf1 & Hw1 & Hj1).
    destruct (IH s1 Ha1 Hr1 Hf1) as (s' & H2 & Ha2 & Hw2 & Hj2).
    { rewrite Hj1. by apply wrap_bound. }
    exists s'. split_and!; [|done|by rewrite Hw2|].
    + cbn [replicate concat]. rewrite run_app, H1. exact H2.
    + rewrite Hj2, Hj1. unfold wrap. rewrite Zplus_mod_idemp_l. f_equal. lia.
Qed.
End Safety.

(** ** The engine behind the server: schedules *)

Section Schedules.
#[local] Existing Instance single_client_kernel.
#[local] Existing Instance sample_desktop.

Definition sample_token : SessionToken := mkToken (replicate 32 7).
Definition sample_server := server_start sample_token sample_app.

(** A client connects, sends the frame and its command is queued. *)
Definition client (id : nat) (f : IpcFrame) : list Action :=
  accept_round 0 ++ map (WorkerAct id)
    [IoConnect (mkConnect true true 0 0); IoPid (Some (Z.of_nat id)); IoClock 0;
     IoRead (mkRead true true 0 0 false (serialize f)); IoNone; IoNone; IoNone].
(** The UI thread runs one queued command. *)
Definition drain_one : list Action := map UiAct [Continue; Continue; Continue].
Definition drained : list Action := UiAct Deliver :: drain_one ++ [UiAct Continue].
(** The worker hears of it and answers. *)
Definition answered (id : nat) : list Action :=
  map (WorkerAct id) [IoNone; IoWrite (mkWrite true true 0 0); IoNone; IoNone].

Definition acquire_frame : IpcFrame := mkFrame sample_token CommandVerb.RequestAcquire [].
Definition release_frame : IpcFrame := mkFrame sample_token CommandVerb.RequestRelease [].

Definition acquire_schedule : list Action :=
  client 0 acquire_frame ++ [WorkerAct 0 (IoPost true)] ++ drained ++ answered 0.
Definition final (l : list Action) := default sample_server (IpcServer.run l sample_server).
Lemma final_reachable l : bool_decide (is_Some (IpcServer.run l sample_server)) = true →
  reachable sample_token sample_app (final l).
Proof. rewrite bool_decide_eq_true. intros [s Hs]. exists l. unfold final, sample_server in *. by rewrite Hs. Qed.

Example acquire_over_ipc :
  trace (final acquire_schedule) =
    [Responded 0 (encode_response (IpcResponse.Acquired 5000)) Flushed;
     Executed 0 CommandVerb.RequestAcquire [] (IpcResponse.Acquired 5000);
     Received 0 acquire_frame; Allowed 0 0 0].
Proof. vm_compute. reflexivity. Qed.

(** A status query is answered from the snapshot of the last publication, without
    the UI thread. *)
Example status_over_ipc :
  head (trace (final (acquire_schedule ++ [UiAct Publish] ++
    accept_round 0 ++ map (WorkerAct 1)
      [IoConnect (mkConnect true true 0 0); IoPid (Some 9); IoClock 0;
       IoRead (mkRead true true 0 0 false (serialize (mkFrame sample_token CommandVerb.QueryStatus []))); IoNone;
       IoWrite (mkWrite true true 0 0)]))) =
    Some (Responded 1 (encode_response (IpcResponse.Status
      (lit "status=running ownership=owned effective_hns=5000 requested_hns=5000"))) Flushed).
Proof. vm_compute. reflexivity. Qed.

Lemma ipc_commands_authorized_witness :
  ∃ c now f, Allowed 0 c now ∈ [Received 0 acquire_frame; Allowed 0 0 0] ∧
    Received 0 f ∈ [Received 0 acquire_frame; Allowed 0 0 0] ∧ matches (frame_token f) sample_token = true ∧
    verb f = CommandVerb.RequestAcquire ∧ payload f = [] ∧ acceptable CommandVerb.RequestAcquire [] = true.
Proof.
  apply (ipc_commands_authorized sample_token sample_app (final acquire_schedule)
    [Responded 0 (encode_response (IpcResponse.Acquired 5000)) Flushed]
    [Received 0 acquire_frame; Allowed 0 0 0] 0 CommandVerb.RequestAcquire [] (IpcResponse.Acquired 5000)).
  - apply final_reachable. vm_compute. reflexivity.
  - vm_compute. reflexivity.
Defined.


Lemma ipc_resources_witness : queue (final acquire_schedule) = [].
Proof.
  apply (ipc_resources sample_token sample_app (final acquire_schedule)).
  - apply final_reachable. vm_compute. reflexivity.
  - vm_compute. reflexivity.
  - vm_compute. reflexivity.
  - assert (workers (final acquire_schedule) = ∅) as -> by (vm_compute; reflexivity). apply map_Forall_empty.
Defined.

(** Client 0's acquisition is queued and its message posted; client 1's message
    cannot be posted.  Client 0's command is dropped: it is answered with an error
    although its own message was delivered, and the timer is not acquired. *)
Definition posting_fails : list Action :=
  client 0 acquire_frame ++ [WorkerAct 0 (IoPost true)] ++ client 1 release_frame ++ [WorkerAct 1 (IoPost false)].

Lemma failed_post_discards_witness :
  let s := final posting_fails in
  ∃ s', IpcServer.run (replicate 2 (WorkerAct 1 IoNone)) s = Some s' ∧ queue s' = [] ∧ trace s' = trace s.
Proof.
  intros s. destruct (failed_post_discards s 1 CommandVerb.RequestRelease []
    [mkRequest 0 CommandVerb.RequestAcquire []] (mkRequest 1 CommandVerb.RequestRelease []) [])
    as (s' & Hs & Hq & _ & Ht & _).
  - vm_compute. reflexivity.
  - vm_compute. reflexivity.
  - by apply Forall_singleton.
  - reflexivity.
  - exists s'. exact (conj Hs (conj Hq Ht)).
Defined.

Example bystander_dropped :
  trace (final (posting_fails ++ replicate 2 (WorkerAct 1 IoNone) ++ [UiAct Deliver; UiAct Continue] ++ answered 0)) =
    [Responded 0 (encode_response transport_lost) Flushed;
     Received 1 release_frame; Allowed 1 1 0; Received 0 acquire_frame; Allowed 0 0 0].
Proof. vm_compute. reflexivity. Qed.

(** Two clients send the same command and the second one's message cannot be
    posted: the first one's request is taken back instead.  The first is told its
    command failed; the second is told the same, and its command runs. *)
Example refused_command_runs :
  trace (final (client 0 acquire_frame ++ [WorkerAct 0 (IoPost true)] ++
    client 1 acquire_frame ++ [WorkerAct 1 (IoPost false); WorkerAct 1 IoNone;
    WorkerAct 1 (IoWrite (mkWrite true true 0 0))] ++ drained ++ answered 0)) =
    [Responded 0 (encode_response transport_lost) Flushed;
     Executed 1 CommandVerb.RequestAcquire [] (IpcResponse.Acquired 5000);
     Responded 1 (encode_response transport_lost) Flushed;
     Received 1 acquire_frame; Allowed 1 1 0; Received 0 acquire_frame; Allowed 0 0 0].
Proof. vm_compute. reflexivity. Qed.

(** No client has connected yet: eight workers wait for one, each for half a
    second, and the accept loop is already creating and closing instances. *)
Lemma saturated_loop_spins_witness :
  let s := final (concat (replicate 8 (accept_round 0))) in
  ∃ s', IpcServer.run (concat (replicate 1000 (accept_round 0))) s = Some s' ∧
    accept s' = AcceptTop ∧ workers s' = workers s ∧ rejections s' = 1000.
Proof.
  intros s. assert (rejections s = 0) as Hz by (vm_compute; reflexivity).
  destruct (saturated_loop_spins 1000 s 0) as (s' & H1 & H2 & H3 & H4).
  - vm_compute. reflexivity.
  - vm_compute. reflexivity.
  - vm_compute. reflexivity.
  - rewrite Hz. split; vm_compute; congruence.
  - rewrite Hz in H4. exists s'. exact (conj H1 (conj H2 (conj H3 H4))).
Defined.
End Schedules.
