(* ===== verification/PipeClient.v ===== *)
(** * PipeClient: the named pipe client of tick-ipc

    [windows_pipe] of [tick-ipc/src/lib.rs]: the connect loop and one exchange,
    over what the operating system answers to each call. *)
From S2P Require Import Prelude Text Core Files Wire.

Definition CLIENT_ERROR_PIPE_BUSY : Z := 231.
Definition CLIENT_ERROR_IO_PENDING : Z := 997.
Definition CLIENT_WAIT_OBJECT_0 : Z := 0.
(** The largest frame: the client's read buffer. *)
Definition REPLY_BUFFER_LEN : nat := 4 + 2 + 2 + TOKEN_LEN + 4 + MAX_PAYLOAD_LEN + 4.

(** [io::Error::last_os_error()]; only its code is read afterwards. *)
Definition last_os_error (code : Z) : IoError := mkIo IoKind.Other (Some code).

(** ** Connecting *)

(** One turn of the loop: [CreateFileW] gave a handle, the result of
    [SetNamedPipeHandleState], the last error, and the result of
    [WaitNamedPipeW]. *)
Record ConnectTurn := mkTurn { opened : bool; mode_set : bool; turn_error : Z; waited : bool }.

(** [None]: the turns seen so far leave the loop waiting for a free instance. *)
Fixpoint connect (turns : list ConnectTurn) : option (result IoError unit) :=
  match turns with
  | [] => None
  | t :: rest =>
      if opened t then Some (if mode_set t then Ok tt else Err (last_os_error (turn_error t)))
      else if negb (turn_error t =? CLIENT_ERROR_PIPE_BUSY) then Some (Err (last_os_error (turn_error t)))
      else if negb (waited t) then Some (Err (last_os_error (turn_error t)))
      else connect rest
  end.

(** ** One exchange *)

(** An overlapped call: an event was created, the call's result, the last error,
    what the wait gave, [GetOverlappedResult] and the bytes moved. *)
Record Overlapped := mkOverlapped {
  event_made : bool; finished : bool; call_error : Z; drain_wait : Z; drained_ok : bool; moved : Z;
}.

Definition timed_out : IoError := mkIo IoKind.Other None.
Definition drain_overlapped (o : Overlapped) : result IoError Z :=
  if negb (drain_wait o =? CLIENT_WAIT_OBJECT_0) then Err timed_out
  else if drained_ok o then Ok (moved o) else Err (last_os_error (call_error o)).

(** The bytes an overlapped read or write moved. *)
Definition overlapped_call (o : Overlapped) : result IoError Z :=
  if negb (event_made o) then Err (last_os_error (call_error o))
  else if finished o then Ok (moved o)
  else if negb (call_error o =? CLIENT_ERROR_IO_PENDING) then Err (last_os_error (call_error o))
  else drain_overlapped o.

Definition from_io {T} (r : result IoError T) : result IpcError T :=
  match r with Ok x => Ok x | Err e => Err (ipc_error_of_io (raw_os_error e)) end.

Definition write_zero : IoError := mkIo IoKind.Other None.

(** What is sent, and what the exchange returns when [reply] holds the bytes the
    read left in the buffer. *)
Definition request_bytes (t : SessionToken) (v : CommandVerb) (p : bytes) : result IpcError bytes :=
  serialize <$> frame_new t v p.

Definition exchange (t : SessionToken) (v : CommandVerb) (p : bytes) (write read : Overlapped) (reply : bytes)
    : result IpcError IpcResponse :=
  sent ← request_bytes t v p;
  written ← from_io (overlapped_call write);
  if negb (written =? Z.of_nat (length sent)) then from_io (Err write_zero)
  else
    n ← from_io (overlapped_call read);
    decode_response (take (Z.to_nat n) reply).

(** An exchange with no failing call returns what the server's answer encodes. *)
Lemma exchange_answer t v p write read sent r :
  request_bytes t v p = Ok sent → overlapped_call write = Ok (Z.of_nat (length sent)) →
  overlapped_call read = Ok (Z.of_nat (length (encode_response r))) →
  exchange t v p write read (encode_response r) = decode_response (encode_response r).
Proof.
  intros Hs Hw Hr. unfold exchange. rewrite Hs. cbn [mbind result_bind]. rewrite Hw. cbn [from_io mbind result_bind].
  rewrite Z.eqb_refl. cbn [negb]. rewrite Hr. cbn [from_io mbind result_bind]. by rewrite Nat2Z.id, take_ge.
Qed.
