(* ===== verification/Cli.v ===== *)
(** * Cli: the command line client

    [apps/true-tick-cli/src/main.rs]: the arguments, the request each of them
    becomes, the exchange with the server, the daemon launch and the log tail.
    The pipe, the spawned process and the clock belong to the host, which may
    also change the file system while the client waits for it. *)
From S2P Require Import Prelude Text Hex Core Files Wire PipeClient.

Definition VERSION : str := lit "0.1.0".
Definition PIPE_BUSY_RETRY_MS : Z := 250 + 250.
Definition EXIT_OK : Z := 0.
Definition EXIT_FAILURE : Z := 1.
Definition EXIT_UNREACHABLE : Z := 2.
Definition DEFAULT_LOG_TAIL : Z := 20.
Definition LOG_FILE_PREFIX : str := lit "true-tick-".
Definition LOG_FILE_SUFFIX : str := lit ".csv".
Definition DAEMON_TOKEN_TIMEOUT_MS : Z := 10000.
Definition DAEMON_TOKEN_POLL_MS : Z := 50.
Definition SERVER_PID_FILE_NAME : str := lit "ipc-server-pid".

(** [Duration::from_millis], in nanoseconds. *)
Definition millis (ms : Z) : Z := ms * 1000000.

(** ** Requests *)

Module CliRequest.
Inductive CliRequest :=
| Status (json : bool)
| Start (interval_hns : option Z)
| Stop
| Schedule (kind : ScheduleActionKind) (seconds : Z)
| Cancel (action_id : option Z)
| Daemon
| Logs (tail : Z) (date : option str)
| Help
| Version.
End CliRequest.
Abbreviation CliRequest := CliRequest.CliRequest.

Module CliParseError.
Inductive CliParseError :=
| MissingSubcommand
| UnknownSubcommand (name : str)
| MissingArgument (what : str)
| InvalidArgument (what : str).
End CliParseError.
Abbreviation CliParseError := CliParseError.CliParseError.

Module RunError.
Inductive RunError := Failure (message : str) | Unreachable (message : str).
End RunError.
Abbreviation RunError := RunError.RunError.

Definition exit_code (e : RunError) : Z :=
  match e with RunError.Failure _ => EXIT_FAILURE | RunError.Unreachable _ => EXIT_UNREACHABLE end.

(** A text between back quotes. *)
Definition quoted (what : str) (s : str) : str := what ++ lit " `" ++ s ++ lit "`".

Definition describe_parse_error (e : CliParseError) : str :=
  match e with
  | CliParseError.MissingSubcommand => lit "missing subcommand"
  | CliParseError.UnknownSubcommand name => quoted (lit "unknown subcommand") name
  | CliParseError.MissingArgument what => lit "missing argument " ++ what
  | CliParseError.InvalidArgument what => lit "invalid argument " ++ what
  end.

(** ** Arguments *)

Fixpoint extract_root_from (root : option str) (rest : list str) (args : list str)
    : result CliParseError (option str * list str) :=
  match args with
  | [] => Ok (root, rest)
  | a :: t =>
      if str_eqb a (lit "--root") then
        match t with
        | [] => Err (CliParseError.MissingArgument (lit "--root <path>"))
        | value :: t => extract_root_from (Some value) rest t
        end
      else extract_root_from root (rest ++ [a]) t
  end.
Definition extract_root (args : list str) : result CliParseError (option str * list str) :=
  extract_root_from None [] args.

Definition expect_no_args (rest : list str) (request : CliRequest) : result CliParseError CliRequest :=
  match rest with [] => Ok request | extra :: _ => Err (CliParseError.InvalidArgument extra) end.

Definition parse_schedule_action (name : str) : option ScheduleActionKind :=
  if str_eqb name (lit "start-in") then Some ScheduleActionKind.Start
  else if str_eqb name (lit "stop-in") then Some ScheduleActionKind.Stop
  else if str_eqb name (lit "pause") then Some ScheduleActionKind.Pause
  else None.

(** The bytes 4 and 7 are dashes and the others digits. *)
Definition valid_log_date (value : str) : bool :=
  match utf8_encode value with
  | [y1; y2; y3; y4; d1; m1; m2; d2; a; b] =>
      (d1 =? 45) && (d2 =? 45) && forallb is_ascii_digit [y1; y2; y3; y4; m1; m2; a; b]
  | _ => false
  end.

Fixpoint parse_status (json : bool) (rest : list str) : result CliParseError CliRequest :=
  match rest with
  | [] => Ok (CliRequest.Status json)
  | a :: t =>
      if str_eqb a (lit "--json") then parse_status true t else Err (CliParseError.InvalidArgument a)
  end.

Fixpoint parse_start (interval : option Z) (rest : list str) : result CliParseError CliRequest :=
  match rest with
  | [] => Ok (CliRequest.Start interval)
  | a :: t =>
      if str_eqb a (lit "--interval") then
        match t with
        | [] => Err (CliParseError.MissingArgument (lit "--interval <hns>"))
        | value :: t =>
            match parse_u 64 value with
            | None => Err (CliParseError.InvalidArgument (quoted (lit "--interval") value))
            | Some hns => parse_start (Some hns) t
            end
        end
      else Err (CliParseError.InvalidArgument a)
  end.

Fixpoint parse_logs (tail : Z) (date : option str) (rest : list str) : result CliParseError CliRequest :=
  match rest with
  | [] => Ok (CliRequest.Logs tail date)
  | a :: t =>
      if str_eqb a (lit "--tail") then
        match t with
        | [] => Err (CliParseError.MissingArgument (lit "--tail <n>"))
        | value :: t =>
            match parse_u 64 value with
            | None => Err (CliParseError.InvalidArgument (quoted (lit "--tail") value))
            | Some n => parse_logs n date t
            end
        end
      else if str_eqb a (lit "--date") then
        match t with
        | [] => Err (CliParseError.MissingArgument (lit "--date <yyyy-mm-dd>"))
        | value :: t =>
            if negb (valid_log_date value) then Err (CliParseError.InvalidArgument (quoted (lit "--date") value))
            else parse_logs tail (Some value) t
        end
      else Err (CliParseError.InvalidArgument a)
  end.

Definition parse_cancel (rest : list str) : result CliParseError CliRequest :=
  match rest with
  | _ :: extra :: _ => Err (CliParseError.InvalidArgument extra)
  | [id_text] =>
      match parse_u 32 id_text with
      | Some id => Ok (CliRequest.Cancel (Some id))
      | None => Err (CliParseError.InvalidArgument (quoted (lit "cancel action id") id_text))
      end
  | [] => Ok (CliRequest.Cancel None)
  end.

Definition parse_schedule (rest : list str) : result CliParseError CliRequest :=
  match rest with
  | [] => Err (CliParseError.MissingArgument (lit "schedule <start-in|stop-in|pause> <seconds>"))
  | action :: rest =>
      match parse_schedule_action action with
      | None => Err (CliParseError.InvalidArgument (quoted (lit "schedule action") action))
      | Some kind =>
          match rest with
          | [] => Err (CliParseError.MissingArgument (lit "schedule <seconds>"))
          | seconds_text :: rest =>
              match parse_u 32 seconds_text with
              | None => Err (CliParseError.InvalidArgument (quoted (lit "schedule seconds") seconds_text))
              | Some seconds =>
                  match rest with
                  | extra :: _ => Err (CliParseError.InvalidArgument extra)
                  | [] => Ok (CliRequest.Schedule kind seconds)
                  end
              end
          end
      end
  end.

Definition parse_args (args : list str) : result CliParseError CliRequest :=
  match args with
  | [] => Err CliParseError.MissingSubcommand
  | subcommand :: rest =>
      if str_eqb subcommand (lit "status") then parse_status false rest
      else if str_eqb subcommand (lit "start") then parse_start None rest
      else if str_eqb subcommand (lit "stop") then expect_no_args rest CliRequest.Stop
      else if str_eqb subcommand (lit "cancel") then parse_cancel rest
      else if str_eqb subcommand (lit "daemon") then expect_no_args rest CliRequest.Daemon
      else if str_eqb subcommand (lit "schedule") then parse_schedule rest
      else if str_eqb subcommand (lit "logs") then parse_logs DEFAULT_LOG_TAIL None rest
      else if str_eqb subcommand (lit "help") then expect_no_args rest CliRequest.Help
      else if str_eqb subcommand (lit "version") then expect_no_args rest CliRequest.Version
      else Err (CliParseError.UnknownSubcommand subcommand)
  end.

(** [acquire_payload] *)
Definition acquire_payload (interval_hns : option Z) : result RunError bytes :=
  match interval_hns with
  | Some hns =>
      match encode_interval_payload hns with
      | Ok p => Ok p
      | Err e => Err (RunError.Failure (lit "invalid --interval value " ++ show_u hns ++ lit ": " ++ ipc_error_display e))
      end
  | None => Ok []
  end.

(** ** Status as JSON *)

(** [{:04x}] *)
Definition hex4 (n : Z) : str :=
  map Hex.hex_digit [n / 4096 mod 16; n / 256 mod 16; n / 16 mod 16; n mod 16].

Definition escape_char (c : Z) : str :=
  if c =? 34 then [92; 34]
  else if c =? 92 then [92; 92]
  else if c =? 10 then lit "\n"
  else if c =? 13 then lit "\r"
  else if c =? 9 then lit "\t"
  else if c <? 32 then lit "\u" ++ hex4 c
  else [c].
Definition json_escape (s : str) : str := flat_map escape_char s.

Definition json_string (s : str) : str := [34] ++ json_escape s ++ [34].

(** The member of one token; [None]: the token is passed over. *)
Definition status_member (token : str) : option str :=
  match split_once 61 token with
  | None => None
  | Some (key, value) =>
      if str_eqb value (lit "unknown") then None
      else Some (json_string key ++ lit ":" ++
        match parse_u 64 value with Some n => show_u n | None => json_string value end)
  end.
Fixpoint status_body (first : bool) (tokens : list str) : str :=
  match tokens with
  | [] => []
  | t :: rest =>
      match status_member t with
      | None => status_body first rest
      | Some member => (if first then [] else lit ",") ++ member ++ status_body false rest
      end
  end.
Definition status_json (text : str) : str := lit "{" ++ status_body true (split_whitespace text) ++ lit "}".

(** ** The log tail *)

Definition tail_lines (text : str) (count : Z) : list str :=
  let ls := lines text in
  drop (Z.to_nat (sat_sub (Z.of_nat (length ls)) count)) ls.

(** ** Paths *)

Definition token_path (root : path) : path := root ++ [lit "Data"; lit "state"; TOKEN_FILE_NAME].
Definition server_pid_path (root : path) : path := root ++ [lit "Data"; lit "state"; SERVER_PID_FILE_NAME].
Definition log_directory (root : path) : path := root ++ [lit "Data"; lit "logs"].
Definition daily_log_path (root : path) (date : str) : path :=
  log_directory root ++ [LOG_FILE_PREFIX ++ date ++ LOG_FILE_SUFFIX].

Definition daemon_candidates (root executable : path) : list path :=
  let beside := match path_parent executable with Some d => [d] | None => [] end in
  map (λ d, path_join d (lit "true-tick.exe")) beside ++
  [path_join root (lit "true-tick.exe")] ++
  map (λ slot, root ++ [lit "Slots"; lit slot; lit "true-tick.exe"]) ["A"; "B"]%string ++
  map (λ d, path_join d (lit "Launcher.exe"))
    (beside ++ (if bool_decide (root ∈ beside) then [] else [root])).

(** ** The usage text *)

Definition usage_lines : list str :=
  [lit "true-tick-cli - command line control surface for a running True Tick tray";
   lit "";
   lit "USAGE:";
   lit "    true-tick-cli [--root <path>] <subcommand> [options]";
   lit "";
   lit "GLOBAL OPTIONS:";
   lit "    --root <path>   Application data root holding the Data directory.";
   lit "                    Defaults to the directory containing this executable.";
   lit "";
   lit "SUBCOMMANDS:";
   lit "    status [--json]            Query tray status. --json prints {" ++ [34] ++ lit "status" ++ [34] ++ lit ": " ++ [34] ++ lit "..." ++ [34] ++ lit "}.";
   lit "    start [--interval <hns>]   Acquire the timer. Interval is in 100-nanosecond";
   lit "                               units. Omit it for automatic selection.";
   lit "    stop                       Release the timer.";
   lit "    schedule <start-in|stop-in|pause> <seconds>";
   lit "                               Arm a timed start, stop, or pause action.";
   lit "                               Seconds must be within [10, 86400].";
   lit "    cancel [action-id]          Cancel a pending scheduled action. Without";
   lit "                               an id every pending action is cleared.";
   lit "    daemon                     Launch the headless background engine.";
   lit "                               Exits quietly when an instance is already up.";
   lit "    logs [--tail N] [--date YYYY-MM-DD]";
   lit "                               Print the last N lines of the daily CSV log.";
   lit "                               Defaults to N=20 and the current UTC date.";
   lit "                               Reads the file directly, no tray needed.";
   lit "    help                       Print this usage text.";
   lit "    version                    Print the version.";
   lit "";
   lit "EXIT CODES:";
   lit "    0   Success.";
   lit "    1   Command, usage, parse, or protocol error.";
   lit "    2   Tray cannot be reached or the session token file cannot be";
   lit "        read, meaning the application is not running."].
Definition usage : str := unlines usage_lines.

(** ** The host *)

(** What the client asks of the system: the pipe client of [PipeClient], the
    process serving the pipe, a new process and its directory, the clocks.  Other
    processes, the engine among them, may change the files meanwhile. *)
Class CliHost (W : Type) := {
  pipe_connect : comp (Fs * W) IoError unit;
  pipe_exchange : SessionToken → CommandVerb → bytes → comp (Fs * W) IpcError IpcResponse;
  serving_pid : comp (Fs * W) IoError Z;
  spawn : path → path → comp (Fs * W) IoError unit;
  sleep : Z → Fs * W → Fs * W;
  instant_now : W → Z * W;
  unix_seconds : W → Z * W;
}.
(** One turn of the loop of [serving_pipe_pid]. *)
Record PidTurn := mkPidTurn { pid_opened : bool; pid_read : option Z; pid_error : Z; pid_waited : bool }.
Fixpoint serving_pipe_pid (turns : list PidTurn) : option (result IoError Z) :=
  match turns with
  | [] => None
  | t :: rest =>
      if pid_opened t then Some (match pid_read t with Some p => Ok p | None => Err (last_os_error (pid_error t)) end)
      else if negb (pid_error t =? CLIENT_ERROR_PIPE_BUSY) then Some (Err (last_os_error (pid_error t)))
      else if negb (pid_waited t) then Some (Err (last_os_error (pid_error t)))
      else serving_pipe_pid rest
  end.

Section Run.
Context {W : Type} `{CliHost W} `{IoDisplay} `{PathDisplay} `{PathParse}.

(** The files, the host and the texts printed so far. *)
Record Cli := mkCli { cli_fs : Fs; cli_host : W; out : list str; err : list str }.
Abbreviation C := (comp Cli RunError).

Definition on_host {E T} (m : comp (Fs * W) E T) : comp Cli E T := λ c,
  let '(r, (f, w)) := m (cli_fs c, cli_host c) in (r, mkCli f w (out c) (err c)).
Definition on_fs {E T} (m : comp Fs E T) : comp Cli E T := λ c,
  let '(r, f) := m (cli_fs c) in (r, mkCli f (cli_host c) (out c) (err c)).
Definition on_clock {E T} (f : W → T * W) : comp Cli E T := λ c,
  let '(x, w) := f (cli_host c) in (Ok x, mkCli (cli_fs c) w (out c) (err c)).
Definition print {E} (s : str) : comp Cli E unit := modify (λ c, mkCli (cli_fs c) (cli_host c) (out c ++ [s]) (err c)).
Definition println {E} (s : str) : comp Cli E unit := print (s ++ [10]).
Definition eprint {E} (s : str) : comp Cli E unit := modify (λ c, mkCli (cli_fs c) (cli_host c) (out c) (err c ++ [s])).
Definition eprintln {E} (s : str) : comp Cli E unit := eprint (s ++ [10]).

Definition fail_with {T} (r : result IoError T) (f : IoError → RunError) : C T :=
  match r with Ok x => mret x | Err e => fail (f e) end.

(** [read_token_file]: the message of its error. *)
Definition read_token_file (p : path) : comp Cli str SessionToken :=
  r ← attempt (on_fs (fs_read_to_string p));
  match r with
  | Err e => fail (io_display e)
  | Ok text =>
      match read_token_text text with
      | Ok t => mret t
      | Err e => fail (ipc_error_display e)
      end
  end.

Definition exchange_verb (root : path) (v : CommandVerb) (p : bytes) : C IpcResponse :=
  let token_file := token_path root in
  r ← attempt (read_token_file token_file);
  match r with
  | Err error => fail (RunError.Unreachable
      (lit "cannot read session token at " ++ path_display token_file ++ lit ": " ++ error))
  | Ok token =>
      r ← attempt (on_host pipe_connect);
      _ ← fail_with r (λ e, RunError.Unreachable
        (lit "cannot reach true-tick at " ++ PIPE_NAME ++ lit ": " ++ io_display e));
      r ← attempt (on_host (pipe_exchange token v p));
      match r with
      | Ok response => mret response
      | Err e => fail (RunError.Failure (lit "ipc exchange failed: " ++ ipc_error_display e))
      end
  end.

Definition report_response (r : IpcResponse) : C Z :=
  match r with
  | IpcResponse.Status text => _ ← println text; mret EXIT_OK
  | IpcResponse.Acquired hns => _ ← println (lit "acquired effective_hns=" ++ show_u hns); mret EXIT_OK
  | IpcResponse.Released => _ ← println (lit "released"); mret EXIT_OK
  | IpcResponse.Scheduled id => _ ← println (lit "scheduled action_id=" ++ show_u id); mret EXIT_OK
  | IpcResponse.Cancelled => _ ← println (lit "cancelled"); mret EXIT_OK
  | IpcResponse.Error e => _ ← eprintln (lit "error: " ++ ipc_error_display e); mret EXIT_FAILURE
  end.

Definition report_error (e : RunError) : C Z :=
  _ ← eprintln match e with
               | RunError.Unreachable message => lit "unreachable: " ++ message
               | RunError.Failure message => lit "error: " ++ message
               end;
  mret (exit_code e).

(** [match m { Ok(x) => k(x), Err(error) => report_error(&error) }] *)
Definition reported {T} (m : C T) (k : T → C Z) : C Z :=
  r ← attempt m; match r with Ok x => k x | Err e => report_error e end.

Definition returned (m : C Z) : C (option Z) := code ← m; mret (Some code).

(** *** The daemon *)

Definition clear_stale (p : path) (warning : str) : C unit :=
  r ← attempt (on_fs (fs_remove_file p));
  match r with
  | Ok _ => mret tt
  | Err e => if bool_decide (io_kind e = IoKind.NotFound) then mret tt
             else eprintln (warning ++ io_display e)
  end.
Definition clear_stale_token (root : path) : C unit :=
  clear_stale (token_path root) (lit "warning: cannot remove stale ipc token: ").
Definition clear_stale_server_pid (root : path) : C unit :=
  clear_stale (server_pid_path root) (lit "warning: cannot remove stale server pid marker: ").

Fixpoint first_file (candidates : list path) : C (option path) :=
  match candidates with
  | [] => mret None
  | c :: rest =>
      r ← attempt (on_fs (fs_is_file c));
      match r with Ok true => mret (Some c) | _ => first_file rest end
  end.
Definition resolve_daemon_target (root executable : path) : C path :=
  t ← first_file (daemon_candidates root executable);
  match t with
  | Some p => mret p
  | None => fail (RunError.Failure (lit "no true-tick engine found beside " ++ path_display executable ++
      lit " or under " ++ path_display root))
  end.

(** The marker names the process that serves the pipe. *)
Definition verify_server_pid (root : path) : comp Cli str unit :=
  r ← attempt (on_fs (fs_read_to_string (server_pid_path root)));
  match r with
  | Err e => fail (lit "cannot read server pid marker: " ++ io_display e)
  | Ok marker =>
      match parse_u 32 (trim marker) with
      | None => fail (quoted (lit "server pid marker") marker ++ lit " is not a pid")
      | Some expected =>
          r ← attempt (on_host serving_pid);
          match r with
          | Err e => fail (lit "cannot identify the engine serving " ++ PIPE_NAME ++ lit ": " ++ io_display e)
          | Ok actual =>
              if actual =? expected then mret tt
              else fail (lit "server pid mismatch: marker pid " ++ show_u expected ++ lit " but serving pid " ++
                show_u actual)
          end
      end
  end.

(** The token is published and the engine that published it serves the pipe. *)
Definition engine_ready (root : path) : C bool :=
  r ← attempt (on_fs (fs_is_file (token_path root)));
  match r with
  | Ok true =>
      r ← attempt (on_host pipe_connect);
      match r with
      | Ok _ => v ← attempt (verify_server_pid root); mret (is_ok v)
      | Err _ => mret false
      end
  | _ => mret false
  end.

Definition thread_sleep (ns : Z) : C unit :=
  modify (λ c, let '(f, w) := sleep ns (cli_fs c, cli_host c) in mkCli f w (out c) (err c)).

(** The wait for the spawned engine. [None]: out of fuel, still waiting. *)
Fixpoint await_engine (fuel : nat) (root : path) (deadline : Z) : C (option bool) :=
  match fuel with
  | O => mret None
  | S fuel =>
      now ← on_clock instant_now;
      if negb (now <? deadline) then mret (Some false)
      else
        ready ← engine_ready root;
        if (ready : bool) then mret (Some true)
        else _ ← thread_sleep (millis DAEMON_TOKEN_POLL_MS); await_engine fuel root deadline
  end.

Definition start_process (root target : path) : C unit :=
  r ← attempt (on_host (spawn target root));
  fail_with r (λ e, RunError.Failure (lit "cannot spawn " ++ path_display target ++ lit ": " ++ io_display e)).

Definition spawn_engine (root target : path) : C unit :=
  _ ← clear_stale_token root;
  _ ← clear_stale_server_pid root;
  start_process root target.

(** After the spawn. *)
Definition report_spawned (fuel : nat) (root : path) (r : result RunError unit) : C (option Z) :=
  match r with
  | Err error => returned (report_error error)
  | Ok _ =>
      _ ← println (lit "spawned true-tick daemon");
      now ← on_clock instant_now;
      ready ← await_engine fuel root (now + millis DAEMON_TOKEN_TIMEOUT_MS);
      match ready with
      | None => mret None
      | Some true => mret (Some EXIT_OK)
      | Some false => returned (report_error (RunError.Unreachable
          (lit "spawned engine did not publish " ++ path_display (token_path root) ++ lit " and serve " ++
           PIPE_NAME ++ lit " within " ++ show_u DAEMON_TOKEN_TIMEOUT_MS ++ lit " ms")))
      end
  end.

Definition run_daemon (fuel : nat) (root executable : path) : C (option Z) :=
  r ← attempt (on_host pipe_connect);
  match r with
  | Ok _ =>
      r ← attempt (verify_server_pid root);
      match r with
      | Ok _ => _ ← println (lit "daemon already running"); mret (Some EXIT_OK)
      | Err message => returned (report_error (RunError.Failure message))
      end
  | Err _ =>
      r ← attempt (target ← resolve_daemon_target root executable; spawn_engine root target);
      report_spawned fuel root r
  end.

(** *** The log tail *)

Definition utc_date_today : C str :=
  seconds ← on_clock unix_seconds;
  let '(y, m, d) := civil_from_days (seconds / 86400) in
  mret (format_ymd y m d).

Definition run_logs (root : path) (tail : Z) (date : option str) : C Z :=
  date ← match date with Some d => mret d | None => utc_date_today end;
  let p := daily_log_path root date in
  r ← attempt (on_fs (fs_read_to_string p));
  match r with
  | Err e => _ ← eprintln (lit "error: cannot read log file " ++ path_display p ++ lit ": " ++ io_display e);
             mret EXIT_FAILURE
  | Ok text => _ ← modify (λ c, mkCli (cli_fs c) (cli_host c) (out c ++ map (λ l, l ++ [10]) (tail_lines text tail)) (err c));
               mret EXIT_OK
  end.

(** *** The program *)

Definition resolve_root (executable : path) (root_override : option str) : path :=
  match root_override with
  | Some root => path_parse root
  | None => default [lit "."] (path_parent executable)
  end.

Definition cancel_payload (action_id : option Z) : bytes :=
  match action_id with Some id => le_bytes 4 id | None => [] end.

Definition report_status (json : bool) (response : IpcResponse) : C Z :=
  match response with
  | IpcResponse.Status text => _ ← println (if json then status_json text else text); mret EXIT_OK
  | other => report_response other
  end.

(** [None]: the wait of the daemon ran out of fuel. *)
Definition run_request (fuel : nat) (root executable : path) (r : CliRequest) : C (option Z) :=
  match r with
  | CliRequest.Help => _ ← print usage; mret (Some EXIT_OK)
  | CliRequest.Version => _ ← println VERSION; mret (Some EXIT_OK)
  | CliRequest.Logs tail date => returned (run_logs root tail date)
  | CliRequest.Daemon => run_daemon fuel root executable
  | CliRequest.Status json =>
      returned (reported (exchange_verb root CommandVerb.QueryStatus []) (report_status json))
  | CliRequest.Start interval =>
      returned match acquire_payload interval with
               | Ok p => reported (exchange_verb root CommandVerb.RequestAcquire p) report_response
               | Err e => report_error e
               end
  | CliRequest.Stop => returned (reported (exchange_verb root CommandVerb.RequestRelease []) report_response)
  | CliRequest.Schedule kind seconds =>
      returned (reported (exchange_verb root CommandVerb.ScheduleAction (encode_schedule_payload kind seconds))
        report_response)
  | CliRequest.Cancel action_id =>
      returned (reported (exchange_verb root CommandVerb.CancelSchedule (cancel_payload action_id)) report_response)
  end.

Definition run (fuel : nat) (args : list str) (executable : path) : C (option Z) :=
  match extract_root args with
  | Err e => _ ← eprintln (lit "error: " ++ describe_parse_error e); mret (Some EXIT_FAILURE)
  | Ok (root_override, rest) =>
      match parse_args rest with
      | Err CliParseError.MissingSubcommand => _ ← eprint usage; mret (Some EXIT_FAILURE)
      | Err e =>
          _ ← eprintln (lit "error: " ++ describe_parse_error e);
          _ ← eprintln (lit "try `true-tick-cli help`");
          mret (Some EXIT_FAILURE)
      | Ok request => run_request fuel (resolve_root executable root_override) executable request
      end
  end.
End Run.
