(* ===== verification/CliFacts.v ===== *)
(** * CliFacts: what the command line client does with its arguments and answers

    Every request can be asked for, the frame it sends is one the server's workers
    accept, the status text becomes a JSON object that reads back, and the client
    always ends with one of its exit codes. *)
From S2P Require Import Prelude Text Hex Core Files Wire PipeClient Cli IpcServer IpcProtocol.

(** ** Arguments *)

Definition render_schedule_action (k : ScheduleActionKind) : str :=
  match k with
  | ScheduleActionKind.Start => lit "start-in"
  | ScheduleActionKind.Stop => lit "stop-in"
  | ScheduleActionKind.Pause => lit "pause"
  end.

(** The arguments that ask for a request. *)
Definition render (r : CliRequest) : list str :=
  match r with
  | CliRequest.Status json => lit "status" :: (if json then [lit "--json"] else [])
  | CliRequest.Start interval =>
      lit "start" :: match interval with Some n => [lit "--interval"; show_u n] | None => [] end
  | CliRequest.Stop => [lit "stop"]
  | CliRequest.Schedule kind seconds => [lit "schedule"; render_schedule_action kind; show_u seconds]
  | CliRequest.Cancel id => lit "cancel" :: match id with Some n => [show_u n] | None => [] end
  | CliRequest.Daemon => [lit "daemon"]
  | CliRequest.Logs tail date =>
      [lit "logs"; lit "--tail"; show_u tail] ++ match date with Some d => [lit "--date"; d] | None => [] end
  | CliRequest.Help => [lit "help"]
  | CliRequest.Version => [lit "version"]
  end.

Definition request_wf (r : CliRequest) : Prop :=
  match r with
  | CliRequest.Start (Some n) => is_u64 n
  | CliRequest.Schedule _ seconds => is_u32 seconds
  | CliRequest.Cancel (Some id) => is_u32 id
  | CliRequest.Logs tail date => is_u64 tail ∧ match date with Some d => valid_log_date d = true | None => True end
  | _ => True
  end.

Lemma parse_render r : request_wf r → parse_args (render r) = Ok r.
Proof.
  destruct r as [[]|[n|]| |[] n|[n|]| |n [d|]| |]; cbn [request_wf]; intros Hr; try done;
    unfold parse_args; cbn -[parse_u show_u valid_log_date].
  all: try (rewrite (parse_show 32) by exact Hr); try (rewrite (parse_show 64) by exact Hr); try done.
  - destruct Hr as [Hn Hd]. rewrite parse_show by exact Hn. cbn -[parse_u show_u valid_log_date]. by rewrite Hd.
  - destruct Hr as [Hn _]. by rewrite parse_show.
Qed.

Lemma extract_root_plain root rest l : Forall (λ a, str_eqb a (lit "--root") = false) l →
  ∀ t, extract_root_from root rest (l ++ t) = extract_root_from root (rest ++ l) t.
Proof.
  intros Hl. revert rest. induction Hl as [|a l Ha _ IH]; intros rest t; cbn [app extract_root_from].
  - by rewrite app_nil_r.
  - rewrite Ha, IH. by rewrite <- app_assoc.
Qed.

Lemma digit_head_plain n : is_u64 n → str_eqb (show_u n) (lit "--root") = false.
Proof.
  intros Hn. destruct (show_u_cons n) as (c & t & Hs). pose proof (show_u_digits n ltac:(unfold is_u64 in Hn; lia)) as Hd.
  rewrite Hs in Hd |- *. inversion_clear Hd as [|? ? Hc]. apply not_true_is_false. rewrite str_eqb_spec. by intros [= -> _].
Qed.
Lemma u32_u64 n : is_u32 n → is_u64 n.
Proof. unfold_ints. lia. Qed.

Lemma render_plain r : request_wf r → Forall (λ a, str_eqb a (lit "--root") = false) (render r).
Proof.
  destruct r as [[]|[n|]| |[] n|[n|]| |n [d|]| |]; cbn [request_wf render]; intros Hr;
    repeat (apply Forall_cons_2; [try done|]); try done; try (apply digit_head_plain; first [apply Hr|apply u32_u64, Hr]).
  destruct Hr as [_ Hd]. apply not_true_is_false. rewrite str_eqb_spec. by intros ->.
Qed.

(** Every request has arguments that ask for it, and the root may be given
    anywhere among them. *)
Theorem cli_arguments_round_trip r pre post root : request_wf r → render r = pre ++ post →
  extract_root (pre ++ lit "--root" :: root :: post) = Ok (Some root, render r) ∧
  extract_root (render r) = Ok (None, render r) ∧ parse_args (render r) = Ok r.
Proof.
  intros Hr Hp. pose proof (render_plain r Hr) as Hf. split_and!; [| |by apply parse_render].
  - rewrite Hp in Hf. apply Forall_app in Hf as [H1 H2]. unfold extract_root.
    rewrite extract_root_plain by done. change (extract_root_from None ([] ++ pre) (lit "--root" :: root :: post))
      with (extract_root_from (Some root) pre post).
    rewrite <- (app_nil_r post) at 1. rewrite extract_root_plain by done. by rewrite Hp.
  - unfold extract_root. rewrite <- (app_nil_r (render r)) at 1. by rewrite extract_root_plain.
Qed.

Lemma cli_arguments_round_trip_witness :
  let r := CliRequest.Schedule ScheduleActionKind.Pause 60 in
  extract_root [lit "schedule"; lit "--root"; lit "C:\tt"; lit "pause"; lit "60"] = Ok (Some (lit "C:\tt"), render r) ∧
  extract_root (render r) = Ok (None, render r) ∧ parse_args (render r) = Ok r.
Proof.
  apply (cli_arguments_round_trip (CliRequest.Schedule ScheduleActionKind.Pause 60) [lit "schedule"]
    [lit "pause"; lit "60"] (lit "C:\tt")); [split; lia|reflexivity].
Defined.

(** ** Frames *)

(** The verb and the payload of the requests that go to the server. *)
Definition request_command (r : CliRequest) : option (CommandVerb * bytes) :=
  match r with
  | CliRequest.Status _ => Some (CommandVerb.QueryStatus, [])
  | CliRequest.Start interval =>
      match acquire_payload interval with Ok p => Some (CommandVerb.RequestAcquire, p) | Err _ => None end
  | CliRequest.Stop => Some (CommandVerb.RequestRelease, [])
  | CliRequest.Schedule kind seconds => Some (CommandVerb.ScheduleAction, encode_schedule_payload kind seconds)
  | CliRequest.Cancel id => Some (CommandVerb.CancelSchedule, cancel_payload id)
  | _ => None
  end.

(** The numbers the engine reads from the payload. *)
Definition payload_means (r : CliRequest) (p : bytes) : Prop :=
  match r with
  | CliRequest.Start (Some n) => le_value p = n ∧ validate_interval_hns n = Ok n
  | CliRequest.Schedule kind seconds => head p = Some (schedule_tag kind) ∧ le_value (tail p) = seconds
  | CliRequest.Cancel (Some id) => le_value p = id
  | _ => p = []
  end.

Lemma validate_same n v : validate_interval_hns n = Ok v → v = n ∧ 5000 ≤ n ≤ 156250.
Proof.
  unfold validate_interval_hns, MIN_INTERVAL_HNS, MAX_INTERVAL_HNS, SYMBOLIC_RESOLUTION_HNS.
  destruct_ifs; intros [= <-]; reflect_bools; lia.
Qed.

Lemma acquire_payload_ok n p : acquire_payload (Some n) = Ok p →
  p = le_bytes 8 n ∧ validate_interval_hns n = Ok n ∧ le_value p = n.
Proof.
  unfold acquire_payload, encode_interval_payload.
  destruct (validate_interval_hns n) as [v|e] eqn:Ev; cbn [mbind result_bind]; [|done].
  pose proof (validate_same n v Ev) as [-> Hb]. intros Hp. assert (p = le_bytes 8 n) as -> by congruence.
  split_and!; [done|done|].
  apply le_value_bytes. lia.
Qed.

Lemma request_payload r v p : request_wf r → request_command r = Some (v, p) →
  payload_means r p ∧ (length p ≤ 8)%nat ∧ all_bytes p ∧ (v = CommandVerb.QueryStatus ∨ acceptable v p = true).
Proof.
  destruct r as [j|[n|]| |k n|[n|]| |n d| |]; cbn [request_wf request_command]; intros Hr; try done;
    try (intros [= <- <-]; split_and!; [done|cbn; lia|constructor|by auto]; fail).
  - destruct (acquire_payload (Some n)) as [q|] eqn:Eq; [|done]. intros [= <- <-].
    apply acquire_payload_ok in Eq as (-> & Hv & Hn). split_and!; [done| |apply le_bytes_all|right].
    + by rewrite le_bytes_length.
    + cbn [acceptable]. unfold handle_request_acquire. rewrite bool_decide_false by done.
      rewrite le_bytes_length. cbn [negb Nat.eqb]. by rewrite Hn, Hv.
  - intros Hp. assert (v = CommandVerb.ScheduleAction ∧ p = encode_schedule_payload k n) as [-> ->] by (split; congruence).
    unfold encode_schedule_payload. split_and!.
    + split; [done|]. apply le_value_bytes. exact Hr.
    + cbn [length]. rewrite le_bytes_length. lia.
    + constructor; [|apply le_bytes_all]. by destruct k.
    + right. cbn [acceptable]. unfold handle_schedule_action. cbn [length]. by rewrite le_bytes_length.
  - intros Hp. unfold cancel_payload in Hp. assert (v = CommandVerb.CancelSchedule ∧ p = le_bytes 4 n) as [-> ->] by (split; congruence).
    split_and!; [|by rewrite le_bytes_length; lia|apply le_bytes_all|by right].
    apply le_value_bytes. exact Hr.
Qed.

(** C16: the frame a request sends fits the server's buffer, is decoded there to the
    client's token, verb and payload, passes the checks of the pipe side, and holds
    the numbers that were asked for. *)
Theorem cli_frame_accepted r v p t : request_wf r → request_command r = Some (v, p) → token_wf t →
  ∃ sent, request_bytes t v p = Ok sent ∧ deserialize sent = Ok (mkFrame t v p) ∧
    (length sent ≤ MAX_PAYLOAD_LEN + 64)%nat ∧ payload_means r p ∧
    ∀ st, dispatch_command st (mkFrame t v p) =
      (if bool_decide (v = CommandVerb.QueryStatus) then Respond (handle_query_status st) else Forward v p).
Proof.
  intros Hr Hc Ht. destruct (request_payload r v p Hr Hc) as (Hm & Hl & Ha & Hv).
  assert (frame_wf (mkFrame t v p)) as Hf by (unfold frame_wf; cbn; unfold MAX_PAYLOAD_LEN; split_and!; [done|lia|done]).
  exists (serialize (mkFrame t v p)). split_and!; [| |rewrite serialize_length by done|done|].
  - unfold request_bytes, frame_new. unfold MAX_PAYLOAD_LEN. by rewrite (proj2 (Nat.ltb_ge _ _)) by lia.
  - by apply deserialize_serialize.
  - cbn. unfold MAX_PAYLOAD_LEN. lia.
  - intros st. unfold dispatch_command. cbn [verb payload].
    destruct Hv as [->|Hv]; [done|]. destruct v; cbn in *; try done.
    + by destruct (handle_request_acquire p).
    + by destruct (handle_schedule_action p).
Qed.

Lemma cli_frame_accepted_witness :
  let t := mkToken (replicate 32 7) in
  ∃ sent, request_bytes t CommandVerb.ScheduleAction [3; 60; 0; 0; 0] = Ok sent ∧
    deserialize sent = Ok (mkFrame t CommandVerb.ScheduleAction [3; 60; 0; 0; 0]) ∧
    (length sent ≤ MAX_PAYLOAD_LEN + 64)%nat ∧
    payload_means (CliRequest.Schedule ScheduleActionKind.Pause 60) [3; 60; 0; 0; 0] ∧
    ∀ st, dispatch_command st (mkFrame t CommandVerb.ScheduleAction [3; 60; 0; 0; 0]) =
      Forward CommandVerb.ScheduleAction [3; 60; 0; 0; 0].
Proof.
  intros t. apply (cli_frame_accepted (CliRequest.Schedule ScheduleActionKind.Pause 60)).
  - split; lia.
  - vm_compute. reflexivity.
  - split; [reflexivity|]. apply all_bytesb_spec. vm_compute. reflexivity.
Defined.

(** ** Status as JSON *)

(** A reference reader of the objects [status_json] writes. *)
Inductive JsonValue := JsonString (s : str) | JsonNumber (n : Z).

Definition unescape (c : Z) : option Z :=
  if (c =? 34) || (c =? 92) then Some c
  else if c =? 110 then Some 10
  else if c =? 114 then Some 13
  else if c =? 116 then Some 9
  else None.
Definition hex4_value (a b c d : Z) : option Z :=
  a ← hex_nibble a; b ← hex_nibble b; c ← hex_nibble c; d ← hex_nibble d;
  Some (((a * 16 + b) * 16 + c) * 16 + d).

(** The rest of a string literal, after its opening quote. *)
Fixpoint read_string (s : str) : option (str * str) :=
  match s with
  | [] => None
  | c :: t =>
      if c =? 34 then Some ([], t)
      else if c <? 32 then None
      else if c =? 92 then
        match t with
        | [] => None
        | u :: t =>
            if u =? 117 then
              match t with
              | a :: b :: c :: d :: t => x ← hex4_value a b c d; prod_map (cons x) id <$> read_string t
              | _ => None
              end
            else x ← unescape u; prod_map (cons x) id <$> read_string t
        end
      else prod_map (cons c) id <$> read_string t
  end.

Lemma hex4_value_hex4 c : 0 ≤ c < 65536 →
  match hex4 c with [x; y; z; w] => hex4_value x y z w = Some c | _ => False end.
Proof.
  intros Hc. unfold hex4. cbn [map]. unfold hex4_value.
  rewrite !hex_nibble_digit by (apply Z.mod_pos_bound; lia). cbn [mbind option_bind]. f_equal. dlia.
Qed.

Lemma read_string_escape s rest : Forall (λ c, 0 ≤ c) s →
  read_string (json_escape s ++ 34 :: rest) = Some (s, rest).
Proof.
  induction 1 as [|c s Hc _ IH]; [done|]. unfold json_escape in *. cbn [flat_map]. rewrite <- app_assoc.
  set (tail := flat_map escape_char s ++ 34 :: rest) in *. unfold escape_char.
  change (lit "\n") with [92; 110]. change (lit "\r") with [92; 114]. change (lit "\t") with [92; 116].
  change (lit "\u") with [92; 117].
  destruct (c =? 34) eqn:E1; [apply Z.eqb_eq in E1 as ->; cbn; by rewrite IH|].
  destruct (c =? 92) eqn:E2; [apply Z.eqb_eq in E2 as ->; cbn; by rewrite IH|].
  destruct (c =? 10) eqn:E3; [apply Z.eqb_eq in E3 as ->; cbn; by rewrite IH|].
  destruct (c =? 13) eqn:E4; [apply Z.eqb_eq in E4 as ->; cbn; by rewrite IH|].
  destruct (c =? 9) eqn:E5; [apply Z.eqb_eq in E5 as ->; cbn; by rewrite IH|].
  destruct (c <? 32) eqn:E6.
  - assert (0 ≤ c < 65536) as Hb by lia. apply (hex4_value_hex4 c) in Hb. unfold hex4 in *. cbn [map] in *.
    cbn -[hex4_value hex_digit]. rewrite Hb. cbn. by rewrite IH.
  - cbn [app read_string]. rewrite E1, E6, E2. by rewrite IH.
Qed.

Fixpoint span_digits (s : str) : str * str :=
  match s with
  | c :: t => if is_ascii_digit c then prod_map (cons c) id (span_digits t) else ([], s)
  | [] => ([], [])
  end.
Definition read_number (s : str) : option (Z * str) :=
  match span_digits s with
  | ([], _) => None
  | (ds, t) => v ← digits_value 0 ds; Some (v, t)
  end.
Definition read_value (s : str) : option (JsonValue * str) :=
  match s with
  | c :: t => if c =? 34 then prod_map JsonString id <$> read_string t else prod_map JsonNumber id <$> read_number s
  | [] => None
  end.
Definition read_member (s : str) : option ((str * JsonValue) * str) :=
  match s with
  | q :: t =>
      if q =? 34 then
        '(key, t) ← read_string t;
        match t with
        | c :: t => if c =? 58 then prod_map (pair key) id <$> read_value t else None
        | [] => None
        end
      else None
  | [] => None
  end.
Fixpoint read_members (fuel : nat) (first : bool) (s : str) : option (list (str * JsonValue)) :=
  match fuel, s with
  | S fuel, c :: t =>
      if c =? 125 then match t with [] => Some [] | _ => None end
      else
        '(m, t) ← read_member (if first then s else if c =? 44 then t else []);
        cons m <$> read_members fuel false t
  | _, _ => None
  end.
Definition json_read (s : str) : option (list (str * JsonValue)) :=
  match s with
  | c :: t => if c =? 123 then read_members (length s) true t else None
  | [] => None
  end.

(** What the members should be. *)
Definition token_member (token : str) : option (str * JsonValue) :=
  match split_once 61 token with
  | None => None
  | Some (key, value) =>
      if str_eqb value (lit "unknown") then None
      else Some (key, match parse_u 64 value with Some n => JsonNumber n | None => JsonString value end)
  end.

Abbreviation nonneg := (Forall (λ c, 0 ≤ c)).

Lemma span_digits_app ds t : Forall (λ c, is_ascii_digit c = true) ds → (∀ c, head t = Some c → is_ascii_digit c = false) →
  span_digits (ds ++ t) = (ds, t).
Proof.
  intros Hd Ht. induction Hd as [|c ds Hc _ IH]; cbn [app span_digits].
  - destruct t as [|c t]; [done|]. cbn. by rewrite (Ht c).
  - by rewrite Hc, IH.
Qed.
Lemma read_number_show n t : 0 ≤ n → (∀ c, head t = Some c → is_ascii_digit c = false) →
  read_number (show_u n ++ t) = Some (n, t).
Proof.
  intros Hn Ht. unfold read_number. rewrite span_digits_app; [|by apply show_u_digits|done].
  pose proof (show_u_value n 0 Hn) as Hv. destruct (show_u_cons n) as (c & s & Hs). rewrite Hs in *. by rewrite Hv.
Qed.
Lemma split_once_nonneg sep s a b : nonneg s → split_once sep s = Some (a, b) → nonneg a ∧ nonneg b.
Proof.
  intros Hs. revert a. induction Hs as [|c s Hc Hs IH]; intros a; cbn [split_once]; [done|].
  destruct (c =? sep); [intros [= <- <-]; by split|].
  destruct (split_once sep s) as [[a' b']|]; [|done]. intros [= <- <-].
  destruct (IH a' eq_refl). split; [by constructor|done].
Qed.
Lemma split_ws_nonneg s acc : nonneg acc → nonneg s → Forall (Forall (λ c, 0 ≤ c)) (split_ws_acc acc s).
Proof.
  intros Ha Hs. revert acc Ha. induction Hs as [|c s Hc _ IH]; intros acc Ha; cbn [split_ws_acc].
  - destruct acc; [constructor|]. constructor; [by apply Forall_reverse|constructor].
  - destruct (is_whitespace c); [|apply IH; by constructor].
    destruct acc; [by apply IH|]. constructor; [by apply Forall_reverse|by apply IH].
Qed.

(** The text of a member reads back as the member. *)
Lemma member_reads token text t : nonneg token → status_member token = Some text →
  (∀ c, head t = Some c → is_ascii_digit c = false) →
  ∃ m, token_member token = Some m ∧ read_member (text ++ t) = Some (m, t).
Proof.
  unfold status_member, token_member. intros Hn. destruct (split_once 61 token) as [[k v]|] eqn:Es; [|done].
  destruct (split_once_nonneg _ _ _ _ Hn Es) as [Hk Hv]. destruct (str_eqb v _); [done|]. intros Hx Ht.
  eexists. split; [done|]. set (w := match parse_u 64 v with Some n => show_u n | None => json_string v end) in *.
  assert (text ++ t = 34 :: json_escape k ++ 34 :: 58 :: (w ++ t)) as ->.
  { assert (text = json_string k ++ lit ":" ++ w) as -> by congruence. unfold json_string.
    change (lit ":") with [58]. cbn [app]. by rewrite <- !app_assoc. }
  cbn [read_member]. rewrite Z.eqb_refl, (read_string_escape k) by done. cbn [mbind option_bind].
  rewrite Z.eqb_refl. subst w. destruct (parse_u 64 v) as [n|] eqn:Ep.
  - apply parse_u_bound in Ep as Hb. destruct (show_u_cons n) as (d & ds & Hd).
    pose proof (show_u_digits n ltac:(lia)) as Hds. unfold read_value. rewrite Hd in Hds |- *. cbn [app].
    inversion_clear Hds as [|? ? Hd0 _]. destruct (d =? 34) eqn:E; [by apply Z.eqb_eq in E as ->|].
    rewrite app_comm_cons, <- Hd, read_number_show by (done || lia). done.
  - unfold json_string. cbn [app read_value]. rewrite Z.eqb_refl, <- app_assoc. cbn [app].
    by rewrite (read_string_escape v).
Qed.
Lemma member_none token : status_member token = None → token_member token = None.
Proof. unfold status_member, token_member. destruct (split_once 61 token) as [[k v]|]; [|done]. by destruct (str_eqb v _). Qed.
Lemma member_head token text : status_member token = Some text → head text = Some 34.
Proof.
  unfold status_member. destruct (split_once 61 token) as [[k v]|]; [|done]. destruct (str_eqb v _); [done|]. by intros [= <-].
Qed.

Lemma body_head first tokens c : head (status_body first tokens ++ [125]) = Some c →
  c = 125 ∨ c = if first then 34 else 44.
Proof.
  induction tokens as [|t tokens IH]; cbn [status_body]; [by intros [= <-]; left|].
  destruct (status_member t) as [m|] eqn:Em; [|done]. apply member_head in Em.
  destruct first; [|by intros [= <-]; right]. destruct m as [|? m]; [done|]. cbn in *. intros [= <-].
  right. by injection Em.
Qed.

Lemma body_reads tokens first fuel : Forall (Forall (λ c, 0 ≤ c)) tokens → (length (status_body first tokens) < fuel)%nat →
  read_members fuel first (status_body first tokens ++ [125]) = Some (omap token_member tokens).
Proof.
  intros Ht. revert first fuel. induction Ht as [|t tokens Hn _ IH]; intros first fuel Hf; cbn [status_body] in *.
  - by destruct fuel; [cbn in Hf; lia|].
  - destruct (status_member t) as [m|] eqn:Em.
    2:{ cbn [omap list_omap]. rewrite (member_none t Em). by apply IH. }
    pose proof (member_head t m Em) as Hm. destruct m as [|q m]; [done|]. injection Hm as ->.
    destruct fuel as [|fuel]; [lia|].
    destruct (member_reads t (34 :: m) (status_body false tokens ++ [125]) Hn Em) as (x & Hx & Hr).
    { intros c Hc. by apply body_head in Hc as [->| ->]. }
    cbn [omap list_omap]. rewrite Hx.
    assert ((if first then [] else lit ",") ++ (34 :: m) ++ status_body false tokens =
            (if first then [] else [44]) ++ 34 :: m ++ status_body false tokens) as -> by by destruct first.
    rewrite !length_app in Hf. cbn [length] in Hf.
    destruct first; cbn [app read_members]; rewrite <- ?app_assoc; cbn [Z.eqb Pos.eqb];
      change (34 :: m ++ ?s) with ((34 :: m) ++ s); rewrite Hr; cbn [mbind option_bind];
      rewrite IH by lia; done.
Qed.

(** C18: whatever the status text, the JSON output is an object whose members are
    the tokens with an equals sign and a value other than unknown, in their order,
    numbers unquoted. *)
Theorem status_json_reads_back text : Forall (λ c, 0 ≤ c) text →
  json_read (status_json text) = Some (omap token_member (split_whitespace text)).
Proof.
  intros Ht. unfold status_json. change (lit "{" ++ ?s) with (123 :: s). cbn [json_read]. rewrite Z.eqb_refl.
  apply body_reads; [by apply split_ws_nonneg|]. cbn [length]. rewrite length_app. lia.
Qed.

Lemma status_json_reads_back_witness :
  json_read (status_json (lit "status=running ownership=owned effective_hns=5000 requested_hns=unknown")) =
  Some [(lit "status", JsonString (lit "running")); (lit "ownership", JsonString (lit "owned"));
        (lit "effective_hns", JsonNumber 5000)].
Proof.
  rewrite (status_json_reads_back (lit "status=running ownership=owned effective_hns=5000 requested_hns=unknown")).
  - vm_compute. reflexivity.
  - apply (Forall_impl is_u8); [apply all_bytesb_spec; vm_compute; reflexivity|]. unfold is_u8. lia.
Defined.
