(* ===== verification/CliRun.v ===== *)
(** * CliRun: the client always ends, and what the daemon command does to a busy server *)
From S2P Require Import Prelude Text Core Files FileFrames Wire PipeClient Cli.

(** ** A clock that goes on *)

(** What the wait of the daemon relies on: the clock does not go back, and a sleep
    lasts at least as long as it was asked to. *)
Class CliClock (W : Type) `{CliHost W} := {
  clock_of : W → Z;
  clock_connect : ∀ s, clock_of s.2 ≤ clock_of (pipe_connect s).2.2;
  clock_exchange : ∀ t v p s, clock_of s.2 ≤ clock_of (pipe_exchange t v p s).2.2;
  clock_pid : ∀ s, clock_of s.2 ≤ clock_of (serving_pid s).2.2;
  clock_instant : ∀ w, clock_of w ≤ (instant_now w).1 ≤ clock_of (instant_now w).2;
  clock_sleep : ∀ ns s, clock_of s.2 + ns ≤ clock_of (sleep ns s).2;
}.

Section Ends.
Context {W : Type} `{CliHost W} `{IoDisplay} `{PathDisplay} `{PathParse}.
Implicit Types c : Cli (W := W).

(** [m] returns a value, an early return being one. *)
Definition total {E T} (m : comp Cli E T) (P : T → Prop) : Prop := ∀ c, ∃ x, (m c).1 = Ok x ∧ P x.

Lemma total_ret {E T} (x : T) (P : T → Prop) : P x → total (mret x : comp Cli E T) P.
Proof. intros Hx c. by exists x. Qed.
Lemma total_bind {E T U} (m : comp Cli E T) (k : T → comp Cli E U) P Q :
  total m P → (∀ x, P x → total (k x) Q) → total (m ≫= k) Q.
Proof.
  intros Hm Hk c. destruct (Hm c) as (x & Hx & Hp). unfold mbind, comp_bind.
  destruct (m c) as [r c'] eqn:E1. cbn in Hx. subst r. by apply Hk.
Qed.
Lemma total_attempt {E E' T} (m : comp Cli E T) : total (attempt (E' := E') m) (λ _, True).
Proof. intros c. unfold attempt. destruct (m c) as [r c']. by exists r. Qed.
Lemma total_modify {E} (f : Cli → Cli) : total (modify f : comp Cli E unit) (λ _, True).
Proof. intros c. by exists tt. Qed.
Lemma total_clock {E T} (f : W → T * W) : total (on_clock f : comp Cli E T) (λ _, True).
Proof. intros c. unfold on_clock. destruct (f (cli_host c)) as [x w]. by exists x. Qed.
Lemma total_weaken {E T} (m : comp Cli E T) (P Q : T → Prop) : total m P → (∀ x, P x → Q x) → total m Q.
Proof. intros Hm HQ c. destruct (Hm c) as (x & Hx & Hp). eauto. Qed.

Definition is_exit (code : Z) : Prop := code = EXIT_OK ∨ code = EXIT_FAILURE ∨ code = EXIT_UNREACHABLE.

Lemma exit_code_exit e : is_exit (exit_code e).
Proof. destruct e; [by right; left|by right; right]. Qed.
Lemma report_error_exit e : total (report_error e) is_exit.
Proof. apply (total_bind _ _ (λ _, True)); [apply total_modify|]. intros _ _. apply total_ret, exit_code_exit. Qed.
Lemma report_response_exit r : total (report_response r) is_exit.
Proof.
  destruct r; (apply (total_bind _ _ (λ _, True)); [apply total_modify|]; intros _ _; apply total_ret);
    (by left) || (by right; left).
Qed.
Lemma report_status_exit j r : total (report_status j r) is_exit.
Proof.
  destruct r; try apply report_response_exit. apply (total_bind _ _ (λ _, True)); [apply total_modify|].
  intros _ _. apply total_ret. by left.
Qed.
Lemma reported_exit {T} (m : comp Cli RunError T) k : (∀ x, total (k x) is_exit) → total (reported m k) is_exit.
Proof.
  intros Hk. apply (total_bind _ _ (λ _, True)); [apply total_attempt|]. intros [x|e] _; [apply Hk|apply report_error_exit].
Qed.
Definition exits (o : option Z) : Prop := ∃ code, o = Some code ∧ is_exit code.
Lemma returned_exits m : total m is_exit → total (returned m) exits.
Proof. intros Hm. apply (total_bind _ _ is_exit); [done|]. intros x Hx. apply total_ret. by exists x. Qed.
Lemma run_logs_exit root tail date : total (run_logs root tail date) is_exit.
Proof.
  apply (total_bind _ _ (λ _, True)).
  { destruct date; [by apply total_ret|]. apply (total_bind _ _ (λ _, True)); [apply total_clock|].
    intros x _. destruct (civil_from_days _) as [[? ?] ?]. by apply total_ret. }
  intros d _. apply (total_bind _ _ (λ _, True)); [apply total_attempt|]. intros [x|e] _.
  - apply (total_bind _ _ (λ _, True)); [apply total_modify|]. intros _ _. apply total_ret. by left.
  - apply (total_bind _ _ (λ _, True)); [apply total_modify|]. intros _ _. apply total_ret. by right; left.
Qed.

Context `{!CliClock W}.

(** How far the clock is, and that it does not go back. *)
Definition time c : Z := clock_of (cli_host c).
Definition onward {E T} (m : comp Cli E T) : Prop := ∀ c, time c ≤ time (m c).2.
Lemma onward_ret {E T} (x : T) : onward (mret x : comp Cli E T).
Proof. intros c. cbn. lia. Qed.
Lemma onward_fail {E T} (e : E) : onward (fail e : comp Cli E T).
Proof. intros c. cbn. lia. Qed.
Lemma onward_bind {E T U} (m : comp Cli E T) (k : T → comp Cli E U) :
  onward m → (∀ x, onward (k x)) → onward (m ≫= k).
Proof.
  intros Hm Hk c. specialize (Hm c). unfold mbind, comp_bind. destruct (m c) as [[x|e] c']; cbn in *; [|done].
  specialize (Hk x c'). lia.
Qed.
Lemma onward_attempt {E E' T} (m : comp Cli E T) : onward m → onward (attempt (E' := E') m).
Proof. intros Hm c. specialize (Hm c). unfold attempt. by destruct (m c). Qed.
Lemma onward_fs {E T} (m : comp Fs E T) : onward (on_fs m).
Proof. intros c. unfold on_fs. destruct (m (cli_fs c)). cbn. unfold time. cbn. lia. Qed.
Lemma onward_host {E T} (m : comp (Fs * W) E T) : (∀ s, clock_of s.2 ≤ clock_of (m s).2.2) → onward (on_host m).
Proof.
  intros Hm c. specialize (Hm (cli_fs c, cli_host c)). unfold on_host, time.
  destruct (m (cli_fs c, cli_host c)) as [r [f w]]. exact Hm.
Qed.

Lemma onward_verify root : onward (verify_server_pid root).
Proof.
  apply onward_bind; [apply onward_attempt, onward_fs|]. intros [marker|e]; [|apply onward_fail].
  destruct (parse_u 32 (trim marker)); [|apply onward_fail].
  apply onward_bind; [apply onward_attempt, onward_host; intros; apply clock_pid|]. intros [actual|e]; [|apply onward_fail].
  destruct (_ =? _); [apply onward_ret|apply onward_fail].
Qed.

Lemma ready_onward root : onward (engine_ready root).
Proof.
  apply onward_bind; [apply onward_attempt, onward_fs|]. intros [[]|e]; [|apply onward_ret|apply onward_ret].
  apply onward_bind; [apply onward_attempt, onward_host; intros; apply clock_connect|].
  intros [u|e]; [|apply onward_ret]. apply onward_bind; [apply onward_attempt, onward_verify|]. intros v. apply onward_ret.
Qed.
Lemma ready_total root : total (engine_ready root) (λ _, True).
Proof.
  apply (total_bind _ _ (λ _, True)); [apply total_attempt|]. intros [[]|e] _; [|by apply total_ret|by apply total_ret].
  apply (total_bind _ _ (λ _, True)); [apply total_attempt|].
  intros [u|e] _; [|by apply total_ret]. apply (total_bind _ _ (λ _, True)); [apply total_attempt|].
  intros v _. by apply total_ret.
Qed.

Lemma step_result {E T} (m : comp Cli E T) c : total m (λ _, True) → onward m →
  ∃ x c', m c = (Ok x, c') ∧ time c ≤ time c'.
Proof.
  intros Ht Ho. destruct (Ht c) as (x & Hx & _). specialize (Ho c). destruct (m c) as [r c'].
  cbn in Hx. subst r. by exists x, c'.
Qed.
Lemma bind_ok_run {S' E T U} (m : comp S' E T) (k : T → comp S' E U) s x s' : m s = (Ok x, s') → (m ≫= k) s = k x s'.
Proof. intros Hm. unfold mbind, comp_bind. by rewrite Hm. Qed.

(** As many polls as fill what is left of the budget are enough. *)
Lemma await_ends fuel root deadline c : deadline - time c ≤ Z.of_nat fuel * millis DAEMON_TOKEN_POLL_MS →
  ∃ b, (await_engine (S fuel) root deadline c).1 = Ok (Some b).
Proof.
  revert c. induction fuel as [|fuel IH]; intros c Hd; remember (millis DAEMON_TOKEN_POLL_MS) as poll;
    pose proof (clock_instant (cli_host c)) as Hi; destruct (instant_now (cli_host c)) as [now w] eqn:En; cbn in Hi;
    cbn [await_engine]; rewrite (bind_ok_run _ _ c now (mkCli (cli_fs c) w (out c) (err c)))
      by (unfold on_clock; by rewrite En); unfold time in Hd;
    destruct (now <? deadline) eqn:El; cbn [negb]; try (by exists false).
  - apply Z.ltb_lt in El. lia.
  - destruct (step_result (engine_ready root) (mkCli (cli_fs c) w (out c) (err c)) (ready_total root) (ready_onward root))
      as (ready & c2 & E2 & Ht2).
    rewrite (bind_ok_run _ _ _ _ _ E2). destruct ready; [by exists true|].
    pose proof (clock_sleep poll (cli_fs c2, cli_host c2)) as Hs. unfold time in Ht2. cbn in Ht2, Hs.
    destruct (sleep poll (cli_fs c2, cli_host c2)) as [f3 w3] eqn:E3. cbn in Hs.
    rewrite (bind_ok_run _ _ c2 tt (mkCli f3 w3 (out c2) (err c2))).
    2:{ unfold thread_sleep, modify. rewrite <- Heqpoll. by rewrite E3. }
    apply IH. unfold time. cbn. lia.
Qed.

Lemma run_daemon_exits fuel root executable : (201 ≤ fuel)%nat → total (run_daemon fuel root executable) exits.
Proof.
  intros Hf. apply (total_bind _ _ (λ _, True)); [apply total_attempt|]. intros [u|e] _.
  - apply (total_bind _ _ (λ _, True)); [apply total_attempt|]. intros [x|m] _.
    + apply (total_bind _ _ (λ _, True)); [apply total_modify|]. intros _ _. apply total_ret. exists EXIT_OK. split; [done|by left].
    + apply returned_exits, report_error_exit.
  - apply (total_bind _ _ (λ _, True)); [apply total_attempt|]. intros [x|m] _; [|apply returned_exits, report_error_exit].
    apply (total_bind _ _ (λ _, True)); [apply total_modify|]. intros _ _ c.
    pose proof (clock_instant (cli_host c)) as Hi. destruct (instant_now (cli_host c)) as [now w] eqn:En. cbn in Hi.
    rewrite (bind_ok_run _ _ c now (mkCli (cli_fs c) w (out c) (err c))) by (unfold on_clock; by rewrite En).
    destruct fuel as [|fuel]; [lia|].
    destruct (await_ends fuel root (now + millis DAEMON_TOKEN_TIMEOUT_MS) (mkCli (cli_fs c) w (out c) (err c))) as [b Hb].
    { unfold time. cbn. unfold millis, DAEMON_TOKEN_TIMEOUT_MS, DAEMON_TOKEN_POLL_MS. lia. }
    destruct (await_engine (S fuel) root _ _) as [r c2] eqn:E2. cbn in Hb. subst r.
    rewrite (bind_ok_run _ _ _ _ _ E2). destruct b.
    + exists (Some EXIT_OK). split; [done|]. exists EXIT_OK. split; [done|by left].
    + apply returned_exits, report_error_exit.
Qed.

End Ends.

(** ** The credentials of a server that does not answer at once *)

Section Credentials.
Context {W : Type} `{CliHost W} `{IoDisplay} `{PathDisplay} `{PathParse}.
Implicit Types c : Cli (W := W).

Lemma clear_stale_exact p warning c : faults (cli_fs c) = [] → nodes (cli_fs c) !! p ≠ Some Dir →
  clear_stale p warning c = (Ok tt, mkCli (set_nodes (delete p) (cli_fs c)) (cli_host c) (out c) (err c)).
Proof.
  destruct c as [[m fs] w o e]. cbn. intros -> Hp.
  unfold clear_stale, mbind, comp_bind, attempt, on_fs, fs_remove_file, guard_call, next_fault, mbind, comp_bind, get, set_nodes.
  cbn. destruct (m !! p) as [[x|]|] eqn:Em; [done|done|]. cbn. by rewrite delete_id.
Qed.

(** Any failure to connect, a server with every instance busy included, is
    taken for a server that is not there: before the new engine is started the
    session token and the process marker of the running one are removed. *)
Theorem daemon_drops_credentials fuel root executable c e c1 target :
  on_host pipe_connect c = (Err e, c1) → resolve_daemon_target root executable c1 = (Ok target, c1) →
  faults (cli_fs c1) = [] → nodes (cli_fs c1) !! token_path root ≠ Some Dir →
  nodes (cli_fs c1) !! server_pid_path root ≠ Some Dir →
  ∃ c2, run_daemon fuel root executable c = (r ← attempt (start_process root target); report_spawned fuel root r) c2 ∧
    nodes (cli_fs c2) = delete (server_pid_path root) (delete (token_path root) (nodes (cli_fs c1))) ∧
    cli_host c2 = cli_host c1 ∧ out c2 = out c1 ∧ err c2 = err c1.
Proof.
  intros Hc Ht Hf Hd1 Hd2.
  set (c2 := mkCli (set_nodes (delete (server_pid_path root)) (set_nodes (delete (token_path root)) (cli_fs c1)))
    (cli_host c1) (out c1) (err c1)).
  exists c2. split_and!; try done.
  assert (spawn_engine root target c1 = start_process root target c2) as Hs.
  { unfold spawn_engine, clear_stale_token, clear_stale_server_pid. rewrite (bind_ok_run _ _ _ _ _ (clear_stale_exact _ _ c1 Hf Hd1)).
    rewrite (bind_ok_run _ _ _ tt c2); [done|]. apply clear_stale_exact; [done|]. cbn.
    rewrite lookup_delete_ne; [done|]. unfold token_path, server_pid_path.
    intros [_ Hx]%app_inj_2; done. }
  unfold run_daemon. rewrite (bind_ok_run _ _ c (Err e) c1) by (unfold attempt; by rewrite Hc). cbv iota beta.
  unfold mbind, comp_bind, attempt. unfold mbind, comp_bind. rewrite Ht. rewrite Hs. reflexivity.
Qed.
End Credentials.

(** ** A busy server, for example *)

Section Busy.

(** A server that answers every connection but the next [n]. *)
Record Town := mkTown { busy : nat; town_clock : Z; spawned : nat }.
Definition busy_host : CliHost Town := {|
  pipe_connect := λ '(f, t), match busy t with
    | O => (Ok tt, (f, t))
    | S n => (Err (mkIo IoKind.Other (Some 121)), (f, mkTown n (town_clock t) (spawned t)))
    end;
  pipe_exchange := λ _ _ _ s, (Ok (IpcResponse.Status (lit "status=running")), s);
  serving_pid := λ s, (Ok 7, s);
  spawn := λ _ _ '(f, t), (Ok tt, (f, mkTown (busy t) (town_clock t) (S (spawned t))));
  sleep := λ ns '(f, t), (f, mkTown (busy t) (town_clock t + ns) (spawned t));
  instant_now := λ t, (town_clock t, t);
  unix_seconds := λ t, (0, t);
|}.
#[local] Existing Instance busy_host.
Definition busy_io_display : IoDisplay := λ _, lit "io".
Definition busy_path_display : PathDisplay := λ _, lit "path".
Definition busy_path_parse : PathParse := λ s, [s].
#[local] Existing Instance busy_io_display.
#[local] Existing Instance busy_path_display.
#[local] Existing Instance busy_path_parse.

Definition busy_clock : CliClock Town.
Proof.
  refine {| clock_of := town_clock |}; cbn.
  - intros [f [[|n] t k]]; cbn; lia.
  - intros; lia.
  - intros; lia.
  - intros; lia.
  - intros ns [f t]; cbn; lia.
Defined.
#[local] Existing Instance busy_clock.

Definition busy_root : path := [lit "C:"].
Definition busy_executable : path := [lit "C:"; lit "true-tick-cli.exe"].
(** The engine runs as process 7 with its token published. *)
Definition busy_fs : Fs := mkFs
  (list_to_map [(token_path busy_root, File (to_hex (mkToken (replicate 32 7))));
                (server_pid_path busy_root, File (lit "7"));
                ([lit "C:"; lit "true-tick.exe"], File [])]) [].
Definition busy_cli (n : nat) : Cli := mkCli busy_fs (mkTown n 0 0) [] [].

Definition exit_of (r : result RunError (option Z) * Cli (W := Town)) : option Z :=
  match r.1 with Ok o => o | Err _ => None end.


Lemma daemon_drops_credentials_witness :
  ∃ c2, run_daemon 201 busy_root busy_executable (busy_cli 1) =
      (r ← attempt (start_process busy_root [lit "C:"; lit "true-tick.exe"]); report_spawned 201 busy_root r) c2 ∧
    nodes (cli_fs c2) = delete (server_pid_path busy_root) (delete (token_path busy_root) (nodes busy_fs)) ∧
    cli_host c2 = mkTown 0 0 0 ∧ out c2 = [] ∧ err c2 = [].
Proof.
  apply (daemon_drops_credentials 201 busy_root busy_executable (busy_cli 1) (mkIo IoKind.Other (Some 121))
    (busy_cli 0) [lit "C:"; lit "true-tick.exe"]); try (vm_compute; reflexivity); vm_compute; congruence.
Defined.

(** The status query works; the daemon command meets one busy moment, starts a
    second engine and gives up after ten seconds; from then on the running engine
    cannot be reached, although it answers connections again. *)
Example busy_moment_locks_out :
  exit_of (run 201 [lit "status"] busy_executable (busy_cli 0)) = Some 0 ∧
  let after := (run 201 [lit "daemon"] busy_executable (busy_cli 1)) in
  exit_of after = Some 2 ∧ busy (cli_host after.2) = 0%nat ∧ spawned (cli_host after.2) = 1%nat ∧
  exit_of (run 201 [lit "status"] busy_executable after.2) = Some 2.
Proof. vm_compute. done. Qed.
End Busy.
