(* ===== verification/EngineEase.v ===== *)
(** * EngineEase: a finished release is not undone by what it publishes

    A release publishes, publishing evaluates the tier, and the end of a handoff
    processes the intent that waited for it.  Between two handlers an acquire
    intent waits only while a handoff is watched ([settled]); from such a state a
    release that succeeds ends with the ownership released. *)
From coqutil Require Import Datatypes.RecordSetters.
From S2P Require Import Prelude Text Core Policy Watchdog Diagnostics Platform Ownership Wire Pause Files Config Surface Engine EngineSteps EngineTermination EngineSafety.
Import TriangleBracketNotations.

(** ** Computations that follow a relation *)

Lemma step_inv {S Er T U} (m : comp S Er T) (k : T → comp S Er U) s y s' : (m ≫= k) s = (Ok y, s') →
  ∃ x s1, m s = (Ok x, s1) ∧ k x s1 = (Ok y, s').
Proof. unfold mbind, comp_bind. destruct (m s) as [[x|e] s1]; [by eauto|by intros [=]]. Qed.

Section Follows.
Context {S Er : Type} (R : relation S).

Definition follows {T} (m : comp S Er T) : Prop := ∀ a x a', m a = (Ok x, a') → R a a'.

Lemma follows_bind `{!Transitive R} {T U} (m : comp S Er T) (k : T → comp S Er U) :
  follows m → (∀ x, follows (k x)) → follows (m ≫= k).
Proof.
  intros Hm Hk a y a'. unfold mbind, comp_bind. destruct (m a) as [[x|e] b] eqn:Eb; [|by intros [=]].
  intros Ey. etransitivity; [by eapply Hm|by eapply Hk].
Qed.
Lemma follows_ret `{!Reflexive R} {T} (x : T) : follows (mret x).
Proof. by intros a y a' [= _ <-]. Qed.
Lemma follows_get `{!Reflexive R} : follows get.
Proof. by intros a y a' [= _ <-]. Qed.
Lemma follows_modify (f : S → S) : (∀ a, R a (f a)) → follows (modify f).
Proof. intros Hf a [] a' [= <-]. apply Hf. Qed.
Lemma follows_fail {T} (e : Er) : follows (fail e : comp S Er T).
Proof. intros a x a' [=]. Qed.
End Follows.

Section Ease.
Context {P : Type} `{TimerPlatformLaws P} {W : Type} `{Desktop W}.
Abbreviation A := (App P W).
Abbreviation E := (comp A Diverged).
Implicit Types a : A.

(** An acquire intent waits only for a handoff. *)
Definition settled a : Prop := handoff a = None → Core.pending (desired_intent a) ≠ Some DesiredIntent.Acquire.

Definition readies a a' : Prop := settled a → settled a'.
Definition eases a a' : Prop :=
  settled a → settled a' ∧ (owned_by a = OwnershipState.Released → owned_by a' = OwnershipState.Released).

#[export] Instance readies_refl : Reflexive readies.
Proof. by intros a Ha. Qed.
#[export] Instance readies_trans : Transitive readies.
Proof. unfold readies. intros a b c. auto. Qed.
#[export] Instance eases_refl : Reflexive eases.
Proof. intros a Ha. by split. Qed.
#[export] Instance eases_trans : Transitive eases.
Proof. intros a b c Hab Hbc Ha. destruct (Hab Ha) as [Hb Ho]. destruct (Hbc Hb). auto. Qed.

Lemma follows_when {R : relation A} `{!Reflexive R} b (m : E unit) : follows R m → follows R (when b m).
Proof. intros Hm. destruct b; [done|by apply follows_ret]. Qed.
Lemma eases_readies {T} (m : E T) : follows eases m → follows readies m.
Proof. intros Hm a x a' Ea Ha. by destruct (Hm a x a' Ea Ha). Qed.

Definition ease_view a := (handoff a, desired_intent a, owned_by a).
Lemma eases_neutral {T} (m : E T) : neutral ease_view m → follows eases m.
Proof.
  intros Hm a x a' Ea. destruct (Hm a) as (x1 & a1 & E1 & V1). assert (a' = a1) as -> by congruence.
  unfold ease_view in V1. injection V1 as V1 V2 V3. unfold eases, settled. rewrite V1, V2, V3. auto.
Qed.
Definition ready_view a := (handoff a, desired_intent a).
Lemma readies_neutral {T} (m : E T) : neutral ready_view m → follows readies m.
Proof.
  intros Hm a x a' Ea. destruct (Hm a) as (x1 & a1 & E1 & V1). assert (a' = a1) as -> by congruence.
  unfold ready_view in V1. injection V1 as V1 V2. unfold readies, settled. by rewrite V1, V2.
Qed.

(** Controller calls. *)
Lemma ease_controller {T} (m : comp (TimerController P) TimerError T) :
  keeps Ownership.view m → neutral ease_view (on_controller m).
Proof.
  intros Hm a. unfold on_controller. specialize (Hm (controller a)). destruct (m (controller a)) as [r c].
  exists r, (a <| controller := c |>). split; [done|]. unfold ease_view, owned_by.
  change (controller (a <| controller := c |>)) with c. cbn in Hm. by injection Hm as -> _ _.
Qed.
Lemma ease_query : neutral ease_view (on_controller controller_query).
Proof. apply ease_controller, still_controller_query. Qed.
Lemma ease_observe b : neutral ease_view (on_controller (observe_current b)).
Proof. apply ease_controller, still_observe. Qed.
Lemma ease_clamp f : neutral ease_view (modify_controller (clamp_requested_interval_floor f) : E unit).
Proof.
  apply neutral_modify. intros a. unfold ease_view, owned_by.
  assert (ownership (clamp_requested_interval_floor f (controller a)) = ownership (controller a)) as Hc
    by (unfold clamp_requested_interval_floor; by repeat case_match).
  transitivity (handoff a, desired_intent a, ownership (clamp_requested_interval_floor f (controller a)));
    [done|by rewrite Hc].
Qed.

Lemma stop_ends a r a' : on_controller stop a = (Ok r, a') →
  ready_view a' = ready_view a ∧
  match r with Ok _ => owned_by a' = OwnershipState.Released | Err _ => owned_by a' = owned_by a end.
Proof.
  unfold on_controller. pose proof (stop_wp (controller a)) as Hs. unfold wp in Hs.
  destruct (stop (controller a)) as [x c]. intros [= <- <-]. split; [done|]. unfold owned_by.
  change (controller (a <| controller := c |>)) with c. destruct x as [[]|e]; cbn in Hs.
  - by destruct Hs as (_ & [= Hv _ _] & _).
  - by destruct Hs as [-> Ho].
  - apply Hs.
Qed.
Lemma stop_eases : follows eases (on_controller stop : E _).
Proof.
  intros a r a' Ea Ha. destruct (stop_ends a r a' Ea) as [Hv Ho]. unfold ready_view in Hv. injection Hv as V1 V2.
  split; [unfold settled; by rewrite V1, V2|]. intros Hr. destruct r; congruence.
Qed.

(** The two writes that are not neutral. *)
Lemma watch_eases (f : A → A) : (∀ a, is_Some (handoff (f a)) ∧ owned_by (f a) = owned_by a) →
  follows eases (modify f : E unit).
Proof.
  intros Hf. apply follows_modify. intros a _. destruct (Hf a) as [[h Hh] Ho]. rewrite Ho. split; [|done].
  intros Hn. congruence.
Qed.
Lemma request_release_eases :
  follows eases (modify (λ a, a <| desired_intent ::= (λ q, intent_request q DesiredIntent.Release) |>) : E unit).
Proof. apply follows_modify. intros a _. by split. Qed.
End Ease.

(** Discharges [neutral ease_view] and [neutral ready_view]. *)
Ltac ease_leaf_tac :=
  unfold now, SetTimer, KillTimer, update_icon, record, record_with_outcome, set_tray_status, sync_timing_snapshot;
  repeat first
    [ progress intros
    | apply neutral_bind | apply neutral_when | apply neutral_get | apply neutral_ret
    | apply ease_clamp | apply ease_query | apply ease_observe
    | apply neutral_modify; intros; reflexivity
    | apply neutral_world; intros; reflexivity
    | apply neutral_if | progress cbv zeta | case_match ].
Ltac ready_leaf_tac :=
  unfold now, SetTimer, KillTimer, update_icon, record, record_with_outcome, set_tray_status, sync_timing_snapshot,
    modify_controller;
  repeat first
    [ progress intros
    | apply neutral_bind | apply neutral_when | apply neutral_get | apply neutral_ret
    | apply neutral_modify; intros; reflexivity
    | apply neutral_world; intros; reflexivity
    | apply neutral_controller; intros; reflexivity
    | apply neutral_if | progress cbv zeta | case_match ].

Create HintDb engine_ease.
#[export] Hint Resolve stop_eases request_release_eases : engine_ease.

(** Descends into a computation that [follows] one of the two relations. *)
Ltac follow_leaf :=
  first [ solve [auto with nocore engine_ease]
        | apply eases_readies; solve [auto with nocore engine_ease]
        | apply eases_neutral; solve [ease_leaf_tac]
        | apply readies_neutral; solve [ready_leaf_tac]
        | apply watch_eases; intros; split; [by eexists|reflexivity] ].
Ltac follow_tac :=
  repeat lazymatch goal with
    | |- follows _ (mret _) => apply follows_ret; apply _
    | |- follows _ get => apply follows_get; apply _
    | |- follows _ (when _ _) => refine (follows_when _ _ _)
    | |- follows _ (let _ := _ in _) => cbv zeta
    | |- follows _ (match ?x with _ => _ end) => destruct x
    | |- follows _ (_ ≫= _) => apply follows_bind; [apply _| |intros ?]
    | |- _ => follow_leaf
    end.

Section Cycle.
Context {P : Type} `{TimerPlatformLaws P} {W : Type} `{Desktop W}.
Abbreviation A := (App P W).
Abbreviation E := (comp A Diverged).
Implicit Types a : A.

Lemma enter_tier_eases t : follows eases (enter_tier t : E unit).
Proof. apply eases_neutral. destruct t; cbn [enter_tier]; ease_leaf_tac. Qed.
#[local] Hint Resolve enter_tier_eases : engine_ease.

(** [m] ends settled from every state. *)
Definition settling {T} (m : E T) : Prop := ∀ a x a', m a = (Ok x, a') → settled a'.

Lemma settling_bind {T U} (m : E T) (k : T → E U) : (∀ x, settling (k x)) → settling (m ≫= k).
Proof. intros Hk a y a'. unfold mbind, comp_bind. destruct (m a) as [[x|e] b]; [apply Hk|by intros [=]]. Qed.
Lemma settling_then {T U} (m : E T) (k : T → E U) : settling m → (∀ x, follows readies (k x)) → settling (m ≫= k).
Proof.
  intros Hm Hk a y a'. unfold mbind, comp_bind. destruct (m a) as [[x|e] b] eqn:Eb; [|by intros [=]].
  intros Ey. apply (Hk x b y a' Ey). by apply (Hm a x b).
Qed.
Lemma settling_readies {T} (m : E T) : settling m → follows readies m.
Proof. intros Hm a x a' Ea _. by apply (Hm a x). Qed.

(** From a state with a handoff, which is settled. *)
Lemma watched_settles {T} (m : E T) a x a' : is_Some (handoff a) → follows eases m → m a = (Ok x, a') → settled a'.
Proof. intros [h Hh] Hm Ea. destruct (Hm a x a' Ea); [|done]. intros Hn. congruence. Qed.

Definition cycle_eases (f : nat) : Prop :=
  follows eases (publish f : E _) ∧ follows eases (refresh_operating_tier f : E _) ∧
  (∀ s, follows eases (guarded_release f s : E _)) ∧
  (∀ b s, follows eases (begin_handoff f b s : E _)) ∧
  follows eases (arm_duration_timer f : E _) ∧
  follows eases (process_desired_intent f : E _) ∧ settling (process_desired_intent f : E _) ∧
  follows readies (acquire_timer f : E _) ∧
  (∀ r, follows eases (release_for_policy f r : E _)) ∧
  follows eases (queue_intent f DesiredIntent.Release : E _) ∧ (∀ i, settling (queue_intent f i : E _)) ∧
  ∀ s, follows eases (show_ownership_status f s : E _).

(** Processing takes the intent: what follows starts settled. *)
Lemma process_settling f : follows eases (publish f : E _) → (∀ s, follows eases (guarded_release f s : E _)) →
  follows eases (arm_duration_timer f : E _) → follows readies (acquire_timer f : E _) →
  (∀ r, follows eases (release_for_policy f r : E _)) → settling (process_desired_intent (S f) : E _).
Proof.
  intros Hp Hg Ha Hq Hr a x a'. rewrite process_desired_intent_S. unfold mbind at 1, comp_bind at 1. cbn [get].
  case_bool_decide as Hh.
  - intros Ea. apply (watched_settles (set_tray_status (pausing_or_stopping a) ≫= λ _, publish f) a x a'); [done| |done].
    follow_tac.
  - cbn [intent_take]. unfold mbind at 1, comp_bind at 1. cbn [modify]. set (b := a <| desired_intent := _ |>).
    assert (settled b) as Hb by (intros _; done). intros Ea.
    revert Ea. match goal with |- ?m b = _ → _ => assert (follows readies m) as Hm end; [|intros Ea; by apply (Hm b x a')].
    destruct (Core.pending (desired_intent a)) as [[]|]; follow_tac.
Qed.
(** A settled state without a handoff holds no acquire intent to process. *)
Lemma process_eases f : follows eases (publish f : E _) → (∀ s, follows eases (guarded_release f s : E _)) →
  follows eases (arm_duration_timer f : E _) → follows eases (process_desired_intent (S f) : E _).
Proof.
  intros Hp Hg Ha a x a'. rewrite process_desired_intent_S. unfold mbind at 1, comp_bind at 1. cbn [get].
  case_bool_decide as Hh; intros Ea Hs.
  - revert Ea Hs. match goal with |- ?m a = _ → _ => assert (follows eases m) as Hm by follow_tac end. apply Hm.
  - destruct (handoff a) as [h|] eqn:Eh; [by destruct Hh|]. specialize (Hs Eh).
    cbn [intent_take] in Ea. unfold mbind at 1, comp_bind at 1 in Ea. cbn [modify] in Ea.
    set (b := a <| desired_intent := _ |>) in *. assert (settled b) as Hb by (intros _; done).
    destruct (Core.pending (desired_intent a)) as [[]|]; [done|..].
    + revert Ea. match goal with |- ?m b = _ → _ => assert (follows eases m) as Hm by follow_tac end.
      intros Ea. by apply (Hm b x a' Ea).
    + revert Ea. match goal with |- ?m b = _ → _ => assert (follows eases m) as Hm by follow_tac end.
      intros Ea. by apply (Hm b x a' Ea).
Qed.

(** Queueing: watched by the handoff, or processed at once. *)
Lemma queue_settling f i : follows eases (publish f : E _) → settling (process_desired_intent f : E _) →
  settling (queue_intent (S f) i : E _).
Proof.
  intros Hp Hq a x a'. rewrite queue_intent_S. unfold mbind at 1, comp_bind at 1. cbn [modify].
  unfold mbind at 1, comp_bind at 1. cbn [record modify]. unfold mbind at 1, comp_bind at 1. cbn [get].
  case_bool_decide as Hh; intros Ea.
  - eapply (watched_settles (set_tray_status _ ≫= λ _, publish f)); [exact Hh| |exact Ea]. follow_tac.
  - by eapply Hq.
Qed.

Lemma cycle_easing f : cycle_eases f.
Proof.
  induction f as [|f (H3 & H4 & H5 & H6 & H7 & H8 & H9 & H10 & H11 & H12 & H13 & H14)];
    [split_and!; intros; first [apply follows_fail|by intros a x a' [=]]|].
  assert (∀ i, follows readies (queue_intent f i : E _)) as H15 by (intros i; apply settling_readies, H13).
  assert (follows eases (process_desired_intent (S f) : E _)) by (by apply process_eases).
  assert (settling (process_desired_intent (S f) : E _)) by (by apply process_settling).
  split_and!; [| | | | |done|done|..]; intros.
  - rewrite publish_S. follow_tac.
  - rewrite refresh_operating_tier_S. follow_tac.
  - rewrite guarded_release_S. follow_tac.
  - rewrite begin_handoff_S. follow_tac.
  - rewrite arm_duration_timer_S. follow_tac.
  - rewrite acquire_timer_S. follow_tac.
  - rewrite release_for_policy_S. follow_tac.
  - rewrite queue_intent_S. follow_tac.
  - by apply queue_settling.
  - rewrite show_ownership_status_S. follow_tac.
Qed.
End Cycle.

Section Leaves.
Context {P : Type} `{TimerPlatformLaws P} {W : Type} `{Desktop W}.
Abbreviation A := (App P W).
Abbreviation E := (comp A Diverged).
Context (f : nat).

Lemma publish_eases : follows eases (publish f : E _).
Proof. apply cycle_easing. Qed.
Lemma tier_eases : follows eases (refresh_operating_tier f : E _).
Proof. apply cycle_easing. Qed.
Lemma release_eases s : follows eases (guarded_release f s : E _).
Proof. apply cycle_easing. Qed.
Lemma handoff_eases b s : follows eases (begin_handoff f b s : E _).
Proof. apply cycle_easing. Qed.
Lemma arm_eases : follows eases (arm_duration_timer f : E _).
Proof. apply cycle_easing. Qed.
Lemma show_eases s : follows eases (show_ownership_status f s : E _).
Proof. apply cycle_easing. Qed.
Lemma policy_release_eases r : follows eases (release_for_policy f r : E _).
Proof. apply cycle_easing. Qed.
Lemma process_settles_all : settling (process_desired_intent f : E _).
Proof. apply cycle_easing. Qed.
Lemma queue_settles i : settling (queue_intent f i : E _).
Proof. apply cycle_easing. Qed.
Lemma queue_readies i : follows readies (queue_intent f i : E _).
Proof. apply settling_readies, queue_settles. Qed.
End Leaves.

#[export] Hint Resolve publish_eases tier_eases release_eases handoff_eases arm_eases show_eases
  policy_release_eases queue_readies : engine_ease.

Section Handlers.
Context {P : Type} `{TimerPlatformLaws P} {W : Type} `{Desktop W}.
Abbreviation A := (App P W).
Abbreviation E := (comp A Diverged).
Context (f : nat).
Implicit Types a : A.

Lemma apply_policy_readies : follows readies (apply_policy f : E _).
Proof. unfold apply_policy. follow_tac. Qed.
#[local] Hint Resolve apply_policy_readies : engine_ease.
Lemma refresh_timing_readies : follows readies (refresh_timing_observation : E _).
Proof. unfold refresh_timing_observation. follow_tac. Qed.
#[local] Hint Resolve refresh_timing_readies : engine_ease.
Lemma reconcile_readies : follows readies (reconcile f : E _).
Proof. unfold reconcile. follow_tac. Qed.
#[local] Hint Resolve reconcile_readies : engine_ease.
Lemma power_reconciliation_readies : follows readies (apply_power_reconciliation f : E _).
Proof. unfold apply_power_reconciliation. follow_tac. Qed.
#[local] Hint Resolve power_reconciliation_readies : engine_ease.
Lemma broadcast_event_readies : follows readies (handle_power_broadcast_event f : E _).
Proof. unfold handle_power_broadcast_event, release_for_power_change, start_debounce, clear_debounce. follow_tac. Qed.
#[local] Hint Resolve broadcast_event_readies : engine_ease.
Lemma finish_handoff_eases : follows eases (finish_handoff_timer : E _).
Proof. unfold finish_handoff_timer. follow_tac. Qed.
#[local] Hint Resolve finish_handoff_eases : engine_ease.
Lemma begin_display_eases : follows eases (begin_schedule_display_timer : E _).
Proof. unfold begin_schedule_display_timer. follow_tac. Qed.
Lemma kill_display_eases : follows eases (kill_schedule_display_timer : E _).
Proof. unfold kill_schedule_display_timer. follow_tac. Qed.
Lemma cancel_timer_eases : follows eases (cancel_duration_timer : E _).
Proof. unfold cancel_duration_timer. follow_tac. Qed.
Lemma kill_debounce_eases : follows eases (kill_power_debounce_timer : E _).
Proof. unfold kill_power_debounce_timer, clear_debounce. follow_tac. Qed.
#[local] Hint Resolve begin_display_eases kill_display_eases cancel_timer_eases kill_debounce_eases : engine_ease.
Lemma schedule_readies act d : follows readies (schedule_duration_action f act d : E _).
Proof. unfold schedule_duration_action. follow_tac. Qed.
Lemma refresh_power_readies : follows readies (refresh_power_for_duration : E _).
Proof. unfold refresh_power_for_duration, refresh_power. follow_tac. Qed.
#[local] Hint Resolve schedule_readies refresh_power_readies : engine_ease.
Lemma cancel_readies : follows readies (cancel_scheduled_action f : E _).
Proof. unfold cancel_scheduled_action. follow_tac. Qed.
#[local] Hint Resolve cancel_readies : engine_ease.
Lemma execute_readies s : follows readies (execute_scheduled_action f s : E _).
Proof. unfold execute_scheduled_action. follow_tac. Qed.
#[local] Hint Resolve execute_readies : engine_ease.
Lemma start_readies : follows readies (manual_start f : E _).
Proof. unfold manual_start. follow_tac. Qed.
Lemma stop_readies : follows readies (manual_stop f : E _).
Proof. unfold manual_stop. follow_tac. Qed.
#[local] Hint Resolve start_readies stop_readies : engine_ease.
Lemma ipc_acquire_readies payload : follows readies (handle_ipc_acquire f payload : E _).
Proof. unfold handle_ipc_acquire. follow_tac. Qed.
Lemma ipc_schedule_readies payload : follows readies (handle_ipc_schedule f payload : E _).
Proof. unfold handle_ipc_schedule. follow_tac. Qed.
Lemma ipc_cancel_readies payload : follows readies (handle_ipc_cancel_schedule f payload : E _).
Proof. unfold handle_ipc_cancel_schedule. follow_tac. Qed.
#[local] Hint Resolve ipc_acquire_readies ipc_schedule_readies ipc_cancel_readies : engine_ease.
Lemma ipc_readies verb payload : follows readies (handle_ipc_command f verb payload : E _).
Proof. unfold handle_ipc_command. follow_tac. Qed.

(** Ending a handoff processes the intent that waited. *)
Lemma end_handoff_settles next external : settling (end_handoff f next external : E _).
Proof.
  unfold end_handoff. do 4 (apply settling_bind; intros ?).
  apply settling_then; [apply process_settles_all|intros ?]. follow_tac.
Qed.
Lemma handoff_timer_readies : follows readies (handle_handoff_timer f : E _).
Proof.
  unfold handle_handoff_timer. apply follows_bind; [apply _|follow_tac|intros a]. destruct (handoff a) as [tracker|]; [|follow_tac].
  apply settling_readies. do 3 (apply settling_bind; intros ?).
  destruct (handoff_observe _ _) as [progress t]. do 2 (apply settling_bind; intros ?). cbv zeta.
  destruct progress.
  { intros b y b'. unfold mbind at 1, comp_bind at 1. cbn [modify]. intros Eb.
    eapply (watched_settles (publish f)); [|apply publish_eases|exact Eb]. by eexists. }
  all: repeat lazymatch goal with
    | |- settling (end_handoff _ _ _) => apply end_handoff_settles
    | |- settling (_ ≫= _) => apply settling_bind; intros ?
    end.
Qed.
#[local] Hint Resolve handoff_timer_readies ipc_readies : engine_ease.

Lemma duration_timer_readies id : follows readies (handle_duration_timer f id : E _).
Proof. unfold handle_duration_timer. follow_tac. Qed.
Lemma display_timer_readies : follows readies (handle_schedule_display_timer f : E _).
Proof. unfold handle_schedule_display_timer. follow_tac. Qed.
Lemma debounce_readies : follows readies (handle_power_debounce_timer f : E _).
Proof. unfold handle_power_debounce_timer, release_for_power_change, start_debounce, clear_debounce. follow_tac. Qed.
Lemma surface_readies : follows readies (service_surface_recovery f : E _).
Proof. unfold service_surface_recovery, advance_surface_recovery, attempt_surface_restore. follow_tac. Qed.
Lemma broadcast_readies m : follows readies (handle_power_broadcast f m : E _).
Proof. unfold handle_power_broadcast, release_for_power_change, refresh_power. follow_tac. Qed.
Lemma preset_readies act i : follows readies (schedule_preset_action f act i : E _).
Proof. unfold schedule_preset_action. follow_tac. Qed.

(** A release that succeeds from a settled state ends released. *)
Lemma release_ends s a b a' : settled a → guarded_release f s a = (Ok (Ok b), a') →
  settled a' ∧ owned_by a' = OwnershipState.Released.
Proof.
  intros Hs Er. split; [by apply (release_eases f s a (Ok b) a')|]. revert Hs Er. destruct f as [|g]; [by intros _ [=]|].
  rewrite guarded_release_S. intros Hs. unfold mbind at 1, comp_bind at 1. cbn [get].
  case_bool_decide; [by intros [=]|]. intros Er.
  apply step_inv in Er as ([] & a1 & E1 & Er). apply step_inv in Er as ([] & a2 & E2 & Er).
  apply step_inv in Er as ([] & a3 & E3 & Er). apply step_inv in Er as (r & a4 & E4 & Er).
  assert (settled a1) as S1 by (eapply (eases_readies (record "ownership.release.request")); [|exact E1|exact Hs]; follow_tac).
  assert (settled a2) as S2 by (revert E2 S1; match goal with |- ?m _ = _ → _ => assert (follows eases m) as Hm by follow_tac end;
    intros E2; apply (Hm _ _ _ E2)).
  assert (settled a3) as S3 by (by eapply (eases_readies (publish g)); [apply publish_eases|exact E3|]).
  assert (settled a4) as S4 by (eapply (eases_readies (on_controller stop)); [apply stop_eases|exact E4|done]).
  destruct (stop_ends a3 r a4 E4) as [_ Ho]. destruct r as [released|e].
  - revert Er. match goal with |- ?m _ = _ → _ => assert (follows eases m) as Hm by follow_tac end.
    intros Er. by apply (Hm a4 (Ok b) a' Er).
  - exfalso. revert Er. repeat (intros ([] & ? & ? & Er)%step_inv; revert Er). by intros [=].
Qed.
End Handlers.
