(* ===== verification/EngineKeeps.v ===== *)
(** * EngineKeeps: the configuration is not the engine's to change

    No computation of the engine changes the configuration, but for the interval of an
    IPC acquire command; the handlers of the tray window do, and save it (TraySettings). *)
From coqutil Require Import Datatypes.RecordSetters.
From S2P Require Import Prelude Text Core Policy Watchdog Diagnostics Platform Ownership Wire Pause Files Config Surface Engine EngineSteps EngineTermination EngineSafety EngineEase.
Import TriangleBracketNotations.

Section Keeps.
Context {P : Type} `{TimerPlatform P} {W : Type} `{Desktop W}.
Abbreviation A := (App P W).
Abbreviation E := (comp A Diverged).
Implicit Types a : A.

Definition same_config a a' : Prop := config a' = config a.
#[export] Instance same_config_refl : Reflexive same_config.
Proof. by intros a. Qed.
#[export] Instance same_config_trans : Transitive same_config.
Proof. intros a b c. unfold same_config. congruence. Qed.

Lemma config_neutral {T} (m : E T) : neutral config m → follows same_config m.
Proof. intros Hm a x a' Ea. destruct (Hm a) as (x1 & a1 & E1 & V1). unfold same_config. congruence. Qed.
Lemma config_when b (m : E unit) : follows same_config m → follows same_config (when b m).
Proof. intros Hm. destruct b; [done|]. apply follows_ret. apply _. Qed.
End Keeps.

Create HintDb engine_config.
Ltac config_leaf :=
  first [ solve [auto with nocore engine_config]
        | apply config_neutral; solve [ready_leaf_tac] ].
Ltac config_tac :=
  repeat lazymatch goal with
    | |- follows _ (mret _) => apply follows_ret; apply _
    | |- follows _ get => apply follows_get; apply _
    | |- follows _ (fail _) => apply follows_fail
    | |- follows _ (when _ _) => apply config_when
    | |- follows _ (let _ := _ in _) => cbv zeta
    | |- follows _ (match ?x with _ => _ end) => destruct x
    | |- follows _ (_ ≫= _) => apply follows_bind; [apply _| |intros ?]
    | |- _ => config_leaf
    end.

Section Cycle.
Context {P : Type} `{TimerPlatform P} {W : Type} `{Desktop W}.
Abbreviation A := (App P W).
Abbreviation E := (comp A Diverged).

Lemma enter_tier_keeps t : follows same_config (enter_tier t : E unit).
Proof. apply config_neutral. destruct t; cbn [enter_tier]; ready_leaf_tac. Qed.
#[local] Hint Resolve enter_tier_keeps : engine_config.

Definition cycle_keeps (f : nat) : Prop :=
  follows same_config (publish f : E _) ∧ follows same_config (refresh_operating_tier f : E _) ∧
  (∀ s, follows same_config (guarded_release f s : E _)) ∧
  (∀ b s, follows same_config (begin_handoff f b s : E _)) ∧
  follows same_config (arm_duration_timer f : E _) ∧
  follows same_config (process_desired_intent f : E _) ∧
  follows same_config (acquire_timer f : E _) ∧
  (∀ r, follows same_config (release_for_policy f r : E _)) ∧
  (∀ i, follows same_config (queue_intent f i : E _)) ∧
  ∀ s, follows same_config (show_ownership_status f s : E _).

Lemma cycle_kept f : cycle_keeps f.
Proof.
  induction f as [|f (H3 & H4 & H5 & H6 & H7 & H8 & H9 & H10 & H11 & H12)];
    [split_and!; intros; apply follows_fail|].
  split_and!; intros.
  - rewrite publish_S. config_tac.
  - rewrite refresh_operating_tier_S. config_tac.
  - rewrite guarded_release_S. config_tac.
  - rewrite begin_handoff_S. config_tac.
  - rewrite arm_duration_timer_S. config_tac.
  - rewrite process_desired_intent_S. config_tac.
  - rewrite acquire_timer_S. config_tac.
  - rewrite release_for_policy_S. config_tac.
  - rewrite queue_intent_S. config_tac.
  - rewrite show_ownership_status_S. config_tac.
Qed.
End Cycle.

Section Handlers.
Context {P : Type} `{TimerPlatform P} {W : Type} `{Desktop W}.
Abbreviation A := (App P W).
Abbreviation E := (comp A Diverged).
Context (f : nat).

Lemma publish_keeps : follows same_config (publish f : E _).
Proof. apply cycle_kept. Qed.
Lemma tier_keeps : follows same_config (refresh_operating_tier f : E _).
Proof. apply cycle_kept. Qed.
Lemma release_keeps s : follows same_config (guarded_release f s : E _).
Proof. apply cycle_kept. Qed.
Lemma handoff_keeps b s : follows same_config (begin_handoff f b s : E _).
Proof. apply cycle_kept. Qed.
Lemma arm_keeps : follows same_config (arm_duration_timer f : E _).
Proof. apply cycle_kept. Qed.
Lemma process_keeps : follows same_config (process_desired_intent f : E _).
Proof. apply cycle_kept. Qed.
Lemma policy_release_keeps r : follows same_config (release_for_policy f r : E _).
Proof. apply cycle_kept. Qed.
Lemma queue_keeps i : follows same_config (queue_intent f i : E _).
Proof. apply cycle_kept. Qed.
Lemma show_keeps s : follows same_config (show_ownership_status f s : E _).
Proof. apply cycle_kept. Qed.
#[local] Hint Resolve publish_keeps tier_keeps release_keeps handoff_keeps arm_keeps process_keeps policy_release_keeps
  queue_keeps show_keeps : engine_config.

Lemma apply_policy_keeps : follows same_config (apply_policy f : E _).
Proof. unfold apply_policy. config_tac. Qed.
#[local] Hint Resolve apply_policy_keeps : engine_config.
Lemma power_reconciliation_keeps : follows same_config (apply_power_reconciliation f : E _).
Proof. unfold apply_power_reconciliation. config_tac. Qed.
#[local] Hint Resolve power_reconciliation_keeps : engine_config.
Lemma reconcile_keeps : follows same_config (reconcile f : E _).
Proof. unfold reconcile. config_tac. Qed.
Lemma refresh_timing_keeps : follows same_config (refresh_timing_observation : E _).
Proof. unfold refresh_timing_observation. config_tac. Qed.
#[local] Hint Resolve reconcile_keeps refresh_timing_keeps : engine_config.
Lemma execute_keeps s : follows same_config (execute_scheduled_action f s : E _).
Proof. unfold execute_scheduled_action. config_tac. Qed.
#[local] Hint Resolve execute_keeps : engine_config.
Lemma cancel_keeps : follows same_config (cancel_scheduled_action f : E _).
Proof. unfold cancel_scheduled_action, cancel_duration_timer, kill_schedule_display_timer. config_tac. Qed.
#[local] Hint Resolve cancel_keeps : engine_config.
Lemma schedule_keeps act d : follows same_config (schedule_duration_action f act d : E _).
Proof. unfold schedule_duration_action, refresh_power_for_duration, begin_schedule_display_timer. config_tac. Qed.
#[local] Hint Resolve schedule_keeps : engine_config.
Lemma start_keeps : follows same_config (manual_start f : E _).
Proof. unfold manual_start. config_tac. Qed.
Lemma stop_keeps : follows same_config (manual_stop f : E _).
Proof. unfold manual_stop. config_tac. Qed.
(** The interval of an acquire command is the one exception. *)
Definition same_settings (a a' : A) : Prop := ∃ i,
  config a' = mkConfig (automatic (config a)) (startup_enabled (config a)) (auto_resume_on_ac (config a))
    (battery_lockout (config a)) i (schedule_presets_seconds (config a)).
#[export] Instance same_settings_refl : Reflexive same_settings.
Proof. intros a. exists (request_interval (config a)). by destruct (config a). Qed.
#[export] Instance same_settings_trans : Transitive same_settings.
Proof. intros a b c [i E1] [j E2]. exists j. by rewrite E2, E1. Qed.
Lemma keeps_settings {T} (m : E T) : follows same_config m → follows same_settings m.
Proof. intros Hm a x a' Ea. unfold same_settings. rewrite (Hm a x a' Ea). apply same_settings_refl. Qed.
#[local] Hint Resolve start_keeps stop_keeps : engine_config.
Lemma acquire_settings payload : follows same_settings (handle_ipc_acquire f payload : E _).
Proof.
  unfold handle_ipc_acquire. cbv zeta. destruct (bool_decide _); [apply keeps_settings; config_tac|].
  destruct (negb _); [apply keeps_settings; config_tac|]. destruct (validate_interval_hns _) as [i|]; [|apply keeps_settings; config_tac].
  apply follows_bind; [apply _|apply follows_modify; intros a; by exists i|intros _]. apply keeps_settings; config_tac.
Qed.
Lemma ipc_keeps verb payload : follows same_settings (handle_ipc_command f verb payload : E _).
Proof.
  unfold handle_ipc_command, handle_ipc_schedule, handle_ipc_cancel_schedule.
  destruct verb; [apply keeps_settings; config_tac|apply acquire_settings|apply keeps_settings; config_tac..].
Qed.
Lemma broadcast_event_keeps : follows same_config (handle_power_broadcast_event f : E _).
Proof.
  unfold handle_power_broadcast_event, release_for_power_change, start_debounce, kill_power_debounce_timer, clear_debounce.
  config_tac.
Qed.
Lemma power_change_keeps : follows same_config (release_for_power_change f : E _).
Proof. unfold release_for_power_change. config_tac. Qed.
#[local] Hint Resolve broadcast_event_keeps power_change_keeps : engine_config.
Lemma handle_keeps e : follows same_settings (handle f e : E _).
Proof.
  destruct e; lazymatch goal with
    | |- follows _ (handle _ (EvIpc _ _)) => apply follows_bind; [apply _|apply ipc_keeps|intros ?; apply follows_ret; apply _]
    | |- _ => apply keeps_settings
    end; cbn [handle]; unfold handle_handoff_timer, end_handoff, finish_handoff_timer, service_surface_recovery,
    advance_surface_recovery, attempt_surface_restore, handle_schedule_display_timer, handle_power_debounce_timer,
    release_for_power_change, clear_debounce, handle_duration_timer, handle_power_broadcast, schedule_preset_action,
    begin_schedule_display_timer, kill_schedule_display_timer, cancel_duration_timer; config_tac.
Qed.
End Handlers.
#[export] Hint Resolve publish_keeps tier_keeps release_keeps power_reconciliation_keeps reconcile_keeps start_keeps
  stop_keeps cancel_keeps schedule_keeps refresh_timing_keeps : engine_config.
