(* ===== verification/Tray.v ===== *)
(** * Tray: settings, quitting, resets and the other handlers of the tray window

    Models, around the state machine of [Engine]: the setting toggles of
    [apps/true-tick/src/tray/commands.rs], the quit command and the resets of
    [menu.rs] and [controller.rs], [cleanup_normal_shutdown], the heartbeat of
    [status.rs], the tray icon of [surface.rs], [emergency.rs] as the window
    procedure reaches it, and the presets of [ui/presets_window.rs].

    A message box runs its own message loop: the messages that are handled while
    it is open, and the button, are the next entry of [dialogs]; [pump] handles
    them.  The other native calls succeed or fail as [natives] says (they succeed
    when the list is over), and the clock, the free space and the diagnostic
    events a log flush finds are [reading]. *)
From coqutil Require Import Datatypes.RecordSetters.
From S2P Require Import Prelude Text Core Policy Watchdog Privacy Diagnostics Platform Ownership Wire Pause Files Config Session FileFrames Dirs Startup Logging Surface Menus Engine.
Import TriangleBracketNotations.

Definition HEARTBEAT_TIMER_ID : Z := 0x7300.
Definition IDYES : Z := 6.

Module PresetsClick.
Inductive PresetsClick := Add | Delete (selection : Z) | Reset | Close.
End PresetsClick.
Abbreviation PresetsClick := PresetsClick.PresetsClick.

(** What the shell answers about the screen when the icon is clicked:
    [GetCursorPos], the work areas, the rectangle of the icon and the edge of the
    taskbar. *)
Record Screen := mkScreen {
  cursor_pos : option Point; monitor_work_area : option Rect; primary_work_area : Rect;
  icon_rect : option Rect; taskbar_edge : option Z }.

(** The messages of the UI thread: those of [window_proc], those of the presets
    window, and what other threads do between two of them. *)
Inductive Message :=
| WmTray (notification : Z) (s : Screen)
| WmCommand (w_param : Z)
| WmTimer (w_param : Z)
| WmAppIpc
| WmPowerBroadcast (m : PowerBroadcast)
| WmEndSession (w_param : Z)
| WmClose
| WmDestroy
| WmTaskbarCreated
| WmAnotherInstance
| WmPresets (c : PresetsClick)
| IpcRequestQueued (verb : CommandVerb) (payload : bytes)
| AnomalyReported
| StallReported.

(** A submenu or an item of a menu, as [AppendMenuW] gets it. *)
Record MenuEntry := mkEntry { entry_flags : Z; entry_id : Z; entry_text : str }.
Record PopupMenuHandles := mkHandles {
  root_menu : Z; schedule_menu : option Z; settings_menu : option Z; status_menu : option Z }.

Record Tray (P W : Type) := mkTray {
  app : App P W;
  machine : Machine;
  startup_status : str;
  (** [TEMPORARY_SEQUENCE] of [config.rs]. *)
  temporary_sequence : Z;
  shutdown_gate : ShutdownGate;
  ipc_server : bool;
  ipc_teardown : bool;
  ipc_command_queue : list (CommandVerb * bytes);
  ipc_replies : list IpcResponse;
  watchdog_stopped : bool;
  responsiveness : ResponsivenessTracker;
  responsiveness_notified : bool;
  last_heartbeat_fire : option Z;
  watchdog_stall_events : Z;
  persisted_sequence : Z;
  flushes : nat;
  (** [CLEANUP_STATE]: whether the emergency cleanup is still to run. *)
  cleanup_pending : bool;
  (** The presets window: its list and its input field. *)
  presets_window : bool;
  presets_listbox : option (list str);
  presets_input : option str;
  (** The popup menu. *)
  menu_active : bool;
  settings_submenu_open : bool;
  popup_refresh_timer_active : bool;
  popup_menus : option PopupMenuHandles;
  menus : gmap Z (list MenuEntry);
  next_menu : Z;
  menu_position : option MenuAnchor;
  quit_posted : bool;
  dialogs : list (list Message * Z);
  natives : list bool }.
Arguments mkTray {P W}.
Arguments app {P W} _. Arguments machine {P W} _. Arguments startup_status {P W} _.
Arguments temporary_sequence {P W} _. Arguments shutdown_gate {P W} _. Arguments ipc_server {P W} _.
Arguments ipc_teardown {P W} _. Arguments ipc_command_queue {P W} _. Arguments ipc_replies {P W} _.
Arguments watchdog_stopped {P W} _. Arguments responsiveness {P W} _.
Arguments responsiveness_notified {P W} _. Arguments last_heartbeat_fire {P W} _.
Arguments watchdog_stall_events {P W} _. Arguments persisted_sequence {P W} _. Arguments flushes {P W} _.
Arguments cleanup_pending {P W} _. Arguments presets_window {P W} _. Arguments presets_listbox {P W} _.
Arguments presets_input {P W} _. Arguments menu_active {P W} _. Arguments settings_submenu_open {P W} _.
Arguments popup_refresh_timer_active {P W} _. Arguments popup_menus {P W} _. Arguments menus {P W} _.
Arguments next_menu {P W} _. Arguments menu_position {P W} _. Arguments quit_posted {P W} _. Arguments dialogs {P W} _.
Arguments natives {P W} _.

(** A handler stops short when the engine runs out of fuel, when the process exits
    or panics, and when the bound on open dialogs ends ([TrayMenu] proves that the
    bound it sets is never reached). *)
Inductive TrayStop := TrayDiverged | ProcessExited | Panicked | DialogBound.

(** [NtSetTimerResolution] with a false flag, outside the controller. *)
Class EmergencyRestore (P : Type) := emergency_release : Z → P → P.

Module QuitDialogDecision.
Inductive QuitDialogDecision := StopAndQuit | Cancel.
End QuitDialogDecision.
Abbreviation QuitDialogDecision := QuitDialogDecision.QuitDialogDecision.
Record QuitWarningResult := mkWarning {
  warning_decision : QuitDialogDecision; message_box_result : option Z; dialog_shown : bool }.

Definition message_box_decision (r : Z) : QuitDialogDecision :=
  if r =? IDYES then QuitDialogDecision.StopAndQuit else QuitDialogDecision.Cancel.
Definition quit_warning_result (message_box_result : option Z) : QuitWarningResult :=
  let r := default 0 message_box_result in
  mkWarning (message_box_decision r) message_box_result (negb (r =? 0)).

Definition with_automatic (b : bool) (c : Config) : Config :=
  mkConfig b (startup_enabled c) (auto_resume_on_ac c) (battery_lockout c) (request_interval c) (schedule_presets_seconds c).
Definition with_startup (b : bool) (c : Config) : Config :=
  mkConfig (automatic c) b (auto_resume_on_ac c) (battery_lockout c) (request_interval c) (schedule_presets_seconds c).
Definition with_auto_resume (b : bool) (c : Config) : Config :=
  mkConfig (automatic c) (startup_enabled c) b (battery_lockout c) (request_interval c) (schedule_presets_seconds c).
Definition with_battery_lockout (b : bool) (c : Config) : Config :=
  mkConfig (automatic c) (startup_enabled c) (auto_resume_on_ac c) b (request_interval c) (schedule_presets_seconds c).
Definition with_presets (l : list Z) (c : Config) : Config :=
  mkConfig (automatic c) (startup_enabled c) (auto_resume_on_ac c) (battery_lockout c) (request_interval c) l.

(** The process, its paths, the fuel of the engine's cycles, and the clock and the
    diagnostic events at each flush. *)
Class TrayHost := mkHost {
  debug_assertions : bool;
  process_id : Z;
  executable : path;
  config_path : path;
  log_directory : path;
  state_directory : path;
  io_kind_label : IoKind → str;
  reading : nat → Moment * StoreState;
  fuel : nat }.

Section Tray.
Context {P : Type} `{TimerPlatform P} `{EmergencyRestore P} {W : Type} `{Desktop W}.
Context `{Sha256} `{IoDisplay} `{PathDisplay} `{TrayHost}.
Abbreviation TR := (Tray P W).
Abbreviation T := (comp TR TrayStop).

Definition on_app {X} (m : comp (App P W) Diverged X) : T X := λ t : TR,
  let '(r, a) := m (app t) in
  (match r with Ok x => Ok x | Err OutOfFuel => Err TrayDiverged end, t <| app := a |>).
Definition note (name : string) : T unit := on_app (record name).
Definition note_outcome (name : string) (o : DiagnosticOutcome) : T unit := on_app (record_with_outcome name o).
Definition on_machine {E X} (m : comp Machine E X) : T (result E X) := λ t : TR,
  let '(r, mc) := m (machine t) in (Ok r, t <| machine := mc |>).
Definition on_disk_of {E X} (m : comp Fs E X) : T (result E X) := λ t : TR,
  let '(r, f) := m (disk (machine t)) in (Ok r, t <| machine ::= set_disk f |>).
Definition native : T bool := λ t : TR,
  match natives t with
  | [] => (Ok true, t)
  | b :: rest => (Ok b, t <| natives := rest |>)
  end.
Definition set_config (c : Config) : T unit := modify (λ t, t <| app ::= (λ a, a <| config := c |>) |>).
Definition set_startup_status (s : str) : T unit := modify (λ t, t <| startup_status := bounded_startup_status s |>).
Definition app_publish : T unit := on_app (publish fuel).
Definition begin_op : T unit := note "operation.begin".
Definition finish_operation (o : DiagnosticOutcome) : T unit := note_outcome "operation.complete" o.

(** [config::save_atomic]. *)
Definition save_config (c : Config) : T (result ConfigError unit) :=
  t ← get;
  _ ← modify (λ t : TR, t <| temporary_sequence ::= (λ n, wrap 64 (n + 1)) |>);
  on_disk_of (save_atomic process_id (temporary_sequence t) config_path c).

(** [flush_diagnostic_events_to_disk_sync]. *)
Definition flush_log : T unit :=
  t ← get;
  let '(m, s) := reading (flushes t) in
  let '(_, l) := (flush_diagnostic_events_to_disk_sync io_kind_label m log_directory
                    (mkLogger (disk (machine t)) s (persisted_sequence t) None) : result unit unit * Logger) in
  modify (λ t : TR, t <| machine ::= set_disk (log_fs l) |> <| persisted_sequence := committed l |> <| flushes ::= S |>).

(** ** The settings: [commands.rs] *)

(** The steps the three toggles share: save, then apply. *)
Definition change_setting (event : string) (change : Config → Config) (apply : T unit) : T unit :=
  _ ← note "tray.command"; _ ← note "toggle.requested"; _ ← note event;
  t ← get;
  let next := change (config (app t)) in
  saved ← save_config next;
  match saved with
  | Err _ =>
      _ ← note_outcome "config.save.result" DiagnosticOutcome.Failed;
      _ ← note "toggle.result";
      app_publish
  | Ok _ =>
      _ ← note "config.save.result";
      _ ← set_config next;
      _ ← note "toggle.result";
      apply
  end.

Definition set_automatic (enabled : bool) : T unit :=
  change_setting "policy.automatic_setting_changed" (with_automatic enabled)
    (on_app (if enabled then reconcile fuel else manual_stop fuel)).

Definition set_auto_resume (enabled : bool) : T unit :=
  change_setting "policy.auto_resume_setting_changed" (with_auto_resume enabled)
    (on_app (apply_power_reconciliation fuel)).

Definition set_battery_lockout (enabled : bool) : T unit :=
  change_setting "policy.battery_lockout_setting_changed" (with_battery_lockout enabled)
    (_ ← (if enabled then mret tt else on_app (modify (λ a, a <| last_block_reason := None |>)));
     on_app (apply_power_reconciliation fuel)).

(** The registration is unavailable: the setting is saved all the same. *)
Definition startup_unavailable (error : str) (next : Config) : T unit :=
  _ ← note_outcome "startup.registration.result" DiagnosticOutcome.Failed;
  saved ← save_config next;
  _ ← match saved with
      | Err _ =>
          _ ← note_outcome "config.save.result" DiagnosticOutcome.Failed;
          _ ← note "toggle.result";
          set_startup_status (lit "startup registration unavailable and config persistence failed")
      | Ok _ =>
          _ ← note "config.save.result";
          _ ← set_config next;
          _ ← note "toggle.result";
          set_startup_status
            (lit "auto-start enabled in config, current-user registration unavailable: " ++ error)
      end;
  app_publish.

Definition rollback_startup (enabled : bool) : T (result StartupError unit) :=
  match startup_rollback enabled with
  | StartupRollback.SkipDestructiveInverse => _ ← note "startup.registration.rollback_skipped"; mret (Ok tt)
  | StartupRollback.RestoreRegistration =>
      match startup_target debug_assertions executable with
      | Ok target => on_machine (register_startup_target target)
      | Err _ => mret (Err StartupError.InvalidExecutablePath)
      end
  end.

(** After the target is known: the registry, then the configuration. *)
Definition change_startup (enabled : bool) (target : option StartupTarget) (next : Config) : T unit :=
  registration ←
    match target with
    | Some target => _ ← note "native.RegSetValueExW.call"; on_machine (register_startup_target target)
    | None => _ ← note "native.RegDeleteValueW.call"; on_machine startup_remove
    end;
  match registration with
  | Err _ =>
      _ ← note_outcome "startup.registration.result" DiagnosticOutcome.Failed;
      _ ← note "toggle.result";
      _ ← set_startup_status (lit "startup registration error");
      app_publish
  | Ok _ =>
      saved ← save_config next;
      match saved with
      | Err _ =>
          _ ← note_outcome "config.save.result" DiagnosticOutcome.Failed;
          rollback ← rollback_startup enabled;
          _ ← note "startup.registration.rollback"; _ ← note "toggle.result";
          _ ← set_startup_status
                (if enabled
                 then lit "startup config persistence failed, registry left enabled and repair is required"
                 else if is_ok rollback
                 then lit "startup config persistence failed, registry change rolled back"
                 else lit "startup config persistence failed, repair required");
          app_publish
      | Ok _ =>
          _ ← note "config.save.result";
          _ ← set_config next;
          _ ← note "toggle.result"; _ ← note "startup.registration.result";
          _ ← set_startup_status
                match target with
                | Some target => lit "boot startup registered for current-user " ++ target_description target
                | None => lit "boot startup registration disabled by config"
                end;
          app_publish
      end
  end.

Definition set_startup (enabled : bool) : T unit :=
  _ ← note "tray.command"; _ ← note "toggle.requested";
  t ← get;
  let next := with_startup enabled (config (app t)) in
  if enabled then
    match startup_target debug_assertions executable with
    | Ok target => change_startup enabled (Some target) next
    | Err error => startup_unavailable error next
    end
  else change_startup enabled None next.

(** ** The tray icon: [surface.rs] *)

Definition remove_tray_icon : T unit :=
  t ← get;
  if tray_icon (app t) then
    _ ← on_app (modify (λ a, a <| tray_icon := false |>));
    _ ← native;
    note "native.Shell_NotifyIconW.delete"
  else mret tt.

Definition restore_tray_icon : T unit :=
  _ ← note "tray.taskbar_created";
  created ← on_app (on_world shell_create);
  if negb created then
    _ ← note_outcome "native.tray_icon.create.error" DiagnosticOutcome.Failed;
    _ ← on_app (modify (λ a, a <| tray_icon := false |>));
    app_publish
  else
    added ← on_app (on_world shell_add);
    if negb added then
      _ ← note_outcome "native.Shell_NotifyIconW.add.error" DiagnosticOutcome.Failed;
      _ ← on_app (modify (λ a, a <| tray_icon := false |>));
      app_publish
    else
      _ ← on_app (modify (λ a, a <| tray_icon := true |> <| last_publication := None |>));
      app_publish.

(** ** The heartbeat: [status.rs] *)

Definition kill_heartbeat_timer : T unit :=
  t ← get;
  _ ← (if tray_icon (app t) then _ ← on_app (KillTimer HEARTBEAT_TIMER_ID); mret tt else mret tt);
  modify (λ t : TR, t <| last_heartbeat_fire := None |>).

Definition handle_heartbeat_timer : T unit :=
  kicked ← on_app now;
  _ ← on_app (modify (λ a, a <| heartbeat := monotonic_ms kicked |>));
  now ← on_app now;
  t ← get;
  let elapsed_ms := match last_heartbeat_fire t with Some prev => sat_sub now prev / 1000000 | None => 0 end in
  let lateness_ms := sat_sub elapsed_ms HEARTBEAT_INTERVAL_MS in
  let sample := if 0 <? watchdog_stall_events t then Z.max lateness_ms STALL_THRESHOLD_MS else lateness_ms in
  _ ← modify (λ t : TR, t <| watchdog_stall_events := 0 |> <| last_heartbeat_fire := Some now |>
        <| responsiveness ::= (λ r, observe r sample) |>);
  t ← get;
  let degraded_now := bool_decide (tracker_state (responsiveness t) = ResponsivenessState.Degraded) in
  if degraded_now && negb (responsiveness_degraded (app t)) then
    _ ← on_app (modify (λ a, a <| responsiveness_degraded := true |>));
    _ ← note "responsiveness.degraded";
    _ ← (if negb (responsiveness_notified t) then
           _ ← modify (λ t : TR, t <| responsiveness_notified := true |>);
           (if tray_icon (app t) then _ ← native; mret tt else mret tt)
         else mret tt);
    app_publish
  else if negb degraded_now && responsiveness_degraded (app t) then
    _ ← on_app (modify (λ a, a <| responsiveness_degraded := false |>));
    _ ← modify (λ t : TR, t <| responsiveness_notified := false |>);
    _ ← note "responsiveness.recovered";
    app_publish
  else mret tt.

(** ** Shutdown: [controller.rs] *)

Definition gate_attempts (ok : bool) : T unit :=
  modify (λ t : TR, t <| shutdown_gate ::= (λ g,
    let '(_, g, _) := gate_attempt (if ok then mret tt else fail tt : comp unit unit unit) g tt in g) |>).

(** The part every attempt does: servers, schedule and timers. *)
Definition prepare_shutdown : T unit :=
  t ← get;
  _ ← (if ipc_server t then
         _ ← modify (λ t : TR, t <| ipc_server := false |>);
         joined ← native;
         (if (joined : bool) then mret tt else note_outcome "ipc.server.stop_failed" DiagnosticOutcome.Failed)
       else mret tt);
  modify (λ t : TR, t <| watchdog_stopped := true |>).

Definition clear_schedule_timers (event : T unit) : T unit :=
  t ← get;
  _ ← on_app (modify (λ a, a <| pause ::= (λ c, (cancel c).2) |>));
  _ ← (if active (pause (app t)) then event else mret tt);
  _ ← on_app cancel_duration_timer;
  _ ← on_app kill_schedule_display_timer;
  on_app kill_power_debounce_timer.

(** Of an unverified attempt: schedule, timers and pending resumption. *)
Definition begin_cleanup : T unit :=
  _ ← clear_schedule_timers (note "duration.cleared");
  _ ← kill_heartbeat_timer;
  _ ← on_app (modify (λ a, a <| pending_resume_on_ac := false |>));
  _ ← begin_op;
  note "shutdown.cleanup".

(** Released already, and only watched: the watch ends. *)
Definition quit_handoff : T unit :=
  _ ← on_app finish_handoff_timer;
  _ ← on_app (modify (λ a, a <| handoff := None |>));
  _ ← on_app (modify_controller clear_release_boundary);
  _ ← on_app sync_timing_snapshot;
  _ ← on_app (modify (λ a, a <| external_timing := true |> <| tray_status := TrayStatus.Stopped |>));
  _ ← note "handoff.quit";
  app_publish.

(** Whether the cleanup is verified. *)
Definition cleanup_normal_shutdown : T bool :=
  _ ← prepare_shutdown;
  t ← get;
  if gate_verified (shutdown_gate t) then mret true
  else
    _ ← begin_cleanup;
    t ← get;
    if bool_decide (is_Some (handoff (app t)))
       && bool_decide (ownership (controller (app t)) = OwnershipState.Released) then
      _ ← quit_handoff;
      _ ← gate_attempts true;
      _ ← note "shutdown.cleanup.result";
      _ ← finish_operation DiagnosticOutcome.Completed;
      mret true
    else
      result ← on_app (guarded_release fuel TrayStatus.Stopped);
      t ← get;
      if is_ok result && bool_decide (is_Some (handoff (app t))) then
        _ ← gate_attempts false;
        _ ← note_outcome "shutdown.cleanup.result" DiagnosticOutcome.Failed;
        mret false
      else if is_ok result then
        _ ← gate_attempts true;
        _ ← note "shutdown.cleanup.result";
        _ ← finish_operation DiagnosticOutcome.Completed;
        mret true
      else
        _ ← gate_attempts false;
        _ ← note_outcome "shutdown.cleanup.result" DiagnosticOutcome.Failed;
        _ ← finish_operation DiagnosticOutcome.Unverified;
        mret false.

(** ** [emergency.rs], from the window procedure *)

Definition u32_bound : Z := 2 ^ 32.
Definition restore_timer_resolution : T bool :=
  t ← get;
  let interval := emergency_interval (app t) in
  _ ← on_app (modify (λ a, a <| emergency_interval := 0 |>));
  if interval =? 0 then mret false
  else if u32_bound <=? interval then _ ← note "emergency.timer_resolution.restore.skipped"; mret false
  else
    _ ← on_app (modify_controller (λ c, set_platform (emergency_release interval (platform c)) c));
    mret true.

Definition write_clean_session_marker : T unit :=
  _ ← on_disk_of (write_session_bytes_atomic process_id state_directory SESSION_STATE_CLEAN); mret tt.

Definition emergency_cleanup : T unit :=
  t ← get;
  if negb (cleanup_pending t) then mret tt
  else
    _ ← modify (λ t : TR, t <| cleanup_pending := false |>);
    _ ← restore_timer_resolution;
    _ ← flush_log;
    write_clean_session_marker.

Definition session_is_ending (w_param : Z) : bool := negb (w_param =? 0).
Definition session_end_cleanup (w_param : Z) : T unit :=
  if session_is_ending w_param then emergency_cleanup else mret tt.

(** ** The IPC commands *)

Fixpoint drain_requests (n : nat) : T unit :=
  match n with
  | O => mret tt
  | S n =>
      t ← get;
      match ipc_command_queue t with
      | [] => mret tt
      | (verb, payload) :: rest =>
          _ ← modify (λ t : TR, t <| ipc_command_queue := rest |>);
          response ← on_app (handle_ipc_command fuel verb payload);
          _ ← modify (λ t : TR, t <| ipc_replies ::= (λ l, l ++ [response]) |>);
          received ← native;
          _ ← (if (received : bool) then mret tt else note "ipc.command.reply_dropped");
          _ ← flush_log;
          drain_requests n
      end
  end.
(** No request arrives while the handlers run. *)
Definition drain_ipc_command_queue : T unit := t ← get; drain_requests (length (ipc_command_queue t)).

(** ** The presets window: [presets_window.rs] *)

Definition persist_presets : T bool :=
  t ← get;
  let next := with_presets (to_seconds_list (presets_manager (app t))) (config (app t)) in
  saved ← save_config next;
  match saved with
  | Err _ => _ ← note_outcome "config.save.result" DiagnosticOutcome.Failed; mret false
  | Ok _ => _ ← note "config.save.result"; _ ← set_config next; mret true
  end.

Definition populate_presets_list : T unit :=
  modify (λ t : TR, t <| presets_listbox ::=
    (λ l, match l with Some _ => Some (map format_label (presets (presets_manager (app t)))) | None => None end) |>).

Definition set_presets (m : PresetsManager) : T unit := on_app (modify (λ a, a <| presets_manager := m |>)).

Definition presets_add : T unit :=
  t ← get;
  match presets_input t with
  | None => note_outcome "presets.add" DiagnosticOutcome.Failed
  | Some text =>
      match parse text with
      | Ok preset =>
          match add (presets_manager (app t)) preset with
          | (Ok _, m) =>
              _ ← set_presets m; _ ← note "presets.add"; _ ← persist_presets; _ ← populate_presets_list;
              modify (λ t : TR, t <| presets_input := Some [] |>)
          | (Err _, m) => _ ← set_presets m; note_outcome "presets.add" DiagnosticOutcome.Failed
          end
      | Err _ => note_outcome "presets.add" DiagnosticOutcome.Failed
      end
  end.

(** [selection] is what [LB_GETCURSEL] answers. *)
Definition presets_delete_selected (selection : Z) : T unit :=
  t ← get;
  match presets_listbox t with
  | None => note_outcome "presets.delete" DiagnosticOutcome.Failed
  | Some _ =>
      if selection <? 0 then note_outcome "presets.delete" DiagnosticOutcome.Suppressed
      else
        match Pause.remove (presets_manager (app t)) (Z.to_nat selection) with
        | (Ok _, m) => _ ← set_presets m; _ ← note "presets.delete"; _ ← persist_presets; populate_presets_list
        | (Err _, m) => _ ← set_presets m; note_outcome "presets.delete" DiagnosticOutcome.Failed
        end
  end.

Definition presets_reset : T unit :=
  t ← get;
  _ ← set_presets (reset_defaults (presets_manager (app t)));
  _ ← note "presets.reset"; _ ← persist_presets; populate_presets_list.

Definition close_presets_window : T unit :=
  modify (λ t : TR, t <| presets_window := false |> <| presets_listbox := None |> <| presets_input := None |>).

(** [CreateWindowExW] of the presets window: its [WM_CREATE] makes seven
    controls, and fails when one of them fails. *)
Fixpoint create_controls (n : nat) : T bool :=
  match n with
  | O => mret true
  | S n => made ← native; rest ← create_controls n; mret (made && rest)
  end.
Definition create_presets_window : T bool :=
  controls ← create_controls 7;
  if negb controls
  then _ ← note_outcome "native.CreateWindowExW.presets_control.error" DiagnosticOutcome.Failed; mret false
  else
    _ ← modify (λ t : TR, t <| presets_listbox := Some [] |> <| presets_input := Some [] |>);
    _ ← populate_presets_list;
    native.

Definition open_presets_window : T bool :=
  t ← get;
  alive ← (if presets_window t then native else mret false);
  if (alive : bool) then _ ← note "presets.window.result"; mret true
  else
    _ ← (if presets_window t then close_presets_window else mret tt);
    window ← create_presets_window;
    if negb window then _ ← note_outcome "presets.window.result" DiagnosticOutcome.Failed; mret false
    else
      _ ← modify (λ t : TR, t <| presets_window := true |>);
      ready ← native;
      if negb ready then _ ← note "presets.window.invalid"; _ ← close_presets_window; mret false
      else _ ← note "presets.window.result"; mret true.

Definition handle_presets_click (c : PresetsClick) : T unit :=
  match c with
  | PresetsClick.Add => presets_add
  | PresetsClick.Delete selection => presets_delete_selected selection
  | PresetsClick.Reset => presets_reset
  | PresetsClick.Close => close_presets_window
  end.

(** ** Dialogs, quitting and resets *)

Section Dialogs.
(** The message loop of an open message box or menu. *)
Context (pump : list Message → T unit).

Definition MessageBoxW : T Z :=
  t ← get;
  match dialogs t with
  | [] => mret 0
  | (messages, button) :: rest =>
      _ ← modify (λ t : TR, t <| dialogs := rest |>);
      _ ← pump messages;
      mret button
  end.

Definition show_shutdown_warning : T unit := _ ← MessageBoxW; mret tt.
Definition show_quit_warning : T QuitWarningResult := r ← MessageBoxW; mret (quit_warning_result (Some r)).
Definition PostQuitMessage : T unit := modify (λ t : TR, t <| quit_posted := true |>).

Definition quit_decision (t : TR) : QuitDecision :=
  quit_decision_for_handoff (lifecycle (app t)) (ownership (controller (app t)))
    (bool_decide (is_Some (handoff (app t)))).

Definition cleanup_denied : T bool :=
  _ ← note_outcome "quit.cleanup.result" DiagnosticOutcome.Unverified;
  _ ← note_outcome "quit.blocked.uncertain_cleanup" DiagnosticOutcome.Unverified;
  _ ← note "quit.exit.allowed";
  _ ← show_shutdown_warning;
  mret true.

(** The cleanup, then the quit message when it is verified. *)
Definition cleanup_and_quit (noted : T unit) : T bool :=
  verified ← cleanup_normal_shutdown;
  if (verified : bool) then
    _ ← noted;
    _ ← PostQuitMessage;
    mret false
  else cleanup_denied.

(** [ID_QUIT]: whether the menu is shown again. *)
Definition handle_quit : T bool :=
  _ ← note "tray.command"; _ ← note "lifecycle.shutdown_request"; _ ← note "quit.requested";
  t ← get;
  let decision := quit_decision t in
  _ ← note "quit.active_state";
  match decision with
  | QuitDecision.ExitNormally =>
      _ ← note "quit.dialog.result";
      cleanup_and_quit (_ ← note "quit.cleanup.result"; note "quit.exit.allowed")
  | QuitDecision.RequireSafetyDialog _ =>
      _ ← note "quit.warning.shown";
      warning ← show_quit_warning;
      _ ← note "quit.dialog.result";
      match warning_decision warning with
      | QuitDialogDecision.StopAndQuit =>
          _ ← note "quit.dialog.result"; _ ← note "quit.stop_and_quit.selected";
          cleanup_and_quit (_ ← note "quit.cleanup.result"; _ ← note "quit.release.result"; note "quit.exit.allowed")
      | QuitDialogDecision.Cancel =>
          _ ← note_outcome "quit.cancel.selected" DiagnosticOutcome.Cancelled;
          _ ← note "quit.cleanup.result"; _ ← note "quit.exit.allowed";
          mret (dialog_shown warning)
      end
  end.

Definition handle_settings_reset : T bool :=
  button ← MessageBoxW;
  _ ← (if button =? IDYES then
         _ ← on_app (manual_stop fuel);
         _ ← clear_schedule_timers (note "duration.cleared");
         _ ← on_app (modify (λ a, a <| pending_resume_on_ac := false |>));
         saved ← save_config config_default;
         match saved with
         | Err _ => note_outcome "settings.reset.save.error" DiagnosticOutcome.Failed
         | Ok _ =>
             _ ← set_config config_default;
             _ ← set_presets (from_seconds_list (schedule_presets_seconds config_default));
             _ ← (if startup_enabled config_default then
                    match startup_target debug_assertions executable with
                    | Ok target => _ ← on_machine (register_startup_target target); mret tt
                    | Err _ => mret tt
                    end
                  else _ ← on_machine startup_remove; mret tt);
             _ ← on_app (apply_power_reconciliation fuel);
             _ ← app_publish;
             note "config.reset_to_factory"
         end
       else mret tt);
  mret false.

(** [ExitProcess]: the process ends without any further step. *)
Definition execute_reset : T bool :=
  _ ← note "settings.reset.executed";
  _ ← on_disk_of (reset_cleanup log_directory state_directory config_path);
  _ ← note "settings.reset.cleanup";
  _ ← flush_log;
  _ ← MessageBoxW;
  found ← native;
  if negb found then
    _ ← note_outcome "settings.reset.relaunch.error" DiagnosticOutcome.Failed;
    _ ← finish_operation DiagnosticOutcome.Failed;
    mret false
  else
    spawned ← native;
    if (spawned : bool) then _ ← note "settings.reset.relaunch"; fail ProcessExited
    else
      _ ← note_outcome "settings.reset.relaunch.error" DiagnosticOutcome.Failed;
      _ ← finish_operation DiagnosticOutcome.Failed;
      mret false.
End Dialogs.
End Tray.
