(* ===== verification/TrayMenu.v ===== *)
(** * TrayMenu: the popup menu, the window procedure and the message loop

    Models [apps/true-tick/src/tray/menu.rs] (building, refreshing and showing the
    popup menu, and its commands), and [window_proc] and the shutdown loop of
    [controller.rs].

    Menus live in a store of handles, because two names may stand for one menu:
    when the settings are reopened as the root menu, [root] and [settings] are
    the same handle, and a refresh writes through both. *)
From coqutil Require Import Datatypes.RecordSetters.
From S2P Require Import Prelude Text Core Policy Watchdog Privacy Diagnostics Platform Ownership Wire Pause Files Config Session FileFrames Dirs Startup Logging Surface Menus Engine Tray.
Import TriangleBracketNotations.

Definition POPUP_REFRESH_TIMER_ID : Z := 0x7000.
Definition POPUP_REFRESH_INTERVAL_MS : Z := 500.
Definition MF_STRING : Z := 0x0000.
Definition MF_SEPARATOR : Z := 0x0800.
Definition MF_GRAYED : Z := 0x0001.
Definition MF_POPUP : Z := 0x0010.
Definition ROOT_MENU_START_POSITION : nat := 2.
Definition ROOT_MENU_STOP_POSITION : nat := 3.
Definition SCHEDULE_MENU_CANCEL_POSITION : nat := 6.
Definition SCHEDULE_MENU_RESUME_POSITION : nat := 7.
Definition SETTINGS_MENU_AUTO_START_POSITION : nat := 0.
Definition SETTINGS_MENU_AUTO_TIME_POSITION : nat := 1.
Definition SETTINGS_MENU_AUTO_RESUME_POSITION : nat := 2.
Definition SETTINGS_MENU_BATTERY_LOCKOUT_POSITION : nat := 3.
Definition SHUTDOWN_PUMP_BOUND_MS : Z := 50.

Definition grayed_unless (enabled : bool) : Z := if enabled then MF_STRING else Z.lor MF_STRING MF_GRAYED.
Definition has_flag (e : MenuEntry) (flag : Z) : bool := negb (Z.land (entry_flags e) flag =? 0).

(** [DestroyMenu] takes the submenus with it. *)
Fixpoint destroy_tree (depth : nat) (h : Z) (m : gmap Z (list MenuEntry)) : gmap Z (list MenuEntry) :=
  match depth with
  | O => m
  | S depth =>
      match m !! h with
      | None => m
      | Some entries =>
          foldl (λ m e, if has_flag e MF_POPUP then destroy_tree depth (entry_id e) m else m) (delete h m) entries
      end
  end.

Section Menus.
Context {P : Type} `{TimerPlatform P} `{EmergencyRestore P} {W : Type} `{Desktop W}.
Context `{Sha256} `{IoDisplay} `{PathDisplay} `{TrayHost}.
Abbreviation TR := (Tray P W).
Abbreviation T := (comp TR TrayStop).
Implicit Types t : TR.

(** ** Menu calls of the operating system *)

Definition CreatePopupMenu : T (option Z) :=
  made ← native;
  if negb made then mret None
  else
    t ← get;
    _ ← modify (λ t : TR, t <| menus ::= insert (next_menu t) [] |> <| next_menu ::= Z.succ |>);
    mret (Some (next_menu t)).

Definition AppendMenuW (menu flags id : Z) (text : str) : T bool :=
  done ← native;
  _ ← (if (done : bool) then modify (λ t : TR, t <| menus ::= alter (λ es, es ++ [mkEntry flags id text]) menu |>)
       else mret tt);
  mret done.

(** By position; [flags] without [MF_BYPOSITION].  The result is ignored. *)
Definition ModifyMenuW (menu : Z) (position : nat) (flags id : Z) (text : str) : T unit :=
  done ← native;
  if (done : bool) then modify (λ t : TR, t <| menus ::= alter (λ es, <[position := mkEntry flags id text]> es) menu |>)
  else mret tt.

Definition DestroyMenu (menu : Z) : T bool :=
  done ← native;
  _ ← (if (done : bool) then modify (λ t : TR, t <| menus ::= (λ m, destroy_tree (S (size m)) menu m) |>) else mret tt);
  mret done.

(** ** Building *)

Definition append_menu_checked (menu flags command : Z) (text : str) : T bool :=
  done ← AppendMenuW menu flags command text;
  if (done : bool) then mret true
  else _ ← note_outcome "native.AppendMenuW.error" DiagnosticOutcome.Failed; mret false.

(** [a && b] and [ok &= b] of two appends. *)
Definition and_then (a b : T bool) : T bool := x ← a; if (x : bool) then b else mret false.
Definition and_also (a b : T bool) : T bool := x ← a; y ← b; mret (x && y).

(** The submenu is destroyed when an entry, or its own entry, fails. *)
Definition attach (built : bool) (parent submenu : Z) (label : str) (opened : T unit) : T bool :=
  if negb built then _ ← DestroyMenu submenu; mret false
  else
    attached ← append_menu_checked parent (Z.lor MF_STRING MF_POPUP) submenu label;
    if negb attached then _ ← DestroyMenu submenu; mret false
    else _ ← opened; mret true.

Definition new_submenu (error : string) (k : Z → T bool) : T bool :=
  submenu ← CreatePopupMenu;
  match submenu with
  | None => _ ← note_outcome error DiagnosticOutcome.Failed; mret false
  | Some submenu => k submenu
  end.

Definition set_handle (f : PopupMenuHandles → PopupMenuHandles) : T unit :=
  modify (λ t : TR, t <| popup_menus ::= fmap f |>).

Definition startup_id (c : Config) : Z := if startup_enabled c then ID_STARTUP_OFF else ID_STARTUP_ON.
Definition automatic_id (c : Config) : Z := if automatic c then ID_AUTOMATIC_OFF else ID_AUTOMATIC_ON.
Definition auto_resume_id (c : Config) : Z := if auto_resume_on_ac c then ID_AUTO_RESUME_OFF else ID_AUTO_RESUME_ON.
Definition battery_lockout_id (c : Config) : Z :=
  if battery_lockout c then BATTERY_LOCKOUT_OFF_COMMAND_ID else BATTERY_LOCKOUT_ON_COMMAND_ID.
Definition settings_items (c : Config) : list MenuItem :=
  settings_menu_items (startup_enabled c) (automatic c) (auto_resume_on_ac c) (battery_lockout c).
Definition label_at (items : list MenuItem) (i : nat) : str := default [] (item_label <$> items !! i).
Definition enabled_at (items : list MenuItem) (i : nat) : bool := default false (item_enabled <$> items !! i).

Definition append_settings_entries (submenu : Z) : T bool :=
  t ← get;
  let c := config (app t) in
  let items := settings_items c in
  and_also (and_also (and_also (and_also (and_also
    (append_menu_checked submenu MF_STRING (startup_id c) (label_at items 0))
    (append_menu_checked submenu MF_STRING (automatic_id c) (label_at items 1)))
    (append_menu_checked submenu MF_STRING (auto_resume_id c) (label_at items 2)))
    (append_menu_checked submenu MF_STRING (battery_lockout_id c) (label_at items 3)))
    (append_menu_checked submenu MF_SEPARATOR 0 []))
    (append_menu_checked submenu MF_STRING ID_SETTINGS_RESET (lit "Reset to factory defaults...")).

Definition append_settings_submenu (parent : Z) (label : str) : T bool :=
  new_submenu "native.CreatePopupMenu.settings.error" (λ submenu,
    ok ← append_settings_entries submenu;
    attach ok parent submenu label
      (set_handle (λ h, mkHandles (root_menu h) (schedule_menu h) (Some submenu) (status_menu h)))).

Fixpoint append_items (submenu flags base : Z) (items : list MenuItem) : T bool :=
  match items with
  | [] => mret true
  | item :: items =>
      and_also (append_menu_checked submenu flags (default base (command_id item)) (item_label item))
        (append_items submenu flags base items)
  end.

Definition append_duration_choice_submenu (parent : Z) (action : DurationAction) (label : str) : T bool :=
  new_submenu "native.CreatePopupMenu.duration_choice.error" (λ submenu,
    t ← get;
    let enabled := match action with
                   | DurationAction.Start => negb (pause_active (pause (app t)))
                   | DurationAction.Stop | DurationAction.Pause => true end in
    ok ← append_items submenu (grayed_unless enabled) (preset_command_base action)
           (preset_menu_items action (presets (presets_manager (app t))));
    attach ok parent submenu label (mret tt)).

Definition append_schedule_submenu (menu : Z) (parent_caption : str) : T bool :=
  new_submenu "native.CreatePopupMenu.schedule.error" (λ submenu,
    t ← get;
    let items := duration_menu_items (scheduled (pause (app t))) in
    ok ← and_also (and_also (and_also (and_also (and_also (and_also (and_also
      (append_duration_choice_submenu submenu DurationAction.Start (label_at items 0))
      (append_duration_choice_submenu submenu DurationAction.Stop (label_at items 1)))
      (append_duration_choice_submenu submenu DurationAction.Pause (label_at items 2)))
      (append_menu_checked submenu MF_SEPARATOR 0 []))
      (append_menu_checked submenu (grayed_unless (enabled_at items 3)) SCHEDULE_PRESETS_COMMAND_ID (label_at items 3)))
      (append_menu_checked submenu MF_SEPARATOR 0 []))
      (append_menu_checked submenu (grayed_unless (enabled_at items 4)) CANCEL_SCHEDULED_COMMAND_ID (label_at items 4)))
      (append_menu_checked submenu (grayed_unless (enabled_at items 5)) CANCEL_PAUSE_COMMAND_ID (label_at items 5));
    attach ok menu submenu parent_caption
      (set_handle (λ h, mkHandles (root_menu h) (Some submenu) (settings_menu h) (status_menu h)))).

(** [running_duration]; the clock is read when the timer runs. *)
Definition running_duration : T (option Z) :=
  t ← get;
  match running_since (app t) with
  | Some since =>
      if bool_decide (lifecycle (app t) = TrayStatus.Running) && owns (app t)
      then now ← on_app now; mret (Some (sat_sub now since)) else mret None
  | None => mret None
  end.

Definition status_items : T (list MenuItem) :=
  running ← running_duration;
  now ← on_app now;
  t ← get;
  let a := app t in
  mret (status_menu_items (lifecycle a) (timing_values a) (ownership (controller a)) (scheduled (pause a)) running now).

Fixpoint append_status_items (submenu : Z) (index : nat) (items : list MenuItem) : T bool :=
  match items with
  | [] => mret true
  | item :: items =>
      and_also
        (ok ← append_menu_checked submenu (grayed_unless (item_enabled item)) (default 0 (command_id item)) (item_label item);
         _ ← (if (index =? 4)%nat then _ ← note "status.submenu.render"; note "status.submenu.timing" else mret tt);
         mret ok)
        (append_status_items submenu (S index) items)
  end.

Definition append_status_submenu (menu : Z) : T bool :=
  new_submenu "native.CreatePopupMenu.status.error" (λ submenu,
    items ← status_items;
    ok ← append_status_items submenu 0 items;
    attach ok menu submenu (lit "Status >")
      (set_handle (λ h, mkHandles (root_menu h) (schedule_menu h) (settings_menu h) (Some submenu)))).

(** The entries of the root menu, each after the others succeeded. *)
Definition append_root_entries (menu : Z) : T bool :=
  t ← get;
  let a := app t in
  let items := menu_items_with_duration (lifecycle a) (startup_enabled (config a)) (automatic (config a))
                 (timing_values a) (pause_active (pause a)) in
  and_then (append_menu_checked menu (grayed_unless (enabled_at items 0)) GITHUB_COMMAND_ID (label_at items 0))
 (and_then (append_menu_checked menu MF_SEPARATOR 0 [])
 (and_then (append_menu_checked menu (grayed_unless (enabled_at items 1)) ID_START (label_at items 1))
 (and_then (append_menu_checked menu (grayed_unless (enabled_at items 2)) ID_STOP (label_at items 2))
 (and_then (append_schedule_submenu menu (label_at items 3))
 (and_then (append_settings_submenu menu (label_at items 4))
 (and_then (append_status_submenu menu)
 (and_then (append_menu_checked menu MF_SEPARATOR 0 [])
 (and_then (append_menu_checked menu MF_STRING LOGS_COMMAND_ID (label_at items 6))
 (and_then (append_menu_checked menu MF_SEPARATOR 0 [])
           (append_menu_checked menu MF_STRING ID_QUIT (label_at items 7))))))))))).

(** The menu one turn of [show_menu] tracks: the settings when a setting was
    changed in the turn before. *)
Definition destroy_menu_noted (menu : Z) : T unit :=
  destroyed ← DestroyMenu menu;
  if (destroyed : bool) then mret tt else note_outcome "native.DestroyMenu.error" DiagnosticOutcome.Failed.

Definition build_menu : T (option Z) :=
  t ← get;
  if settings_submenu_open t then
    submenu ← CreatePopupMenu;
    match submenu with
    | None => _ ← note_outcome "native.CreatePopupMenu.settings_root.error" DiagnosticOutcome.Failed; mret None
    | Some submenu =>
        ok ← append_settings_entries submenu;
        if negb ok then _ ← DestroyMenu submenu; mret None
        else
          _ ← modify (λ t : TR, t <| popup_menus := Some (mkHandles submenu None (Some submenu) None) |>);
          mret (Some submenu)
    end
  else
    menu ← CreatePopupMenu;
    match menu with
    | None => _ ← note_outcome "native.CreatePopupMenu.error" DiagnosticOutcome.Failed; mret None
    | Some menu =>
        _ ← modify (λ t : TR, t <| popup_menus := Some (mkHandles menu None None None) |>);
        ok ← append_root_entries menu;
        if negb ok then
          _ ← modify (λ t : TR, t <| popup_menus := None |>);
          _ ← destroy_menu_noted menu;
          mret None
        else mret (Some menu)
    end.

(** ** Refreshing *)

Definition begin_popup_refresh_timer : T unit :=
  t ← get;
  if popup_refresh_timer_active t || negb (tray_icon (app t)) then mret tt
  else
    armed ← on_app (SetTimer POPUP_REFRESH_TIMER_ID POPUP_REFRESH_INTERVAL_MS);
    if (armed : bool) then modify (λ t : TR, t <| popup_refresh_timer_active := true |>)
    else note_outcome "native.SetTimer.popup_refresh.error" DiagnosticOutcome.Failed.

Definition kill_popup_refresh_timer : T unit :=
  t ← get;
  if negb (popup_refresh_timer_active t) then mret tt
  else
    _ ← modify (λ t : TR, t <| popup_refresh_timer_active := false |>);
    (if tray_icon (app t) then _ ← on_app (KillTimer POPUP_REFRESH_TIMER_ID); mret tt else mret tt).

(** What the dispatcher accepts now. *)
Definition accepts t (command : Z) : bool :=
  let c := config (app t) in
  menu_command_is_enabled_with_pause command (lifecycle (app t)) (startup_enabled c) (automatic c)
    (auto_resume_on_ac c) (battery_lockout c) (active (pause (app t))).

Fixpoint modify_status_items (menu : Z) (index : nat) (items : list MenuItem) : T unit :=
  match items with
  | [] => mret tt
  | item :: items =>
      _ ← ModifyMenuW menu index (Z.lor MF_STRING MF_GRAYED) (default 0 (command_id item)) (item_label item);
      modify_status_items menu (S index) items
  end.

Definition on_handle (h : option Z) (m : Z → T unit) : T unit :=
  match h with Some h => m h | None => mret tt end.

Definition refresh_popup_menu : T unit :=
  t ← get;
  match popup_menus t with
  | None => mret tt
  | Some handles =>
      let a := app t in
      let c := config a in
      _ ← ModifyMenuW (root_menu handles) ROOT_MENU_START_POSITION (grayed_unless (accepts t ID_START)) ID_START (lit "Start");
      _ ← ModifyMenuW (root_menu handles) ROOT_MENU_STOP_POSITION (grayed_unless (accepts t ID_STOP)) ID_STOP (lit "Stop");
      _ ← on_handle (settings_menu handles) (λ menu,
            let items := settings_items c in
            _ ← ModifyMenuW menu SETTINGS_MENU_AUTO_START_POSITION MF_STRING (startup_id c) (label_at items 0);
            _ ← ModifyMenuW menu SETTINGS_MENU_AUTO_TIME_POSITION MF_STRING (automatic_id c) (label_at items 1);
            _ ← ModifyMenuW menu SETTINGS_MENU_AUTO_RESUME_POSITION MF_STRING (auto_resume_id c) (label_at items 2);
            ModifyMenuW menu SETTINGS_MENU_BATTERY_LOCKOUT_POSITION MF_STRING (battery_lockout_id c) (label_at items 3));
      _ ← on_handle (schedule_menu handles) (λ menu,
            let cancel_enabled := match scheduled (pause a) with
                                  | Some s => negb (bool_decide (action s = DurationAction.Pause)) | None => false end in
            _ ← ModifyMenuW menu SCHEDULE_MENU_CANCEL_POSITION (grayed_unless cancel_enabled)
                  CANCEL_SCHEDULED_COMMAND_ID (lit "Cancel scheduled action");
            ModifyMenuW menu SCHEDULE_MENU_RESUME_POSITION (grayed_unless (pause_active (pause a)))
              CANCEL_PAUSE_COMMAND_ID (lit "Resume now"));
      on_handle (status_menu handles) (λ menu,
        items ← status_items; modify_status_items menu 0 items)
  end.
(** ** Commands *)

(** The command identifiers with a name of their own in [handle_menu_command]. *)
Definition named_commands : list Z :=
  [ID_SETTINGS_RESET; ID_START; ID_STOP; LOGS_COMMAND_ID; GITHUB_COMMAND_ID; SCHEDULE_PRESETS_COMMAND_ID;
   CANCEL_SCHEDULED_COMMAND_ID; CANCEL_PAUSE_COMMAND_ID] ++ duration_ids ++
  [ID_STARTUP_ON; ID_STARTUP_OFF; ID_AUTOMATIC_ON; ID_AUTOMATIC_OFF; ID_AUTO_RESUME_ON; ID_AUTO_RESUME_OFF;
   BATTERY_LOCKOUT_ON_COMMAND_ID; BATTERY_LOCKOUT_OFF_COMMAND_ID; ID_RESET; ID_QUIT].
Definition command_valid (command : Z) : bool :=
  among command named_commands || bool_decide (is_Some (preset_command command)).

(** Whether the diagnostic window, which is not modelled, is open. *)
Definition open_diagnostic_window : T bool := native.
Definition diagnostic_open_operation_outcome (opened : bool) : DiagnosticOutcome :=
  if opened then DiagnosticOutcome.Completed else DiagnosticOutcome.Failed.

Definition open_github_page : T unit :=
  opened ← native;
  if (opened : bool) then note "native.ShellExecuteW.github.result"
  else note_outcome "native.ShellExecuteW.github.error" DiagnosticOutcome.Failed.

(** The commands that neither reset nor quit: the outcome of the operation. *)
Definition run_command (command : Z) : T DiagnosticOutcome :=
  let plain (m : T unit) : T DiagnosticOutcome := _ ← m; mret DiagnosticOutcome.Completed in
  if command =? ID_START then plain (on_app (manual_start fuel))
  else if command =? ID_STOP then plain (on_app (manual_stop fuel))
  else if command =? LOGS_COMMAND_ID then
    _ ← note "tray.command"; opened ← open_diagnostic_window; mret (diagnostic_open_operation_outcome opened)
  else if command =? GITHUB_COMMAND_ID then plain open_github_page
  else if command =? SCHEDULE_PRESETS_COMMAND_ID then plain (_ ← open_presets_window; mret tt)
  else if among command [CANCEL_SCHEDULED_COMMAND_ID; CANCEL_PAUSE_COMMAND_ID]
  then plain (on_app (cancel_scheduled_action fuel))
  else if among command duration_ids then
    plain match duration_command command with
          | Some (action, choice) =>
              match to_preset choice with
              | Ok duration => on_app (schedule_duration_action fuel action duration)
              | Err _ => mret tt (* no choice is out of range *)
              end
          | None => mret tt
          end
  else if command =? ID_STARTUP_ON then plain (set_startup true)
  else if command =? ID_STARTUP_OFF then plain (set_startup false)
  else if command =? ID_AUTOMATIC_ON then plain (set_automatic true)
  else if command =? ID_AUTOMATIC_OFF then plain (set_automatic false)
  else if command =? ID_AUTO_RESUME_ON then plain (set_auto_resume true)
  else if command =? ID_AUTO_RESUME_OFF then plain (set_auto_resume false)
  else if command =? BATTERY_LOCKOUT_ON_COMMAND_ID then plain (set_battery_lockout true)
  else if command =? BATTERY_LOCKOUT_OFF_COMMAND_ID then plain (set_battery_lockout false)
  else plain match preset_command command with
             | Some (action, index) => on_app (schedule_preset_action fuel action (Z.to_nat index))
             | None => mret tt
             end.

Section Loop.
Context (pump : list Message → T unit).

(** Whether the menu is shown again. *)
Definition handle_menu_command (command : Z) : T bool :=
  t ← get;
  if negb (accepts t command) then _ ← note "tray.command.rejected"; mret false
  else
    _ ← begin_op; _ ← note "tray.command.id";
    _ ← note_outcome "command.dispatch.verify"
          (if command_valid command then DiagnosticOutcome.Completed else DiagnosticOutcome.Failed);
    if command =? ID_SETTINGS_RESET then handle_settings_reset pump
    else if command =? ID_RESET then execute_reset pump
    else if command =? ID_QUIT then handle_quit pump
    else
      outcome ← run_command command;
      _ ← finish_operation outcome;
      mret (menu_action_keeps_open command).

Definition settings_command (command : Z) : bool :=
  among command [ID_STARTUP_ON; ID_STARTUP_OFF; ID_AUTOMATIC_ON; ID_AUTOMATIC_OFF; ID_AUTO_RESUME_ON;
                 ID_AUTO_RESUME_OFF; BATTERY_LOCKOUT_ON_COMMAND_ID; BATTERY_LOCKOUT_OFF_COMMAND_ID].

(** [TrackPopupMenu]: the messages while the menu is open, and the command. *)
Definition TrackPopupMenu (anchor : MenuAnchor) : T Z :=
  _ ← modify (λ t : TR, t <| menu_position := Some anchor |>);
  MessageBoxW pump.

(** One turn of the loop of [show_menu]: whether it goes on. *)
Definition menu_turn (anchor : MenuAnchor) : T bool :=
  built ← build_menu;
  match built with
  | None => mret false
  | Some menu =>
      _ ← begin_popup_refresh_timer;
      foreground ← native;
      _ ← (if (foreground : bool) then mret tt
           else note_outcome "native.SetForegroundWindow.error" DiagnosticOutcome.Failed);
      command ← TrackPopupMenu anchor;
      _ ← kill_popup_refresh_timer;
      _ ← modify (λ t : TR, t <| popup_menus := None |>);
      _ ← destroy_menu_noted menu;
      _ ← (if command =? 0 then note "native.TrackPopupMenu.result" else mret tt);
      match returned_menu_command command with
      | None => mret false
      | Some command =>
          _ ← note "tray.command.dispatch";
          t ← get;
          if negb (menu_command_dispatch_allowed (menu_active t) true) then mret false
          else
            continues ← handle_menu_command command;
            if (continues : bool) then
              _ ← modify (λ t : TR, t <| settings_submenu_open := settings_command command |>);
              mret true
            else mret false
      end
  end.

(** [turns] bounds the turns: every turn but the last consumes a dialog. *)
Fixpoint menu_loop (anchor : MenuAnchor) (turns : nat) : T unit :=
  match turns with
  | O => fail DialogBound
  | S turns => continues ← menu_turn anchor; if (continues : bool) then menu_loop anchor turns else mret tt
  end.

Definition show_menu (s : Screen) : T unit :=
  t ← get;
  if menu_active t then mret tt
  else
    _ ← modify (λ t : TR, t <| menu_active := true |> <| settings_submenu_open := false |>);
    match cursor_pos s with
    | None =>
        _ ← note_outcome "native.GetCursorPos.error" DiagnosticOutcome.Failed;
        modify (λ t : TR, t <| menu_active := false |>)
    | Some cursor =>
        let work := default (primary_work_area s) (monitor_work_area s) in
        let anchor := menu_anchor (icon_rect s) (taskbar_edge s) (clamp_menu_anchor cursor work) in
        _ ← note "tray.menu.anchor";
        t ← get;
        _ ← menu_loop anchor (S (length (dialogs t)));
        _ ← modify (λ t : TR, t <| settings_submenu_open := false |>);
        _ ← kill_popup_refresh_timer;
        modify (λ t : TR, t <| popup_menus := None |> <| menu_active := false |>)
    end.

(** ** The window procedure *)

Fixpoint refuse_requests (n : nat) : T unit :=
  match n with
  | O => mret tt
  | S n => _ ← modify (λ t : TR, t <| ipc_replies ::= (λ l, l ++ [IpcResponse.Error (IpcError.TransportIo (-1))]) |>);
           refuse_requests n
  end.

Definition handle_timer (id : Z) : T unit :=
  t ← get;
  if id =? POPUP_REFRESH_TIMER_ID then refresh_popup_menu
  else if id =? SCHEDULE_DISPLAY_TIMER_ID then on_app (handle_schedule_display_timer fuel)
  else if id =? POWER_DEBOUNCE_TIMER_ID then on_app (handle_power_debounce_timer fuel)
  else if id =? HANDOFF_TIMER_ID then on_app (handle_handoff_timer fuel)
  else if id =? HEARTBEAT_TIMER_ID then handle_heartbeat_timer
  else if id =? SURFACE_RECOVERY_TIMER_ID then on_app (service_surface_recovery fuel)
  else if bool_decide (duration_timer_id (app t) = Some id) then on_app (handle_duration_timer fuel id)
  else mret tt.

Definition ignored_while_open t (m : Message) : bool :=
  menu_active t && match m with WmTray _ _ | WmCommand _ => true | _ => false end
  && negb (menu_command_dispatch_allowed true false).

Definition window_proc (m : Message) : T unit :=
  t ← get;
  if ignored_while_open t m then mret tt
  else match m with
  | WmTaskbarCreated => restore_tray_icon
  | WmAnotherInstance => note "lifecycle.another_instance_attempt"
  | WmTray notification s =>
      if tray_notification_opens_menu notification (menu_active t) then show_menu s else mret tt
  | WmCommand w_param =>
      let command_id := Z.land w_param 0xffff in
      _ ← (if command_id =? ID_SETTINGS_RESET then handle_settings_reset pump else handle_menu_command command_id);
      mret tt
  | WmTimer id => handle_timer id
  | WmAppIpc => drain_ipc_command_queue
  | WmPowerBroadcast m =>
      _ ← begin_op; _ ← on_app (handle_power_broadcast fuel m); finish_operation DiagnosticOutcome.Completed
  | WmEndSession w_param => session_end_cleanup w_param
  | WmClose => _ ← handle_menu_command ID_QUIT; mret tt
  | WmDestroy =>
      _ ← modify (λ t : TR, t <| ipc_teardown := true |> <| ipc_command_queue := [] |>);
      _ ← refuse_requests (length (ipc_command_queue t));
      PostQuitMessage
  | WmPresets c => handle_presets_click c
  | IpcRequestQueued verb payload =>
      modify (λ t : TR, if ipc_teardown t then t else t <| ipc_command_queue ::= (λ q, q ++ [(verb, payload)]) |>)
  | AnomalyReported => on_app (modify report_anomaly)
  | StallReported => modify (λ t : TR, t <| watchdog_stall_events ::= (λ n, wrap 64 (n + 1)) |>)
  end.
End Loop.

(** [depth] bounds the dialogs that are open at a time. *)
Fixpoint dispatch (depth : nat) (m : Message) : T unit :=
  match depth with
  | O => fail DialogBound
  | S depth =>
      window_proc
        ((fix pump (ms : list Message) : T unit :=
            match ms with
            | [] => mret tt
            | m :: ms => _ ← dispatch depth m; pump ms
            end)) m
  end.

(** Every open dialog is one of the script. *)
Fixpoint run_messages (ms : list Message) : T unit :=
  match ms with
  | [] => mret tt
  | m :: ms => t ← get; _ ← dispatch (S (length (dialogs t))) m; run_messages ms
  end.

(** ** The end of the process: [run] of [controller.rs] *)

(** One turn of the shutdown loop: the messages until [GetMessageW] ends it, its
    result and error, whether the window is alive afterwards, and the time since
    the loop began. *)
Record LoopTurn := mkTurn {
  turn_messages : list Message; turn_result : Z; turn_error : Z; turn_ui_usable : bool; turn_elapsed_ms : Z }.

Inductive LoopEnd := PumpBoundExceeded | Disposed (d : ShutdownDisposition).

Definition shutdown_warning_dialog : T unit :=
  show_shutdown_warning (λ ms, run_messages ms).

Definition run_message_loop (turn : LoopTurn) : T MessageLoopExit :=
  _ ← run_messages (turn_messages turn);
  match message_loop_exit (turn_result turn) (turn_error turn) with
  | Some e => mret e
  | None => fail Panicked
  end.

(** One turn: how the loop ends, or not. *)
Definition shutdown_turn (turn : LoopTurn) : T (option LoopEnd) :=
  message_loop_exit ← run_message_loop turn;
  cleanup_verified ← cleanup_normal_shutdown;
  if negb cleanup_verified && shutdown_pump_bound_exceeded (turn_elapsed_ms turn) SHUTDOWN_PUMP_BOUND_MS then
    _ ← note_outcome "shutdown.pump_bound_exceeded" DiagnosticOutcome.Failed;
    _ ← note_outcome "lifecycle.shutdown" DiagnosticOutcome.Failed;
    _ ← shutdown_warning_dialog;
    mret (Some PumpBoundExceeded)
  else
    let disposition := shutdown_disposition message_loop_exit cleanup_verified (turn_ui_usable turn) in
    match disposition with
    | ShutdownDisposition.KeepAliveForRetry =>
        _ ← on_app (set_tray_status TrayStatus.Unverified);
        _ ← note_outcome "shutdown.retry_required" DiagnosticOutcome.Failed;
        _ ← app_publish;
        _ ← shutdown_warning_dialog;
        mret None
    | ShutdownDisposition.Complete =>
        _ ← note "lifecycle.shutdown"; mret (Some (Disposed disposition))
    | ShutdownDisposition.ExitAfterMessageLoopError =>
        _ ← note_outcome "lifecycle.message_loop.error" DiagnosticOutcome.Failed;
        _ ← note "lifecycle.shutdown";
        _ ← shutdown_warning_dialog;
        mret (Some (Disposed disposition))
    | ShutdownDisposition.ExitWithUnresolvedCleanup =>
        _ ← match message_loop_exit with
            | MessageLoopExit.GetMessageFailed _ =>
                note_outcome "lifecycle.message_loop.error" DiagnosticOutcome.Failed
            | MessageLoopExit.NormalQuit => mret tt
            end;
        _ ← note_outcome "lifecycle.shutdown" DiagnosticOutcome.Failed;
        _ ← shutdown_warning_dialog;
        mret (Some (Disposed disposition))
    end.

(** How the loop ends, and the turns it did not take; [None] when it is still
    running after the turns. *)
Fixpoint shutdown_loop (turns : list LoopTurn) : T (option (LoopEnd * list LoopTurn)) :=
  match turns with
  | [] => mret None
  | turn :: turns =>
      ended ← shutdown_turn turn;
      match ended with
      | Some e => mret (Some (e, turns))
      | None => shutdown_loop turns
      end
  end.

(** [mark_session_clean], the last flush, and the end of the process. *)
Definition mark_session_clean : T unit :=
  r ← on_disk_of (remove_session_marker state_directory);
  match r with
  | Ok _ => mret tt
  | Err _ => note_outcome "lifecycle.session_marker.error" DiagnosticOutcome.Failed
  end.
Definition finish_process : T unit :=
  _ ← remove_tray_icon;
  _ ← note "lifecycle.shutdown.resources";
  _ ← mark_session_clean;
  flush_log.

Definition run_process (turns : list LoopTurn) : T (option LoopEnd) :=
  ended ← shutdown_loop turns;
  match ended with
  | Some (e, _) => _ ← finish_process; mret (Some e)
  | None => mret None
  end.
End Menus.
