(* ===== verification/TrayStart.v ===== *)
(** * TrayStart: the start of the process

    Models [run] of [apps/true-tick/src/tray/controller.rs] up to its message
    loop: the single-instance decision, the session marker, the configuration and
    the registration at startup, the application and its window, the settle probe
    of [tray/tier.rs], and the abort of a start that fails.

    Diagnostic records before the application exists change no state of the model
    and are left out, and so are the labels that name the slot in reports. *)
From coqutil Require Import Datatypes.RecordSetters.
From S2P Require Import Prelude Text Core Policy Watchdog Privacy Diagnostics Platform Ownership Wire Pause Files Config Session FileFrames Dirs Startup Logging Surface Menus Engine Tray TrayMenu.
Import TriangleBracketNotations.

(** ** Decisions *)

Definition ERROR_ALREADY_EXISTS : Z := 183.
Definition ERROR_CLASS_ALREADY_EXISTS : Z := 1410.

Module SingleInstanceDecision.
Inductive SingleInstanceDecision := Proceed (handle : Z) | ExistingInstance | Failure (raw_error : Z).
End SingleInstanceDecision.
Abbreviation SingleInstanceDecision := SingleInstanceDecision.SingleInstanceDecision.
Definition single_instance_decision (handle raw_error : Z) : SingleInstanceDecision :=
  if handle =? 0 then SingleInstanceDecision.Failure raw_error
  else if raw_error =? ERROR_ALREADY_EXISTS then SingleInstanceDecision.ExistingInstance
  else SingleInstanceDecision.Proceed handle.

Module TaskbarCreatedDecision.
Inductive TaskbarCreatedDecision := RestoreTrayIcon | Ignore.
End TaskbarCreatedDecision.
Definition taskbar_created_decision (message registered_message : Z) : TaskbarCreatedDecision.TaskbarCreatedDecision :=
  if negb (registered_message =? 0) && (message =? registered_message)
  then TaskbarCreatedDecision.RestoreTrayIcon else TaskbarCreatedDecision.Ignore.

Module AnotherInstanceDecision.
Inductive AnotherInstanceDecision := Notify | Record | Ignore.
End AnotherInstanceDecision.
Definition another_instance_decision (message registered_message : Z) : AnotherInstanceDecision.AnotherInstanceDecision :=
  if negb (registered_message =? 0) && (message =? registered_message)
  then AnotherInstanceDecision.Record else AnotherInstanceDecision.Ignore.
Definition another_instance_notify_decision (hwnd : Z) : AnotherInstanceDecision.AnotherInstanceDecision :=
  if hwnd =? 0 then AnotherInstanceDecision.Ignore else AnotherInstanceDecision.Notify.

Definition class_registration_result (atom raw_error : Z) : result Z unit :=
  if negb (atom =? 0) || (raw_error =? ERROR_CLASS_ALREADY_EXISTS) then Ok tt else Err raw_error.

(** The length [GetModuleFileNameW] answers, and the buffer it was given. *)
Module ModulePathGrowthDecision.
Inductive ModulePathGrowthDecision := Accept (length : Z) | Grow (capacity : Z) | GiveUp.
End ModulePathGrowthDecision.
Abbreviation ModulePathGrowthDecision := ModulePathGrowthDecision.ModulePathGrowthDecision.
Definition MODULE_PATH_INITIAL_CAPACITY : Z := 260.
Definition MODULE_PATH_MAX_ATTEMPTS : Z := 8.
Definition MODULE_PATH_MAX_CAPACITY : Z := 32768.
Definition module_path_growth_decision (length buffer_capacity attempts : Z) : ModulePathGrowthDecision :=
  if length =? 0 then ModulePathGrowthDecision.GiveUp
  else if length <? buffer_capacity then ModulePathGrowthDecision.Accept length
  else if (MODULE_PATH_MAX_ATTEMPTS <=? attempts) || (MODULE_PATH_MAX_CAPACITY <=? buffer_capacity)
  then ModulePathGrowthDecision.GiveUp
  else
    let next_capacity := Z.min (Z.min (buffer_capacity * 2) u64_max) MODULE_PATH_MAX_CAPACITY in
    if buffer_capacity <? next_capacity then ModulePathGrowthDecision.Grow next_capacity
    else ModulePathGrowthDecision.GiveUp.

(** [get_module_file_name_w_path]: [GetModuleFileNameW] answers the length of the
    text it wrote, which is the capacity of the buffer when the path is as long or
    longer, and 0 when it fails.  [None] is the empty path. *)
Fixpoint module_path_loop (fuel : nat) (answer : Z → Z) (capacity attempts : Z) : option (option Z) :=
  match fuel with
  | O => None
  | S fuel =>
      match module_path_growth_decision (answer capacity) capacity attempts with
      | ModulePathGrowthDecision.Accept valid_length => Some (Some valid_length)
      | ModulePathGrowthDecision.Grow next_capacity =>
          module_path_loop fuel answer next_capacity (sat_add 64 attempts 1)
      | ModulePathGrowthDecision.GiveUp => Some None
      end
  end.

(** ** Before the application *)

(** What the start reads: the clocks and the free space, the events recorded so
    far, [TEMPORARY_SEQUENCE] after the load (1 when it saved, else 0), and the
    error of the common controls when they fail. *)
Record StartReading := mkStart {
  start_moment : Moment;
  start_store : StoreState;
  start_seconds : option Z;
  backup_timestamp : Z;
  sequence_after_load : Z;
  controls_error : Z }.

Record Booted := mkBooted {
  booted_config : Config;
  booted_status : str;
  (** [startup_anomalies]: a corrupted marker, a recovered configuration. *)
  booted_anomalies : nat;
  booted_previous : PreviousSession }.

Section Start.
Context {P : Type} `{TimerPlatform P} `{EmergencyRestore P} {W : Type} `{Desktop W}.
Context `{Sha256} `{IoDisplay} `{PathDisplay} `{TrayHost}.
Abbreviation A := (App P W).
Abbreviation E := (comp A Diverged).
Abbreviation TR := (Tray P W).
Abbreviation T := (comp TR TrayStop).
Context (rd : StartReading).

(** [{error:?}] of a [StartupError]. *)
Definition startup_error_debug (e : StartupError) : str :=
  match e with
  | StartupError.Unsupported => lit "Unsupported"
  | StartupError.InvalidExecutablePath => lit "InvalidExecutablePath"
  | StartupError.LauncherMissing => lit "LauncherMissing"
  | StartupError.NotLauncher => lit "NotLauncher"
  | StartupError.NotDevelopmentExecutable => lit "NotDevelopmentExecutable"
  | StartupError.OpenKey raw => lit "OpenKey { raw_status: " ++ show_u raw ++ lit " }"
  | StartupError.SetValue raw => lit "SetValue { raw_status: " ++ show_u raw ++ lit " }"
  | StartupError.RemoveValue raw => lit "RemoveValue { raw_status: " ++ show_u raw ++ lit " }"
  | StartupError.CloseKey raw => lit "CloseKey { raw_status: " ++ show_u raw ++ lit " }"
  end.

(** What the last session left, and the marker of this one. *)
Definition boot_session {Er} : comp Machine Er PreviousSession :=
  _ ← modify (λ m, set_disk (log_fs (purge_expired_logs_at_startup (start_moment rd) log_directory
                                       (mkLogger (disk m) (start_store rd) 0 None) : result Er unit * Logger).2) m);
  previous_read ← on_disk (read_session_marker state_directory);
  _ ← ask_disk (fs_exists (session_marker_path state_directory));
  _ ← match tombstone_current process_id (start_seconds rd) with
      | Ok tombstone => _ ← on_disk (create_session_tombstone process_id state_directory tombstone); mret tt
      | Err _ => mret tt
      end;
  mret (classify_session_read previous_read).

(** The configuration, what its load has to say, and whether it was recovered. *)
Definition boot_config {Er} : comp Machine Er (Config * option str * bool) :=
  outcome ← on_disk (load_with_migration process_id 0 (backup_timestamp rd) config_path);
  mret match outcome with
       | Ok o =>
           (loaded o, if recovered_from_corruption o then Some (lit "Info: config recovered from corrupted file") else None,
            recovered_from_corruption o)
       | Err error => (config_default, Some (lit "Red: " ++ config_error_display error), false)
       end.

(** The registration the configuration asks for; none when the load has a note. *)
Definition boot_registration {Er} (c : Config) (status : option str) : comp Machine Er str :=
  match status with
  | Some note => mret note
  | None =>
      match startup_operation (startup_enabled c) with
      | StartupOperation.Register =>
          match startup_target debug_assertions executable with
          | Ok target =>
              registered ← attempt (register_startup_target target);
              mret match registered with
                   | Ok _ => lit "boot startup registered for current-user " ++ target_description target
                   | Err error => lit "Red: boot startup registration error " ++ startup_error_debug error
                   end
          | Err error => mret (lit "Red: " ++ error)
          end
      | StartupOperation.Remove =>
          removed ← attempt startup_remove;
          mret match removed with
               | Ok _ => lit "boot startup registration disabled by config"
               | Err error => lit "Red: boot startup removal error " ++ startup_error_debug error
               end
      end
  end.

Definition boot {Er} : comp Machine Er Booted :=
  previous ← boot_session;
  '(c, status, recovered) ← boot_config;
  startup_status ← boot_registration c status;
  let corrupted := if bool_decide (previous = PreviousSession.Corrupted) then 1%nat else 0%nat in
  mret (mkBooted c (bounded_startup_status startup_status) (corrupted + (if (recovered : bool) then 1 else 0))%nat previous).

(** ** The application *)

(** [WindowsTimerPlatform] and the desktop are given; [dialogs] and [natives] are
    the script of the run. *)
Definition tray_new (platform : P) (w : W) (m : Machine) (b : Booted) (dialogs : list (list Message * Z)) (natives : list bool) : TR :=
  mkTray (app_new platform w (booted_config b) (booted_anomalies b)) m (booted_status b) (sequence_after_load rd)
    gate_new false false [] [] false tracker_new false None 0 0 0 true false None None false false false None ∅ 1 None false
    dialogs natives.

(** ** The settle probe: [tray/tier.rs] *)

(** [None]: not applicable.  [fuel] bounds the loop. *)
Fixpoint settle_probe_loop (fuel : nat) (attempts_used : Z) : E (option SettleProbeOutcome) :=
  match fuel with
  | O => fail OutOfFuel
  | S fuel =>
      step ← on_controller (attempt_startup_kernel_settle_probe attempts_used);
      match step with
      | Ok SettleProbeStep.NotApplicable => mret None
      | Ok (SettleProbeStep.Retry budget_remaining) =>
          _ ← record "recovery.settle_probe"; settle_probe_loop fuel (attempts_used + 1)
      | Ok (SettleProbeStep.Settled outcome) => mret (Some outcome)
      | Err _ => mret None (* the probe does not fail *)
      end
  end.

Definition probe_startup_kernel_settle : E unit :=
  outcome ← settle_probe_loop (S (Z.to_nat SETTLE_PROBE_ATTEMPTS)) 0;
  match outcome with
  | None => mret tt
  | Some outcome =>
      _ ← sync_timing_snapshot;
      _ ← modify (λ a, a <| timing_snapshot_valid := true |>);
      match outcome with
      | SettleProbeOutcome.Resolved _ => record "kernel.self_heal.settle_probe_restored"
      | SettleProbeOutcome.ExternalClientConfirmed =>
          _ ← modify (λ a, a <| external_timing := true |>);
          record "kernel.self_heal.external_timing_confirmed"
      | SettleProbeOutcome.Exhausted => record "kernel.self_heal.settle_probe_exhausted"
      end
  end.

(** ** Windows, and the abort *)

(** [abort_startup] and [abort_after_window]: the marker says why. *)
Definition abort_startup (message : str) : T bool :=
  _ ← note "lifecycle.startup.abort";
  written ← on_disk_of (write_aborted_session_marker process_id state_directory (start_seconds rd) message);
  _ ← (if is_ok written then mret tt else note_outcome "lifecycle.session_marker.error" DiagnosticOutcome.Failed);
  mret false.

(** Each call with the record and the message of its failure. *)
Definition window_calls : list (string * str) :=
  [("native.GetModuleHandleW.error", lit "True" ++ [8482] ++ lit " Tick could not obtain its native module handle.");
   ("native.InitCommonControlsEx.error", lit "True" ++ [8482] ++ lit
      " Tick could not initialize Windows Common Controls for the diagnostic window. Native error code: "
      ++ show_u (controls_error rd) ++ lit ".");
   ("native.RegisterClassW.tray.error", lit "True" ++ [8482] ++ lit " Tick could not create its tray window class.");
   ("native.LoadIconW.error", lit "True" ++ [8482] ++ lit " Tick could not create its tray icon resource.");
   ("native.RegisterClassW.diagnostic.error", lit "True" ++ [8482] ++ lit
      " Tick could not create its diagnostic window class.");
   ("native.RegisterClassW.presets.error", lit "True" ++ [8482] ++ lit " Tick could not create its presets window class.");
   ("native.CreateWindowExW.tray.error", lit "True" ++ [8482] ++ lit " Tick could not create its tray window.")].

Fixpoint create_windows (calls : list (string * str)) : T (option str) :=
  match calls with
  | [] => mret None
  | (event, message) :: calls =>
      made ← native;
      if (made : bool) then create_windows calls
      else _ ← note_outcome event DiagnosticOutcome.Failed; mret (Some message)
  end.

Definition create_icon : T (option str) :=
  created ← on_app (on_world shell_create);
  if negb created then
    _ ← note_outcome "native.tray_icon.create.error" DiagnosticOutcome.Failed;
    mret (Some (lit "True" ++ [8482] ++ lit " Tick could not create its tray icon."))
  else
    added ← on_app (on_world shell_add);
    if negb added then
      _ ← note_outcome "native.Shell_NotifyIconW.add.error" DiagnosticOutcome.Failed;
      mret (Some (lit "True" ++ [8482] ++ lit " Tick could not add its tray icon."))
    else
      _ ← on_app (modify (λ a, a <| tray_icon := true |>));
      mret None.

(** The heartbeat's timer and the first beat. *)
Definition start_heartbeat : T unit :=
  kicked ← on_app now;
  _ ← on_app (modify (λ a, a <| heartbeat := monotonic_ms kicked |>));
  armed ← on_app (SetTimer HEARTBEAT_TIMER_ID HEARTBEAT_INTERVAL_MS);
  _ ← note "heartbeat.timer.armed";
  if (armed : bool) then t ← on_app now; modify (λ s : TR, s <| last_heartbeat_fire := Some t |>) else mret tt.

Definition start_app : T bool :=
  _ ← begin_op;
  windows ← create_windows window_calls;
  match windows with
  | Some message => abort_startup message
  | None =>
      icon ← create_icon;
      match icon with
      | Some message => abort_startup message
      | None =>
          server ← native;
          _ ← (if (server : bool) then
                 _ ← modify (λ t : TR, t <| ipc_server := true |>); note "ipc.server.started"
               else note_outcome "ipc.server.start_failed" DiagnosticOutcome.Failed);
          _ ← note "policy.recalculate";
          _ ← on_app (refresh_operating_tier fuel);
          _ ← on_app refresh_timing_observation;
          _ ← on_app probe_startup_kernel_settle;
          t ← get;
          _ ← (if automatic (config (app t)) then note "policy.startup_automatic" else mret tt);
          _ ← on_app (apply_power_reconciliation fuel);
          _ ← flush_log;
          _ ← finish_operation DiagnosticOutcome.Completed;
          _ ← start_heartbeat;
          mret true
      end
  end.

(** Up to the message loop: whether the process goes on. *)
Definition start_process (platform : P) (w : W) (m : Machine) (dialogs : list (list Message * Z)) (natives : list bool)
    : result TrayStop bool * TR :=
  match boot m with
  | (Ok b, m) => start_app (tray_new platform w m b dialogs natives)
  | (Err e, _) => match (e : Empty_set) with end
  end.
End Start.

(** A run by its result, which is all a computation has to show. *)
Lemma ran {X S} (m : X * S) x : m.1 = x → m = (x, m.2).
Proof. intros <-. apply surjective_pairing. Qed.
