(* ===== verification/TrayStays.v ===== *)
(** * TrayStays: what the handlers of the tray window keep

    The invariant of the tray's state and, for every handler that opens no dialog,
    that it is kept: the controller's ownership describes the kernel's request
    until the session ends, an acquire intent waits only for a handoff until the
    cleanup is verified, and a quit message is posted only after a verified cleanup
    or the end of the window. *)
From coqutil Require Import Datatypes.RecordSetters.
From S2P Require Import Prelude Text Core Policy Watchdog Privacy Diagnostics Platform Ownership Wire Pause Files Config Session FileFrames Dirs Startup Logging Surface Menus Engine EngineSteps EngineTermination EngineSafety EngineEase Tray TrayMenu.
Import TriangleBracketNotations.

(** ** Engine computations *)

Section Sound.
Context {P : Type} `{TimerPlatformLaws P} {W : Type} `{Desktop W}.
Abbreviation A := (App P W).
Abbreviation E := (comp A Diverged).
Implicit Types a : A.

Definition sound a a' : Prop :=
  (settled a → settled a') ∧ (tracks (controller a) → tracks (controller a')).

#[export] Instance sound_refl : Reflexive sound.
Proof. by intros a. Qed.
#[export] Instance sound_trans : Transitive sound.
Proof. intros a b c [S1 S2] [S3 S4]. split; auto. Qed.

Lemma sound_guarded {T} (m : E T) : follows readies m → guarded m → follows sound m.
Proof. intros Hr Hg a x a' Ea. split; [by apply (Hr a x a')|]. by destruct (Hg a x a' Ea). Qed.
Lemma sound_moves {T} (m : E T) : follows eases m → (∀ pre, moves pre m) → follows sound m.
Proof. intros Hr Hm. apply sound_guarded; [by apply eases_readies|apply guarded_moves, Hm]. Qed.

Definition sound_view a := (handoff a, desired_intent a, Ownership.view (controller a)).
Lemma sound_neutral {T} (m : E T) : neutral sound_view m → follows sound m.
Proof.
  intros Hm a x a' Ea. destruct (Hm a) as (x1 & a1 & E1 & V1). assert (a' = a1) as -> by congruence.
  unfold sound_view in V1. injection V1 as V1 V2 V3. split; [unfold settled; by rewrite V1, V2|].
  apply tracks_view. unfold Ownership.view in *. congruence.
Qed.
End Sound.

(** Discharges [neutral sound_view]. *)
Ltac sound_leaf_tac :=
  unfold now, SetTimer, KillTimer, update_icon, record, record_with_outcome, set_tray_status, sync_timing_snapshot;
  repeat first
    [ progress intros
    | apply neutral_bind | apply neutral_when | apply neutral_get | apply neutral_ret
    | apply neutral_modify; intros; reflexivity
    | apply neutral_world; intros; reflexivity
    | apply neutral_if | progress cbv zeta | case_match ].

Section EngineSound.
Context {P : Type} `{TimerPlatformLaws P} {W : Type} `{Desktop W}.
Abbreviation A := (App P W).
Abbreviation E := (comp A Diverged).
Context (f : nat).

Lemma publish_sound : follows sound (publish f : E _).
Proof. apply sound_moves; [apply publish_eases|apply publish_moves]. Qed.
Lemma release_sound s : follows sound (guarded_release f s : E _).
Proof. apply sound_moves; [apply release_eases|intros; apply guarded_release_moves]. Qed.
Lemma start_sound : follows sound (manual_start f : E _).
Proof. apply sound_guarded; [apply start_readies|apply (handle_guarded f EvManualStart)]. Qed.
Lemma stop_sound : follows sound (manual_stop f : E _).
Proof. apply sound_guarded; [apply stop_readies|apply (handle_guarded f EvManualStop)]. Qed.
Lemma reconcile_sound : follows sound (reconcile f : E _).
Proof. apply sound_guarded; [apply reconcile_readies|apply (handle_guarded f EvReconcile)]. Qed.
Lemma power_reconciliation_sound : follows sound (apply_power_reconciliation f : E _).
Proof. apply sound_guarded; [apply power_reconciliation_readies|apply guarded_moves, power_reconciliation_moves]. Qed.
Lemma ipc_sound verb payload : follows sound (handle_ipc_command f verb payload : E _).
Proof. apply sound_guarded; [apply ipc_readies|apply ipc_guarded]. Qed.
Lemma schedule_sound act d : follows sound (schedule_duration_action f act d : E _).
Proof. apply sound_guarded; [apply schedule_readies|apply schedule_guarded]. Qed.
Lemma preset_sound act i : follows sound (schedule_preset_action f act i : E _).
Proof. apply sound_guarded; [apply preset_readies|apply (handle_guarded f (EvSchedule act i))]. Qed.
Lemma cancel_sound : follows sound (cancel_scheduled_action f : E _).
Proof. apply sound_guarded; [apply cancel_readies|apply cancel_guarded]. Qed.
Lemma handoff_timer_sound : follows sound (handle_handoff_timer f : E _).
Proof. apply sound_guarded; [apply handoff_timer_readies|apply (handle_guarded f EvHandoffTimer)]. Qed.
Lemma surface_sound : follows sound (service_surface_recovery f : E _).
Proof. apply sound_guarded; [apply surface_readies|apply (handle_guarded f EvSurfaceTimer)]. Qed.
Lemma display_sound : follows sound (handle_schedule_display_timer f : E _).
Proof. apply sound_guarded; [apply display_timer_readies|apply (handle_guarded f EvDisplayTimer)]. Qed.
Lemma debounce_sound : follows sound (handle_power_debounce_timer f : E _).
Proof. apply sound_guarded; [apply debounce_readies|apply (handle_guarded f EvDebounceTimer)]. Qed.
Lemma duration_timer_sound id : follows sound (handle_duration_timer f id : E _).
Proof. apply sound_guarded; [apply duration_timer_readies|apply (handle_guarded f (EvDurationTimer id))]. Qed.
Lemma broadcast_sound m : follows sound (handle_power_broadcast f m : E _).
Proof. apply sound_guarded; [apply broadcast_readies|apply (handle_guarded f (EvPowerBroadcast m))]. Qed.
Lemma cancel_timer_sound : follows sound (cancel_duration_timer : E _).
Proof. apply sound_neutral. unfold cancel_duration_timer. sound_leaf_tac. Qed.
Lemma kill_display_sound : follows sound (kill_schedule_display_timer : E _).
Proof. apply sound_neutral. unfold kill_schedule_display_timer. sound_leaf_tac. Qed.
Lemma kill_debounce_sound : follows sound (kill_power_debounce_timer : E _).
Proof. apply sound_neutral. unfold kill_power_debounce_timer, clear_debounce. sound_leaf_tac. Qed.
Lemma finish_handoff_sound : follows sound (finish_handoff_timer : E _).
Proof. apply sound_neutral. unfold finish_handoff_timer. sound_leaf_tac. Qed.
End EngineSound.

Create HintDb tray_sound.
#[export] Hint Resolve publish_sound release_sound start_sound stop_sound reconcile_sound power_reconciliation_sound
  ipc_sound schedule_sound preset_sound cancel_sound handoff_timer_sound surface_sound display_sound debounce_sound
  duration_timer_sound broadcast_sound cancel_timer_sound kill_display_sound kill_debounce_sound
  finish_handoff_sound : tray_sound.

(** ** What the handlers keep *)

Section Stays.
Context {P : Type} `{TimerPlatformLaws P} `{EmergencyRestore P} {W : Type} `{Desktop W}.
Context `{Sha256} `{IoDisplay} `{PathDisplay} `{TrayHost}.
Abbreviation A := (App P W).
Abbreviation TR := (Tray P W).
Abbreviation T := (comp TR TrayStop).
Implicit Types t : TR.

Definition unverified t : Prop := gate_verified (shutdown_gate t) = false.

(** With at most [n] dialogs to come. *)
Definition inv (n : nat) t : Prop :=
  (length (dialogs t) ≤ n)%nat ∧
  (unverified t → settled (app t)) ∧
  (cleanup_pending t = true → tracks (controller (app t))) ∧
  (quit_posted t = true → ¬ unverified t ∨ ipc_teardown t = true).
(** The same once the emergency cleanup has begun. *)
Definition inv_ended (n : nat) t : Prop := inv n t ∧ cleanup_pending t = false.

Definition stays {X} (J : TR → Prop) (m : T X) : Prop := ∀ t, J t →
  match m t with (Ok _, t') => J t' | (Err e, _) => e ≠ DialogBound end.

Definition safe_view t :=
  (length (dialogs t), app t, cleanup_pending t, quit_posted t, gate_verified (shutdown_gate t), ipc_teardown t).
(** Such a property depends on this view, and every sound engine step keeps it. *)
Class Viewed (J : TR → Prop) := {
  viewed t t' : safe_view t' = safe_view t → J t → J t';
  sounded t a : sound (app t) a → J t → J (t <| app := a |>) }.

#[export] Instance inv_viewed n : Viewed (inv n).
Proof.
  split.
  - intros t t' Hv. unfold safe_view in Hv. injection Hv as V1 V2 V3 V4 V5 V6. unfold inv, unverified.
    by rewrite V1, V2, V3, V4, V5, V6.
  - intros t a [Hs Ht] (I1 & I2 & I3 & I4). split_and!; [done| | |done]; unfold unverified; cbn; auto.
Qed.
#[export] Instance inv_ended_viewed n : Viewed (inv_ended n).
Proof.
  split.
  - intros t t' Hv [Hi Hc]. split; [by apply (viewed t)|]. unfold safe_view in Hv. congruence.
  - intros t a Hs [Hi Hc]. split; [by apply sounded|done].
Qed.

Section Rules.
Context (J : TR → Prop) `{!Viewed J}.

Lemma stays_ret {X} (x : X) : stays J (mret x).
Proof. by intros t Ht. Qed.
Lemma stays_get : stays J get.
Proof. by intros t Ht. Qed.
Lemma stays_fail {X} e : e ≠ DialogBound → stays J (fail e : T X).
Proof. by intros He t Ht. Qed.
Lemma stays_bind {X Y} (m : T X) (k : X → T Y) : stays J m → (∀ x, stays J (k x)) → stays J (m ≫= k).
Proof.
  intros Hm Hk t Ht. unfold mbind, comp_bind. specialize (Hm t Ht). destruct (m t) as [[x|e] t1]; [by apply Hk|done].
Qed.
Lemma stays_modify (f : TR → TR) : (∀ t, safe_view (f t) = safe_view t) → stays J (modify f).
Proof. intros Hf t Ht. by apply (viewed t). Qed.
Lemma stays_app {X} (m : comp A Diverged X) : follows sound m → stays J (on_app m).
Proof.
  intros Hm t Ht. unfold on_app. destruct (m (app t)) as [[x|[]] a] eqn:Ea; [|done].
  apply sounded; [|done]. by apply (Hm (app t) x a).
Qed.
Lemma stays_app_neutral {X} (m : comp A Diverged X) : neutral sound_view m → stays J (on_app m).
Proof. intros Hm. by apply stays_app, sound_neutral. Qed.
Lemma stays_machine {E X} (m : comp Machine E X) : stays J (on_machine m).
Proof. intros t Ht. unfold on_machine. destruct (m (machine t)) as [r mc]. by apply (viewed t). Qed.
Lemma stays_disk {E X} (m : comp Fs E X) : stays J (on_disk_of m).
Proof. intros t Ht. unfold on_disk_of. destruct (m (disk (machine t))) as [r mc]. by apply (viewed t). Qed.
Lemma stays_native : stays J native.
Proof. intros t Ht. unfold native. destruct (natives t) as [|b rest]; [done|by apply (viewed t)]. Qed.
Lemma stays_note name : stays J (note name).
Proof. apply stays_app_neutral. unfold record. sound_leaf_tac. Qed.
Lemma stays_note_outcome name o : stays J (note_outcome name o).
Proof. apply stays_app_neutral. unfold record_with_outcome. sound_leaf_tac. Qed.
Lemma and_then_stays (a b : T bool) : stays J a → stays J b → stays J (and_then a b).
Proof. intros Ha Hb. unfold and_then. apply stays_bind; [done|]. intros []; [done|apply stays_ret]. Qed.
Lemma and_also_stays (a b : T bool) : stays J a → stays J b → stays J (and_also a b).
Proof. intros Ha Hb. unfold and_also. apply stays_bind; [done|]. intros ?. apply stays_bind; [done|]. intros ?. apply stays_ret. Qed.
Lemma stays_flush : stays J flush_log.
Proof.
  unfold flush_log. apply stays_bind; [apply stays_get|intros t]. destruct (reading (flushes t)) as [m s].
  destruct (flush_diagnostic_events_to_disk_sync _ _ _ _) as [r l]. by apply stays_modify.
Qed.
End Rules.
End Stays.

(** Descends into a computation that [stays]. *)
Ltac stays_leaf :=
  first [ solve [first [apply stays_note | apply stays_note_outcome | apply stays_native | apply stays_disk
                       | apply stays_machine | apply stays_flush]; apply _]
        | solve [apply stays_app; first [apply _ | auto with nocore tray_sound]]
        | solve [apply stays_app_neutral; first [apply _ | sound_leaf_tac]]
        | solve [apply stays_modify; first [apply _ | intros; reflexivity]]
        | solve [auto with nocore tray_stays typeclass_instances] ].
Create HintDb tray_stays.
#[export] Hint Resolve stays_note stays_note_outcome : tray_stays.
Ltac stays_tac :=
  repeat lazymatch goal with
    | |- stays _ (mret _) => apply stays_ret
    | |- stays _ get => apply stays_get
    | |- stays _ (fail _) => by apply stays_fail
    | |- stays _ (and_then _ _) => apply and_then_stays
    | |- stays _ (and_also _ _) => apply and_also_stays
    | |- stays _ (let _ := _ in _) => cbv zeta
    | |- stays _ (match ?x with _ => _ end) => destruct x
    | |- stays _ (_ ≫= _) => apply stays_bind; [| intros ?]
    | |- _ => stays_leaf
    end.

Section Handlers.
Context {P : Type} `{TimerPlatformLaws P} `{EmergencyRestore P} {W : Type} `{Desktop W}.
Context `{Sha256} `{IoDisplay} `{PathDisplay} `{TrayHost}.
Abbreviation A := (App P W).
Abbreviation TR := (Tray P W).
Abbreviation T := (comp TR TrayStop).
Implicit Types t : TR.
Context (J : TR → Prop) `{!Viewed J}.

Lemma save_stays c : stays J (save_config c).
Proof. unfold save_config. stays_tac. Qed.
Lemma set_config_stays c : stays J (set_config c).
Proof. intros t Ht. by apply sounded. Qed.
Lemma publish_stays : stays J app_publish.
Proof. unfold app_publish. stays_tac. Qed.
#[local] Hint Resolve save_stays set_config_stays publish_stays : tray_stays.
Lemma change_setting_stays event change (apply : T unit) : stays J apply → stays J (change_setting event change apply).
Proof. intros Ha. unfold change_setting. stays_tac. Qed.
Lemma automatic_stays b : stays J (set_automatic b).
Proof. apply change_setting_stays. destruct b; stays_tac. Qed.
Lemma auto_resume_stays b : stays J (set_auto_resume b).
Proof. apply change_setting_stays. stays_tac. Qed.
Lemma battery_stays b : stays J (set_battery_lockout b).
Proof. apply change_setting_stays. stays_tac. Qed.
Lemma change_startup_stays b target next : stays J (change_startup b target next).
Proof. unfold change_startup, rollback_startup, set_startup_status. stays_tac. Qed.
Lemma startup_unavailable_stays e next : stays J (startup_unavailable e next).
Proof. unfold startup_unavailable, set_startup_status. stays_tac. Qed.
#[local] Hint Resolve change_startup_stays startup_unavailable_stays : tray_stays.
Lemma startup_stays b : stays J (set_startup b).
Proof. unfold set_startup. stays_tac. Qed.
Lemma remove_icon_stays : stays J remove_tray_icon.
Proof. unfold remove_tray_icon. stays_tac. Qed.
Lemma restore_icon_stays : stays J restore_tray_icon.
Proof. unfold restore_tray_icon. stays_tac. Qed.
Lemma heartbeat_stays : stays J handle_heartbeat_timer.
Proof. unfold handle_heartbeat_timer. stays_tac. Qed.
Lemma clear_timers_stays (event : T unit) : stays J event → stays J (clear_schedule_timers event).
Proof. intros He. unfold clear_schedule_timers. stays_tac. Qed.
Lemma kill_heartbeat_stays : stays J kill_heartbeat_timer.
Proof. unfold kill_heartbeat_timer. stays_tac. Qed.
Lemma prepare_stays : stays J prepare_shutdown.
Proof. unfold prepare_shutdown. stays_tac. Qed.
Lemma drain_stays n : stays J (drain_requests n).
Proof. induction n as [|n IH]; cbn [drain_requests]; [stays_tac|]. stays_tac. Qed.
Lemma persist_stays : stays J persist_presets.
Proof. unfold persist_presets. stays_tac. Qed.
Lemma set_presets_stays m : stays J (set_presets m).
Proof. unfold set_presets. stays_tac. Qed.
#[local] Hint Resolve persist_stays set_presets_stays : tray_stays.
Lemma presets_click_stays c : stays J (handle_presets_click c).
Proof.
  destruct c; unfold handle_presets_click, presets_add, presets_delete_selected, presets_reset, close_presets_window,
    populate_presets_list; stays_tac.
Qed.
Lemma create_controls_stays n : stays J (create_controls n).
Proof. induction n as [|n IH]; cbn [create_controls]; stays_tac. Qed.
#[local] Hint Resolve create_controls_stays : tray_stays.
Lemma open_presets_stays : stays J open_presets_window.
Proof. unfold open_presets_window, create_presets_window, close_presets_window, populate_presets_list. stays_tac. Qed.
#[local] Hint Resolve open_presets_stays automatic_stays auto_resume_stays battery_stays startup_stays : tray_stays.
Lemma run_command_stays c : stays J (run_command c).
Proof.
  unfold run_command, open_diagnostic_window, open_github_page. cbv zeta.
  repeat match goal with |- stays _ (if ?b then _ else _) => destruct b end; stays_tac.
Qed.

(** Menus. *)
Lemma create_menu_stays : stays J CreatePopupMenu.
Proof. unfold CreatePopupMenu. stays_tac. Qed.
Lemma append_stays menu flags id text : stays J (append_menu_checked menu flags id text).
Proof. unfold append_menu_checked, AppendMenuW. stays_tac. Qed.
Lemma modify_stays menu i flags id text : stays J (ModifyMenuW menu i flags id text).
Proof. unfold ModifyMenuW. stays_tac. Qed.
Lemma destroy_stays menu : stays J (DestroyMenu menu).
Proof. unfold DestroyMenu. stays_tac. Qed.
#[local] Hint Resolve create_menu_stays append_stays modify_stays destroy_stays : tray_stays.
Lemma attach_stays built parent submenu label opened : stays J opened → stays J (attach built parent submenu label opened).
Proof. intros Ho. unfold attach. stays_tac. Qed.
Lemma submenu_stays error k : (∀ h, stays J (k h)) → stays J (new_submenu error k).
Proof. intros Hk. unfold new_submenu. stays_tac. Qed.
Lemma settings_entries_stays h : stays J (append_settings_entries h).
Proof. unfold append_settings_entries. stays_tac. Qed.
Lemma set_handle_stays f : stays J (set_handle f).
Proof. unfold set_handle. stays_tac. Qed.
#[local] Hint Resolve settings_entries_stays set_handle_stays : tray_stays.
Lemma settings_menu_stays h label : stays J (append_settings_submenu h label).
Proof. apply submenu_stays. intros ?. stays_tac. apply attach_stays. stays_tac. Qed.
Lemma items_stays h flags base items : stays J (append_items h flags base items).
Proof. induction items; cbn [append_items]; stays_tac. Qed.
#[local] Hint Resolve items_stays : tray_stays.
Lemma choice_menu_stays h act label : stays J (append_duration_choice_submenu h act label).
Proof. apply submenu_stays. intros ?. apply stays_bind; [stays_tac|intros ?]. cbv zeta. apply stays_bind; [stays_tac|intros ?]. apply attach_stays. stays_tac. Qed.
#[local] Hint Resolve choice_menu_stays : tray_stays.
Lemma schedule_menu_stays h label : stays J (append_schedule_submenu h label).
Proof. apply submenu_stays. intros ?. stays_tac. apply attach_stays. stays_tac. Qed.
Lemma status_items_stays : stays J status_items.
Proof. unfold status_items, running_duration. stays_tac. Qed.
#[local] Hint Resolve status_items_stays : tray_stays.
Lemma status_entries_stays h i items : stays J (append_status_items h i items).
Proof. revert i. induction items; intros i; cbn [append_status_items]; [stays_tac|]. apply and_also_stays; [stays_tac|done]. Qed.
#[local] Hint Resolve status_entries_stays : tray_stays.
Lemma status_menu_stays h : stays J (append_status_submenu h).
Proof. apply submenu_stays. intros ?. stays_tac. apply attach_stays. stays_tac. Qed.
#[local] Hint Resolve settings_menu_stays schedule_menu_stays status_menu_stays : tray_stays.
Lemma root_entries_stays h : stays J (append_root_entries h).
Proof. unfold append_root_entries. apply stays_bind; [stays_tac|intros t]. stays_tac. Qed.
#[local] Hint Resolve root_entries_stays : tray_stays.
Lemma build_stays : stays J build_menu.
Proof. unfold build_menu, destroy_menu_noted. stays_tac. Qed.
Lemma refresh_items_stays h i items : stays J (modify_status_items h i items).
Proof. revert i. induction items; intros i; cbn [modify_status_items]; stays_tac. Qed.
#[local] Hint Resolve refresh_items_stays : tray_stays.
Lemma refresh_stays : stays J refresh_popup_menu.
Proof. unfold refresh_popup_menu, on_handle. stays_tac. Qed.
Lemma begin_refresh_stays : stays J begin_popup_refresh_timer.
Proof. unfold begin_popup_refresh_timer. stays_tac. Qed.
Lemma kill_refresh_stays : stays J kill_popup_refresh_timer.
Proof. unfold kill_popup_refresh_timer. stays_tac. Qed.
Lemma refuse_stays n : stays J (refuse_requests n).
Proof. induction n; cbn [refuse_requests]; stays_tac. Qed.
#[local] Hint Resolve refresh_stays heartbeat_stays : tray_stays.
Lemma timer_stays id : stays J (handle_timer id).
Proof. unfold handle_timer. stays_tac. Qed.
End Handlers.

(** The leaf of a composed handler: a handler above, by name. *)
Ltac handler_leaf :=
  lazymatch goal with
  | |- stays _ (clear_schedule_timers _) => apply clear_timers_stays; [apply _|stays_tac]
  | |- stays _ (save_config _) => apply save_stays; apply _
  | |- stays _ (set_config _) => apply set_config_stays; apply _
  | |- stays _ app_publish => apply publish_stays; apply _
  | |- stays _ restore_tray_icon => apply restore_icon_stays; apply _
  | |- stays _ remove_tray_icon => apply remove_icon_stays; apply _
  | |- stays _ kill_heartbeat_timer => apply kill_heartbeat_stays; apply _
  | |- stays _ prepare_shutdown => apply prepare_stays; apply _
  | |- stays _ (drain_requests _) => apply drain_stays; apply _
  | |- stays _ (handle_presets_click _) => apply presets_click_stays; apply _
  | |- stays _ (run_command _) => apply run_command_stays; apply _
  | |- stays _ build_menu => apply build_stays; apply _
  | |- stays _ begin_popup_refresh_timer => apply begin_refresh_stays; apply _
  | |- stays _ kill_popup_refresh_timer => apply kill_refresh_stays; apply _
  | |- stays _ (DestroyMenu _) => apply destroy_stays; apply _
  | |- stays _ (refuse_requests _) => apply refuse_stays; apply _
  | |- stays _ (handle_timer _) => apply timer_stays; apply _
  | |- stays _ (set_presets _) => apply set_presets_stays; apply _
  end.
#[export] Hint Extern 1 (stays _ _) => handler_leaf : tray_stays.
