(* ===== verification/TraySafety.v ===== *)
(** * TraySafety: when the process may end

    Through every message, whatever is handled while dialogs and menus are open,
    the invariant of [TrayStays] is kept and the bounds on open dialogs are never
    reached; a cleanup that is verified for the first time has released the timer;
    the shutdown loop ends. *)
From coqutil Require Import Datatypes.RecordSetters.
From S2P Require Import Prelude Text Core Policy Watchdog Privacy Diagnostics Platform Ownership Wire Pause Files Config Session FileFrames Dirs Startup Logging Surface Menus Engine EngineSteps EngineTermination EngineSafety EngineEase Tray TrayMenu TrayStays.
Import TriangleBracketNotations.

(** ** The cleanup *)

Section Cleanup.
Context {P : Type} `{TimerPlatformLaws P} `{EmergencyRestore P} {W : Type} `{Desktop W}.
Context `{Sha256} `{IoDisplay} `{PathDisplay} `{TrayHost}.
Abbreviation A := (App P W).
Abbreviation E := (comp A Diverged).
Abbreviation TR := (Tray P W).
Abbreviation T := (comp TR TrayStop).
Implicit Types t : TR.

Definition released t : Prop := owned_by (app t) = OwnershipState.Released.

(** Publishing does not acquire, whatever intent waits. *)
Definition rests (a a' : A) : Prop := owned_by a = OwnershipState.Released → owned_by a' = OwnershipState.Released.
#[export] Instance rests_refl : Reflexive rests.
Proof. by intros a Ha. Qed.
#[export] Instance rests_trans : Transitive rests.
Proof. intros a b c ? ?. unfold rests in *. auto. Qed.
Lemma rests_neutral {X} (m : E X) : neutral ease_view m → follows rests m.
Proof.
  intros Hm a x a' Ea. destruct (Hm a) as (x1 & a1 & E1 & V1). assert (a' = a1) as -> by congruence.
  unfold ease_view in V1. injection V1 as _ _ V3. unfold rests. congruence.
Qed.
Lemma tier_rests f : follows rests (refresh_operating_tier f : E _).
Proof.
  destruct f as [|f]; [apply follows_fail|]. rewrite refresh_operating_tier_S.
  apply follows_bind; [apply _|apply rests_neutral; ease_leaf_tac|intros ?].
  apply follows_bind; [apply _|apply follows_get; apply _|intros a0]. cbv zeta.
  apply follows_bind; [apply _|apply rests_neutral; ease_leaf_tac|intros ?].
  apply follows_bind; [apply _|apply rests_neutral; destruct (evaluate_tier _ _); cbn [enter_tier]; ease_leaf_tac|intros ?].
  refine (follows_when _ _ _). apply follows_bind; [apply _|apply rests_neutral; ease_leaf_tac|intros ?].
  intros b y b' Eb Hr. revert Eb. unfold mbind at 1, comp_bind at 1. cbn [get].
  assert (owns b = false) as Ho by (unfold owns; apply bool_decide_eq_false_2; unfold owned_by in Hr; congruence).
  rewrite Ho, andb_false_r. by intros [= _ <-].
Qed.
Lemma publish_rests f : follows rests (publish f : E _).
Proof.
  destruct f as [|f]; [apply follows_fail|]. rewrite publish_S.
  apply follows_bind; [apply _|apply rests_neutral; unfold publish_ownership; ease_leaf_tac|intros ?].
  apply follows_bind; [apply _|apply follows_get; apply _|intros a0]. cbv zeta.
  apply follows_bind; [apply _|apply tier_rests|intros ?].
  apply follows_bind; [apply _|apply follows_get; apply _|intros ?].
  apply follows_bind; [apply _|apply rests_neutral; unfold publish_surface; ease_leaf_tac|intros ?].
  refine (follows_when _ _ _). apply tier_rests.
Qed.

(** Steps of the cleanup that leave everything but the application's own data. *)
Definition frame t t' : Prop :=
  length (dialogs t') = length (dialogs t) ∧ cleanup_pending t' = cleanup_pending t ∧
  quit_posted t' = quit_posted t ∧ ipc_teardown t' = ipc_teardown t ∧ shutdown_gate t' = shutdown_gate t.
#[export] Instance frame_refl : Reflexive frame.
Proof. intros t. by split_and!. Qed.
#[export] Instance frame_trans : Transitive frame.
Proof. intros t1 t2 t3 (?&?&?&?&?) (?&?&?&?&?). split_and!; congruence. Qed.
Definition framed (R : A → A → Prop) t t' : Prop := frame t t' ∧ R (app t) (app t').
#[export] Instance framed_refl R `{!Reflexive R} : Reflexive (framed R).
Proof. intros t. by split. Qed.
#[export] Instance framed_trans R `{!Transitive R} : Transitive (framed R).
Proof. intros t1 t2 t3 [? ?] [? ?]. split; by etransitivity. Qed.

Lemma framed_app {X} (R : A → A → Prop) (m : E X) : follows R m → follows (framed R) (on_app m : T X).
Proof.
  intros Hm t x t'. unfold on_app. destruct (m (app t)) as [[y|[]] a] eqn:Ea; [|by intros [=]].
  intros [= _ <-]. split; [done|]. by apply (Hm _ y).
Qed.
Lemma framed_modify (R : A → A → Prop) `{!Reflexive R} (f : TR → TR) :
  (∀ t, frame t (f t)) → (∀ t, app (f t) = app t) → follows (framed R) (modify f : T unit).
Proof. intros Hf Ha. apply follows_modify. intros t. split; [done|]. by rewrite Ha. Qed.
Lemma framed_native (R : A → A → Prop) `{!Reflexive R} : follows (framed R) (native : T bool).
Proof. intros t x t'. unfold native. destruct (natives t); intros [= _ <-]; by split. Qed.

(** Both at once. *)
Definition calmly (a a' : A) : Prop := sound a a' ∧ rests a a'.
#[export] Instance calmly_refl : Reflexive calmly.
Proof. by split. Qed.
#[export] Instance calmly_trans : Transitive calmly.
Proof. intros a b c [? ?] [? ?]. split; by etransitivity. Qed.
Lemma calmly_neutral {X} (m : E X) : neutral sound_view m → follows calmly m.
Proof.
  intros Hm a x a' Ea. split; [by apply (sound_neutral m Hm a x)|].
  destruct (Hm a) as (x1 & a1 & E1 & V1). assert (a' = a1) as -> by congruence.
  unfold sound_view, Ownership.view in V1. injection V1 as _ _ V _ _. unfold rests, owned_by. congruence.
Qed.
Lemma calmly_publish f : follows calmly (publish f : E _).
Proof. intros a x a' Ea. split; [by apply (publish_sound f a x)|by apply (publish_rests f a x)]. Qed.
End Cleanup.

(** Descends into a computation that is [framed]. *)
Ltac framed_tac :=
  repeat lazymatch goal with
    | |- follows _ (mret _) => apply follows_ret; apply _
    | |- follows _ get => apply follows_get; apply _
    | |- follows _ (match ?x with _ => _ end) => destruct x
    | |- follows _ (_ ≫= _) => apply follows_bind; [apply _| |intros ?]
    | |- follows _ native => apply framed_native; apply _
    | |- follows _ (modify _) => apply framed_modify; [apply _|by intros|by intros]
    | |- follows _ (on_app (publish _)) => apply framed_app, calmly_publish
    | |- follows _ (on_app _) => apply framed_app, calmly_neutral; sound_leaf_tac
    | |- follows _ (note _) => apply framed_app, calmly_neutral; unfold record; sound_leaf_tac
    | |- follows _ (note_outcome _ _) => apply framed_app, calmly_neutral; unfold record_with_outcome; sound_leaf_tac
    end.

(** The value a computation ends with, whatever it does before. *)
Ltac ends_with :=
  let Es := fresh in
  intros s x s' Es; repeat (apply step_inv in Es as (? & ? & _ & Es)); revert Es; by intros [= <- _].

Section CleanupSpec.
Context {P : Type} `{TimerPlatformLaws P} `{EmergencyRestore P} {W : Type} `{Desktop W}.
Context `{Sha256} `{IoDisplay} `{PathDisplay} `{TrayHost}.
Abbreviation A := (App P W).
Abbreviation TR := (Tray P W).
Abbreviation T := (comp TR TrayStop).
Implicit Types t : TR.

Lemma prepare_framed : follows (framed calmly) (prepare_shutdown : T unit).
Proof. unfold prepare_shutdown. framed_tac. Qed.
Lemma clear_timers_framed event : follows (framed calmly) (clear_schedule_timers (note event) : T unit).
Proof.
  unfold clear_schedule_timers, cancel_duration_timer, kill_schedule_display_timer, kill_power_debounce_timer, clear_debounce.
  framed_tac.
Qed.
Lemma kill_heartbeat_framed : follows (framed calmly) (kill_heartbeat_timer : T unit).
Proof. unfold kill_heartbeat_timer. framed_tac. Qed.

Lemma gate_attempts_spec ok t t' x : gate_attempts ok t = (Ok x, t') → unverified t →
  app t' = app t ∧ length (dialogs t') = length (dialogs t) ∧ cleanup_pending t' = cleanup_pending t ∧
  quit_posted t' = quit_posted t ∧ ipc_teardown t' = ipc_teardown t ∧
  gate_verified (shutdown_gate t') = ok.
Proof.
  unfold gate_attempts, modify. intros [= _ <-] Hu. split_and!; try done. cbn. unfold gate_attempt. rewrite Hu.
  destruct ok; [done|]. cbn. exact Hu.
Qed.

Lemma begin_cleanup_framed : follows (framed calmly) (begin_cleanup : T unit).
Proof.
  unfold begin_cleanup. apply follows_bind; [apply _|apply clear_timers_framed|intros ?].
  apply follows_bind; [apply _|apply kill_heartbeat_framed|intros ?]. unfold begin_op. framed_tac.
Qed.

(** The watch ends in one step that is not sound: it may leave an intent. *)
Definition resting (a a' : A) : Prop := (tracks (controller a) → tracks (controller a')) ∧ rests a a'.
#[local] Instance resting_trans : Transitive resting.
Proof. intros a b c [? ?] [? ?]. split; [auto|by etransitivity]. Qed.
Lemma calmly_resting {X} (m : T X) : follows (framed calmly) m → follows (framed resting) m.
Proof. intros Hm t x t' Et. destruct (Hm t x t' Et) as [? [[_ ?] ?]]. by split. Qed.
Lemma quit_handoff_resting : follows (framed resting) (quit_handoff : T unit).
Proof.
  unfold quit_handoff. apply follows_bind; [apply _| |intros ?].
  { apply calmly_resting. unfold finish_handoff_timer. framed_tac. }
  apply follows_bind; [apply _| |intros ?].
  { apply framed_app, follows_modify. intros a. split; [by intros ?|by intros ?]. }
  apply calmly_resting. unfold app_publish, sync_timing_snapshot, modify_controller. framed_tac.
Qed.

Lemma framed_inv n t t' : framed sound t t' → inv n t → inv n t'.
Proof.
  intros [(F1 & F2 & F3 & F4 & F5) [S1 S2]] (I1 & I2 & I3 & I4). unfold inv, unverified. rewrite F1, F2, F3, F4, F5.
  split_and!; auto.
Qed.
Lemma calmly_inv n t t' : framed calmly t t' → inv n t → inv n t'.
Proof. intros [? [? _]]. by apply framed_inv. Qed.

(** A verified gate asks for no settled intents. *)
Lemma verified_inv n t t' ok : app t' = app t ∧ length (dialogs t') = length (dialogs t) ∧
  cleanup_pending t' = cleanup_pending t ∧ quit_posted t' = quit_posted t ∧ ipc_teardown t' = ipc_teardown t ∧
  gate_verified (shutdown_gate t') = ok →
  (length (dialogs t) ≤ n)%nat → (ok = false → settled (app t)) →
  (cleanup_pending t = true → tracks (controller (app t))) →
  (quit_posted t = true → ok = true ∨ ipc_teardown t = true) → inv n t'.
Proof.
  intros (G1 & G2 & G3 & G4 & G5 & G6) I1 I2 I3 I4. unfold inv, unverified. rewrite G1, G2, G3, G4, G5, G6.
  split_and!; auto. intros Hq. destruct (I4 Hq) as [->|]; [by left|by right].
Qed.

(** The verdict of an attempt, and the records after it. *)
Lemma verdict_spec n ok (k : T bool) t v t' : follows (framed calmly) k → (∀ s x s', k s = (Ok x, s') → x = ok) →
  inv n t ∨ (ok = true ∧ ∃ s, inv n s ∧ framed resting s t) → unverified t → (ok = true → released t) →
  (_ ← gate_attempts ok; k) t = (Ok v, t') →
  inv n t' ∧ (v = true → ¬ unverified t' ∧ released t').
Proof.
  intros Hk Hv Hi Hu Hr ([] & s & Es & E)%step_inv. pose proof (gate_attempts_spec ok t s tt Es Hu) as S.
  assert (inv n s) as Is.
  { destruct Hi as [(L & Q & K & W')|(-> & s0 & (L & Q & K & W') & (F1 & F2 & F3 & F4 & _) & (T' & _))].
    - apply (verified_inv n t s ok S); auto. intros Hq. destruct (W' Hq) as [Hn|]; [done|by right].
    - apply (verified_inv n t s true S); [by rewrite F1|done| |by left]. rewrite F2. auto. }
  pose proof (Hk s v t' E) as F. split; [by eapply calmly_inv|]. intros ->.
  assert (ok = true) as -> by (symmetry; by apply (Hv s _ t')).
  destruct F as [(_ & _ & _ & _ & Eg) [_ Hr']]. destruct S as (A & _ & _ & _ & _ & Eg').
  split; [unfold unverified; by rewrite Eg, Eg'|]. apply Hr'. rewrite A. by apply Hr.
Qed.

Lemma release_verdict s t b t' : on_app (guarded_release fuel s) t = (Ok b, t') → settled (app t) →
  is_ok b = true → released t'.
Proof.
  intros E Q Ho. destruct b as [b|e]; [|done]. revert E. unfold on_app.
  destruct (guarded_release fuel s (app t)) as [[y|[]] a] eqn:Ea; [|by intros [=]].
  intros [= -> <-]. by apply (release_ends fuel _ _ _ _ Q Ea).
Qed.

(** The cleanup: the invariant; and a cleanup that is verified now has released. *)
Lemma cleanup_spec n t v t' : inv n t → cleanup_normal_shutdown t = (Ok v, t') →
  inv n t' ∧ (v = true → ¬ unverified t' ∧ (unverified t → released t')).
Proof.
  intros Hi. unfold cleanup_normal_shutdown. intros ([] & t1 & E1 & E)%step_inv.
  assert (framed calmly t t1) as F1 by (by apply (prepare_framed t tt)). pose proof (calmly_inv n t t1 F1 Hi) as I1.
  apply step_inv in E as (? & ? & [= <- <-] & E).
  assert (gate_verified (shutdown_gate t1) = gate_verified (shutdown_gate t)) as Hu by (by destruct F1 as [(_ & _ & _ & _ & ->) _]).
  destruct (gate_verified (shutdown_gate t1)) eqn:Eg.
  { injection E as <- <-. split; [done|]. unfold unverified. rewrite <- Hu, Eg. done. }
  apply step_inv in E as ([] & t2 & E2 & E).
  assert (framed calmly t1 t2) as F2 by (by apply (begin_cleanup_framed t1 tt)). pose proof (calmly_inv n t1 t2 F2 I1) as I2.
  apply step_inv in E as (? & ? & [= <- <-] & E).
  assert (unverified t2) as Hu2 by (unfold unverified; by destruct F2 as [(_ & _ & _ & _ & ->) _]).
  assert (∀ v t', inv n t' ∧ (v = true → ¬ unverified t' ∧ released t') →
    inv n t' ∧ (v = true → ¬ unverified t' ∧ (unverified t → released t'))) as Hend
    by (intros ? ? [? Hv]; split; [done|]; intros Ht; destruct (Hv Ht); auto).
  apply Hend. clear Hend. destruct (_ && _) eqn:Eb.
  - apply andb_prop in Eb as [_ Eo%bool_decide_eq_true]. apply step_inv in E as ([] & t3 & E3 & E).
    pose proof (quit_handoff_resting t2 tt t3 E3) as F3.
    refine (verdict_spec n true _ t3 v t' _ _ _ _ _ E).
    + unfold finish_operation. framed_tac.
    + ends_with.
    + right. split; [done|]. by exists t2.
    + unfold unverified. by destruct F3 as [(_ & _ & _ & _ & ->) _].
    + intros _. by apply F3.
  - apply step_inv in E as (r & t3 & E3 & E). apply step_inv in E as (? & ? & [= <- <-] & E).
    assert (framed sound t2 t3) as F3 by (by apply (framed_app sound _ (release_sound fuel TrayStatus.Stopped) t2 r)).
    assert (unverified t3) as Hu3 by (unfold unverified; by destruct F3 as [(_ & _ & _ & _ & ->) _]).
    assert (inv n t3) as I3 by (by eapply framed_inv).
    assert (is_ok r = true → released t3) as Hr by (apply (release_verdict _ _ _ _ E3); by apply I2).
    destruct (is_ok r && bool_decide (is_Some (handoff (app t3)))) eqn:Eh; [|destruct (is_ok r) eqn:Er].
    + refine (verdict_spec n false _ t3 v t' _ _ _ _ _ E); [framed_tac| |by left|done|done].
      ends_with.
    + refine (verdict_spec n true _ t3 v t' _ _ _ _ _ E); [unfold finish_operation; framed_tac| |by left|done|by auto].
      ends_with.
    + refine (verdict_spec n false _ t3 v t' _ _ _ _ _ E); [unfold finish_operation; framed_tac| |by left|done|done].
      ends_with.
Qed.
End CleanupSpec.

(** ** Messages, dialogs and menus *)

Section Messages.
Context {P : Type} `{TimerPlatformLaws P} `{EmergencyRestore P} {W : Type} `{Desktop W}.
Context `{Sha256} `{IoDisplay} `{PathDisplay} `{TrayHost}.
Abbreviation A := (App P W).
Abbreviation TR := (Tray P W).
Abbreviation T := (comp TR TrayStop).
Implicit Types t : TR.

(** The cleanup opens no dialog. *)
Definition undialogued {X} (m : T X) : Prop := ∀ t, (m t).1 ≠ Err DialogBound.
Lemma undialogued_bind {X Y} (m : T X) (k : X → T Y) : undialogued m → (∀ x, undialogued (k x)) → undialogued (m ≫= k).
Proof.
  intros Hm Hk t. unfold mbind, comp_bind. specialize (Hm t). destruct (m t) as [[x|e] t1]; [apply Hk|]. cbn in *. congruence.
Qed.
Lemma undialogued_app {X} (m : comp A Diverged X) : undialogued (on_app m).
Proof. intros t. unfold on_app. by destruct (m (app t)) as [[x|[]] a]. Qed.
Lemma undialogued_native : undialogued native.
Proof. intros t. unfold native. by destruct (natives t). Qed.
#[local] Ltac undialogued_tac :=
  repeat lazymatch goal with
    | |- undialogued (match ?x with _ => _ end) => destruct x
    | |- undialogued (_ ≫= _) => apply undialogued_bind; [|intros ?]
    | |- undialogued native => apply undialogued_native
    | |- undialogued (on_app _) => apply undialogued_app
    | |- undialogued (note _) => apply undialogued_app
    | |- undialogued (note_outcome _ _) => apply undialogued_app
    | |- undialogued _ => by intros ?
    end.
Lemma cleanup_undialogued : undialogued (cleanup_normal_shutdown : T bool).
Proof.
  unfold cleanup_normal_shutdown, prepare_shutdown, begin_cleanup, begin_op, clear_schedule_timers, kill_heartbeat_timer,
    quit_handoff, app_publish, finish_operation. undialogued_tac.
Qed.
Lemma cleanup_stays n : stays (inv n) (cleanup_normal_shutdown : T bool).
Proof.
  intros t Ht. pose proof (cleanup_undialogued t) as He. destruct (cleanup_normal_shutdown t) as [[v|e] t'] eqn:E.
  - by apply (cleanup_spec n t v t').
  - intros ->. by apply He.
Qed.

(** The quit message follows a verified cleanup. *)
Lemma post_quit_stays n t : inv n t → ¬ unverified t ∨ ipc_teardown t = true →
  match (PostQuitMessage : T unit) t with (Ok _, t') => inv n t' | (Err e, _) => e ≠ DialogBound end.
Proof. intros (I1 & I2 & I3 & I4) Hv. by split_and!. Qed.

Section Loop.
Context (n : nat) (pump : list Message → T unit).
Context (Hpump : ∀ k, (k < n)%nat → ∀ ms, stays (inv k) (pump ms)).

Lemma inv_mono k k' t : (k ≤ k')%nat → inv k t → inv k' t.
Proof. intros Hk (I1 & I2). split; [lia|done]. Qed.

(** A dialog is one of those to come; without one it is not shown. *)
Lemma box_spec k t : (k ≤ n)%nat → inv k t →
  match MessageBoxW pump t with
  | (Ok r, t') => (∃ k', k = S k' ∧ inv k' t') ∨ (r = 0 ∧ inv k t')
  | (Err e, _) => e ≠ DialogBound
  end.
Proof.
  intros Hk Hi. unfold MessageBoxW. unfold mbind at 1, comp_bind at 1. cbn [get].
  destruct (dialogs t) as [|[ms r] rest] eqn:Ed; [by right|].
  destruct Hi as (I1 & I2 & I3 & I4). rewrite Ed in I1. cbn [length] in I1. destruct k as [|k]; [lia|].
  unfold mbind at 1, comp_bind at 1. cbn [modify]. unfold mbind at 1, comp_bind at 1.
  assert (inv k (t <| dialogs := rest |>)) as Hi by (split_and!; [change (length rest ≤ k)%nat; lia|done..]).
  pose proof (Hpump k ltac:(lia) ms _ Hi) as Hp. destruct (pump ms _) as [[[]|e] t']; [|done].
  left. by exists k.
Qed.
Lemma box_stays k : (k ≤ n)%nat → stays (inv k) (MessageBoxW pump).
Proof.
  intros Hk t Ht. pose proof (box_spec k t Hk Ht) as Hb. destruct (MessageBoxW pump t) as [[r|e] t']; [|done].
  destruct Hb as [(k' & -> & Hi)|[_ Hi]]; [eapply inv_mono; [|done]; lia|done].
Qed.

Section Bounded.
Context (k : nat) (Hk : (k ≤ n)%nat).
#[local] Hint Extern 1 (stays (inv _) (MessageBoxW _)) => apply box_stays, Hk : tray_stays.
#[local] Hint Extern 1 (stays (inv _) cleanup_normal_shutdown) => apply cleanup_stays : tray_stays.

Lemma warning_stays : stays (inv k) (show_shutdown_warning pump).
Proof. unfold show_shutdown_warning. stays_tac. Qed.
#[local] Hint Resolve warning_stays : tray_stays.
Lemma denied_stays : stays (inv k) (cleanup_denied pump).
Proof. unfold cleanup_denied. stays_tac. Qed.
Lemma reset_settings_stays : stays (inv k) (handle_settings_reset pump).
Proof. unfold handle_settings_reset. stays_tac. Qed.
Lemma execute_reset_stays : stays (inv k) (execute_reset pump).
Proof. unfold execute_reset, finish_operation. stays_tac. Qed.

(** A cleanup, then the quit message or the warning. *)
Lemma cleanup_then_quit (before : T unit) : stays (inv k) before →
  (∀ t x t', before t = (Ok x, t') → shutdown_gate t' = shutdown_gate t ∧ ipc_teardown t' = ipc_teardown t) →
  stays (inv k) (cleanup_and_quit pump before).
Proof.
  intros Hb Hg t Ht. unfold cleanup_and_quit. unfold mbind at 1, comp_bind at 1. pose proof (cleanup_stays k t Ht) as Hc.
  destruct (cleanup_normal_shutdown t) as [[[]|e] t1] eqn:E1; [|by apply denied_stays|done].
  destruct (cleanup_spec k t true t1 Ht E1) as [_ Hv]. destruct (Hv eq_refl) as [Hv1 _].
  unfold mbind at 1, comp_bind at 1. pose proof (Hb t1 Hc) as Hb1.
  destruct (before t1) as [[[]|e] t2] eqn:E2; [|done]. destruct (Hg t1 tt t2 E2) as [G1 G2].
  unfold mbind, comp_bind. pose proof (post_quit_stays k t2 Hb1) as Hq.
  destruct ((PostQuitMessage : T unit) t2) as [[[]|e] t3]; cbn in *; apply Hq; left; unfold unverified in *; by rewrite G1.
Qed.

Lemma quit_stays : stays (inv k) (handle_quit pump).
Proof.
  assert (∀ before : T unit, before = (_ ← note "quit.cleanup.result"; note "quit.exit.allowed") ∨
    before = (_ ← note "quit.cleanup.result"; _ ← note "quit.release.result"; note "quit.exit.allowed") →
    stays (inv k) (cleanup_and_quit pump before)) as Hc.
  { intros before Hb. apply cleanup_then_quit; [destruct Hb as [-> | ->]; stays_tac|].
    destruct Hb as [-> | ->]; by intros t x t' [= _ <-]. }
  unfold handle_quit, show_quit_warning. do 3 (apply stays_bind; [stays_tac|intros _]).
  apply stays_bind; [apply stays_get|intros t]. cbv zeta. apply stays_bind; [stays_tac|intros _].
  destruct (quit_decision t).
  - apply stays_bind; [stays_tac|intros _]. apply Hc. by left.
  - apply stays_bind; [stays_tac|intros _]. apply stays_bind; [stays_tac|intros warning]. apply stays_bind; [stays_tac|intros _].
    destruct (warning_decision warning); [|stays_tac]. do 2 (apply stays_bind; [stays_tac|intros _]). apply Hc. by right.
Qed.
#[local] Hint Resolve quit_stays reset_settings_stays execute_reset_stays : tray_stays.
Lemma command_stays c : stays (inv k) (handle_menu_command pump c).
Proof. unfold handle_menu_command, begin_op, finish_operation. stays_tac. Qed.
#[local] Hint Resolve command_stays : tray_stays.

(** The emergency cleanup writes past the controller, once. *)
Lemma restore_stays : stays (inv_ended k) (restore_timer_resolution : T bool).
Proof.
  unfold restore_timer_resolution. apply stays_bind; [apply stays_get|intros t]. cbv zeta.
  apply stays_bind; [stays_tac|intros _]. destruct (_ =? 0); [stays_tac|]. destruct (_ <=? _); [stays_tac|].
  apply stays_bind; [|intros _; stays_tac].
  intros s [(I1 & I2 & I3 & I4) Hc]. split; [|done]. split_and!; [done|exact I2| |done]. intros Hp. change (cleanup_pending s = true) in Hp. congruence.
Qed.
Lemma emergency_stays : stays (inv k) (emergency_cleanup : T unit).
Proof.
  intros t Ht. unfold emergency_cleanup. unfold mbind at 1, comp_bind at 1. cbn [get].
  destruct (cleanup_pending t) eqn:Hp; cbn [negb]; [|done].
  unfold mbind at 1, comp_bind at 1. cbn [modify].
  assert (inv_ended k (t <| cleanup_pending := false |>)) as Hi by (split; [|done]; by destruct Ht as (? & ? & ? & ?)).
  set (t1 := t <| cleanup_pending := false |>) in *. clearbody t1.
  assert (stays (inv_ended k) (_ ← restore_timer_resolution; _ ← flush_log; write_clean_session_marker : T unit)) as Hs.
  { apply stays_bind; [apply restore_stays|intros _]. unfold write_clean_session_marker. stays_tac. }
  specialize (Hs t1 Hi). destruct ((_ ← restore_timer_resolution; _ ← flush_log; write_clean_session_marker : T unit) t1)
    as [[[]|e] t2]; [apply Hs|done].
Qed.
Lemma session_end_stays w : stays (inv k) (session_end_cleanup w : T unit).
Proof. unfold session_end_cleanup. destruct (session_is_ending w); [apply emergency_stays|stays_tac]. Qed.

End Bounded.
#[local] Hint Extern 1 (stays (inv _) (MessageBoxW _)) => apply box_stays; assumption : tray_stays.
#[local] Hint Extern 1 (stays (inv _) (handle_menu_command _ _)) => apply command_stays; assumption : tray_stays.
#[local] Hint Extern 1 (stays (inv _) (handle_settings_reset _)) => apply reset_settings_stays; assumption : tray_stays.
#[local] Hint Extern 1 (stays (inv _) (session_end_cleanup _)) => apply session_end_stays : tray_stays.

(** A turn that goes on has consumed a dialog. *)
Definition consumes (k : nat) (m : T bool) : Prop := ∀ t, inv k t →
  match m t with
  | (Ok true, t') => ∃ k', k = S k' ∧ inv k' t'
  | (Ok false, t') => inv k t'
  | (Err e, _) => e ≠ DialogBound
  end.
Lemma consumes_bind {Y} k (m : T Y) (c : Y → T bool) : stays (inv k) m → (∀ y, consumes k (c y)) → consumes k (m ≫= c).
Proof. intros Hm Hc t Ht. unfold mbind, comp_bind. specialize (Hm t Ht). destruct (m t) as [[y|e] s]; [by apply Hc|done]. Qed.
Lemma consumes_box k (c : Z → T bool) : (k ≤ n)%nat → (∀ k' r, (k' ≤ n)%nat → stays (inv k') (c r)) →
  (∀ s x s', c 0 s = (Ok x, s') → x = false) → consumes k (MessageBoxW pump ≫= c).
Proof.
  intros Hk Hc Hz t Ht. unfold mbind at 1, comp_bind at 1. pose proof (box_spec k t Hk Ht) as Hb.
  destruct (MessageBoxW pump t) as [[r|e] t1]; [|done]. destruct Hb as [(k' & -> & Hi)|[-> Hi]].
  - specialize (Hc k' r ltac:(lia) t1 Hi). destruct (c r t1) as [[[]|e] t2]; [by exists k'|by eapply inv_mono; [|done]; lia|done].
  - specialize (Hc k 0 Hk t1 Hi). specialize (Hz t1). destruct (c 0 t1) as [[b|e] t2]; [|done]. by rewrite (Hz b t2 eq_refl).
Qed.
Lemma turn_consumes k anchor : (k ≤ n)%nat → consumes k (menu_turn pump anchor).
Proof.
  intros Hk. unfold menu_turn. apply consumes_bind; [stays_tac|intros [menu|]; [|by intros t Ht]].
  do 3 (apply consumes_bind; [stays_tac|intros ?]). intros t Ht.
  assert (∀ (c : Z → T bool), (TrackPopupMenu pump anchor ≫= c) t
    = (MessageBoxW pump ≫= c) (t <| menu_position := Some anchor |>)) as -> by done.
  apply consumes_box; [done| | |by apply (viewed t)].
  - intros k' r Hk'. unfold destroy_menu_noted. stays_tac.
  - ends_with.
Qed.
Lemma menu_loop_stays anchor turns k : (k ≤ n)%nat → (k < turns)%nat → stays (inv k) (menu_loop pump anchor turns).
Proof.
  revert k. induction turns as [|turns IH]; intros k Hk Hlt; [lia|]. intros t Ht. cbn [menu_loop].
  unfold mbind at 1, comp_bind at 1. pose proof (turn_consumes k anchor Hk t Ht) as Hc.
  destruct (menu_turn pump anchor t) as [[[]|e] t1]; [|done..]. destruct Hc as (k' & -> & Hi).
  specialize (IH k' ltac:(lia) ltac:(lia) t1 Hi). destruct (menu_loop pump anchor turns t1) as [[[]|e] t2]; [|done].
  eapply inv_mono; [|done]. lia.
Qed.
Lemma show_menu_stays k s : (k ≤ n)%nat → stays (inv k) (show_menu pump s).
Proof.
  intros Hk. unfold show_menu. apply stays_bind; [stays_tac|intros ?]. destruct (menu_active _); [stays_tac|].
  apply stays_bind; [stays_tac|intros _]. destruct (cursor_pos s); [|stays_tac]. cbv zeta.
  apply stays_bind; [stays_tac|intros _]. intros t Ht. unfold mbind at 1, comp_bind at 1. cbn [get].
  assert (stays (inv (length (dialogs t))) (menu_loop pump
    (menu_anchor (icon_rect s) (taskbar_edge s)
       (clamp_menu_anchor p (default (primary_work_area s) (monitor_work_area s)))) (S (length (dialogs t))))) as Hl.
  { apply menu_loop_stays; [|lia]. destruct Ht. lia. }
  revert t Ht Hl. assert (∀ (t0 : TR) (m m2 : T unit), inv k t0 → stays (inv (length (dialogs t0))) m → stays (inv k) m2 →
    match (_ ← m; m2) t0 with (Ok _, t') => inv k t' | (Err e, _) => e ≠ DialogBound end) as Hrun.
  { intros t0 m m2 F1 F2 F3. unfold mbind, comp_bind. specialize (F2 t0). destruct (m t0) as [[[]|e] t1].
    - apply F3. eapply inv_mono; [by apply F1|]. apply F2. by destruct F1.
    - apply F2. by destruct F1. }
  intros t Ht Hl. apply Hrun; [done|done|]. stays_tac.
Qed.
#[local] Hint Extern 1 (stays (inv _) (show_menu _ _)) => apply show_menu_stays; assumption : tray_stays.
(** The end of the window: the requests are refused and the loop is told to end. *)
Definition inv_torn (k : nat) t : Prop := inv k t ∧ ipc_teardown t = true.
#[local] Instance inv_torn_viewed k : Viewed (inv_torn k).
Proof.
  split.
  - intros t t' Hv [Hi Hc]. split; [by apply (viewed t)|]. unfold safe_view in Hv. congruence.
  - intros t a Hs [Hi Hc]. split; [by apply sounded|done].
Qed.
Lemma destroy_window_stays k r : stays (inv k)
  (_ ← modify (λ t : TR, t <| ipc_teardown := true |> <| ipc_command_queue := [] |>); _ ← refuse_requests r; PostQuitMessage).
Proof.
  intros t Ht. unfold mbind at 1, comp_bind at 1. cbn [modify].
  assert (inv_torn k (t <| ipc_teardown := true |> <| ipc_command_queue := [] |>)) as Hi.
  { destruct Ht as (I1 & I2 & I3 & I4). split; [|done]. split_and!; try done. by right. }
  revert Hi. generalize (t <| ipc_teardown := true |> <| ipc_command_queue := [] |>). intros s Hs.
  assert (stays (inv_torn k) (refuse_requests r : T unit)) as Hr by (apply refuse_stays; apply _).
  unfold mbind, comp_bind. specialize (Hr s Hs). destruct ((refuse_requests r : T unit) s) as [[[]|e] s1]; [|done].
  destruct Hr as [Hr Hd]. apply (post_quit_stays k s1 Hr). by right.
Qed.
Lemma window_proc_stays k m : (k ≤ n)%nat → stays (inv k) (window_proc pump m).
Proof.
  intros Hk. unfold window_proc. apply stays_bind; [stays_tac|intros t]. destruct (ignored_while_open t m); [stays_tac|].
  destruct m; unfold begin_op, finish_operation, drain_ipc_command_queue;
    lazymatch goal with
    | |- stays _ (_ ← modify _; _ ← refuse_requests _; _) => apply destroy_window_stays
    | |- stays _ (modify (λ t, if ipc_teardown t then _ else _)) =>
        apply stays_modify; [apply _|intros s; by destruct (ipc_teardown s)]
    | |- _ => stays_tac
    end.
Qed.
End Loop.

Definition pumped (depth : nat) : list Message → T unit :=
  fix pump ms := match ms with [] => mret tt | m :: ms => _ ← dispatch depth m; pump ms end.

(** Dialogs open within dialogs at most as deep as the dialogs that are to come. *)
Lemma dispatch_stays depth k m : (k < depth)%nat → stays (inv k) (dispatch depth m : T unit).
Proof.
  revert k m. induction depth as [|depth IH]; intros k m Hk; [lia|].
  change (stays (inv k) (window_proc (pumped depth) m)). apply (window_proc_stays k); [|done].
  intros k' Hk' ms. induction ms as [|m' ms IHm]; cbn [pumped]; [by apply stays_ret|].
  apply stays_bind; [apply IH; lia|intros _; exact IHm].
Qed.
Lemma run_messages_stays k ms : stays (inv k) (run_messages ms : T unit).
Proof.
  induction ms as [|m ms IH]; cbn [run_messages]; [by apply stays_ret|]. intros t Ht.
  unfold mbind at 1, comp_bind at 1. cbn [get]. unfold mbind, comp_bind.
  assert (inv (length (dialogs t)) t) as Hl by (by destruct Ht as [_ Ht]).
  pose proof (dispatch_stays (S (length (dialogs t))) (length (dialogs t)) m ltac:(lia) t Hl) as Hd.
  destruct ((dispatch (S (length (dialogs t))) m : T unit) t) as [[[]|e] t1]; [|done].
  apply IH. eapply inv_mono; [by destruct Ht as [Ht _]; apply Ht|done].
Qed.
End Messages.
