(* ===== verification/TrayEnd.v ===== *)
(** * TrayEnd: from the start of the process to its end

    The start establishes the invariant of [TrayStays], so every state the process
    reaches has it: what a verified cleanup means, when the quit message is posted,
    that the message loop of the dialogs ends, and how the shutdown loop ends. *)
From coqutil Require Import Datatypes.RecordSetters.
From S2P Require Import Prelude Text Core Policy Watchdog Privacy Diagnostics Platform Ownership Wire Pause Files Config Session FileFrames Dirs Startup Logging Surface Menus Engine EngineSteps EngineTermination EngineSafety EngineEase Tray TrayMenu TrayStart TrayStays TraySafety.
Import TriangleBracketNotations.

Section Start.
Context {P : Type} `{TimerPlatformLaws P} `{EmergencyRestore P} {W : Type} `{Desktop W}.
Context `{Sha256} `{IoDisplay} `{PathDisplay} `{TrayHost}.
Abbreviation A := (App P W).
Abbreviation E := (comp A Diverged).
Abbreviation TR := (Tray P W).
Abbreviation T := (comp TR TrayStop).
Implicit Types t : TR.

Lemma tier_sound : follows sound (refresh_operating_tier fuel : E _).
Proof. apply sound_moves; [apply tier_eases|intros; by apply cycle_guarded]. Qed.
Lemma timing_sound : follows sound (refresh_timing_observation : E _).
Proof. apply sound_guarded; [apply refresh_timing_readies|apply guarded_moves, moves_neutral, refresh_timing_guard]. Qed.

(** The probe: the controller's own step. *)
Lemma probe_sound n : follows sound (on_controller (attempt_startup_kernel_settle_probe n) : E _).
Proof.
  intros a x a'. unfold on_controller. destruct (attempt_startup_kernel_settle_probe n (controller a)) as [r c] eqn:Ec.
  intros [= _ <-]. split; [done|]. intros Ht. change (tracks c). pose proof (act_tracks (DoProbe n) _ Ht) as Hp.
  cbn [act] in Hp. by rewrite Ec in Hp.
Qed.
Lemma probe_loop_sound n k : follows sound (settle_probe_loop n k : E _).
Proof.
  revert k. induction n as [|n IH]; intros k; [apply follows_fail|]. cbn [settle_probe_loop].
  apply follows_bind; [apply _|apply probe_sound|intros [[]|]]; try (apply follows_ret; apply _).
  apply follows_bind; [apply _|apply sound_neutral; unfold record; sound_leaf_tac|intros _; apply IH].
Qed.
Lemma settle_sound : follows sound (probe_startup_kernel_settle : E _).
Proof.
  unfold probe_startup_kernel_settle. apply follows_bind; [apply _|apply probe_loop_sound|intros [o|]].
  - apply sound_neutral. destruct o; sound_leaf_tac.
  - apply follows_ret. apply _.
Qed.
Hint Resolve tier_sound timing_sound settle_sound : tray_sound.

Lemma start_app_stays rd n : stays (inv n) (start_app rd : T bool).
Proof.
  assert (∀ m, stays (inv n) (abort_startup rd m : T bool)) as Ha by (intros m; unfold abort_startup; stays_tac).
  assert (∀ calls, stays (inv n) (create_windows calls : T (option str))) as Hw.
  { induction calls as [|[event message] calls IH]; cbn [create_windows]; stays_tac. }
  unfold start_app, begin_op, finish_operation, create_icon, start_heartbeat. apply stays_bind; [stays_tac|intros _].
  apply stays_bind; [apply Hw|intros [m|]; [apply Ha|]]. apply stays_bind; [stays_tac|intros [m|]; [apply Ha|]]. stays_tac.
Qed.

(** The start, and the messages after it. *)
Definition reached (rd : StartReading) (p : P) (w : W) (m : Machine) (dl : list (list Message * Z)) (nt : list bool)
    (ms : list Message) t : Prop :=
  ∃ t0, start_process rd p w m dl nt = (Ok true, t0) ∧ run_messages ms t0 = (Ok tt, t).

Lemma tray_new_inv rd p w m b dl nt : held p = false → inv (length dl) (tray_new rd p w m b dl nt : TR).
Proof.
  intros Hp. unfold tray_new, app_new. destruct (system_power_status w) as [? w1], (instant_now w1). split_and!; try done.
Qed.
Lemma start_inv rd p w m dl nt : held p = false →
  match start_process rd p w m dl nt with (Ok _, t) => inv (length dl) t | (Err e, _) => e ≠ DialogBound end.
Proof.
  intros Hp. unfold start_process. destruct (boot rd m) as [[b|[]] m']. apply start_app_stays. by apply tray_new_inv.
Qed.
Lemma reached_inv rd p w m dl nt ms t : held p = false → reached rd p w m dl nt ms t → inv (length dl) t.
Proof.
  intros Hp (t0 & Es & Er). pose proof (start_inv rd p w m dl nt Hp) as Hi. rewrite Es in Hi.
  pose proof (run_messages_stays (length dl) ms t0 Hi) as Hm. by rewrite Er in Hm.
Qed.
End Start.

(** ** Properties *)

Section Properties.
Context {P : Type} `{TimerPlatformLaws P} `{EmergencyRestore P} {W : Type} `{Desktop W}.
Context `{Sha256} `{IoDisplay} `{PathDisplay} `{TrayHost}.
Abbreviation TR := (Tray P W).
Abbreviation T := (comp TR TrayStop).
Implicit Types t : TR.

(** C5: After any sequence of messages, with any dialogs, menus and failing native
    calls, the first cleanup that is verified has released the timer: ownership is
    released, and while the session has not ended the kernel holds no request of
    this process. *)
Theorem verified_cleanup_releases rd p w m dl nt ms t t' : held p = false → reached rd p w m dl nt ms t →
  gate_verified (shutdown_gate t) = false → cleanup_normal_shutdown t = (Ok true, t') →
  gate_verified (shutdown_gate t') = true ∧ ownership (controller (app t')) = OwnershipState.Released ∧
  (cleanup_pending t' = true → held (platform (controller (app t'))) = false).
Proof.
  intros Hp Hr Hu Ec. pose proof (reached_inv _ _ _ _ _ _ _ _ Hp Hr) as Hi.
  destruct (cleanup_spec _ t true t' Hi Ec) as [(_ & _ & K & _) Hv]. destruct (Hv eq_refl) as [V1 V2].
  specialize (V2 Hu). unfold released, owned_by in V2. split; [|split; [done|]].
  - by apply not_false_iff_true.
  - intros Hc. specialize (K Hc). unfold tracks in K. rewrite V2 in K. apply K.
Qed.

(** C6: The quit message is posted only after a verified cleanup or when the tray
    window is destroyed. *)
Theorem quit_follows_cleanup rd p w m dl nt ms t : held p = false → reached rd p w m dl nt ms t →
  quit_posted t = true → gate_verified (shutdown_gate t) = true ∨ ipc_teardown t = true.
Proof.
  intros Hp Hr Hq. destruct (reached_inv _ _ _ _ _ _ _ _ Hp Hr) as (_ & _ & _ & I). destruct (I Hq) as [V%not_false_iff_true|]; [by left|by right].
Qed.

(** Message boxes and menus run the window procedure again, which may open
    further ones: however the messages are nested, handling them never goes deeper
    and the menu is never reopened more often than there are dialogs. *)
Theorem dialogs_end rd p w m dl nt ms t0 : held p = false → start_process rd p w m dl nt = (Ok true, t0) →
  (run_messages ms t0).1 ≠ Err DialogBound.
Proof.
  intros Hp Es. pose proof (start_inv rd p w m dl nt Hp) as Hi. rewrite Es in Hi.
  pose proof (run_messages_stays (length dl) ms t0 Hi) as Hm. destruct (run_messages ms t0) as [[x|e] t]; cbn; congruence.
Qed.

(** What one turn of the shutdown loop decides, from the verdict [v] of its cleanup. *)
Definition retries (turn : LoopTurn) : Prop :=
  turn_elapsed_ms turn < SHUTDOWN_PUMP_BOUND_MS ∧ turn_result turn = 0 ∧ turn_ui_usable turn = true.
Definition decides (turn : LoopTurn) (v : bool) (x : option LoopEnd) : Prop :=
  match x with
  | None => v = false ∧ retries turn
  | Some PumpBoundExceeded => v = false ∧ SHUTDOWN_PUMP_BOUND_MS ≤ turn_elapsed_ms turn
  | Some (Disposed ShutdownDisposition.Complete) => v = true ∧ turn_result turn = 0
  | Some (Disposed ShutdownDisposition.ExitAfterMessageLoopError) => v = true ∧ turn_result turn = -1
  | Some (Disposed ShutdownDisposition.ExitWithUnresolvedCleanup) =>
      v = false ∧ turn_elapsed_ms turn < SHUTDOWN_PUMP_BOUND_MS ∧ (turn_result turn = -1 ∨ turn_ui_usable turn = false)
  | Some (Disposed ShutdownDisposition.KeepAliveForRetry) => False
  end.
Lemma loop_exit_spec turn e : message_loop_exit (turn_result turn) (turn_error turn) = Some e →
  match e with MessageLoopExit.NormalQuit => turn_result turn = 0 | MessageLoopExit.GetMessageFailed _ => turn_result turn = -1 end.
Proof.
  unfold message_loop_exit. destruct (_ =? 0) eqn:E0; [intros [= <-]; lia|].
  destruct (_ =? -1) eqn:E1; [intros [= <-]; lia|done].
Qed.
Lemma shutdown_turn_spec turn t x t' : shutdown_turn turn t = (Ok x, t') →
  ∃ s v s', cleanup_normal_shutdown s = (Ok v, s') ∧ decides turn v x.
Proof.
  unfold shutdown_turn. intros (e & s & Ee & E)%step_inv. apply step_inv in E as (v & s1 & Ev & E).
  exists s, v, s1. split; [done|]. clear Ev.
  assert (message_loop_exit (turn_result turn) (turn_error turn) = Some e) as He%loop_exit_spec.
  { revert Ee. unfold run_message_loop. intros ([] & ? & _ & Ee)%step_inv. revert Ee.
    destruct (message_loop_exit _ _); [by intros [= -> _]|done]. }
  destruct (negb v && _) eqn:Eb.
  { apply andb_prop in Eb as [Hv%negb_true_iff Hb]. unfold shutdown_pump_bound_exceeded in Hb.
    do 3 apply step_inv in E as (? & ? & _ & E). injection E as <- _. cbn [decides]. split; [done|lia]. }
  assert (v = false → turn_elapsed_ms turn < SHUTDOWN_PUMP_BOUND_MS) as Hlt.
  { intros ->. unfold shutdown_pump_bound_exceeded in Eb. cbn [negb andb] in Eb. lia. }
  unfold shutdown_disposition in E. cbv zeta in E.
  destruct v; [destruct e|destruct e; [destruct (turn_ui_usable turn) eqn:Eu|]]; cbn [andb] in E;
    repeat (apply step_inv in E as (? & ? & _ & E)); injection E as <- _; cbn [decides]; unfold retries; auto 6.
Qed.


(** Steps that leave the controller. *)
Definition same_controller t t' : Prop := controller (app t') = controller (app t) ∧ shutdown_gate t' = shutdown_gate t.
#[local] Instance same_controller_refl : Reflexive same_controller.
Proof. by intros t. Qed.
#[local] Instance same_controller_trans : Transitive same_controller.
Proof. intros t1 t2 t3 [] []. split; congruence. Qed.
Lemma aside_same {X} (m : comp (App P W) Diverged X) : (∀ a x a', m a = (Ok x, a') → controller a' = controller a) →
  follows same_controller (on_app m : T X).
Proof.
  intros Hm t x t'. unfold on_app. destruct (m (app t)) as [[y|[]] a] eqn:Ea; [|by intros [=]].
  intros [= _ <-]. split; [|done]. by apply (Hm _ y).
Qed.
#[local] Ltac same_tac :=
  repeat lazymatch goal with
    | |- follows _ (mret _) => apply follows_ret; apply _
    | |- follows _ get => apply follows_get; apply _
    | |- follows _ (fail _) => apply follows_fail
    | |- follows _ (match ?x with _ => _ end) => destruct x
    | |- follows _ (_ ≫= _) => apply follows_bind; [apply _| |intros ?]
    | |- follows _ (note _) => apply aside_same; by intros ? ? ? [= _ <-]
    | |- follows _ (note_outcome _ _) => apply aside_same; by intros ? ? ? [= _ <-]
    | |- follows _ (on_app (modify _)) => apply aside_same; by intros ? ? ? [= _ <-]
    | |- follows _ (modify _) => apply follows_modify; by intros ?
    | |- follows _ native => let t := fresh in intros t ? ?; unfold native; destruct (natives t); by intros [= _ <-]
    | |- follows _ (on_disk_of ?m) => let t := fresh in intros t ? ?; unfold on_disk_of; destruct (m (disk (machine t))); by intros [= _ <-]
    end.
Lemma flush_same : follows same_controller (flush_log : T unit).
Proof.
  unfold flush_log. apply follows_bind; [apply _|apply follows_get; apply _|intros t]. destruct (reading (flushes t)) as [m s].
  destruct (flush_diagnostic_events_to_disk_sync _ _ _ _) as [r l]. apply follows_modify. by intros ?.
Qed.
Lemma finish_same : follows same_controller (finish_process : T unit).
Proof.
  unfold finish_process, remove_tray_icon, mark_session_clean.
  do 3 (apply follows_bind; [apply _|same_tac|intros _]). apply flush_same.
Qed.
Lemma verified_cleanup_same t v t' : gate_verified (shutdown_gate t) = true →
  cleanup_normal_shutdown t = (Ok v, t') → v = true ∧ same_controller t t'.
Proof.
  intros Hv. unfold cleanup_normal_shutdown. intros ([] & t1 & E1 & E)%step_inv.
  assert (follows same_controller (prepare_shutdown : T unit)) as Hp by (unfold prepare_shutdown; same_tac).
  specialize (Hp t tt t1 E1). apply step_inv in E as (? & ? & [= <- <-] & E). destruct Hp as [Hc Hg]. rewrite Hg, Hv in E.
  by injection E as <- <-.
Qed.

(** C35: Once a cleanup was verified the later ones release nothing: when the quit
    message is reached, the process ends as a complete one with whatever request the
    messages after that cleanup have left. *)
Theorem late_request_survives_exit t turn e t' : gate_verified (shutdown_gate t) = true → turn_messages turn = [] →
  turn_result turn = 0 → run_process [turn] t = (Ok (Some e), t') →
  e = Disposed ShutdownDisposition.Complete ∧ controller (app t') = controller (app t).
Proof.
  intros Hv Hm Hr. unfold run_process. intros (x & t1 & E1 & E)%step_inv. cbn [shutdown_loop] in E1.
  apply step_inv in E1 as (y & t2 & E2 & E3).
  assert (y = Some (Disposed ShutdownDisposition.Complete) ∧ same_controller t t2) as [-> S2].
  { revert E2. unfold shutdown_turn, run_message_loop. rewrite Hm, Hr. cbn [run_messages].
    intros (ex & t3 & E4 & E2)%step_inv. apply step_inv in E4 as ([] & ? & [= <-] & E4).
    injection E4 as <- <-. apply step_inv in E2 as (v & t4 & E5 & E2).
    apply verified_cleanup_same in E5 as [-> S4]; [|done]. cbn [negb andb] in E2. cbv zeta in E2.
    cbn [shutdown_disposition] in E2. apply step_inv in E2 as ([] & t5 & E6 & [= <- <-]). split; [done|].
    etransitivity; [exact S4|]. revert E6. apply (aside_same (record "lifecycle.shutdown")). by intros ? ? ? [= _ <-]. }
  injection E3 as <- <-. apply step_inv in E as ([] & t6 & E7 & [= <- <-]). split; [done|].
  destruct S2 as [S2 _]. destruct (finish_same t2 tt t6 E7) as [S3 _]. congruence.
Qed.
End Properties.

(** ** A concrete process *)

#[local] Existing Instance single_client_kernel.
#[local] Existing Instance sample_desktop.
#[local] Instance sample_sha : Sha256 := λ _, replicate 32 0.
#[local] Instance sample_io : IoDisplay := λ _, lit "error".
#[local] Instance sample_path : PathDisplay := λ p, join [92] p.
(** [emergency_cleanup] hands the held interval back. *)
#[local] Instance sample_emergency : EmergencyRestore (WindowsTimerPlatform Z) := λ interval p, (release interval p).2.
Definition sample_slot : path := [lit "pkg"; lit "Slots"; lit "A"].
#[local] Instance sample_host : TrayHost :=
  let exe := path_join sample_slot (lit "true-tick.exe") in
  mkHost false 7 exe (path_from_executable exe) (resolve_log_directory exe) (resolve_state_directory exe)
    (λ _, lit "Other") (λ n, (mkMoment None (Z.of_nat n) 7 7, @store_new sample_sha 8)) 12.

(** The launcher, a configuration without automatic timing, and the data directories. *)
Definition sample_machine (c : Config) : Machine := mkMachine (mkFs
  (<[ [lit "pkg"] := Dir ]> (<[ [lit "pkg"; lit "Slots"] := Dir ]> (<[ sample_slot := Dir ]> (<[ [lit "pkg"; lit "Launcher.exe"] := File [77] ]>
   (<[ [lit "pkg"; lit "Data"] := Dir ]> (<[ log_directory := Dir ]> (<[ state_directory := Dir ]>
   {[ config_path := File (utf8_encode (config_text c)) ]}))))))) []) None [].
Definition sample_reading : StartReading := mkStart (mkMoment None 5 7 7) (@store_new sample_sha 8) (Some 5) 9 0 0.
Definition sample_start (dl : list (list Message * Z)) :=
  start_process sample_reading (with_diagnostics 156250) 0 (sample_machine sample_config) dl [].

Lemma reached_by ms dl : (sample_start dl).1 = Ok true → (run_messages ms (sample_start dl).2).1 = Ok tt →
  reached sample_reading (with_diagnostics 156250) 0 (sample_machine sample_config) dl [] ms
    (run_messages ms (sample_start dl).2).2.
Proof. intros E1 E2. exists (sample_start dl).2. split; by apply ran. Qed.

(** The process quits, by the menu. *)
Lemma verified_cleanup_releases_witness :
  let t := (run_messages [WmCommand ID_START] (sample_start []).2).2 in
  let t' := (cleanup_normal_shutdown t).2 in
  owned_by (app t) = OwnershipState.Owned ∧ held (platform (controller (app t'))) = false.
Proof.
  intros t t'. split; [vm_compute; reflexivity|].
  destruct (verified_cleanup_releases sample_reading (with_diagnostics 156250) 0 (sample_machine sample_config) [] []
    [WmCommand ID_START] t t') as (_ & _ & K).
  - vm_compute. reflexivity.
  - refine (reached_by [WmCommand ID_START] [] _ _); vm_compute; reflexivity.
  - vm_compute. reflexivity.
  - refine (ran (cleanup_normal_shutdown t) (Ok true) _). vm_compute. reflexivity.
  - apply K. vm_compute. reflexivity.
Defined.

Lemma quit_follows_cleanup_witness :
  let t := (run_messages [WmCommand ID_QUIT] (sample_start []).2).2 in
  quit_posted t = true ∧ (gate_verified (shutdown_gate t) = true ∨ ipc_teardown t = true).
Proof.
  intros t. split; [vm_compute; reflexivity|].
  apply (quit_follows_cleanup sample_reading (with_diagnostics 156250) 0 (sample_machine sample_config) [] []
    [WmCommand ID_QUIT] t).
  - vm_compute. reflexivity.
  - refine (reached_by [WmCommand ID_QUIT] [] _ _); vm_compute; reflexivity.
  - vm_compute. reflexivity.
Defined.

(** Starting, then quitting: while the warning is open the menu is asked for again,
    and the user confirms. *)
Definition nested_dialogs : list (list Message * Z) :=
  [([WmCommand ID_QUIT; WmTimer HEARTBEAT_TIMER_ID], IDYES); ([], 0)].
Lemma dialogs_end_witness :
  (run_messages [WmCommand ID_START; WmCommand ID_QUIT] (sample_start nested_dialogs).2).1 ≠ Err DialogBound.
Proof.
  apply (dialogs_end sample_reading (with_diagnostics 156250) 0 (sample_machine sample_config) nested_dialogs []).
  - vm_compute. reflexivity.
  - refine (ran (sample_start nested_dialogs) (Ok true) _). vm_compute. reflexivity.
Defined.

Definition sample_turns : list LoopTurn := [mkTurn [WmCommand ID_START; WmDestroy] 0 0 true 1000000].

(** A request of another process, handled between the quit command and the quit
    message: the process ends normally and still holds the timer. *)
Definition late_acquire : list Message := [WmCommand ID_QUIT; IpcRequestQueued CommandVerb.RequestAcquire []; WmAppIpc].
Lemma late_request_survives_exit_witness :
  let t := (run_messages late_acquire (sample_start []).2).2 in
  let t' := (run_process [mkTurn [] 0 0 true 1000000] t).2 in
  quit_posted t = true ∧ owned_by (app t) = OwnershipState.Owned ∧ held (platform (controller (app t'))) = true.
Proof.
  intros t t'. split; [vm_compute; reflexivity|]. split; [vm_compute; reflexivity|].
  destruct (late_request_survives_exit t (mkTurn [] 0 0 true 1000000) (Disposed ShutdownDisposition.Complete) t') as [_ ->].
  - vm_compute. reflexivity.
  - reflexivity.
  - reflexivity.
  - refine (ran (run_process [mkTurn [] 0 0 true 1000000] t) _ _). vm_compute. reflexivity.
  - vm_compute. reflexivity.
Defined.
