(* ===== verification/TraySettings.v ===== *)
(** * TraySettings: what changing a setting leaves

    The handlers of [commands.rs] on every branch: the configuration in memory and
    the one on disk are changed together or not at all, and the registration at
    startup follows the setting. *)
From coqutil Require Import Datatypes.RecordSetters.
From S2P Require Import Prelude Text Core Policy Watchdog Privacy Diagnostics Platform Ownership Wire Pause Files Config Session FileFrames Dirs Startup Logging Surface Menus Engine EngineSteps EngineTermination EngineSafety EngineEase EngineKeeps Tray TrayMenu TrayStart.
Import TriangleBracketNotations.

(** ** The registry *)

Section Registry.
Context `{PathDisplay} (debug : bool).
Implicit Types m : Machine.

Definition target_path (t : StartupTarget) : path :=
  match t with StartupTarget.PortableLauncher p | StartupTarget.DevelopmentExecutable p => p end.
Definition registered (t : StartupTarget) (v : option str) : Prop :=
  ∃ c, startup_command (target_path t) = Ok c ∧ v = Some c.

(** What the registry calls are about, and the calls that leave it. *)
Definition registry_view m := (nodes (disk m), run_value m).

Lemma call_keeps {E} : keeps registry_view (reg_call : comp Machine E Z).
Proof. intros m. unfold reg_call. by destruct (reg_statuses m). Qed.
Lemma ask_keeps {E} (c : FS bool) : touches [] c → keeps registry_view (ask_disk c : comp Machine E bool).
Proof.
  intros Hc m. unfold ask_disk, on_disk, mbind, comp_bind. specialize (Hc (disk m)).
  destruct (c (disk m)) as [r f]. unfold registry_view. cbn. f_equal. apply map_eq. intros q. apply Hc, not_elem_of_nil.
Qed.
Lemma check_keeps p : keeps registry_view (check_present p).
Proof.
  unfold check_present. apply keeps_bind; [apply ask_keeps, touches_exists|intros []]; [|by intros m].
  apply keeps_bind; [apply ask_keeps, touches_is_file|intros []; by intros m].
Qed.
Lemma open_keeps : keeps registry_view open_run_key.
Proof. unfold open_run_key. apply keeps_bind; [apply call_keeps|]. intros x. by destruct (_ =? _). Qed.
Lemma close_keeps : keeps registry_view close_run_key.
Proof. unfold close_run_key. apply keeps_bind; [apply call_keeps|]. intros x. by destruct (negb _). Qed.

(** Writing the value: a success is registered, a failure may be. *)
Lemma register_validated_wp p m : wp (register_validated p) m (λ r m',
  nodes (disk m') = nodes (disk m) ∧
  match r with
  | Ok _ => ∃ c, startup_command p = Ok c ∧ run_value m' = Some c
  | Err _ => run_value m' = run_value m ∨ ∃ c, startup_command p = Ok c ∧ run_value m' = Some c
  end).
Proof.
  unfold register_validated. apply wp_bind, wp_lift. destruct (startup_command p) as [c|e]; [|by split; [|left]].
  apply wp_bind. apply (keeps_wp _ _ _ _ open_keeps). intros [[]|e] m1 [= N1 V1]; [|split; [done|by left]].
  apply wp_bind. unfold RegSetValueExW. apply wp_bind. apply (keeps_wp _ _ _ _ call_keeps).
  intros [s|e] m2 [= N2 V2]; [|split; [congruence|left; congruence]].
  destruct (s =? ERROR_SUCCESS) eqn:Es.
  - apply wp_bind, wp_modify, wp_ret, wp_bind, wp_attempt. apply (keeps_wp _ _ _ _ close_keeps). intros r m3 [= N3 V3].
    cbn in N3, V3. cbn [negb]. rewrite Es. apply wp_lift. split; [congruence|]. destruct r; eauto.
  - apply wp_ret, wp_bind, wp_attempt. apply (keeps_wp _ _ _ _ close_keeps). intros r m3 [= N3 V3].
    rewrite Es. apply wp_fail. split; [congruence|]. left. congruence.
Qed.
Lemma register_wp t m : wp (register_startup_target t) m (λ r m',
  nodes (disk m') = nodes (disk m) ∧
  match r with
  | Ok _ => registered t (run_value m')
  | Err _ => run_value m' = run_value m ∨ registered t (run_value m')
  end).
Proof.
  assert (∀ p (check : comp Machine StartupError unit), keeps registry_view check →
    wp (_ ← check; register_validated p) m (λ r m', nodes (disk m') = nodes (disk m) ∧
      match r with
      | Ok _ => ∃ c, startup_command p = Ok c ∧ run_value m' = Some c
      | Err _ => run_value m' = run_value m ∨ ∃ c, startup_command p = Ok c ∧ run_value m' = Some c
      end)) as Hc.
  { intros p check Hk. apply wp_bind, (keeps_wp _ _ _ _ Hk). intros [[]|e] m1 [= N1 V1]; [|split; [done|by left]].
    eapply wp_mono; [apply register_validated_wp|]. intros r m2. by rewrite N1, V1. }
  destruct t as [p|p]; apply Hc.
  - unfold validate_launcher_path. destruct (file_name p); [|by intros ?]. destruct (negb _); [by intros ?|apply check_keeps].
  - unfold validate_development_path. destruct (negb _); [by intros ?|apply check_keeps].
Qed.
Lemma remove_wp m : wp startup_remove m (λ r m',
  nodes (disk m') = nodes (disk m) ∧
  match r with Ok _ => run_value m' = None | Err _ => run_value m' = run_value m ∨ run_value m' = None end).
Proof.
  unfold startup_remove. apply wp_bind, (keeps_wp _ _ _ _ open_keeps). intros [[]|e] m1 [= N1 V1]; [|split; [done|by left]].
  apply wp_bind. unfold RegDeleteValueW. apply wp_bind, (keeps_wp _ _ _ _ call_keeps).
  intros [s|e] m2 [= N2 V2]; [|split; [congruence|left; congruence]]. apply wp_bind, wp_get.
  assert (∀ status m3, nodes (disk m3) = nodes (disk m) → (status = ERROR_SUCCESS ∨ status = ERROR_FILE_NOT_FOUND → run_value m3 = None) →
    (run_value m3 = run_value m ∨ run_value m3 = None) →
    wp (close_result ← attempt close_run_key;
        if (status =? ERROR_FILE_NOT_FOUND) || (status =? ERROR_SUCCESS) then lift close_result
        else fail (StartupError.RemoveValue status)) m3 (λ r m',
      nodes (disk m') = nodes (disk m) ∧
      match r with Ok _ => run_value m' = None | Err _ => run_value m' = run_value m ∨ run_value m' = None end)) as Hend.
  { intros status m3 N3 V3 O3. apply wp_bind, wp_attempt, (keeps_wp _ _ _ _ close_keeps). intros r m4 [= N4 V4].
    destruct (_ || _) eqn:Eo; [apply wp_lift|apply wp_fail]; (split; [congruence|]); rewrite V4; [|done].
    destruct r; [|done]. apply V3. apply orb_prop in Eo as [?%Z.eqb_eq|?%Z.eqb_eq]; auto. }
  destruct (_ || _) eqn:Ed.
  - destruct (run_value m2) eqn:Er.
    + apply wp_bind, wp_modify, wp_ret. apply Hend; [cbn; congruence|done|by right].
    + apply wp_ret. apply Hend; [congruence|done|by right].
  - apply orb_false_elim in Ed as [E1%Z.eqb_neq E2%Z.eqb_neq]. apply wp_ret. apply Hend; [congruence|naive_solver|left; congruence].
Qed.
End Registry.

(** ** The handlers *)

Section Ends.
Context {S Er : Type}.

(** What holds when [m] returns. *)
Definition ends {X} (m : comp S Er X) (s : S) (Q : X → S → Prop) : Prop := ∀ x s', m s = (Ok x, s') → Q x s'.
Lemma ends_bind {X Y} (m : comp S Er X) (k : X → comp S Er Y) s Q : ends m s (λ x s', ends (k x) s' Q) → ends (m ≫= k) s Q.
Proof. intros Hm y s' (x & s1 & E1 & E2)%step_inv. by apply (Hm x s1). Qed.
Lemma ends_ret {X} (x : X) s (Q : X → S → Prop) : Q x s → ends (mret x) s Q.
Proof. intros HQ y s' [= <- <-]. done. Qed.
Lemma ends_get {X} (k : S → comp S Er X) s Q : ends (k s) s Q → ends (get ≫= k) s Q.
Proof. done. Qed.
Lemma ends_follows {X} (R : relation S) (m : comp S Er X) s (Q : X → S → Prop) : follows R m →
  (∀ x s', R s s' → Q x s') → ends m s Q.
Proof. intros Hm HQ x s' E. by apply HQ, (Hm s x s'). Qed.
End Ends.

Section Settings.
Context {P : Type} `{TimerPlatform P} `{EmergencyRestore P} {W : Type} `{Desktop W}.
Context `{Sha256} `{IoDisplay} `{PathDisplay} `{TrayHost}.
Abbreviation A := (App P W).
Abbreviation E := (comp A Diverged).
Abbreviation TR := (Tray P W).
Abbreviation T := (comp TR TrayStop).
Implicit Types t : TR.

(** Beside the setting: the machine and the configuration stay. *)
Definition aside t t' : Prop := machine t' = machine t ∧ config (app t') = config (app t).
#[export] Instance aside_refl : Reflexive aside.
Proof. by intros t. Qed.
#[export] Instance aside_trans : Transitive aside.
Proof. intros t1 t2 t3 [? ?] [? ?]. split; congruence. Qed.

Lemma aside_app {X} (m : E X) : follows same_config m → follows aside (on_app m : T X).
Proof.
  intros Hm t x t'. unfold on_app. destruct (m (app t)) as [[y|[]] a] eqn:Ea; [|by intros [=]].
  intros [= _ <-]. split; [done|]. by apply (Hm _ y).
Qed.
Lemma aside_note name : follows aside (note name : T unit).
Proof. apply aside_app. unfold record. config_tac. Qed.
Lemma aside_outcome name o : follows aside (note_outcome name o : T unit).
Proof. apply aside_app. unfold record_with_outcome. config_tac. Qed.
Lemma aside_publish : follows aside (app_publish : T unit).
Proof. apply aside_app. apply publish_keeps. Qed.
Lemma aside_status s : follows aside (set_startup_status s : T unit).
Proof. apply follows_modify. by intros t. Qed.
End Settings.

Create HintDb tray_aside.
#[export] Hint Resolve aside_note aside_outcome aside_publish aside_status : tray_aside.
Ltac aside_tac :=
  repeat lazymatch goal with
    | |- follows _ (mret _) => apply follows_ret; apply _
    | |- follows _ (match ?x with _ => _ end) => destruct x
    | |- follows _ (_ ≫= _) => apply follows_bind; [apply _| |intros ?]
    | |- follows _ (on_app _) => apply aside_app; config_tac
    | |- _ => solve [auto with nocore tray_aside]
    end.
(** One step beside the setting. *)
Ltac aside_step :=
  apply ends_bind; eapply (ends_follows aside); [aside_tac|];
  let M := fresh "M" in let C := fresh "C" in intros ? ? [M C].

Section SettingsExact.
Context {P : Type} `{TimerPlatform P} `{EmergencyRestore P} {W : Type} `{Desktop W}.
Context `{Sha256} `{IoDisplay} `{PathDisplay} `{TrayHost}.
Abbreviation TR := (Tray P W).
Abbreviation T := (comp TR TrayStop).
Implicit Types t : TR.
Context (Hpath : config_path = path_from_executable executable).

Definition file_of t : option bytes := content_at (disk (machine t)) config_path.
Definition node_of t : option Node := nodes (disk (machine t)) !! config_path.
Definition written (c : Config) : bytes := utf8_encode (config_text c).

Lemma save_ends c t Q :
  (∀ r t', config (app t') = config (app t) → run_value (machine t') = run_value (machine t) →
     match r with Ok _ => file_of t' = Some (written c) | Err _ => node_of t' = node_of t end → Q r t') →
  ends (save_config c) t Q.
Proof.
  intros HQ r t'. unfold save_config. unfold mbind at 1, comp_bind at 1. cbn [get].
  unfold mbind at 1, comp_bind at 1. cbn [modify]. unfold on_disk_of.
  set (t1 := t <| temporary_sequence ::= λ n : Z, wrap 64 (n + 1) |>).
  destruct (save_atomic process_id (temporary_sequence t) config_path c (disk (machine t1))) as [x f] eqn:Es.
  intros [= <- <-]. rewrite Hpath in Es. apply save_spec in Es as [_ Hr].
  apply HQ; [done|done|]. unfold file_of, node_of. rewrite Hpath. by destruct x.
Qed.

Lemma config_ends c t (Q : unit → TR → Prop) :
  (∀ t', machine t' = machine t → config (app t') = c → Q tt t') → ends (set_config c) t Q.
Proof. intros HQ [] t' [= <-]. by apply HQ. Qed.

(** A computation of the registry. *)
Lemma machine_ends {Er X} (m : comp Machine Er X) t (Q : result Er X → TR → Prop) (R : result Er X → Machine → Prop) :
  wp m (machine t) R → (∀ r t', config (app t') = config (app t) → R r (machine t') → Q r t') → ends (on_machine m) t Q.
Proof.
  intros Hw HQ r t'. unfold on_machine. unfold wp in Hw. destruct (m (machine t)) as [x mc]. intros [= <- <-].
  by apply HQ.
Qed.

(** Memory and file: changed together, or not. *)
Definition changed (next : Config) t t' : Prop := config (app t') = next ∧ file_of t' = Some (written next).
Definition unchanged t t' : Prop := config (app t') = config (app t) ∧ node_of t' = node_of t.

Lemma change_setting_exact event change (apply : T unit) t t' : follows aside apply →
  change_setting event change apply t = (Ok tt, t') →
  (changed (change (config (app t))) t t' ∨ unchanged t t') ∧ run_value (machine t') = run_value (machine t).
Proof.
  intros Ha. revert t'. cut (ends (change_setting event change apply) t (λ _ t',
    (changed (change (config (app t))) t t' ∨ unchanged t t') ∧ run_value (machine t') = run_value (machine t))).
  { intros Hc t'. apply Hc. }
  unfold change_setting. do 3 aside_step. apply ends_get. cbv zeta. apply ends_bind, save_ends.
  intros [[]|e] t1 C2 V2 D2.
  - aside_step. apply ends_bind, config_ends. intros t2 N2 E2. aside_step.
    eapply ends_follows; [exact Ha|]. intros [] t3 [N3 E3]. split; [left; split|].
    + rewrite E3, C4, E2. congruence.
    + unfold file_of in *. rewrite N3, M3, N2, M2, D2. congruence.
    + congruence.
  - eapply (ends_follows aside); [aside_tac|]. intros [] t2 [N2 E2]. split; [right; split|].
    + congruence.
    + unfold node_of in *. rewrite N2, D2. congruence.
    + congruence.
Qed.

(** C9: Changing one of the three plain settings either saves the new configuration
    and uses it, or leaves both the file and the configuration in use as they were,
    whatever file system calls fail; the registration at startup is not touched. *)
Theorem setting_toggle_exact b m change t t' :
  (m, change) ∈ [(set_automatic b, with_automatic b); (set_auto_resume b, with_auto_resume b);
                 (set_battery_lockout b, with_battery_lockout b)] →
  (m : T unit) t = (Ok tt, t') →
  (changed (change (config (app t))) t t' ∨ unchanged t t') ∧ run_value (machine t') = run_value (machine t).
Proof.
  rewrite !elem_of_cons. intros [[= -> ->]|[[= -> ->]|[[= -> ->]|[]%elem_of_nil]]]; apply change_setting_exact.
  - destruct b; aside_tac.
  - aside_tac.
  - destruct b; aside_tac.
Qed.

(** The registration the setting asks for, and the ones a failed change may leave. *)
Definition follows_setting (target : option StartupTarget) (v : option str) : Prop :=
  match target with Some target => registered target v | None => v = None end.
Definition drifts (target : option StartupTarget) (v v' : option str) : Prop :=
  v' = v ∨ (target = None ∧ v' = None) ∨
  ∃ target, startup_target debug_assertions executable = Ok target ∧ registered target v'.

Lemma aside_file t t' : machine t' = machine t → node_of t' = node_of t ∧ run_value (machine t') = run_value (machine t).
Proof. unfold node_of. by intros ->. Qed.

(** The failed save is rolled back by registering again, or not at all. *)
Lemma rollback_ends b t (Q : result StartupError unit → TR → Prop) :
  (∀ r t', config (app t') = config (app t) → node_of t' = node_of t →
     run_value (machine t') = run_value (machine t) ∨
     (b = false ∧ ∃ target, startup_target debug_assertions executable = Ok target ∧ registered target (run_value (machine t'))) →
     Q r t') →
  ends (rollback_startup b) t Q.
Proof.
  intros HQ. unfold rollback_startup, startup_rollback. destruct b.
  - aside_step. apply ends_ret. apply HQ; [done|by apply aside_file|left; by apply aside_file].
  - destruct (startup_target _ _) as [target|e] eqn:Et; [|apply ends_ret, HQ; auto].
    eapply machine_ends; [apply register_wp|]. intros r t' C [N R]. apply HQ; [done|unfold node_of; by rewrite N|].
    destruct r; [right; eauto|]. destruct R; [by left|right; eauto].
Qed.

Lemma change_startup_exact b target next t :
  match target with Some target => b = true ∧ startup_target debug_assertions executable = Ok target | None => b = false end →
  ends (change_startup b target next : T unit) t (λ _ t',
    changed next t t' ∧ follows_setting target (run_value (machine t')) ∨
    unchanged t t' ∧ drifts target (run_value (machine t)) (run_value (machine t'))).
Proof.
  intros Ht. unfold change_startup. apply ends_bind.
  assert (∀ (Q : result StartupError unit → TR → Prop),
    (∀ r t', config (app t') = config (app t) → node_of t' = node_of t →
       match r with
       | Ok _ => follows_setting target (run_value (machine t'))
       | Err _ => drifts target (run_value (machine t)) (run_value (machine t'))
       end → Q r t') →
    ends (match target with
          | Some target => _ ← note "native.RegSetValueExW.call"; on_machine (register_startup_target target)
          | None => _ ← note "native.RegDeleteValueW.call"; on_machine startup_remove
          end : T _) t Q) as Hreg.
  { intros Q HQ. destruct target as [target|]; aside_step.
    - destruct Ht as [-> Et]. eapply machine_ends; [apply register_wp|]. intros r t' C' [N R]. rewrite M in N, R.
      apply HQ; [congruence|unfold node_of; by rewrite N|]. destruct r; [done|]. destruct R; [by left|right; right; eauto].
    - eapply machine_ends; [apply remove_wp|]. intros r t' C' [N R]. rewrite M in N, R.
      apply HQ; [congruence|unfold node_of; by rewrite N|]. destruct r; [done|]. destruct R; [by left|right; by left]. }
  apply Hreg. intros r t1 C1 D1 R1. destruct r as [[]|e].
  2:{ eapply (ends_follows aside); [aside_tac|]. intros [] t2 [M2 C2]. right. unfold unchanged.
      destruct (aside_file _ _ M2) as [-> ->]. by rewrite C2, C1, D1. }
  apply ends_bind, save_ends. intros [[]|e] t2 C2 V2 D2.
  - aside_step. apply ends_bind, config_ends. intros t3 N3 E3. eapply (ends_follows aside); [destruct target; aside_tac|].
    intros [] t4 [N4 E4]. left. split; [split|].
    + by rewrite E4.
    + unfold file_of in *. by rewrite N4, N3, M, D2.
    + by rewrite N4, N3, M, V2.
  - aside_step. apply ends_bind, rollback_ends. intros rb t3 C3 D3 R3.
    eapply (ends_follows aside); [destruct b, rb; aside_tac|]. intros [] t4 [N4 E4]. right. unfold unchanged.
    destruct (aside_file _ _ N4) as [-> ->]. destruct (aside_file _ _ M) as [D4 V4].
    split; [split; congruence|]. rewrite V4, V2 in R3. unfold drifts.
    destruct target as [target|]; cbn [follows_setting] in R1.
    + destruct Ht as [-> Et]. destruct R3 as [->|[]]; [|done]. right. right. eauto.
    + destruct R3 as [->|[_ R3]]; [right; left; auto|right; right; exact R3].
Qed.

(** C8: Changing the startup setting either saves it, uses it, and leaves exactly the
    registration it asks for (none when the executable cannot be registered, which
    keeps what was there), or leaves the file and the configuration in use as they
    were; then the registration is what it was, removed, or of this program. *)
Theorem set_startup_exact b t t' : (set_startup b : T unit) t = (Ok tt, t') →
  let next := with_startup b (config (app t)) in
  let v := run_value (machine t) in let v' := run_value (machine t') in
  let target := startup_target debug_assertions executable in
  changed next t t' ∧
    match b, target with
    | true, Ok target => registered target v'
    | true, Err _ => v' = v
    | false, _ => v' = None
    end ∨
  unchanged t t' ∧ (v' = v ∨ (b = false ∧ v' = None) ∨ ∃ target', target = Ok target' ∧ registered target' v').
Proof.
  revert t'. cbv zeta. match goal with |- ∀ t', _ → @?Q t' => cut (ends (set_startup b : T unit) t (λ _ t', Q t')) end.
  { intros Hc t'. apply Hc. }
  unfold set_startup. do 2 aside_step. apply ends_get. cbv zeta.
  assert (config (app s'0) = config (app t) ∧ machine s'0 = machine t) as [Ec Em] by (split; congruence).
  assert (∀ target, match target with
      | Some target => b = true ∧ startup_target debug_assertions executable = Ok target | None => b = false end →
    ends (change_startup b target (with_startup b (config (app s'0))) : T unit) s'0 (λ _ t',
      changed (with_startup b (config (app t))) t t' ∧ follows_setting target (run_value (machine t')) ∨
      unchanged t t' ∧ drifts target (run_value (machine t)) (run_value (machine t')))) as Hchange.
  { intros target Ht [] t' Er. pose proof (change_startup_exact b target _ s'0 Ht tt t' Er) as Hr.
    unfold changed, unchanged, node_of in *. by rewrite Ec, Em in Hr. }
  destruct b.
  - destruct (startup_target _ _) as [target|e] eqn:Et.
    + intros [] t' Er. destruct (Hchange (Some target) (conj eq_refl eq_refl) tt t' Er) as [Hr|[Hu Hd]]; [by left|right].
      split; [done|]. destruct Hd as [?|[[? _]|Hd]]; [by left|done|right; right; rewrite Et in Hd; exact Hd].
    + unfold startup_unavailable. aside_step. apply ends_bind, save_ends. intros [[]|er] t2 C2 V2 D2.
      * apply ends_bind. aside_step. apply ends_bind, config_ends. intros t3 N3 E3.
        eapply (ends_follows aside); [aside_tac|]. intros [] t4 [N4 E4].
        eapply (ends_follows aside); [aside_tac|]. intros [] t5 [N5 E5]. left. split; [split|].
        -- rewrite E5, E4, E3. congruence.
        -- unfold file_of in *. rewrite N5, N4, N3, M2, D2. congruence.
        -- rewrite N5, N4, N3, M2, V2. congruence.
      * eapply (ends_follows aside); [aside_tac|]. intros [] t3 [N3 E3]. right.
        destruct (aside_file _ _ N3) as [D3 V3]. destruct (aside_file _ _ M1) as [D4 V4]. destruct (aside_file _ _ Em) as [D5 V5].
        split; [split; congruence|left; congruence].
  - intros [] t' Er. destruct (Hchange None eq_refl tt t' Er) as [Hr|[Hu Hd]]; [by left|right].
    split; [done|]. destruct Hd as [?|[[_ ?]|Hd]]; [by left|right; left; auto|right; right; exact Hd].
Qed.

(** The interval of an acquire command stays in the configuration in use. *)
Lemma acquire_interval payload i a r a' : length payload = 8%nat → Wire.validate_interval_hns (le_value payload) = Ok i →
  handle_ipc_acquire fuel payload a = (Ok r, a') → request_interval (config a') = i.
Proof.
  intros Hl Hv. unfold handle_ipc_acquire. cbv zeta. rewrite bool_decide_eq_false_2 by (intros ->; done). rewrite Hl, Hv.
  cbn [negb Nat.eqb]. intros ([] & a1 & [= <-] & E)%step_inv.
  match type of E with ?m ?s = _ => assert (follows same_config m) as Hm by config_tac end.
  by rewrite (Hm _ r a' E).
Qed.

(** The interval of another process's acquire command, which has no effect on the
    acquisition, is what the next saved change of a setting writes to the
    configuration file, with the change. *)
Theorem ipc_interval_persists payload i b t r t1 t2 : length payload = 8%nat →
  Wire.validate_interval_hns (le_value payload) = Ok i →
  on_app (handle_ipc_command fuel CommandVerb.RequestAcquire payload) t = (Ok r, t1) →
  set_automatic b t1 = (Ok tt, t2) →
  unchanged t1 t2 ∨ ∃ c, file_of t2 = Some (written c) ∧ request_interval c = i ∧ config (app t2) = c.
Proof.
  intros Hl Hv E1 E2. assert (request_interval (config (app t1)) = i) as Hi.
  { revert E1. unfold on_app. cbn [handle_ipc_command].
    destruct (handle_ipc_acquire fuel payload (app t)) as [[x|[]] a] eqn:Ea; [|by intros [=]].
    intros [= _ <-]. by apply (acquire_interval payload i (app t) x). }
  assert (follows aside (on_app (if b then reconcile fuel else manual_stop fuel) : T unit)) as Ha by (destruct b; aside_tac).
  destruct (change_setting_exact _ _ _ t1 t2 Ha E2) as [[[C F]|Hu] _]; [right|by left].
  exists (with_automatic b (config (app t1))). split_and!; [exact F|exact Hi|exact C].
Qed.
End SettingsExact.

(** ** Concrete changes *)

#[local] Existing Instance single_client_kernel.
#[local] Existing Instance sample_desktop.
#[local] Instance settings_sha : Sha256 := λ _, replicate 32 0.
#[local] Instance settings_io : IoDisplay := λ _, lit "error".
#[local] Instance settings_display : PathDisplay := λ p, join [92] p.
#[local] Instance settings_emergency : EmergencyRestore (WindowsTimerPlatform Z) := λ _ p, p.
Definition settings_executable : path := [lit "pkg"; lit "Slots"; lit "A"; lit "true-tick.exe"].
#[local] Instance settings_host : TrayHost :=
  mkHost false 7 settings_executable (path_from_executable settings_executable) [lit "pkg"; lit "logs"]
    [lit "pkg"; lit "state"] (λ _, lit "Other") (λ n, (mkMoment None (Z.of_nat n) 7 7, @store_new settings_sha 8)) 12.

Definition settings_files : gmap path Node :=
  <[ [lit "pkg"] := Dir ]> (<[ [lit "pkg"; lit "Launcher.exe"] := File [77] ]>
    (<[ removelast config_path := Dir ]> {[ config_path := File (written sample_config) ]})).
(** With these failing file system calls, registry value and registry statuses. *)
Definition settings_tray (fs : list (option Fault)) (v : option str) (statuses : list Z) : Tray (WindowsTimerPlatform Z) Z :=
  tray_new (mkStart (mkMoment None 5 7 7) (@store_new settings_sha 8) (Some 5) 9 0 0) (with_diagnostics 156250) 0
    (mkMachine (mkFs settings_files fs) v statuses) (mkBooted sample_config [] 0 PreviousSession.FirstRun) [] [].

Lemma settings_path : config_path = path_from_executable executable.
Proof. vm_compute. reflexivity. Qed.

Lemma setting_toggle_exact_witness :
  let t := settings_tray [] None [] in let t' := (set_automatic true t).2 in
  file_of t' = Some (written (with_automatic true sample_config)) ∧
  (changed (with_automatic true (config (app t))) t t' ∨ unchanged t t') ∧ run_value (machine t') = run_value (machine t).
Proof.
  intros t t'. split; [vm_compute; reflexivity|].
  apply (setting_toggle_exact settings_path true (set_automatic true) (with_automatic true) t t').
  - rewrite elem_of_cons. left. reflexivity.
  - refine (ran (set_automatic true t) (Ok tt) _). vm_compute. reflexivity.
Defined.

(** Turning the setting off when nothing is registered, and the save fails: the
    rollback registers the program. *)
Lemma set_startup_exact_witness :
  let t := settings_tray [Some (mkFault denied 0)] None [] in let t' := (set_startup false t).2 in
  run_value (machine t) = None ∧ is_Some (run_value (machine t')) ∧
  (changed (with_startup false (config (app t))) t t' ∧ run_value (machine t') = None ∨
   unchanged t t' ∧ (run_value (machine t') = run_value (machine t) ∨ (false = false ∧ run_value (machine t') = None) ∨
     ∃ target, startup_target debug_assertions executable = Ok target ∧ registered target (run_value (machine t')))).
Proof.
  intros t t'. split; [vm_compute; reflexivity|]. split; [vm_compute; eexists; reflexivity|].
  apply (set_startup_exact settings_path false t t').
  refine (ran (set_startup false t) (Ok tt) _). vm_compute. reflexivity.
Defined.

Lemma ipc_interval_persists_witness :
  let t := settings_tray [] None [] in
  let t1 := (on_app (handle_ipc_command fuel CommandVerb.RequestAcquire (le_bytes 8 156250)) t).2 in
  let t2 := (set_automatic true t1).2 in
  requested_interval (controller (app t1)) = 5000 ∧
  (unchanged t1 t2 ∨ ∃ c, file_of t2 = Some (written c) ∧ request_interval c = 156250 ∧ config (app t2) = c) ∧
  file_of t2 = Some (written (mkConfig true false false false 156250 [60])).
Proof.
  intros t t1 t2. split; [vm_compute; reflexivity|]. split; [|vm_compute; reflexivity].
  apply (ipc_interval_persists settings_path (le_bytes 8 156250) 156250 true t
    (match (on_app (handle_ipc_command fuel CommandVerb.RequestAcquire (le_bytes 8 156250)) t).1 with
     | Ok r => r | Err _ => IpcResponse.Cancelled end) t1 t2).
  - reflexivity.
  - vm_compute. reflexivity.
  - refine (ran (on_app (handle_ipc_command fuel CommandVerb.RequestAcquire (le_bytes 8 156250)) t) _ _). vm_compute. reflexivity.
  - refine (ran (set_automatic true t1) (Ok tt) _). vm_compute. reflexivity.
Defined.
