(* ===== verification/TrayOffers.v ===== *)
(** * TrayOffers: what the open menu offers

    A refresh of the open menu, which writes through names that may stand for the
    same menu: the entries the menu shows afterwards are those the dispatcher
    accepts. *)
From coqutil Require Import Datatypes.RecordSetters.
From S2P Require Import Prelude Text Core Policy Watchdog Privacy Diagnostics Platform Ownership Wire Pause Files Config Session FileFrames Dirs Startup Logging Surface Menus Engine EngineSteps EngineTermination EngineEase EngineKeeps Tray TrayMenu TrayStart TraySettings.
Import TriangleBracketNotations.

Section Offers.
Context {P : Type} `{TimerPlatform P} `{EmergencyRestore P} {W : Type} `{Desktop W}.
Context `{Sha256} `{IoDisplay} `{PathDisplay} `{TrayHost}.
Abbreviation A := (App P W).
Abbreviation TR := (Tray P W).
Abbreviation T := (comp TR TrayStop).
Implicit Types t : TR.

(** An entry as it is shown: grayed unless [b]. *)
Definition shown (b : bool) (id : Z) (text : str) : MenuEntry := mkEntry (grayed_unless b) id text.

Definition with_menus (f : gmap Z (list MenuEntry) → gmap Z (list MenuEntry)) t : TR := t <| menus ::= f |>.
Definition put (h : Z) (i : nat) (e : MenuEntry) : gmap Z (list MenuEntry) → gmap Z (list MenuEntry) :=
  alter (λ es, <[i := e]> es) h.

Lemma menus_with f t : menus (with_menus f t) = f (menus t).
Proof. done. Qed.
Lemma modify_menu h i flags id text t : natives t = [] →
  (ModifyMenuW h i flags id text : T unit) t = (Ok tt, with_menus (put h i (mkEntry flags id text)) t).
Proof.
  intros Hn. unfold ModifyMenuW, native, mbind, comp_bind. rewrite Hn. reflexivity.
Qed.
Lemma modify_ends h i flags id text t (Q : unit → TR → Prop) : natives t = [] →
  Q tt (with_menus (put h i (mkEntry flags id text)) t) → ends (ModifyMenuW h i flags id text) t Q.
Proof. intros Hn HQ x t'. rewrite modify_menu by done. by intros [= <- <-]. Qed.

(** Steps that leave the root menu [h] and let every native call succeed. *)
Definition leaves (h : Z) t t' : Prop := menus t' !! h = menus t !! h ∧ natives t' = natives t.
#[local] Instance leaves_refl h : Reflexive (leaves h).
Proof. by intros t. Qed.
#[local] Instance leaves_trans h : Transitive (leaves h).
Proof. intros t1 t2 t3 [] []. split; congruence. Qed.
Lemma leaves_put h h' i e t : h' ≠ h → leaves h t (with_menus (put h' i e) t).
Proof. intros Hne. split; [|done]. rewrite menus_with. unfold put. by rewrite lookup_alter_ne. Qed.
Lemma leaves_app {X} h (m : comp A Diverged X) : follows (leaves h) (on_app m : T X).
Proof.
  intros t x t'. unfold on_app. destruct (m (app t)) as [[y|[]] a]; [|by intros [=]]. by intros [= _ <-].
Qed.
Lemma leaves_items h : follows (leaves h) (status_items : T _).
Proof.
  unfold status_items, running_duration.
  repeat lazymatch goal with
    | |- follows _ (mret _) => apply follows_ret; apply _
    | |- follows _ get => apply follows_get; apply _
    | |- follows _ (let _ := _ in _) => cbv zeta
    | |- follows _ (on_app _) => apply leaves_app
    | |- follows _ (match ?x with _ => _ end) => destruct x
    | |- follows _ (_ ≫= _) => apply follows_bind; [apply _| |intros ?]
    end.
Qed.
Lemma leaves_status h h' i items t : h' ≠ h → natives t = [] →
  ends (modify_status_items h' i items : T unit) t (λ _, leaves h t).
Proof.
  intros Hne. revert i t. induction items as [|item items IH]; intros i t Hn; cbn [modify_status_items].
  { apply ends_ret. apply leaves_refl. }
  apply ends_bind, modify_ends; [done|]. intros x t' Ei. etransitivity; [by apply leaves_put|].
  refine (IH (S i) _ _ x t' Ei). exact Hn.
Qed.

(** What the root menu holds: Start and Stop, or the settings when they were
    reopened as the root. *)
Definition offered (c : Config) t (settings_root : bool) (es : list MenuEntry) : Prop :=
  if settings_root then
    es !! 0%nat = Some (shown true (startup_id c) (auto_start_label (startup_enabled c))) ∧
    es !! 1%nat = Some (shown true (automatic_id c) (automatic_label (automatic c))) ∧
    es !! 2%nat = Some (shown true (auto_resume_id c) (auto_resume_label (auto_resume_on_ac c))) ∧
    es !! 3%nat = Some (shown true (battery_lockout_id c) (battery_lockout_label (battery_lockout c)))
  else
    es !! 2%nat = Some (shown (accepts t ID_START) ID_START (lit "Start")) ∧
    es !! 3%nat = Some (shown (accepts t ID_STOP) ID_STOP (lit "Stop")).

(** The entries of the settings are what their commands do now. *)
Lemma settings_accepted t : let c := config (app t) in
  Forall (λ id, accepts t id = true) [startup_id c; automatic_id c; auto_resume_id c; battery_lockout_id c].
Proof.
  intros c. unfold accepts. fold c.
  unfold startup_id, automatic_id, auto_resume_id, battery_lockout_id.
  destruct (startup_enabled c), (automatic c), (auto_resume_on_ac c), (battery_lockout c);
    repeat (apply Forall_cons_2; [reflexivity|]); constructor.
Qed.

(** The three parts of a refresh. *)
Definition write_root (h : Z) t (es : list MenuEntry) : list MenuEntry :=
  <[ROOT_MENU_STOP_POSITION := shown (accepts t ID_STOP) ID_STOP (lit "Stop")]>
    (<[ROOT_MENU_START_POSITION := shown (accepts t ID_START) ID_START (lit "Start")]> es).
Lemma write_root_offers h t es : (4 ≤ length es)%nat → offered (config (app t)) t false (write_root h t es).
Proof.
  intros Hl. unfold offered, write_root, ROOT_MENU_STOP_POSITION, ROOT_MENU_START_POSITION. split.
  - rewrite list_lookup_insert_ne by done. apply list_lookup_insert_eq. lia.
  - apply list_lookup_insert_eq. rewrite length_insert. lia.
Qed.

Lemma settings_write h c settings u t es : natives t = [] → menus t !! h = Some es → (4 ≤ length es)%nat →
  offered c u false es →
  ends (on_handle settings (λ menu,
      _ ← ModifyMenuW menu SETTINGS_MENU_AUTO_START_POSITION MF_STRING (startup_id c) (label_at (settings_items c) 0);
      _ ← ModifyMenuW menu SETTINGS_MENU_AUTO_TIME_POSITION MF_STRING (automatic_id c) (label_at (settings_items c) 1);
      _ ← ModifyMenuW menu SETTINGS_MENU_AUTO_RESUME_POSITION MF_STRING (auto_resume_id c) (label_at (settings_items c) 2);
      ModifyMenuW menu SETTINGS_MENU_BATTERY_LOCKOUT_POSITION MF_STRING (battery_lockout_id c) (label_at (settings_items c) 3))
    : T unit) t (λ _ t', natives t' = [] ∧ ∃ es', menus t' !! h = Some es' ∧ length es' = length es ∧
      offered c u (bool_decide (settings = Some h)) es').
Proof.
  intros Hn He Hl Ho. destruct settings as [h'|]; cbn [on_handle].
  2:{ rewrite bool_decide_eq_false_2 by done. apply ends_ret. eauto. }
  do 3 (apply ends_bind, modify_ends; [done|]). apply modify_ends; [done|]. split; [exact Hn|].
  rewrite !menus_with. unfold put. destruct (Z.eq_dec h' h) as [->|Hne].
  - rewrite bool_decide_eq_true_2 by done. eexists. split; [rewrite !lookup_alter_eq, He; reflexivity|].
    rewrite !length_insert. split; [done|]. unfold offered. repeat split;
      repeat (rewrite list_lookup_insert_ne by done); apply list_lookup_insert_eq; rewrite ?length_insert;
      unfold SETTINGS_MENU_AUTO_START_POSITION, SETTINGS_MENU_AUTO_TIME_POSITION, SETTINGS_MENU_AUTO_RESUME_POSITION,
        SETTINGS_MENU_BATTERY_LOCKOUT_POSITION; lia.
  - rewrite bool_decide_eq_false_2 by congruence. exists es. rewrite !lookup_alter_ne by done. auto.
Qed.

(** Writes to another menu. *)
Lemma elsewhere h o (m : Z → T unit) t : o ≠ Some h → (∀ h', h' ≠ h → ends (m h') t (λ _, leaves h t)) →
  ends (on_handle o m) t (λ _, leaves h t).
Proof. intros Ho Hm. destruct o as [h'|]; cbn [on_handle]; [apply Hm; congruence|apply ends_ret, leaves_refl]. Qed.
Lemma two_writes h h' i j e e' t : h' ≠ h → natives t = [] →
  ends (_ ← ModifyMenuW h' i (entry_flags e) (entry_id e) (entry_text e);
        ModifyMenuW h' j (entry_flags e') (entry_id e') (entry_text e') : T unit) t (λ _, leaves h t).
Proof.
  intros Hne Hn. apply ends_bind, modify_ends; [done|]. apply modify_ends; [done|].
  etransitivity; [by apply leaves_put|by apply leaves_put].
Qed.
Lemma status_write h h' t : h' ≠ h → natives t = [] →
  ends (items ← status_items; modify_status_items h' 0 items : T unit) t (λ _, leaves h t).
Proof.
  intros Hne Hn. apply ends_bind, (ends_follows (leaves h)); [apply leaves_items|]. intros items t1 L1 [] t2 E2.
  etransitivity; [exact L1|]. refine (leaves_status h h' 0 items t1 Hne _ tt t2 E2). destruct L1. congruence.
Qed.

End Offers.

(** ** A concrete menu: the settings reopened as the root *)

#[local] Existing Instances single_client_kernel sample_desktop settings_sha settings_io settings_display settings_emergency
  settings_host.

Definition reopened_settings : Tray (WindowsTimerPlatform Z) Z :=
  (build_menu ((settings_tray [] None []) <| settings_submenu_open := true |>)).2.
