(* ===== verification/ManifestTool.v ===== *)
(** * ManifestTool: the producer of signed packages

    Models [apps/manifest-tool/src/main.rs]: [gen-key] writes a key pair, [sign]
    hashes the files of a package directory and writes [manifest.sig] and
    [SHA256SUMS.txt], [verify] checks a package against a trust anchor.  The file
    system is the store of [Files], whose calls may fail; Ed25519, SHA-256 and the
    system's entropy are parameters.  Paths are those of Windows.  The child
    process that restricts the permissions of the secret key changes no state of
    the model, and its warning is left out. *)
From S2P Require Import Prelude Text Order Hex Diagnostics Files FileFrames Dirs Crypto.

Definition MAX_ENTRY_BYTES : Z := 512 * 1024 * 1024.
Definition ENTRY_LINE_OVERHEAD : Z := str_len (lit "entry ") + 1 + 64.

Module ToolError.
Inductive ToolError :=
| Usage (message : str)
| Io (context : str) (p : path) (source : IoError)
| Crypto (context : str) (source : CryptoError)
| Exists (p : path)
| TooManyEntries (count : nat)
| LineTooLong (p : str)
| EntryTooLarge (p : str) (len : Z)
| InvalidPath (p : path)
| InvalidAnchorLength (len : nat)
| VerifyFailed (failures : list str).
End ToolError.
Abbreviation ToolError := ToolError.ToolError.

(** How a computation of the tool stops early: with an error, or because the
    recursion over directories ran out of fuel. *)
Module ToolStop.
Inductive ToolStop := Failed (error : ToolError) | OutOfFuel.
End ToolStop.
Abbreviation ToolStop := ToolStop.ToolStop.

(** What a text that starts at a root or a drive denotes when it is joined to a path. *)
Class RootedPath := rooted_path : path → str → path.

Section Tool.
Context `{Ed25519} `{Sha256} `{IoDisplay} `{PathDisplay} `{PathParse} `{RootedPath}.
(** [std::process::id]. *)
Context (process_id : Z).

Abbreviation Tool := (comp Fs ToolStop).

Definition tool_error_display (e : ToolError) : str :=
  match e with
  | ToolError.Usage message => lit "error: " ++ message
  | ToolError.Io context p source =>
      lit "error: " ++ context ++ lit " " ++ path_display p ++ lit ": " ++ io_display source
  | ToolError.Crypto context source => lit "error: " ++ context ++ lit ": " ++ crypto_error_display source
  | ToolError.Exists p =>
      lit "error: refusing to overwrite existing file " ++ path_display p ++ lit " without --force"
  | ToolError.TooManyEntries count =>
      lit "error: package contains " ++ show_u (Z.of_nat count) ++
      lit " files which exceeds MAX_MANIFEST_ENTRIES of " ++ show_u (Z.of_nat MAX_MANIFEST_ENTRIES)
  | ToolError.LineTooLong p =>
      lit "error: manifest entry line for " ++ p ++
      lit " exceeds MAX_MANIFEST_LINE_BYTES of " ++ show_u MAX_MANIFEST_LINE_BYTES
  | ToolError.EntryTooLarge p len =>
      lit "error: file " ++ p ++ lit " is " ++ show_u len ++
      lit " bytes which exceeds MAX_ENTRY_BYTES of " ++ show_u MAX_ENTRY_BYTES
  | ToolError.InvalidPath p =>
      lit "error: path " ++ path_display p ++ lit " cannot be represented in the manifest"
  | ToolError.InvalidAnchorLength len =>
      lit "error: trust anchor file must be exactly " ++ show_u (Z.of_nat PUBLIC_KEY_LEN) ++
      lit " raw bytes, found " ++ show_u (Z.of_nat len)
  | ToolError.VerifyFailed failures => lit "verification failed:" ++ [10] ++ join [10] failures
  end.

Definition tool_fail {T} (e : ToolError) : Tool T := fail (ToolStop.Failed e).
Definition io {T} (context : string) (p : path) (m : FS T) : Tool T :=
  map_err (λ e, ToolStop.Failed (ToolError.Io (lit context) p e)) m.
Definition crypto {T} (context : string) (r : result CryptoError T) : Tool T :=
  match r with Ok x => mret x | Err e => tool_fail (ToolError.Crypto (lit context) e) end.

(** ** Arguments *)

(** [args.iter().position(|arg| arg == flag)] and the argument after it. *)
Fixpoint after_flag (args : list str) (flag : str) : option (option str) :=
  match args with
  | [] => None
  | arg :: rest => if str_eqb arg flag then Some (head rest) else after_flag rest flag
  end.
Definition is_value (value : str) : bool := negb (starts_with value (lit "--")).

Definition take_value (args : list str) (flag : str) : Tool str :=
  match after_flag args flag with
  | None => tool_fail (ToolError.Usage (lit "missing required argument " ++ flag))
  | Some (Some value) =>
      if is_value value then mret value else tool_fail (ToolError.Usage (lit "missing value for " ++ flag))
  | Some None => tool_fail (ToolError.Usage (lit "missing value for " ++ flag))
  end.
Definition take_optional_value (args : list str) (flag : str) : Tool (option str) :=
  match after_flag args flag with
  | None => mret None
  | Some (Some value) =>
      if is_value value then mret (Some value) else tool_fail (ToolError.Usage (lit "missing value for " ++ flag))
  | Some None => tool_fail (ToolError.Usage (lit "missing value for " ++ flag))
  end.
Definition has_flag (args : list str) (flag : str) : bool := existsb (λ arg, str_eqb arg flag) args.

(** ** Keys *)

Definition decode_hex_lower (n : nat) (text : str) : result CryptoError bytes :=
  let trimmed := trim text in
  if negb (str_len trimmed =? Z.of_nat (n * 2)) then Err CryptoError.MalformedManifest
  else decode_pairs (utf8_encode trimmed).

Definition load_key_bytes (n : nat) (p : path) : Tool bytes :=
  bs ← io "cannot read key file" p (fs_read p);
  if (length bs =? n)%nat then mret bs
  else
    text ← crypto "key file is not valid hex text" (ok_or (utf8_decode bs) CryptoError.WrongKeyLength);
    crypto "key file is not valid hex text" (decode_hex_lower n text).
Definition load_secret_key (p : path) : Tool bytes := load_key_bytes SECRET_KEY_LEN p.

Definition load_anchor (p : path) : Tool TrustAnchor :=
  bs ← io "cannot read trust anchor file" p (fs_read p);
  if negb (length bs =? PUBLIC_KEY_LEN)%nat then tool_fail (ToolError.InvalidAnchorLength (length bs))
  else crypto "trust anchor is invalid" (anchor_from_bytes bs).

Definition write_raw_key_file (p : path) (key_bytes : bytes) : Tool unit :=
  io "cannot write key file" p (fs_write p key_bytes).
Definition write_key_file (p : path) (key_bytes : bytes) : Tool unit :=
  io "cannot write key file" p (fs_write p (utf8_encode (hex key_bytes ++ [10]))).

(** [path.exists()]: a query that fails answers no, so there is no error to report. *)
Definition exists_query (p : path) : Tool bool :=
  io "" p (fs_exists p).

Definition cmd_gen_key (entropy : bytes) (args : list str) : Tool str :=
  dir ← take_value args (lit "--out-dir");
  let out_dir := path_parse dir in
  let force := has_flag args (lit "--force") in
  _ ← io "cannot create output directory" out_dir (fs_create_dir_all out_dir);
  let anchor_path := path_join out_dir (lit "trust-anchor.pub") in
  let secret_path := path_join out_dir (lit "signing-key.sec") in
  _ ← (if force then mret tt
       else
         anchor_exists ← exists_query anchor_path;
         _ ← (if (anchor_exists : bool) then tool_fail (ToolError.Exists anchor_path) else mret tt);
         secret_exists ← exists_query secret_path;
         if (secret_exists : bool) then tool_fail (ToolError.Exists secret_path) else mret tt);
  let '(secret, public) := generate_keypair entropy in
  _ ← write_raw_key_file anchor_path public;
  _ ← write_key_file secret_path secret;
  mret (lit "generated Ed25519 keypair" ++ [10] ++ lit "  trust anchor: " ++ path_display anchor_path ++
        [10] ++ lit "  signing key: " ++ path_display secret_path).

(** ** The files of a package *)

(** [fs::symlink_metadata]; the store has no links. *)
Definition fs_node (p : path) : FS Node :=
  _ ← guard_call; s ← get;
  match nodes s !! p with Some n => mret n | None => fail not_found end.

(** The entries of [read_dir] one by one, each of which may fail. *)
Fixpoint read_entries (dir : path) (names : list str) : Tool (list str) :=
  match names with
  | [] => mret []
  | name :: names =>
      _ ← io "cannot read directory entry" dir guard_call;
      children ← read_entries dir names;
      mret (name :: children)
  end.

(** The loop over the sorted children: directories are collected by [collect]. *)
Fixpoint collect_children (collect : path → list path → Tool (list path)) (dir root : path) (children : list str)
    (files : list path) : Tool (list path) :=
  match children with
  | [] => mret files
  | name :: children =>
      let child := path_join dir name in
      file_type ← io "cannot stat path" child (fs_node child);
      files ← match file_type with
              | Dir => collect child files
              | File _ => mret (files ++ [drop (length root) child])
              end;
      collect_children collect dir root children files
  end.

(** [collect_files], with the remaining depth as fuel; a relative path is what
    follows the components of [root]. *)
Fixpoint collect_files (fuel : nat) (root dir : path) (files : list path) : Tool (list path) :=
  match fuel with
  | O => fail ToolStop.OutOfFuel
  | S fuel =>
      names ← io "cannot read directory" dir (fs_read_dir dir);
      children ← read_entries dir names;
      collect_children (collect_files fuel root) dir root (sort_by str_leb children) files
  end.

(** [canonicalize] succeeds for what exists; in the store a path is its canonical form. *)
Definition canonicalize (p : path) : FS path := _ ← fs_node p; mret p.
Definition same_path (left right : path) : Tool bool :=
  if bool_decide (left = right) then mret true
  else
    l ← attempt (canonicalize left);
    r ← attempt (canonicalize right);
    mret match l, r with Ok l, Ok r => bool_decide (l = r) | _, _ => false end.

(** [file_name().and_then(to_str)]: a name that is not Unicode is [None]. *)
Definition file_name_str (p : path) : option str :=
  name ← file_name p; if forallb is_scalar name then Some name else None.

Definition excluded_name (relative : path) : bool :=
  match file_name_str relative with
  | Some name =>
      str_eqb name (lit "manifest.sig") || str_eqb name (lit "SHA256SUMS.txt") || ends_with name (lit ".toml")
  | None => false
  end.
Definition is_excluded (package_dir relative out_path : path) : Tool bool :=
  if excluded_name relative then mret true else same_path (package_dir ++ relative) out_path.

(** [files.retain(..)] *)
Fixpoint retain_included (package_dir out_path : path) (files : list path) : Tool (list path) :=
  match files with
  | [] => mret []
  | relative :: files =>
      excluded ← is_excluded package_dir relative out_path;
      kept ← retain_included package_dir out_path files;
      mret (if (excluded : bool) then kept else relative :: kept)
  end.

Definition validate_manifest_path (p : str) : Tool unit :=
  if bool_decide (p = []) || existsb is_whitespace p || existsb is_control p
  then tool_fail (ToolError.InvalidPath (path_parse p)) else mret tt.

(** The buffered reads: each delivers at most 65536 bytes, the last none. *)
Fixpoint read_chunks (fuel : nat) (bs : bytes) : FS bytes :=
  _ ← guard_call;
  match fuel, bs with
  | S fuel, _ :: _ =>
      rest ← read_chunks fuel (drop (Z.to_nat 65536) bs);
      mret (take (Z.to_nat 65536) bs ++ rest)
  | _, _ => mret []
  end.

(** Opening a file and its contents at that moment. *)
Definition fs_open (p : path) : FS bytes := fs_read p.

Definition hash_file (p : path) (relative : str) : Tool bytes :=
  len ← io "cannot stat file" p (fs_metadata_len p);
  if MAX_ENTRY_BYTES <? len then tool_fail (ToolError.EntryTooLarge relative len)
  else
    content ← io "cannot open file" p (fs_open p);
    hashed ← io "cannot read file" p (read_chunks (length content) content);
    mret (sha256 hashed).

Definition read_bounded (p : path) (relative : str) : Tool bytes :=
  len ← io "cannot stat file" p (fs_metadata_len p);
  if MAX_ENTRY_BYTES <? len then tool_fail (ToolError.EntryTooLarge relative len)
  else io "cannot read file" p (fs_read p).

(** [relative.to_str()] with the separators of the manifest. *)
Definition path_text (relative : path) : option str :=
  if forallb (forallb is_scalar) relative
  then Some (map (λ c, if c =? 92 then 47 else c) (join [92] relative)) else None.

Fixpoint hash_entries (package_dir : path) (files : list path) : Tool (list ManifestEntry) :=
  match files with
  | [] => mret []
  | relative :: files =>
      path_text ← match path_text relative with
                  | Some text => mret text | None => tool_fail (ToolError.InvalidPath relative) end;
      _ ← validate_manifest_path path_text;
      _ ← (if MAX_MANIFEST_LINE_BYTES <? ENTRY_LINE_OVERHEAD + str_len path_text
           then tool_fail (ToolError.LineTooLong path_text) else mret tt);
      digest ← hash_file (package_dir ++ relative) path_text;
      entries ← hash_entries package_dir files;
      mret (mkEntry path_text digest :: entries)
  end.

(** The fuel is a bound on the depth of the directories. *)
Definition build_entries (package_dir out_path : path) : Tool (list ManifestEntry) :=
  s ← get;
  files ← collect_files (S (size (nodes s))) package_dir package_dir [];
  files ← retain_included package_dir out_path files;
  if (MAX_MANIFEST_ENTRIES <? length files)%nat then tool_fail (ToolError.TooManyEntries (length files))
  else hash_entries package_dir files.

Definition render_sha256sums (entries : list ManifestEntry) : str :=
  flat_map (λ e, hex (entry_sha256 e) ++ lit "  " ++ entry_path e ++ [10]) entries.

(** ** Writing and checking *)

(** The rename, or else the removal of the target and a second rename. *)
Definition replace_output (tmp p : path) : FS unit :=
  renamed ← attempt (fs_replace tmp p);
  match renamed with
  | Ok _ => mret tt
  | Err _ => _ ← fs_remove_file p; fs_replace tmp p
  end.

Definition tmp_name (name : str) : str := name ++ lit ".tmp-" ++ show_u process_id.

(** A path of one component is replaced in the current directory, [.]. *)
Definition atomic_write (p : path) (bs : bytes) : Tool unit :=
  match path_parent p, file_name p with
  | Some parent, Some name =>
      let tmp := path_join parent (tmp_name name) in
      _ ← io "cannot write temporary file" tmp (fs_write tmp bs);
      io "cannot replace output file" p (replace_output tmp p)
  | _, _ => tool_fail (ToolError.InvalidPath p)
  end.

Definition cmd_sign (args : list str) : Tool str :=
  dir ← take_value args (lit "--package-dir");
  let package_dir := path_parse dir in
  key ← take_value args (lit "--key");
  let key_path := path_parse key in
  counter_text ← take_value args (lit "--counter");
  counter ← match parse_u 64 counter_text with
            | Some counter => mret counter
            | None => tool_fail (ToolError.Usage (lit "invalid counter value " ++ counter_text)) end;
  out ← take_optional_value args (lit "--out");
  let out_path := match out with Some out => path_parse out | None => path_join package_dir (lit "manifest.sig") end in
  secret ← load_secret_key key_path;
  entries ← build_entries package_dir out_path;
  text ← crypto "cannot sign manifest" (sign_manifest secret counter entries);
  _ ← atomic_write out_path (utf8_encode text);
  _ ← atomic_write (path_join package_dir (lit "SHA256SUMS.txt")) (utf8_encode (render_sha256sums entries));
  mret (lit "signed " ++ show_u (Z.of_nat (length entries)) ++ lit " entries in " ++ path_display package_dir ++
        lit " at release counter " ++ show_u counter ++ [10] ++ lit "  manifest: " ++ path_display out_path).

(** The components of a text: between separators, without empty ones and [.]. *)
Definition is_separator (c : Z) : bool := (c =? 47) || (c =? 92).
Fixpoint split_separators (s : str) : list str :=
  match s with
  | [] => [[]]
  | c :: t =>
      if is_separator c then [] :: split_separators t
      else match split_separators t with h :: rest => (c :: h) :: rest | [] => [[c]] end
  end.
Definition components (s : str) : path :=
  List.filter (λ c, negb (str_eqb c [] || str_eqb c (lit "."))) (split_separators s).
Definition rooted (s : str) : bool :=
  match s with
  | c :: t => is_separator c || match t with 58 :: _ => true | _ => false end
  | [] => false
  end.
(** [Path::join] with a text. *)
Definition join_text (d : path) (s : str) : path := if rooted s then rooted_path d s else d ++ components s.

Fixpoint verify_entries (package_dir : path) (manifest : SignedManifest) (entries : list ManifestEntry)
    (failures : list str) : Tool (list str) :=
  match entries with
  | [] => mret failures
  | entry :: entries =>
      let file_path := join_text package_dir (entry_path entry) in
      read ← attempt (read_bounded file_path (entry_path entry));
      failures ← match read with
        | Ok bs =>
            match verify_entry_digest manifest (entry_path entry) bs with
            | Ok _ => mret failures
            | Err cause => mret (failures ++ [entry_path entry ++ lit ": " ++ crypto_error_display cause])
            end
        | Err (ToolStop.Failed error) =>
            mret (failures ++ [entry_path entry ++ lit ": " ++ tool_error_display error])
        | Err ToolStop.OutOfFuel => fail ToolStop.OutOfFuel
        end;
      verify_entries package_dir manifest entries failures
  end.

Definition cmd_verify (args : list str) : Tool str :=
  dir ← take_value args (lit "--package-dir");
  let package_dir := path_parse dir in
  anchor_text ← take_value args (lit "--anchor");
  anchor ← load_anchor (path_parse anchor_text);
  let manifest_path := path_join package_dir (lit "manifest.sig") in
  text ← io "cannot read manifest" manifest_path (fs_read_to_string manifest_path);
  manifest ← crypto "manifest is malformed" (parse_signed_manifest text);
  let failures := match verify_manifest manifest anchor with
    | Ok _ => []
    | Err cause => [path_display manifest_path ++ lit ": signature verification failed: " ++ crypto_error_display cause]
    end in
  failures ← verify_entries package_dir manifest (manifest_entries manifest) failures;
  if bool_decide (failures = [])
  then mret (lit "verified " ++ show_u (Z.of_nat (length (manifest_entries manifest))) ++ lit " entries in " ++
             path_display package_dir)
  else tool_fail (ToolError.VerifyFailed failures).

Definition run (entropy : bytes) (args : list str) : Tool str :=
  match args with
  | [] => tool_fail (ToolError.Usage (lit "missing subcommand, expected gen-key, sign, or verify"))
  | command :: rest =>
      if str_eqb command (lit "gen-key") then cmd_gen_key entropy rest
      else if str_eqb command (lit "sign") then cmd_sign rest
      else if str_eqb command (lit "verify") then cmd_verify rest
      else tool_fail (ToolError.Usage (lit "unknown subcommand " ++ command))
  end.
End Tool.
