(* ===== verification/ManifestFacts.v ===== *)
(** * ManifestFacts: what a signed package is worth

    A package that [sign] reported as signed with a key of [gen-key] is verified
    exactly while every file that was signed has the contents it had, whatever
    calls fail on the way; and the tool always returns. *)
From S2P Require Import Prelude Text Order Hex Diagnostics Files FileFrames Dirs Crypto ManifestTool.

(** ** Computations that read

    A success leaves the nodes as they were and gives a value that depends on
    them as described. *)
Abbreviation Nodes := (gmap path Node) (only parsing).
Definition yields {E T : Type} (m : comp Fs E T) (Q : Nodes → T → Prop) : Prop :=
  ∀ s x s', m s = (Ok x, s') → nodes s' = nodes s ∧ Q (nodes s) x.

Section Yields.
Context {E : Type}.
Implicit Types n : Nodes.

Lemma yields_ret {T : Type} (x : T) (Q : Nodes → T → Prop) : (∀ n, Q n x) → yields (mret x : comp Fs E T) Q.
Proof. intros HQ s y s' [= <- <-]. done. Qed.
Lemma yields_fail {T : Type} (e : E) (Q : Nodes → T → Prop) : yields (fail e : comp Fs E T) Q.
Proof. intros s y s' [=]. Qed.
Lemma yields_get (Q : Nodes → Fs → Prop) : (∀ s, Q (nodes s) s) → yields (get : comp Fs E Fs) Q.
Proof. intros HQ s y s' [= <- <-]. done. Qed.
Lemma yields_bind {T U : Type} (m : comp Fs E T) (k : T → comp Fs E U) Q R :
  yields m Q → (∀ x, yields (k x) (λ n y, Q n x → R n y)) → yields (m ≫= k) R.
Proof.
  intros Hm Hk s y s' Hs. apply bind_ok_inv in Hs as (x & s1 & E1 & E2).
  destruct (Hm _ _ _ E1) as [N1 HQ]. destruct (Hk _ _ _ _ E2) as [N2 HR]. rewrite N1 in N2, HR. auto.
Qed.
Lemma yields_weaken {T : Type} (m : comp Fs E T) (Q R : Nodes → T → Prop) :
  yields m Q → (∀ n x, Q n x → R n x) → yields m R.
Proof. intros Hm HQ s x s' Hs. destruct (Hm _ _ _ Hs). auto. Qed.
Lemma yields_map_err {E' T : Type} (f : E' → E) (m : comp Fs E' T) Q : yields m Q → yields (map_err f m) Q.
Proof. intros Hm s x s' Hs%map_err_ok. by apply Hm. Qed.
Lemma yields_reads {T : Type} (m : comp Fs E T) : reads m → yields m (λ _ _, True).
Proof. intros Hm s x s' Hs. split; [by eapply reads_at|done]. Qed.
Lemma yields_attempt {E' T : Type} (m : comp Fs E' T) Q : reads m → yields m Q →
  yields (attempt m : comp Fs E _) (λ n r, match r with Ok x => Q n x | Err _ => True end).
Proof.
  intros Hr Hm s x s' Hs. apply attempt_inv in Hs as (y & [= ->] & Hs). split; [by eapply reads_at|].
  destruct y as [y|]; [|done]. by apply (Hm _ _ _ Hs).
Qed.
End Yields.

Lemma yields_guard : yields guard_call (λ _ _, True).
Proof. apply yields_reads, touches_guard. Qed.
Lemma yields_read p : yields (fs_read p) (λ n c, n !! p = Some (File c)).
Proof.
  apply (yields_bind _ _ _ _ yields_guard). intros _. apply (yields_bind _ _ (λ n s, nodes s = n)); [by apply yields_get|].
  intros s. destruct (nodes s !! p) as [[c|]|] eqn:E; [apply yields_ret|apply yields_fail..]. by intros n <-.
Qed.
Lemma yields_node p : yields (fs_node p) (λ n x, n !! p = Some x).
Proof.
  apply (yields_bind _ _ _ _ yields_guard). intros _. apply (yields_bind _ _ (λ n s, nodes s = n)); [by apply yields_get|].
  intros s. destruct (nodes s !! p) as [x|] eqn:E; [apply yields_ret|apply yields_fail]. by intros n <-.
Qed.
Lemma yields_len p : yields (fs_metadata_len p) (λ n len, ∀ c, n !! p = Some (File c) → len = Z.of_nat (length c)).
Proof.
  apply (yields_bind _ _ _ _ yields_guard). intros _. apply (yields_bind _ _ (λ n s, nodes s = n)); [by apply yields_get|].
  intros s. destruct (nodes s !! p) as [[c|]|] eqn:E; [apply yields_ret|apply yields_ret|apply yields_fail];
    intros n <- _ c' Hc; congruence.
Qed.
Lemma yields_read_dir d : yields (fs_read_dir d) (λ n names, ∀ name, name ∈ names ↔ is_Some (n !! path_join d name)).
Proof.
  apply (yields_bind _ _ _ _ yields_guard). intros _. apply (yields_bind _ _ (λ n s, nodes s = n)); [by apply yields_get|].
  intros s. destruct (nodes s !! d) as [[c|]|] eqn:E; [apply yields_fail|apply yields_ret|apply yields_fail].
  intros n <- _ name. apply children_spec.
Qed.

(** ** Computations that return

    With the nodes [n] they do not run out of fuel, and keep the nodes. *)
Definition returns {T : Type} (n : Nodes) (m : comp Fs ToolStop T) : Prop :=
  ∀ s, nodes s = n → (m s).1 ≠ Err ToolStop.OutOfFuel ∧ nodes (m s).2 = n.

Section Returns.
Context (n : Nodes).

Lemma returns_bind {T U : Type} (m : comp Fs ToolStop T) (k : T → comp Fs ToolStop U) Q :
  returns n m → yields m Q → (∀ x, Q n x → returns n (k x)) → returns n (m ≫= k).
Proof.
  intros Hm Hy Hk s Hs. destruct (Hm s Hs) as [H1 H2]. unfold mbind, comp_bind.
  destruct (m s) as [[x|e] s1] eqn:E1; cbn in *; [|by split; [congruence|]].
  apply Hk; [|done]. rewrite <- Hs. by apply (Hy _ _ _ E1).
Qed.
Lemma returns_ret {T : Type} (x : T) : returns n (mret x).
Proof. by intros s Hs. Qed.
Lemma returns_io {T : Type} context p (m : FS T) : reads m → returns n (io context p m).
Proof.
  intros Hm s Hs. pose proof (Hm s) as Hr. unfold io, map_err. destruct (m s) as [[x|e] s1] eqn:E1; cbn;
    (split; [done|]); apply (reads_at m s _ _ Hm) in E1; congruence.
Qed.
End Returns.

(** ** The files below a directory *)

Section Tool.
Context `{Ed25519} `{Sha256} `{IoDisplay} `{PathDisplay} `{PathParse} `{RootedPath}.

Lemma yields_io {T : Type} context p (m : FS T) Q : yields m Q → yields (io context p m) Q.
Proof. apply yields_map_err. Qed.

Lemma yields_entries dir names : yields (read_entries dir names) (λ _ l, l = names).
Proof.
  induction names as [|name names IH]; cbn [read_entries]; [by apply yields_ret|].
  eapply yields_bind; [apply yields_io, yields_guard|]. intros [].
  eapply yields_bind; [exact IH|]. intros l. apply yields_ret. by intros n -> _.
Qed.

(** A file below a child of a directory, named from the root. *)
Definition found (n : gmap path Node) (root dir : path) (name : str) (rel : path) : Prop :=
  ∃ rest c, rel = drop (length root) (dir ++ name :: rest) ∧ n !! (dir ++ name :: rest) = Some (File c).

Lemma found_child n root dir name child rel : found n root (path_join dir name) child rel → found n root dir name rel.
Proof. intros (rest & c & -> & Hc). exists (child :: rest), c. unfold path_join in *. by rewrite <- !app_assoc in *. Qed.

Definition collected (root dir : path) (names : str → Prop) (files : list path) (n : gmap path Node) (out : list path) : Prop :=
  tree (mkFs n []) → ∀ rel, rel ∈ out ↔ rel ∈ files ∨ ∃ name, names name ∧ found n root dir name rel.

Lemma yields_children collect root dir children :
  (∀ child files, yields (collect child files) (collected root child (λ _, True) files)) → ∀ files,
  yields (collect_children collect dir root children files) (collected root dir (λ name, name ∈ children) files).
Proof.
  intros Hc. induction children as [|name children IH]; intros files; cbn [collect_children].
  { apply yields_ret. intros n _ rel. split; [by left|]. intros [|(name & Hn & _)]; [done|by apply elem_of_nil in Hn]. }
  eapply yields_bind; [apply yields_io, yields_node|]. intros node.
  set (mid := λ (n : gmap path Node) (out : list path), n !! path_join dir name = Some node → tree (mkFs n []) → ∀ rel,
    rel ∈ out ↔ rel ∈ files ∨ found n root dir name rel).
  apply (yields_bind _ _ mid).
  - destruct node as [c|]; [apply yields_ret; intros n|eapply yields_weaken; [apply Hc|intros n out]].
    + intros Hn Ht rel. rewrite elem_of_app, list_elem_of_singleton. apply or_iff_compat_l. split.
      * intros ->. by exists [], c.
      * intros ([|x rest] & c' & -> & Hf); [done|]. exfalso.
        assert (nodes (mkFs n []) !! path_join dir name = Some Dir) as Hd; [|cbn in Hd; congruence].
        apply (tree_prefix _ _ (x :: rest)); [done| |by destruct dir|done]. unfold path_join. rewrite <- app_assoc. cbn. eauto.
    + intros Ho Hn Ht rel. rewrite (Ho Ht). apply or_iff_compat_l. split.
      * intros (child & _ & Hf). by apply found_child in Hf.
      * intros ([|x rest] & c' & -> & Hf); [unfold path_join in Hn; congruence|]. exists x. split; [done|].
        exists rest, c'. unfold path_join. by rewrite <- !app_assoc.
  - intros out. eapply yields_weaken; [apply IH|]. intros n fin Hf Ho Hn Ht rel. rewrite (Hf Ht), (Ho Hn Ht).
    setoid_rewrite elem_of_cons. naive_solver.
Qed.

Lemma yields_collect fuel root : ∀ dir files,
  yields (collect_files fuel root dir files) (collected root dir (λ _, True) files).
Proof.
  induction fuel as [|fuel IH]; intros dir files; cbn [collect_files]; [apply yields_fail|].
  eapply yields_bind; [apply yields_io, yields_read_dir|]. intros names.
  eapply yields_bind; [apply yields_entries|]. intros l.
  eapply yields_weaken; [by apply yields_children|]. intros n out Ho -> Hn Ht rel. rewrite (Ho Ht).
  apply or_iff_compat_l. setoid_rewrite sort_by_perm. split; [naive_solver|]. intros (name & _ & Hf).
  exists name. split; [|done]. apply Hn. destruct Hf as (rest & c & _ & Hc). destruct rest as [|x rest]; [by eexists|].
  exists Dir. apply (tree_prefix (mkFs n []) _ (x :: rest)); [done| |by destruct dir|done].
  unfold path_join. rewrite <- app_assoc. cbn. eauto.
Qed.

(** ** Paths and their texts *)

(** The name of a directory entry on Windows. *)
Definition plain_name (name : str) : Prop :=
  name ≠ [] ∧ name ≠ lit "." ∧ Forall (λ c, is_separator c = false ∧ c ≠ 58) name.

Lemma split_separators_name name t : Forall (λ c, is_separator c = false ∧ c ≠ 58) name →
  split_separators (name ++ 47 :: t) = name :: split_separators t ∧ split_separators name = [name].
Proof.
  induction 1 as [|c name [Hc _] _ [IH1 IH2]]; [done|]. cbn [app split_separators]. by rewrite Hc, IH1, IH2.
Qed.

Lemma text_join rel : Forall plain_name rel →
  map (λ c, if c =? 92 then 47 else c) (join [92] rel) = join [47] rel.
Proof.
  induction 1 as [|name rel (_ & _ & Hn) _ IH]; [done|].
  assert (map (λ c, if c =? 92 then 47 else c) name = name) as Hm.
  { induction Hn as [|c name [Hc _] _ IHn]; [done|]. cbn [map]. rewrite IHn. unfold is_separator in Hc.
    by destruct (c =? 92); [rewrite orb_true_r in Hc|]. }
  destruct rel as [|name' rel]; [exact Hm|]. cbn [join] in *. by rewrite !map_app, Hm, IH.
Qed.

Lemma split_join_names name rel : Forall plain_name (name :: rel) → split_separators (join [47] (name :: rel)) = name :: rel.
Proof.
  revert name. induction rel as [|name' rel IH]; intros name [(_ & _ & Hn) Hr]%Forall_cons_1.
  - by apply split_separators_name.
  - change (join [47] (name :: name' :: rel)) with (name ++ 47 :: join [47] (name' :: rel)).
    destruct (split_separators_name name (join [47] (name' :: rel)) Hn) as [-> _]. by rewrite IH.
Qed.

Lemma path_text_components rel t : rel ≠ [] → Forall plain_name rel → path_text rel = Some t →
  components t = rel ∧ rooted t = false ∧ Forall (λ c, is_scalar c = true) t.
Proof.
  intros Hne Hp. unfold path_text. destruct (forallb _ rel) eqn:Es; [|done]. rewrite text_join by done. intros [= <-].
  destruct rel as [|name rel]; [done|]. split_and!.
  - unfold components. rewrite split_join_names by done. clear Es Hne. induction Hp as [|x l (H5 & H6 & _) _ IH]; [done|].
    cbn [List.filter]. assert (str_eqb x [] || str_eqb x (lit ".") = false) as ->; [|cbn; by rewrite IH].
    apply orb_false_iff. split; by apply not_true_is_false; rewrite str_eqb_spec.
  - apply Forall_cons_1 in Hp as [(Hn & _ & Hc) _]. destruct name as [|c name]; [done|].
    assert (∃ u, join [47] ((c :: name) :: rel) = c :: u ∧ ∀ u', u ≠ 58 :: u') as (u & -> & Hu).
    { apply Forall_cons_1 in Hc as [_ Hc]. destruct rel as [|name' rel]; cbn [join app].
      - exists name. split; [done|]. intros u' ->. by apply Forall_cons_1 in Hc as [[_ ?] _].
      - eexists. split; [reflexivity|]. intros u' Hu. destruct name as [|d name]; [done|].
        injection Hu as -> _. by apply Forall_cons_1 in Hc as [[_ ?] _]. }
    apply Forall_cons_1 in Hc as [[Hc _] _]. cbn [rooted]. rewrite Hc.
    destruct u as [|d u]; [done|]. destruct (Z.eq_dec d 58) as [->|Hd]; [by destruct (Hu u)|].
    by repeat (destruct d as [|d|d]; try done).
  - clear Hne Hp. revert Es. generalize (name :: rel). intros l. induction l as [|x l IH]; [constructor|].
    cbn [forallb]. intros [Hx Hl]%andb_prop. specialize (IH Hl).
    assert (Forall (λ c, is_scalar c = true) x) as Hx'.
    { apply Forall_forall. intros c Hc. rewrite forallb_forall in Hx. by apply Hx, list_elem_of_In. }
    destruct l; [done|]. cbn [join]. repeat (apply Forall_app; split); [done|by repeat constructor|done].
Qed.

Lemma join_text_spec d rel t : rel ≠ [] → Forall plain_name rel → path_text rel = Some t → join_text d t = d ++ rel.
Proof. intros Hr Hp Ht. destruct (path_text_components rel t Hr Hp Ht) as (Hc & Hro & _). unfold join_text. by rewrite Hro, Hc. Qed.

(** ** The signed entries *)

Lemma yields_same left right : yields (same_path left right) (λ _ b, b = bool_decide (left = right)).
Proof.
  unfold same_path. destruct (decide (left = right)) as [->|Hne].
  { rewrite bool_decide_eq_true_2 by done. by apply yields_ret. }
  rewrite (bool_decide_eq_false_2 (left = right)) by done.
  assert (∀ p, yields (attempt (canonicalize p) : comp Fs ToolStop _) (λ _ r, match r with Ok q => q = p | Err _ => True end)) as Hc.
  { intros p. apply yields_attempt; [unfold canonicalize, fs_node; touches_tac|].
    eapply yields_bind; [apply yields_node|]. intros x. by apply yields_ret. }
  eapply yields_bind; [apply Hc|]. intros [l|]; (eapply yields_bind; [apply Hc|]; intros [r|]; apply yields_ret; try done).
  intros n -> ->. by rewrite bool_decide_eq_false_2.
Qed.

Lemma yields_retain package_dir out_path files :
  yields (retain_included package_dir out_path files) (λ _ kept,
    (length kept ≤ length files)%nat ∧
    ∀ rel, rel ∈ kept ↔ rel ∈ files ∧ excluded_name rel = false ∧ package_dir ++ rel ≠ out_path).
Proof.
  induction files as [|rel files IH]; cbn [retain_included].
  { apply yields_ret. intros _. split; [done|]. intros rel. rewrite elem_of_nil. naive_solver. }
  eapply (yields_bind _ _ (λ _ b, b = excluded_name rel || bool_decide (package_dir ++ rel = out_path))).
  { unfold is_excluded. destruct (excluded_name rel); [by apply yields_ret|apply yields_same]. }
  intros excluded. eapply yields_bind; [exact IH|]. intros kept. apply yields_ret. intros n [Hl Hk] ->.
  destruct (_ || _) eqn:E; cbn [length]; (split; [lia|]); intros rel'; rewrite ?elem_of_cons, Hk.
  - apply orb_true_iff in E as [E|E%bool_decide_eq_true]; naive_solver congruence.
  - apply orb_false_iff in E as [E1 E2%bool_decide_eq_false]. naive_solver.
Qed.

Lemma yields_chunks fuel : ∀ bs, (length bs ≤ fuel)%nat → yields (read_chunks fuel bs) (λ _ out, out = bs).
Proof.
  induction fuel as [|fuel IH]; intros bs Hl; cbn [read_chunks]; (eapply yields_bind; [apply yields_guard|]; intros []).
  { destruct bs; [by apply yields_ret|cbn in Hl; lia]. }
  destruct bs as [|b bs]; [by apply yields_ret|]. set (k := Z.to_nat 65536). assert (1 ≤ k)%nat by (unfold k; lia).
  eapply yields_bind; [apply IH; rewrite length_drop; cbn in *; lia|]. intros rest. apply yields_ret.
  intros n -> _. apply take_drop.
Qed.

Lemma yields_hash p relative :
  yields (hash_file p relative) (λ n d, ∃ c, n !! p = Some (File c) ∧ Z.of_nat (length c) ≤ MAX_ENTRY_BYTES ∧ d = sha256 c).
Proof.
  eapply yields_bind; [apply yields_io, yields_len|]. intros len.
  destruct (MAX_ENTRY_BYTES <? len) eqn:El; [apply yields_fail|].
  eapply yields_bind; [apply yields_io, yields_read|]. intros c.
  eapply yields_bind; [by apply yields_io, yields_chunks|]. intros c'. apply yields_ret.
  intros n -> Hc Hlen. exists c. specialize (Hlen c Hc). split_and!; [done|lia|done].
Qed.

(** The entry of a file, by its path below the package. *)
Definition entry_of (n : gmap path Node) (package_dir rel : path) (e : ManifestEntry) : Prop :=
  ∃ t c, path_text rel = Some t ∧ t ≠ [] ∧ Forall (λ c, is_whitespace c = false) t ∧
    str_len t ≤ MAX_MANIFEST_LINE_BYTES - 71 ∧
    n !! (package_dir ++ rel) = Some (File c) ∧ Z.of_nat (length c) ≤ MAX_ENTRY_BYTES ∧ e = mkEntry t (sha256 c).

Lemma yields_validate t :
  yields (validate_manifest_path t) (λ _ _, t ≠ [] ∧ Forall (λ c, is_whitespace c = false) t).
Proof.
  unfold validate_manifest_path. destruct (_ || _) eqn:E; [apply yields_fail|]. apply yields_ret. intros _.
  apply orb_false_iff in E as [[E1 E2]%orb_false_iff _]. apply bool_decide_eq_false in E1. split; [done|].
  by apply existsb_false.
Qed.

Lemma yields_entries_hashed package_dir files :
  yields (hash_entries package_dir files) (λ n es, Forall2 (entry_of n package_dir) files es).
Proof.
  induction files as [|rel files IH]; cbn [hash_entries]; [apply yields_ret; by constructor|].
  destruct (path_text rel) as [t|] eqn:Et; [|by intros s y s' [=]].
  eapply (yields_bind _ _ (λ _ x, x = t)); [by apply yields_ret|]. intros t'.
  eapply yields_bind; [apply yields_validate|]. intros [].
  eapply (yields_bind _ _ (λ _ _, MAX_MANIFEST_LINE_BYTES <? ENTRY_LINE_OVERHEAD + str_len t' = false)).
  { destruct (_ <? _); [apply yields_fail|by apply yields_ret]. }
  intros []. eapply yields_bind; [apply yields_hash|]. intros d. eapply yields_bind; [exact IH|]. intros es.
  apply yields_ret. intros n Hes (c & Hc & Hl & ->) Ho [Hne Hw] ->. constructor; [|done].
  exists t, c. split_and!; try done. change ENTRY_LINE_OVERHEAD with 71 in Ho. lia.
Qed.

(** What [build_entries] makes of a package: the entries of the files that are not
    excluded. *)
Definition package_entries (n : gmap path Node) (package_dir out_path : path) (es : list ManifestEntry) : Prop :=
  (length es ≤ MAX_MANIFEST_ENTRIES)%nat ∧
  (tree (mkFs n []) →
    (∀ rel c, rel ≠ [] → n !! (package_dir ++ rel) = Some (File c) → excluded_name rel = false →
      package_dir ++ rel ≠ out_path → ∃ e, e ∈ es ∧ entry_of n package_dir rel e) ∧
    (∀ e, e ∈ es → ∃ rel, rel ≠ [] ∧ excluded_name rel = false ∧ package_dir ++ rel ≠ out_path ∧
      entry_of n package_dir rel e)).

Lemma yields_build package_dir out_path :
  yields (build_entries package_dir out_path) (λ n es, package_entries n package_dir out_path es).
Proof.
  eapply (yields_bind _ _ (λ _ _, True)); [by apply yields_get|]. intros s.
  eapply yields_bind; [apply yields_collect|]. intros files.
  eapply yields_bind; [apply yields_retain|]. intros kept.
  destruct (_ <? _)%nat eqn:El; [apply yields_fail|]. apply Nat.ltb_ge in El.
  eapply yields_weaken; [apply yields_entries_hashed|]. intros n es Hes [_ Hk] Hf _.
  split; [by rewrite <- (Forall2_length _ _ _ Hes)|]. intros Ht. specialize (Hf Ht). split.
  - intros rel c Hr Hc He Ho. destruct rel as [|name rest]; [done|].
    assert (name :: rest ∈ kept) as Hin.
    { apply Hk. split_and!; [|done..]. apply Hf. right. exists name. split; [done|]. exists rest, c.
      by rewrite drop_app_length. }
    apply list_elem_of_lookup_1 in Hin as [i Hi]. destruct (Forall2_lookup_l _ _ _ _ _ Hes Hi) as (e & Hi' & He').
    exists e. split; [by eapply list_elem_of_lookup_2|done].
  - intros e [i Hi]%list_elem_of_lookup_1. destruct (Forall2_lookup_r _ _ _ _ _ Hes Hi) as (rel & Hi' & He).
    apply list_elem_of_lookup_2, Hk in Hi' as (Hin & Hx & Ho). exists rel. split_and!; [|done..].
    apply Hf in Hin as [Hin|(name & _ & rest & c & -> & _)]; [by apply elem_of_nil in Hin|]. by rewrite drop_app_length.
Qed.

(** ** The commands *)

(** The value an argument list gives to a flag. *)
Definition value_of (args : list str) (flag : str) : option str :=
  match after_flag args flag with Some (Some v) => if is_value v then Some v else None | _ => None end.

Lemma take_value_run args flag s : take_value args flag s =
  (match value_of args flag with
   | Some v => Ok v
   | None => Err (ToolStop.Failed (ToolError.Usage
       ((if bool_decide (after_flag args flag = None) then lit "missing required argument " else lit "missing value for ") ++ flag)))
   end, s).
Proof. unfold take_value, value_of. destruct (after_flag args flag) as [[v|]|]; [by destruct (is_value v)|done..]. Qed.
Lemma take_value_bind {T : Type} args flag v (k : str → comp Fs ToolStop T) s :
  value_of args flag = Some v → (take_value args flag ≫= k) s = k v s.
Proof. intros Hv. unfold mbind, comp_bind. by rewrite take_value_run, Hv. Qed.

Lemma replace_output_ok tmp p bs s s' : tmp ≠ p → content_at s tmp = Some bs →
  replace_output tmp p s = (Ok tt, s') → content_at s' p = Some bs ∧ same_but [tmp; p] s s'.
Proof.
  intros Hne Hc Hr. assert (∀ s1, nodes s1 !! tmp = Some (File bs) → fs_replace tmp p s1 = (Ok tt, s') →
    content_at s' p = Some bs ∧ same_but [tmp; p] s1 s') as Hok.
  { intros s1 Hs1 H5%(replace_ok _ _ _ _ bs); [|done]. split.
    - unfold content_at. by rewrite H5, lookup_insert_eq.
    - intros q Hq. rewrite H5, lookup_insert_ne, lookup_delete_ne by set_solver. done. }
  assert (nodes s !! tmp = Some (File bs)) as Hn.
  { unfold content_at in Hc. by destruct (nodes s !! tmp) as [[]|]; [injection Hc as ->|..]. }
  apply bind_ok_inv in Hr as (x & s1 & E1 & Hr). apply attempt_inv in E1 as (y & [= ->] & E1).
  destruct y as [[]|e]; [injection Hr as <-; by apply Hok|].
  apply replace_err in E1. apply bind_ok_inv in Hr as ([] & s2 & E2 & Hr).
  assert (same_but [tmp; p] s s2) as Hs.
  { intros q Hq. rewrite <- E1. eapply (touches_at [p]); [|exact E2|set_solver]. apply touches_remove. set_solver. }
  assert (nodes s2 !! tmp = Some (File bs)) as Hn2.
  { rewrite <- Hn, <- E1. exact (leaves_at tmp _ _ _ _ (leaves_remove tmp p Hne) E2). }
  destruct (Hok s2 Hn2 Hr) as [H5 H6]. split; [done|]. by eapply same_but_trans.
Qed.

Context (process_id : Z).

Lemma tmp_name_ne d d' name : path_join d (tmp_name process_id name) ≠ path_join d' name.
Proof.
  apply join_ne. unfold tmp_name. intros Hn%(f_equal length). rewrite !length_app in Hn.
  change (length (lit ".tmp-")) with 5%nat in Hn. lia.
Qed.

Lemma atomic_write_ok d name bs s x s' : atomic_write process_id (path_join d name) bs s = (Ok x, s') →
  content_at s' (path_join d name) = Some bs ∧
  same_but [path_join d (tmp_name process_id name); path_join d name] s s'.
Proof.
  unfold atomic_write. rewrite path_parent_join, file_name_join. intros Hw.
  apply bind_ok_inv in Hw as ([] & s1 & E1%map_err_ok & E2%map_err_ok). destruct x.
  pose proof (write_ok _ _ _ _ E1) as Hc. destruct (replace_output_ok _ _ _ _ _ (tmp_name_ne d d name) Hc E2) as [H5 H6].
  split; [done|]. eapply same_but_trans; [|exact H6]. intros q Hq.
  apply (leaves_at q _ _ _ _ (leaves_write q (path_join d (tmp_name process_id name)) bs ltac:(set_solver)) E1).
Qed.

(** The key that a file holds. *)
Definition key_in (n : nat) (bs k : bytes) : Prop :=
  if (length bs =? n)%nat then k = bs else ∃ t, utf8_decode bs = Some t ∧ decode_hex_lower n t = Ok k.

Lemma crypto_ok {T : Type} context (r : result CryptoError T) s x s' : crypto context r s = (Ok x, s') → r = Ok x ∧ s' = s.
Proof. destruct r; [by intros [= <- <-]|done]. Qed.
Lemma yields_crypto {T : Type} context (r : result CryptoError T) : yields (crypto context r) (λ _ x, r = Ok x).
Proof. intros s x s' [Hr ->]%crypto_ok. done. Qed.

Lemma yields_key n p : yields (load_key_bytes n p) (λ nd k, ∃ bs, nd !! p = Some (File bs) ∧ key_in n bs k).
Proof.
  eapply yields_bind; [apply yields_io, yields_read|]. intros bs. unfold key_in.
  destruct (_ =? _)%nat eqn:El; [apply yields_ret; intros nd Hn; exists bs; by rewrite El|].
  eapply yields_bind; [apply yields_crypto|]. intros t. eapply yields_weaken; [apply yields_crypto|].
  intros nd k Hk Ht Hn. exists bs. split; [done|]. rewrite El. exists t. split; [|done]. by destruct (utf8_decode bs); [injection Ht as ->|].
Qed.

Lemma generated_key_in entropy k : length entropy = SECRET_KEY_LEN → all_bytes entropy →
  key_in SECRET_KEY_LEN (utf8_encode (hex entropy ++ [10])) k → k = entropy.
Proof.
  intros Hl Hb. unfold key_in. assert (Forall (λ c, 0 ≤ c < 128) (hex entropy ++ [10])) as Ha.
  { apply Forall_app. split; [by apply hex_ascii|]. by repeat constructor. }
  rewrite utf8_encode_ascii, length_app, hex_length, Hl by done. change ((_ =? _)%nat) with false. cbv iota.
  intros (t & Ht & Hk). rewrite <- (utf8_encode_ascii _ Ha), utf8_decode_encode in Ht.
  2:{ eapply Forall_impl; [exact Ha|]. unfold is_scalar. intros c Hc. lia. }
  injection Ht as <-. unfold decode_hex_lower in Hk. unfold trim in Hk. rewrite trim_trailing in Hk; [|done|].
  - rewrite hex_str_len, Hl, utf8_encode_ascii in Hk by (done || by apply hex_ascii). cbn [negb] in Hk.
    destruct (decode_pairs_hex entropy Hb) as [Hd _]. change (negb _) with false in Hk. cbv iota in Hk. congruence.
  - destruct (decode_pairs_hex entropy Hb) as [_ Hx]. rewrite forallb_forall in Hx.
    assert (∀ c, c ∈ hex entropy → is_whitespace c = false) as Hw.
    { intros c Hc%list_elem_of_In%Hx. unfold lower_hex, is_ascii_digit, is_whitespace in *. lia. }
    split; intros c Hc; apply Hw; [by apply head_Some_elem_of|by apply last_Some_elem_of].
Qed.

Definition anchor_of (out_dir : path) : path := path_join out_dir (lit "trust-anchor.pub").
Definition secret_of (out_dir : path) : path := path_join out_dir (lit "signing-key.sec").
Definition manifest_of (package_dir : path) : path := path_join package_dir (lit "manifest.sig").

Lemma gen_key_ok entropy args dir s m s' : value_of args (lit "--out-dir") = Some dir →
  cmd_gen_key entropy args s = (Ok m, s') →
  content_at s' (anchor_of (path_parse dir)) = Some (ed_public entropy) ∧
  content_at s' (secret_of (path_parse dir)) = Some (utf8_encode (hex entropy ++ [10])).
Proof.
  intros Hd. unfold cmd_gen_key. rewrite (take_value_bind _ _ dir) by done. cbv zeta. intros Hg.
  apply bind_ok_inv in Hg as (_ & s1 & _ & Hg). apply bind_ok_inv in Hg as (_ & s2 & _ & Hg).
  unfold generate_keypair in Hg. apply bind_ok_inv in Hg as ([] & s3 & E3%map_err_ok & Hg).
  apply bind_ok_inv in Hg as ([] & s4 & E4%map_err_ok & Hg). injection Hg as _ <-. fold (anchor_of (path_parse dir)) in E3.
  fold (secret_of (path_parse dir)) in E4. split; [|by eapply write_ok].
  rewrite <- (write_ok _ _ _ _ E3). apply content_same.
  refine (leaves_at _ _ _ _ _ (leaves_write _ _ _ _) E4). by apply join_last_ne.
Qed.

Lemma sign_ok args dir key s m s' :
  value_of args (lit "--package-dir") = Some dir → value_of args (lit "--key") = Some key →
  after_flag args (lit "--out") = None → cmd_sign process_id args s = (Ok m, s') →
  ∃ bs secret counter es text, nodes s !! path_parse key = Some (File bs) ∧ key_in SECRET_KEY_LEN bs secret ∧
    is_u64 counter ∧ package_entries (nodes s) (path_parse dir) (manifest_of (path_parse dir)) es ∧
    sign_manifest secret counter es = Ok text ∧
    content_at s' (manifest_of (path_parse dir)) = Some (utf8_encode text).
Proof.
  intros Hd Hk Ho. unfold cmd_sign. rewrite (take_value_bind _ _ dir) by done. cbv zeta.
  rewrite (take_value_bind _ _ key) by done. intros Hs.
  apply bind_ok_inv in Hs as (ct & s1 & E1 & Hs). rewrite take_value_run in E1.
  destruct (value_of args (lit "--counter")); [|done]. injection E1 as -> <-.
  apply bind_ok_inv in Hs as (counter & s1 & E1 & Hs). destruct (parse_u 64 ct) as [c|] eqn:Ec; [|done]. injection E1 as -> <-.
  unfold take_optional_value in Hs. rewrite Ho in Hs.
  apply bind_ok_inv in Hs as (out & s1 & E1 & Hs). injection E1 as <- <-.
  apply bind_ok_inv in Hs as (secret & s1 & E1 & Hs). destruct (yields_key _ _ _ _ _ E1) as [N1 (bs & Hb & Hks)].
  apply bind_ok_inv in Hs as (es & s2 & E2 & Hs). destruct (yields_build _ _ _ _ _ E2) as [N2 Hes].
  apply bind_ok_inv in Hs as (text & s3 & E3 & Hs). apply crypto_ok in E3 as [Et ->].
  apply bind_ok_inv in Hs as ([] & s4 & E4 & Hs). apply bind_ok_inv in Hs as ([] & s5 & E5 & Hs). injection Hs as _ <-.
  exists bs, secret, counter, es, text. rewrite N1 in Hes. split_and!; try done.
  - by apply parse_u_bound in Ec.
  - apply atomic_write_ok in E4 as [Hc _]. apply atomic_write_ok in E5 as [_ Hs]. fold (manifest_of (path_parse dir)) in Hc.
    rewrite <- Hc. apply content_same, Hs. rewrite !not_elem_of_cons. split_and!; [..|apply not_elem_of_nil].
    + apply join_ne. unfold tmp_name. intros Hn%(f_equal length). rewrite !length_app in Hn.
      change (length (lit "manifest.sig")) with 12%nat in Hn. change (length (lit "SHA256SUMS.txt")) with 14%nat in Hn. lia.
    + by apply join_last_ne.
Qed.

(** ** Verification *)

Definition entry_stands (n : gmap path Node) (package_dir : path) (m : SignedManifest) (e : ManifestEntry) : Prop :=
  ∃ c, n !! join_text package_dir (entry_path e) = Some (File c) ∧ verify_entry_digest m (entry_path e) c = Ok tt.

Lemma reads_bounded p t : reads (read_bounded p t).
Proof. unfold read_bounded, tool_fail, io, fs_metadata_len. touches_tac. Qed.

Lemma yields_verify package_dir m es : ∀ fs, yields (verify_entries package_dir m es fs) (λ n out,
  out = [] → fs = [] ∧ Forall (entry_stands n package_dir m) es).
Proof.
  induction es as [|e es IH]; intros fs; cbn [verify_entries]; cbv zeta; [by apply yields_ret|].
  eapply yields_bind.
  { apply yields_attempt; [apply reads_bounded|].
    apply (yields_bind _ _ (λ _ _, True)); [apply yields_reads; unfold io, fs_metadata_len; touches_tac|]. intros len.
    destruct (MAX_ENTRY_BYTES <? len); [apply yields_fail|].
    eapply yields_weaken; [apply yields_io, yields_read|]. intros n c Hc _. exact Hc. }
  intros r. set (step := λ (n : gmap path Node) (out : list str),
    match r with Ok c => n !! join_text package_dir (entry_path e) = Some (File c) | Err _ => True end → out = [] →
    fs = [] ∧ entry_stands n package_dir m e).
  apply (yields_bind _ _ step).
  - assert (∀ x, yields (mret (fs ++ [x]) : comp Fs ToolStop (list str)) step) as Hx.
    { intros x. apply yields_ret. intros n _ Hf. by apply app_eq_nil in Hf as [_ ?]. }
    destruct r as [c|[error|]]; [|apply Hx|apply yields_fail].
    destruct (verify_entry_digest m (entry_path e) c) as [[]|] eqn:Ed; [|apply Hx].
    apply yields_ret. intros n Hc Hf. split; [done|]. by exists c.
  - intros out. eapply yields_weaken; [apply IH|]. intros n fin Hfin Hstep Hr Hf.
    destruct (Hfin Hf) as [-> Hes]. destruct (Hstep Hr eq_refl) as [-> He]. split; [done|]. by constructor.
Qed.

(** Without failing calls, the entries that stand leave no failure. *)
Lemma verify_stands package_dir m es s fs : faults s = [] →
  Forall (λ e, ∃ c, nodes s !! join_text package_dir (entry_path e) = Some (File c) ∧
    Z.of_nat (length c) ≤ MAX_ENTRY_BYTES ∧ verify_entry_digest m (entry_path e) c = Ok tt) es →
  verify_entries package_dir m es fs s = (Ok fs, s).
Proof.
  intros Hf. induction 1 as [|e es (c & Hc & Hl & Hd) _ IH]; [done|]. cbn [verify_entries]. cbv zeta.
  assert (read_bounded (join_text package_dir (entry_path e)) (entry_path e) s = (Ok c, s)) as Hr.
  { unfold read_bounded, io. assert (fs_metadata_len (join_text package_dir (entry_path e)) s = (Ok (Z.of_nat (length c)), s)) as Hm.
    { unfold fs_metadata_len, guard_call, next_fault, mbind, comp_bind. rewrite Hf. cbn. by rewrite Hc. }
    rewrite (bind_run _ _ _ (Z.of_nat (length c)) s) by (unfold map_err; by rewrite Hm).
    assert (MAX_ENTRY_BYTES <? Z.of_nat (length c) = false) as -> by lia.
    unfold map_err. rewrite run_read by done. by rewrite Hc. }
  rewrite (bind_run _ _ _ (Ok c) s) by (by apply attempt_run). rewrite Hd. exact IH.
Qed.

(** ** From the key to the check *)

(** A file of a package that is part of what is signed. *)
Definition packaged (s : Fs) (package_dir rel : path) (c : bytes) : Prop :=
  rel ≠ [] ∧ excluded_name rel = false ∧ content_at s (package_dir ++ rel) = Some c.
(** Below a package stand only names that Windows allows. *)
Definition plain_below (s : Fs) (package_dir : path) : Prop :=
  ∀ rel, rel ≠ [] → is_Some (nodes s !! (package_dir ++ rel)) → Forall plain_name rel.

Context `{!Ed25519Laws} (sha256_digest : ∀ m, digest_wf 32 (sha256 m)).

Lemma length_dedup es : (length (dedup es) ≤ length es)%nat.
Proof.
  destruct es as [|e es]; [done|]. cbn [dedup]. revert e. induction es as [|x es IH]; intros e; cbn [dedup_from length] in *; [lia|].
  destruct (str_eqb _ _); [specialize (IH e)|specialize (IH x)]; cbn [length] in *; lia.
Qed.

Lemma content_file s p c : content_at s p = Some c → nodes s !! p = Some (File c).
Proof. unfold content_at. by destruct (nodes s !! p) as [[]|]; [intros [= ->]|..]. Qed.

Lemma manifest_excluded package_dir rel : excluded_name rel = false → package_dir ++ rel ≠ manifest_of package_dir.
Proof. intros Hx ->%(app_inv_head package_dir rel [_]). done. Qed.

(** The entry [e] of the manifest [m] is about the packaged file [rel] with the contents [c]. *)
Definition about (s : Fs) (package_dir : path) (m : SignedManifest) (e : ManifestEntry) (rel : path) (c : bytes) : Prop :=
  packaged s package_dir rel c ∧ join_text package_dir (entry_path e) = package_dir ++ rel ∧
  ∀ c', verify_entry_digest m (entry_path e) c' = Ok tt ↔ sha256 c' = sha256 c.

Section Signed.
Context (s : Fs) (package_dir : path) (es : list ManifestEntry).
Hypothesis Htree : tree s.
Hypothesis Hplain : plain_below s package_dir.
Hypothesis Hes : package_entries (nodes s) package_dir (manifest_of package_dir) es.

Lemma signed_of e : e ∈ es → ∃ rel, rel ≠ [] ∧ excluded_name rel = false ∧ Forall plain_name rel ∧ entry_of (nodes s) package_dir rel e.
Proof.
  intros He. destruct Hes as [_ Hall]. destruct (Hall Htree) as [_ Hof]. destruct (Hof e He) as (rel & Hr & Hx & _ & Heo).
  exists rel. split_and!; [done..| |done]. destruct Heo as (t & c & _ & _ & _ & _ & Hn & _). apply Hplain; [done|by eexists].
Qed.

Lemma signed_wf : Forall entry_wf es.
Proof.
  apply Forall_forall. intros e (rel & Hr & _ & Hpl & He)%signed_of.
  destruct He as (t & c & Hpt & Hne & Hw & Hlt & _ & _ & ->). split; [|apply sha256_digest]. split; [done|]. split; [|done].
  destruct (path_text_components rel t Hr Hpl Hpt) as (_ & _ & Hsc).
  apply Forall_forall. intros x Hx. rewrite Forall_forall in Hw, Hsc. auto.
Qed.

Lemma find_path_in p l : p ∈ map entry_path l → ∃ e, find_path p l = Some e ∧ e ∈ l ∧ entry_path e = p.
Proof.
  intros (e & -> & He)%list_elem_of_fmap. destruct (find_path (entry_path e) l) as [e'|] eqn:Ef.
  - exists e'. apply List.find_some in Ef as [Hi Hp]. by apply list_elem_of_In in Hi; apply str_eqb_spec in Hp.
  - apply list_elem_of_In in He. apply (List.find_none _ _ Ef) in He. by rewrite (proj2 (str_eqb_spec _ _) eq_refl) in He.
Qed.

(** The manifest gives every signed path the digest of its file. *)
Lemma signed_about m rel c e : (∀ p, find_path p (manifest_entries m) = find_path p es) → e ∈ es →
  packaged s package_dir rel c → entry_of (nodes s) package_dir rel e →
  ∃ e', e' ∈ manifest_entries m ∧ entry_path e' = entry_path e ∧ about s package_dir m e' rel c.
Proof.
  intros Hfind He Hpk (t & c0 & Hpt & _ & _ & _ & Hn & _ & ->). cbn [entry_path] in *.
  destruct Hpk as (Hr & Hx & Hc). pose proof (content_file _ _ _ Hc) as Hcf. assert (c0 = c) as -> by congruence.
  assert (Forall plain_name rel) as Hpl by (apply Hplain; [done|by eexists]).
  destruct (path_text_components rel t Hr Hpl Hpt) as (Hcomp & _ & _).
  assert (t ∈ map entry_path es) as Hin by (apply list_elem_of_fmap; by exists (mkEntry t (sha256 c))).
  destruct (find_path_in t es Hin) as (e1 & Hf1 & (rel1 & Hr1 & _ & Hpl1 & He1)%signed_of & Hp1).
  destruct He1 as (t1 & c1 & Hpt1 & _ & _ & _ & Hn1 & _ & ->). cbn [entry_path] in Hp1. subst t1.
  destruct (path_text_components rel1 t Hr1 Hpl1 Hpt1) as (Hcomp1 & _ & _).
  assert (rel1 = rel) as -> by congruence. assert (c1 = c) as -> by congruence.
  rewrite <- Hfind in Hf1. exists (mkEntry t (sha256 c)). split; [by apply List.find_some, proj1, list_elem_of_In in Hf1|].
  split; [done|]. split; [done|]. cbn [entry_path]. split; [by apply join_text_spec|]. intros c'.
  unfold verify_entry_digest. fold (find_path t (manifest_entries m)). rewrite Hf1. cbn.
  destruct (bytes_eqb (sha256 c') (sha256 c)) eqn:Eb; [by apply bytes_eqb_spec in Eb|].
  split; [done|]. intros Hs%bytes_eqb_spec. congruence.
Qed.

(** The manifest of a signed package, as a reader finds it. *)
Lemma signed_manifest_reads secret counter text :
  length secret = SECRET_KEY_LEN → is_u64 counter → sign_manifest secret counter es = Ok text →
  ∃ m, utf8_decode (utf8_encode text) = Some text ∧ parse_signed_manifest text = Ok m ∧
    verify_manifest m (mkAnchor (ed_public secret)) = Ok tt ∧
    (∀ rel c, packaged s package_dir rel c → ∃ e, e ∈ manifest_entries m ∧ about s package_dir m e rel c) ∧
    (∀ e, e ∈ manifest_entries m → ∃ rel c, about s package_dir m e rel c).
Proof.
  intros Hl Hc Hsign.
  destruct (sign_manifest_verifies secret counter es Hl Hc signed_wf) as (text' & m & E1 & Hsc & E2 & E3 & _ & Hfind).
  { etransitivity; [apply length_dedup|]. rewrite (Permutation_length (sort_by_perm entry_le es)). apply Hes. }
  assert (text' = text) as -> by congruence. exists m. split_and!; [by apply utf8_decode_encode|done..| |].
  - intros rel c Hpk. destruct Hes as [_ Hall]. destruct (Hall Htree) as [Hin _]. pose proof Hpk as (Hr & Hx & Hcf%content_file).
    destruct (Hin rel c Hr Hcf Hx (manifest_excluded _ _ Hx)) as (e & He & Heo).
    destruct (signed_about m rel c e Hfind He Hpk Heo) as (e' & He' & _ & Hab). by exists e'.
  - intros e He. assert (entry_path e ∈ map entry_path (manifest_entries m)) as Hp by (apply list_elem_of_fmap; by exists e).
    apply find_path_in in Hp as (e1 & Hf & _ & Hp1). rewrite Hfind in Hf. apply List.find_some, proj1, list_elem_of_In in Hf.
    destruct (signed_of e1 Hf) as (rel & Hr & Hx & _ & Heo). pose proof Heo as (t & c & _ & _ & _ & _ & Hn & _).
    assert (packaged s package_dir rel c) as Hpk by (split_and!; [done..|unfold content_at; by rewrite Hn]).
    destruct (signed_about m rel c e1 Hfind Hf Hpk Heo) as (e' & _ & Hp' & _ & Hj & Hd).
    exists rel, c. split; [done|]. rewrite <- Hp1, <- Hp'. done.
Qed.
End Signed.

Lemma verify_loads args dir anchor_text out_dir s text m public :
  value_of args (lit "--package-dir") = Some dir → value_of args (lit "--anchor") = Some anchor_text →
  path_parse anchor_text = anchor_of out_dir →
  nodes s !! anchor_of out_dir = Some (File public) → length public = PUBLIC_KEY_LEN →
  nodes s !! manifest_of (path_parse dir) = Some (File (utf8_encode text)) → utf8_decode (utf8_encode text) = Some text →
  parse_signed_manifest text = Ok m → verify_manifest m (mkAnchor public) = Ok tt →
  (∀ r s', cmd_verify args s = (Ok r, s') → Forall (entry_stands (nodes s) (path_parse dir) m) (manifest_entries m)) ∧
  (faults s = [] → Forall (λ e, ∃ c, nodes s !! join_text (path_parse dir) (entry_path e) = Some (File c) ∧
      Z.of_nat (length c) ≤ MAX_ENTRY_BYTES ∧ verify_entry_digest m (entry_path e) c = Ok tt) (manifest_entries m) →
    is_ok (cmd_verify args s).1 = true).
Proof.
  intros Hd Ha Hp Hn Hl Hm Hdec Hparse Hv. unfold cmd_verify. rewrite (take_value_bind _ _ dir) by done. cbv zeta.
  rewrite (take_value_bind _ _ anchor_text), Hp by done. fold (manifest_of (path_parse dir)). split.
  - intros r s' Hs. apply bind_ok_inv in Hs as (a & s1 & E1 & Hs).
    assert (nodes s1 = nodes s ∧ a = mkAnchor public) as [N1 ->].
    { assert (yields (load_anchor (anchor_of out_dir)) (λ n a, n !! anchor_of out_dir = Some (File public) → a = mkAnchor public)) as Hy.
      { eapply yields_bind; [apply yields_io, yields_read|]. intros bs. destruct (negb _); [apply yields_fail|].
        eapply yields_weaken; [apply yields_crypto|]. intros n x Hx Hb Hb'. assert (bs = public) as -> by congruence.
        unfold anchor_from_bytes in Hx. destruct (negb _); [done|]. by injection Hx. }
      destruct (Hy _ _ _ E1) as [N1 Hx]. auto. }
    apply bind_ok_inv in Hs as (t & s2 & E2%map_err_ok & Hs). pose proof (reads_at _ _ _ _ (reads_read_to_string _) E2) as N2.
    assert (t = text) as ->.
    { apply bind_ok_inv in E2 as (bs & s3 & E3 & E2). apply yields_read in E3 as [_ E3]. rewrite N1, Hm in E3. injection E3 as <-.
      rewrite Hdec in E2. by injection E2. }
    apply bind_ok_inv in Hs as (m' & s3 & E3 & Hs). apply crypto_ok in E3 as [E3 ->]. assert (m' = m) as -> by congruence.
    rewrite Hv in Hs. apply bind_ok_inv in Hs as (fs & s3 & E4 & Hs). apply yields_verify in E4 as [_ E4].
    case_bool_decide as Hfs; [|done]. rewrite <- N1, <- N2. by apply E4.
  - intros Hf Hall.
    rewrite (bind_run _ _ _ (mkAnchor public) s).
    2:{ unfold load_anchor, io. rewrite (bind_run _ _ _ public s) by (unfold map_err; rewrite run_read by done; by rewrite Hn).
        unfold anchor_from_bytes. by rewrite Hl. }
    rewrite (bind_run _ _ _ text s).
    2:{ unfold io, map_err, fs_read_to_string. rewrite (bind_run _ _ _ (utf8_encode text) s) by (rewrite run_read by done; by rewrite Hm).
        by rewrite Hdec. }
    rewrite Hparse. rewrite (bind_run _ _ _ m s) by done. rewrite Hv.
    rewrite (bind_run _ _ _ [] s) by (by apply verify_stands). done.
Qed.

(** C21: packages signed by the tool.  A key pair is made by [gen-key]; later a
    package whose names Windows allows is signed with its secret key; later still the
    package is verified against its trust anchor, with the manifest and the anchor as
    they were written.  Whatever calls fail in the three runs: if each of the first
    two reports success and the third reports a verified package, every file that was
    signed has contents with the digest it had.  And when no call fails and every
    signed file has its digest, the package is verified. *)
Theorem signed_package_verifies entropy gen_args sign_args verify_args out_dir dir key anchor m1 m2 s0 s1 s2 s3 s4 :
  length entropy = SECRET_KEY_LEN → all_bytes entropy →
  value_of gen_args (lit "--out-dir") = Some out_dir →
  value_of sign_args (lit "--package-dir") = Some dir → value_of sign_args (lit "--key") = Some key →
  after_flag sign_args (lit "--out") = None → path_parse key = secret_of (path_parse out_dir) →
  value_of verify_args (lit "--package-dir") = Some dir → value_of verify_args (lit "--anchor") = Some anchor →
  path_parse anchor = anchor_of (path_parse out_dir) →
  run process_id entropy (lit "gen-key" :: gen_args) s0 = (Ok m1, s1) →
  tree s2 → plain_below s2 (path_parse dir) →
  content_at s2 (secret_of (path_parse out_dir)) = content_at s1 (secret_of (path_parse out_dir)) →
  run process_id entropy (lit "sign" :: sign_args) s2 = (Ok m2, s3) →
  content_at s4 (anchor_of (path_parse out_dir)) = content_at s1 (anchor_of (path_parse out_dir)) →
  content_at s4 (manifest_of (path_parse dir)) = content_at s3 (manifest_of (path_parse dir)) →
  (∀ m3 s5, run process_id entropy (lit "verify" :: verify_args) s4 = (Ok m3, s5) →
    ∀ rel c, packaged s2 (path_parse dir) rel c →
    ∃ c', content_at s4 (path_parse dir ++ rel) = Some c' ∧ sha256 c' = sha256 c) ∧
  (faults s4 = [] →
    (∀ rel c, packaged s2 (path_parse dir) rel c → ∃ c', content_at s4 (path_parse dir ++ rel) = Some c' ∧
      Z.of_nat (length c') ≤ MAX_ENTRY_BYTES ∧ sha256 c' = sha256 c) →
    is_ok (run process_id entropy (lit "verify" :: verify_args) s4).1 = true).
Proof.
  intros Hel Heb Hg Hd Hk Ho Hkp Hvd Hva Hap Egen Htree Hplain Hkey Esign Hanchor Hmanifest.
  change (cmd_gen_key entropy gen_args s0 = (Ok m1, s1)) in Egen. change (cmd_sign process_id sign_args s2 = (Ok m2, s3)) in Esign.
  change (run process_id entropy (lit "verify" :: verify_args) s4) with (cmd_verify verify_args s4).
  destruct (gen_key_ok _ _ _ _ _ _ Hg Egen) as [Hpub Hsec]. rewrite Hpub in Hanchor. rewrite Hsec in Hkey.
  destruct (sign_ok _ _ _ _ _ _ Hd Hk Ho Esign) as (bs & secret & counter & es & text & Hbs & Hks & Hc & Hes & Hsign & Hman).
  rewrite Hkp in Hbs. apply content_file in Hkey. assert (bs = utf8_encode (hex entropy ++ [10])) as -> by congruence.
  apply generated_key_in in Hks as ->; [|done..]. rewrite Hman in Hmanifest.
  destruct (signed_manifest_reads s2 _ es Htree Hplain Hes entropy counter text Hel Hc Hsign) as (m & Hdec & Hparse & Hv & Hin & Hof).
  destruct (verify_loads verify_args dir anchor (path_parse out_dir) s4 text m (ed_public entropy) Hvd Hva Hap
    (content_file _ _ _ Hanchor) (ed_public_length entropy) (content_file _ _ _ Hmanifest) Hdec Hparse Hv) as [Hs Hr].
  split.
  - intros m3 s5 E3 rel c Hpk. specialize (Hs m3 s5 E3). rewrite Forall_forall in Hs.
    destruct (Hin rel c Hpk) as (e & He & _ & Hj & Hdg). destruct (Hs e He) as (c' & Hc' & Hvd').
    exists c'. rewrite <- Hj. split; [unfold content_at; by rewrite Hc'|by apply Hdg].
  - intros Hf Hall. apply Hr; [done|]. apply Forall_forall. intros e He. destruct (Hof e He) as (rel & c & Hpk & Hj & Hdg).
    destruct (Hall rel c Hpk) as (c' & Hc' & Hlen & Hsha). exists c'. rewrite Hj. split_and!; [by apply content_file|done|by apply Hdg].
Qed.

(** ** The tool returns *)

Section Depth.
Context (n : gmap path Node).

Definition nodes_below (d : path) : gmap path Node := filter (λ x, d `prefix_of` x.1 ∧ x.1 ≠ d) n.

Lemma nodes_below_child d name x : n !! path_join d name = Some x →
  (size (nodes_below (path_join d name)) < size (nodes_below d))%nat.
Proof.
  intros Hx. apply map_subset_size. apply map_subset_alt. split.
  - apply map_subseteq_spec. intros q y. unfold nodes_below. rewrite !map_lookup_filter_Some. cbn. intros (Hq & Hp & _).
    assert (d `prefix_of` q) as Hd by (etransitivity; [|exact Hp]; by apply prefix_app_r).
    split_and!; [done..|]. intros ->. by apply child_not_prefix in Hp.
  - exists (path_join d name). unfold nodes_below. split.
    + apply map_lookup_filter_None_2. right. intros ? _ [_ ?]. done.
    + exists x. apply map_lookup_filter_Some. cbn. split_and!; [done|by apply prefix_app_r|].
      intros Hq. unfold path_join in Hq. apply (f_equal length) in Hq. rewrite length_app in Hq. cbn in Hq. lia.
Qed.

Lemma returns_entries dir names : returns n (read_entries dir names).
Proof.
  induction names as [|name names IH]; [apply returns_ret|]. cbn [read_entries].
  eapply returns_bind; [apply returns_io, touches_guard|apply yields_io, yields_guard|]. intros [] _.
  eapply returns_bind; [exact IH|apply yields_entries|]. intros l _. apply returns_ret.
Qed.

Lemma returns_children collect dir root children :
  (∀ name files, n !! path_join dir name = Some Dir → returns n (collect (path_join dir name) files)) →
  (∀ child files, yields (collect child files : comp Fs ToolStop (list path)) (λ _ _, True)) →
  ∀ files, returns n (collect_children collect dir root children files).
Proof.
  intros Hc Hy. induction children as [|name children IH]; intros files; cbn [collect_children]; [apply returns_ret|].
  eapply returns_bind; [apply returns_io; unfold fs_node; touches_tac|apply yields_io, yields_node|]. intros [c|] Hn.
  - eapply (returns_bind _ _ _ (λ _ _, True)); [apply returns_ret|by apply yields_ret|]. auto.
  - eapply (returns_bind _ _ _ (λ _ _, True)); [by apply Hc|apply Hy|]. auto.
Qed.

Lemma returns_collect root fuel : ∀ dir files, (size (nodes_below dir) < fuel)%nat →
  returns n (collect_files fuel root dir files).
Proof.
  induction fuel as [|fuel IH]; intros dir files Hs; [lia|]. cbn [collect_files].
  eapply (returns_bind _ _ _ (λ _ _, True)); [apply returns_io; unfold fs_read_dir; touches_tac|
    apply yields_io, yields_reads; unfold fs_read_dir; touches_tac|]. intros names _.
  eapply returns_bind; [apply returns_entries|apply yields_entries|]. intros l _. apply returns_children.
  - intros name fs Hn. apply IH. pose proof (nodes_below_child dir name Dir Hn). lia.
  - intros child fs. eapply yields_weaken; [apply yields_collect|done].
Qed.
End Depth.

(** It ends, with a result or an error of its own. *)
Definition halts {T : Type} (m : comp Fs ToolStop T) : Prop := ∀ s, (m s).1 ≠ Err ToolStop.OutOfFuel.

Lemma halts_bind {T U : Type} (m : comp Fs ToolStop T) (k : T → comp Fs ToolStop U) :
  halts m → (∀ x, halts (k x)) → halts (m ≫= k).
Proof.
  intros Hm Hk s. specialize (Hm s). unfold mbind, comp_bind. destruct (m s) as [[x|e] s1]; [apply Hk|cbn in *; congruence].
Qed.
Lemma halts_ret {T : Type} (x : T) : halts (mret x).
Proof. done. Qed.
Lemma halts_stop {T : Type} e : halts (tool_fail e : comp Fs ToolStop T).
Proof. done. Qed.
Lemma halts_io {T : Type} context p (m : FS T) : halts (io context p m).
Proof. intros s. unfold io, map_err. by destruct (m s) as [[x|e] s1]. Qed.
Lemma halts_crypto {T : Type} context (r : result CryptoError T) : halts (crypto context r).
Proof. by destruct r. Qed.
Lemma halts_attempt {T : Type} (m : comp Fs ToolStop T) : halts (attempt m : comp Fs ToolStop _).
Proof. intros s. unfold attempt. by destruct (m s). Qed.
Lemma halts_attempt_io {T : Type} (m : FS T) : halts (attempt m : comp Fs ToolStop _).
Proof. intros s. unfold attempt. by destruct (m s). Qed.

Create HintDb tool_halts.
#[local] Hint Resolve halts_ret halts_stop halts_io halts_crypto halts_attempt halts_attempt_io : tool_halts.
Ltac halts_tac :=
  repeat lazymatch goal with
    | |- halts (_ ≫= _) => apply halts_bind; [|intros ?]
    | |- halts (match ?x with _ => _ end) => destruct x
    | |- halts (let _ := _ in _) => cbv zeta
    | |- halts _ => solve [auto with tool_halts]
    end.

Lemma halts_take args flag : halts (take_value args flag).
Proof. unfold take_value. halts_tac. Qed.
Lemma halts_key k p : halts (load_key_bytes k p).
Proof. unfold load_key_bytes. halts_tac. Qed.
Lemma halts_write p bs : halts (atomic_write process_id p bs).
Proof. unfold atomic_write. halts_tac. Qed.
Lemma halts_hash package_dir files : halts (hash_entries package_dir files).
Proof. induction files as [|rel files IH]; cbn [hash_entries]; [done|]. unfold validate_manifest_path, hash_file. halts_tac. Qed.
Lemma halts_retain package_dir out_path files : halts (retain_included package_dir out_path files).
Proof. induction files as [|rel files IH]; cbn [retain_included]; [done|]. unfold is_excluded, same_path. halts_tac. Qed.
#[local] Hint Resolve halts_take halts_key halts_write halts_hash halts_retain : tool_halts.

Lemma halts_build package_dir out_path : halts (build_entries package_dir out_path).
Proof.
  intros s. unfold build_entries. change ((get ≫= ?k) s) with (k s s). cbv beta.
  assert (returns (nodes s) (collect_files (S (size (nodes s))) package_dir package_dir [])) as Hc.
  { apply returns_collect. apply Nat.lt_succ_r, map_subseteq_size, map_filter_subseteq. }
  destruct (Hc s eq_refl) as [Hret _]. unfold mbind at 1, comp_bind at 1.
  destruct (collect_files _ _ _ _ s) as [[files|e] s1]; [|cbn in *; congruence].
  clear Hret. revert s1. change (halts (files ← retain_included package_dir out_path files;
    if (MAX_MANIFEST_ENTRIES <? length files)%nat then tool_fail (ToolError.TooManyEntries (length files))
    else hash_entries package_dir files)). halts_tac.
Qed.
#[local] Hint Resolve halts_build : tool_halts.

Lemma halts_verify package_dir m es fs : halts (verify_entries package_dir m es fs).
Proof.
  revert fs. induction es as [|e es IH]; intros fs; cbn [verify_entries]; [done|]. cbv zeta.
  intros s. assert (∀ p t, halts (read_bounded p t)) as Hr by (intros p t; unfold read_bounded; halts_tac).
  specialize (Hr (join_text package_dir (entry_path e)) (entry_path e) s).
  destruct (read_bounded (join_text package_dir (entry_path e)) (entry_path e) s) as [r s1] eqn:E1.
  rewrite (bind_run _ _ s r s1) by (by apply attempt_run). cbn in Hr. revert s1 E1.
  destruct r as [c|[error|]]; [destruct (verify_entry_digest _ _ _)|..|done]; intros s1 _; apply IH.
Qed.
#[local] Hint Resolve halts_verify : tool_halts.

(** Whatever the arguments, the files and the failing calls, the tool comes to an end
    with its message or an error: the fuel of [collect_files] is enough. *)
Theorem tool_returns entropy args : halts (run process_id entropy args).
Proof.
  unfold run, cmd_gen_key, cmd_sign, cmd_verify, take_optional_value, load_secret_key, load_anchor,
    exists_query, write_raw_key_file, write_key_file, generate_keypair. halts_tac.
Qed.
End Tool.

(** ** A package that is signed and verified *)

#[export] Instance plain_name_dec name : Decision (plain_name name).
Proof. unfold plain_name. apply _. Defined.

(** On a concrete store the names are checked by evaluation. *)
Lemma plain_check s d : map_Forall (λ p _, Forall plain_name p) (nodes s) → plain_below s d.
Proof. intros Hs rel _ [x Hx]. apply Hs in Hx. by apply Forall_app in Hx as [_ ?]. Qed.

#[local] Existing Instance toy_scheme.
#[local] Existing Instance toy_laws.
#[local] Instance sample_digest : Sha256 := λ bs, replicate 32 (sum_bytes bs).
#[local] Instance tool_io_text : IoDisplay := λ _, lit "error".
#[local] Instance sample_show : PathDisplay := λ p, join [92] p.
#[local] Instance sample_parse : PathParse := components.
#[local] Instance sample_rooted : RootedPath := λ d s, components s.

Definition tool_package : Fs := mkFs (list_to_map
  [([lit "pkg"], Dir); ([lit "pkg"; lit "Slots"], Dir); ([lit "pkg"; lit "Slots"; lit "a.exe"], File [1; 2; 3]);
   ([lit "pkg"; lit "a.txt"], File [9]); ([lit "pkg"; lit "true-tick.toml"], File [4])]) [].
Definition sample_entropy : bytes := replicate 32 5.
Definition sample_run (command : string) (args : list string) (s : Fs) : result ToolStop str * Fs :=
  run 77 sample_entropy (lit command :: map lit args) s.
Definition gen_args : list string := ["--out-dir"; "keys"].
Definition sign_args : list string := ["--counter"; "7"; "--key"; "keys/signing-key.sec"; "--package-dir"; "pkg"].
Definition verify_args : list string := ["--package-dir"; "pkg"; "--anchor"; "keys/trust-anchor.pub"].
Definition with_keys : Fs := Eval vm_compute in (sample_run "gen-key" gen_args tool_package).2.
Definition signed_store : Fs := Eval vm_compute in (sample_run "sign" sign_args with_keys).2.
(** The configuration is rewritten later, which no signature covers; a changed program is refused. *)
Definition used_store : Fs := set_nodes <[[lit "pkg"; lit "true-tick.toml"] := File [8; 8]]> signed_store.
Definition tampered_store : Fs := set_nodes <[[lit "pkg"; lit "a.txt"] := File [10]]> signed_store.

Definition message (r : result ToolStop str) : str := match r with Ok m => m | Err _ => [] end.

Example tampered_package_refused : (sample_run "verify" verify_args tampered_store).1 =
  Err (ToolStop.Failed (ToolError.VerifyFailed [lit "a.txt: entry digest does not match"])).
Proof. vm_compute. reflexivity. Qed.

Lemma signed_package_verifies_witness :
  ∃ c', content_at used_store [lit "pkg"; lit "a.txt"] = Some c' ∧ sha256 c' = sha256 [9].
Proof.
  refine (proj1 (signed_package_verifies 77 _ sample_entropy (map lit gen_args) (map lit sign_args) (map lit verify_args)
    (lit "keys") (lit "pkg") (lit "keys/signing-key.sec") (lit "keys/trust-anchor.pub")
    (message (sample_run "gen-key" gen_args tool_package).1) (message (sample_run "sign" sign_args with_keys).1)
    tool_package with_keys with_keys signed_store used_store _ _ _ _ _ _ _ _ _ _ _ _ _ _ _ _ _)
    (message (sample_run "verify" verify_args used_store).1) (sample_run "verify" verify_args used_store).2 _ [lit "a.txt"] [9] _).
  1: intros m; unfold sha256, sample_digest; split; [by rewrite length_replicate|apply Forall_replicate; unfold is_u8, sum_bytes; dlia].
  2: by apply Forall_replicate.
  all: try (lazymatch goal with |- ?a = ?b => vm_cast_no_check (@eq_refl _ b) end).
  - apply tree_check, (bool_decide_unpack _). by vm_compute.
  - apply plain_check, (bool_decide_unpack _). by vm_compute.
  - split_and!; [done|vm_cast_no_check (@eq_refl bool false)|vm_cast_no_check (@eq_refl _ (Some ([9] : bytes)))].
Defined.
