(* ===== verification/AppRecords.v ===== *)
(** * AppRecords: how the application records its operations

    Models [apps/true-tick/src/tray/diagnostics_map.rs] and the recording methods of
    [App] in [tray/controller.rs]: an operation opens a context, the records made
    while it runs are children of it, and finishing it closes the context.  The
    refresh of the diagnostic window that these methods request is in
    [DiagWindow]. *)
From coqutil Require Import Datatypes.RecordSetters.
From S2P Require Import Prelude Text Core Privacy Diagnostics Logging.
Import TriangleBracketNotations.

(** [s.parse::<i64>()]. *)
Definition parse_i64 (s : str) : option Z :=
  match s with
  | 45 :: (_ :: _) as t => v ← digits_value 0 (tail t); if v <=? 2 ^ 63 then Some (- v) else None
  | _ => v ← parse_u 64 s; if v <? 2 ^ 63 then Some v else None
  end.

Definition numeric_detail (details key : str) : option Z :=
  head (omap (λ field, '(field_key, value) ← split_once 61 field;
                       if str_eqb field_key key then parse_i64 value else None)
             (split_whitespace details)).

Definition try_i32 (v : Z) : option Z := if (- 2 ^ 31 <=? v) && (v <? 2 ^ 31) then Some v else None.
Definition try_u32 (v : Z) : option Z := if (0 <=? v) && (v <? 2 ^ 32) then Some v else None.

Definition native_outcome (name details : str) : NativeOutcome :=
  let raw_status := numeric_detail details (lit "raw_status") in
  let raw_error := numeric_detail details (lit "raw_error") in
  let ntstatus :=
    if contains name (lit "Nt") || starts_with name (lit "timer.") then raw_status ≫= try_i32 else None in
  let last_error := contains name (lit "GetLastError") in
  let native := starts_with name (lit "native.") in
  let win32_last_error :=
    if last_error || bool_decide (is_Some raw_error) || (native && bool_decide (ntstatus = None))
    then
      match raw_error with
      | Some v => Some v
      | None => match (if last_error then raw_status else None) with
                | Some v => Some v
                | None => if native then raw_status else None
                end
      end ≫= try_u32
    else None in
  mkNative ntstatus win32_last_error
    (wrap 64 <$> numeric_detail details (lit "requested_hns"))
    (wrap 64 <$> numeric_detail details (lit "selected_hns"))
    (wrap 64 <$> numeric_detail details (lit "effective_hns")).

Definition has (value : str) (word : string) : bool := contains value (lit word).

Definition diagnostic_phase (name : str) : DiagnosticPhase :=
  if has name "handoff" then DiagnosticPhase.Handoff
  else if has name "policy" then DiagnosticPhase.Decide
  else if has name "duration" || has name "pause" then DiagnosticPhase.Timer
  else if has name "shutdown" || has name "quit" then DiagnosticPhase.Shutdown
  else if has name "query" || has name "observation" then DiagnosticPhase.Observe
  else if has name "acquire" || has name "request" then DiagnosticPhase.Acquire
  else if has name "release" || has name "stop" then DiagnosticPhase.Release
  else if has name "verification" then DiagnosticPhase.Verify
  else if has name "config" || has name "startup" then DiagnosticPhase.Persist
  else if has name "window" || has name "tray.status" then DiagnosticPhase.Render
  else DiagnosticPhase.Complete.

Definition diagnostic_outcome (name details : str) : DiagnosticOutcome :=
  let value := lowercase (name ++ lit " " ++ details) in
  if has value "timedout" || has value "timeout" then DiagnosticOutcome.TimedOut
  else if has value "suppressed" then DiagnosticOutcome.Suppressed
  else if has value "cancel" then DiagnosticOutcome.Cancelled
  else if has value "unverified" || has value "uncertain" then DiagnosticOutcome.Unverified
  else if has value "error" || has value "failed" then DiagnosticOutcome.Failed
  else if has value "started" || has value "pending" then DiagnosticOutcome.InProgress
  else DiagnosticOutcome.Completed.

Definition diagnostic_source (name : str) : DiagnosticSource :=
  if has name "power" then DiagnosticSource.PowerEvent
  else if has name "startup" then DiagnosticSource.Startup
  else if has name "pause" then DiagnosticSource.Pause
  else if has name "resume" then DiagnosticSource.Resume
  else if has name "handoff" then DiagnosticSource.Handoff
  else if has name "duration" then DiagnosticSource.Timer
  else if has name "shutdown" || has name "quit" then DiagnosticSource.Shutdown
  else if has name "policy" then DiagnosticSource.Policy
  else if has name "ownership" then DiagnosticSource.Ownership
  else if starts_with name (lit "native.") || starts_with name (lit "timer.") then DiagnosticSource.Native
  else if has name "tray.command" then DiagnosticSource.TrayCommand
  else DiagnosticSource.Internal.

(** ** The recording methods *)

(** The part of [App] that records: the store and its log on disk, the open
    operation, and what [set_operation_context] last gave the controller. *)
Record Recorder := mkRecorder {
  logger : Logger;
  operation : option OperationContext;
  operation_source : DiagnosticSource;
  native_context : option (Z * option Z * Z) }.

Definition diagnostics (r : Recorder) : StoreState := log_store (logger r).
Definition set_diagnostics (s : StoreState) (r : Recorder) : Recorder := r <| logger := set_log_store s (logger r) |>.

(** The clocks as read by the record that would get a sequence number. *)
Class RecordClock := moment_at : Z → Moment.

Section Records.
Context `{Sha256} `{RecordClock}.

(** A record panics when the redaction of its details does ([Privacy]). *)
Abbreviation R := (comp Recorder Privacy.Fault).

Definition moment (r : Recorder) : Moment := moment_at (next_sequence (diagnostics r)).
Definition context_triple (c : OperationContext) : Z * option Z * Z :=
  (operation_id c, parent_operation_id c, correlation_id c).

(** [begin_operation] and [child_operation] of the store. *)
Definition new_context (parent : option OperationContext) : R OperationContext := λ r,
  let '(c, store) := allocate_operation (diagnostics r) parent in (Ok c, set_diagnostics store r).

Definition stored (f : StoreState → Moment → result Privacy.Fault StoreState) : R unit := λ r,
  match f (diagnostics r) (moment r) with
  | Ok store => (Ok tt, set_diagnostics store r)
  | Err e => (Err e, r)
  end.
Definition record_with (record : DiagnosticRecord) (nm dt : str) : R unit :=
  stored (λ s m, record_with_context s record (marker_nanos m) (nanos m) nm dt).
(** [DiagnosticStore::record_with_outcome], called on the store itself. *)
Definition store_record (nm dt : str) (o : DiagnosticOutcome) : R unit :=
  stored (λ s m, record_with_outcome s (marker_nanos m) (nanos m) nm dt o).

Definition set_operation_context (c : option (Z * option Z * Z)) : R unit := modify (λ r, r <| native_context := c |>).

Definition begin_app_operation (source : DiagnosticSource) : R unit :=
  context ← new_context None;
  _ ← modify (λ r, (r <| operation := Some context |>) <| operation_source := source |>);
  native ← new_context (Some context);
  _ ← set_operation_context (Some (context_triple native));
  record_with (mkRecord context DiagnosticPhase.Begin source DiagnosticOutcome.InProgress native_default)
    (lit "operation.begin")
    (lit "source=" ++ source_label source ++ lit " phase=begin outcome=in_progress").

(** [finish_operation] up to its request for a refresh; false when no operation is open. *)
Definition close_operation (o : DiagnosticOutcome) : R bool :=
  r ← get;
  match operation r with
  | None => mret false
  | Some context =>
      _ ← modify (λ r, r <| operation := None |>);
      _ ← record_with (mkRecord context DiagnosticPhase.Complete (operation_source r) o native_default)
            (lit "operation.complete") (lit "outcome=" ++ outcome_label o);
      _ ← set_operation_context None;
      mret true
  end.

(** [record_with_outcome] up to its request for a refresh; [record] is it with [diagnostic_outcome]. *)
Definition append_record (nm dt : str) (o : DiagnosticOutcome) : R unit :=
  r ← get;
  let source := match operation r with Some _ => operation_source r | None => diagnostic_source nm end in
  context ← new_context (operation r);
  _ ← match operation r with
      | Some _ => set_operation_context (Some (context_triple context)) | None => mret tt end;
  record_with (mkRecord context (diagnostic_phase nm) source o (native_outcome nm dt)) nm dt.
End Records.
