(* ===== verification/DiagLayout.v ===== *)
(** * DiagLayout: the geometry of the diagnostic window

    Models [apps/true-tick/src/ui/diagnostic_layout.rs] and [scale_logical] of
    [tray/native.rs]: the rectangles of the controls from the client size and the
    DPI, in saturating 32-bit arithmetic, and the sizes of the window. *)
From S2P Require Import Prelude.

(** [i32] arithmetic that saturates at both ends; [/] truncates. *)
Definition clamp_i32 (z : Z) : Z := Z.max (- 2 ^ 31) (Z.min z (2 ^ 31 - 1)).
Definition add_i32 (a b : Z) : Z := clamp_i32 (a + b).
Definition sub_i32 (a b : Z) : Z := clamp_i32 (a - b).
Definition mul_i32 (a b : Z) : Z := clamp_i32 (a * b).

Definition scale_logical (value dpi : Z) : Z := add_i32 (mul_i32 value (as_i32 dpi)) 95 ÷ 96.

Definition DIAGNOSTIC_SUMMARY_HEIGHT : Z := 140.
Definition DIAGNOSTIC_HUD_STATE_HEIGHT : Z := 32.
Definition DIAGNOSTIC_SEPARATOR_HEIGHT : Z := 2.
Definition DIAGNOSTIC_TOOLBAR_HEIGHT : Z := 36.
Definition DIAGNOSTIC_GRID_MIN_HEIGHT : Z := 96.
Definition DIAGNOSTIC_TOOLBAR_MARGIN : Z := 8.
Definition DIAGNOSTIC_TOOLBAR_GAP : Z := 8.
Definition DIAGNOSTIC_TOOLBAR_MIN_MESSAGE_WIDTH : Z := 140.
Definition DIAGNOSTIC_TOOLBAR_CONTROL_WIDTHS : list Z := [64; 52; 64; 100; 54; 104; 128; 66; 124; 56; 56; 70].
Definition DIAGNOSTIC_DEFAULT_WIDTH : Z := 1280.
Definition DIAGNOSTIC_DEFAULT_HEIGHT : Z := 520.

Record DiagnosticLayoutRect := mkLayoutRect {
  rect_left : Z;
  rect_top : Z;
  rect_width : Z;
  rect_height : Z }.

Definition rect_right (r : DiagnosticLayoutRect) : Z := add_i32 (rect_left r) (rect_width r).
Definition rect_bottom (r : DiagnosticLayoutRect) : Z := add_i32 (rect_top r) (rect_height r).

(** The twelve controls of the toolbar from left to right, and the message after them. *)
Record DiagnosticToolbarLayout := mkToolbar {
  toolbar_controls : list DiagnosticLayoutRect;
  message_rect : DiagnosticLayoutRect }.

Record DiagnosticLayout := mkLayout {
  hud_state : DiagnosticLayoutRect;
  summary : DiagnosticLayoutRect;
  hud_separator : DiagnosticLayoutRect;
  toolbar : DiagnosticToolbarLayout;
  toolbar_separator : DiagnosticLayoutRect;
  list_rect : DiagnosticLayoutRect }.

Definition diagnostic_toolbar_min_width (dpi : Z) : Z :=
  let fixed_width := foldl add_i32 0 DIAGNOSTIC_TOOLBAR_CONTROL_WIDTHS in
  let gaps := Z.of_nat (length DIAGNOSTIC_TOOLBAR_CONTROL_WIDTHS) * DIAGNOSTIC_TOOLBAR_GAP in
  scale_logical (DIAGNOSTIC_TOOLBAR_MARGIN * 2 + fixed_width + gaps + DIAGNOSTIC_TOOLBAR_MIN_MESSAGE_WIDTH)
    (Z.max dpi 96).

Definition diagnostic_min_client_height (dpi : Z) : Z :=
  scale_logical (DIAGNOSTIC_SUMMARY_HEIGHT + DIAGNOSTIC_SEPARATOR_HEIGHT + DIAGNOSTIC_TOOLBAR_HEIGHT
    + DIAGNOSTIC_SEPARATOR_HEIGHT + DIAGNOSTIC_GRID_MIN_HEIGHT) (Z.max dpi 96).

(** A rectangle in corners, as the system gives it. *)
Record Rect := mkRect { left_edge : Z; top_edge : Z; right_edge : Z; bottom_edge : Z }.

Definition outer_size_from_client (client_width client_height : Z) (frame : Rect) : Z * Z :=
  (Z.max (right_edge frame - left_edge frame) 0, Z.max (bottom_edge frame - top_edge frame) 0).

(** [AdjustWindowRectExForDpi] and [AdjustWindowRectEx]: the frame, when they succeed. *)
Class WindowFrame := {
  adjust_for_dpi : Z → Rect → option Rect;
  adjust_frame : Rect → option Rect }.

Definition diagnostic_outer_size `{WindowFrame} (client_width client_height dpi : Z) : Z * Z :=
  let client := mkRect 0 0 client_width client_height in
  match match adjust_for_dpi dpi client with Some frame => Some frame | None => adjust_frame client end with
  | Some frame => outer_size_from_client client_width client_height frame
  | None => (client_width, client_height)
  end.

Definition diagnostic_min_outer_size `{WindowFrame} (client_width client_height dpi : Z) : Z * Z :=
  diagnostic_outer_size client_width client_height dpi.

(** The answer to [WM_GETMINMAXINFO]. *)
Definition minimum_track_size `{WindowFrame} (dpi0 : Z) : Z * Z :=
  let dpi := Z.max dpi0 96 in
  diagnostic_min_outer_size (diagnostic_toolbar_min_width dpi) (diagnostic_min_client_height dpi) dpi.

Definition clamp_outer_to_work_area (outer : Z * Z) (work_width work_height : Z) : Z * Z :=
  let safe_width := Z.max work_width 320 in
  let safe_height := Z.max work_height 240 in
  (Z.max (Z.min outer.1 safe_width) 320, Z.max (Z.min outer.2 safe_height) 240).

(** [GetSystemMetrics] answers [metric_60] and [metric_61]. *)
Definition diagnostic_default_outer_size `{WindowFrame} (metric_60 metric_61 dpi0 : Z) : Z * Z :=
  let dpi := Z.max dpi0 96 in
  let scaled_client_width := scale_logical DIAGNOSTIC_DEFAULT_WIDTH dpi in
  let scaled_client_height := scale_logical DIAGNOSTIC_DEFAULT_HEIGHT dpi in
  let outer := diagnostic_outer_size scaled_client_width scaled_client_height dpi in
  clamp_outer_to_work_area outer (Z.max metric_60 0) (Z.max metric_61 0).

(** The closure [next], over the widths: the rectangles and the cursor after them. *)
Fixpoint place (widths : list Z) (cursor row_top row_height gap : Z) : list DiagnosticLayoutRect * Z :=
  match widths with
  | [] => ([], cursor)
  | width :: widths =>
      let '(rects, after) := place widths (add_i32 (add_i32 cursor width) gap) row_top row_height gap in
      (mkLayoutRect cursor row_top width row_height :: rects, after)
  end.

Definition diagnostic_toolbar_layout (width top height dpi0 : Z) : DiagnosticToolbarLayout :=
  let dpi := Z.max dpi0 96 in
  let row_height := Z.min (scale_logical 24 dpi) (Z.max height 0) in
  let row_top := add_i32 top (sub_i32 height row_height ÷ 2) in
  let gap := scale_logical DIAGNOSTIC_TOOLBAR_GAP dpi in
  let margin := scale_logical DIAGNOSTIC_TOOLBAR_MARGIN dpi in
  let widths := map (λ value, scale_logical value dpi) DIAGNOSTIC_TOOLBAR_CONTROL_WIDTHS in
  let '(controls, message_left) := place widths margin row_top row_height gap in
  let message_width :=
    Z.max (sub_i32 (sub_i32 width message_left) margin) (scale_logical DIAGNOSTIC_TOOLBAR_MIN_MESSAGE_WIDTH dpi) in
  mkToolbar controls (mkLayoutRect message_left row_top message_width row_height).

Definition diagnostic_layout (width height dpi0 : Z) : DiagnosticLayout :=
  let dpi := Z.max dpi0 96 in
  let hud_height := scale_logical DIAGNOSTIC_SUMMARY_HEIGHT dpi in
  let state_height := scale_logical DIAGNOSTIC_HUD_STATE_HEIGHT dpi in
  let separator_height := scale_logical DIAGNOSTIC_SEPARATOR_HEIGHT dpi in
  let toolbar_height := scale_logical DIAGNOSTIC_TOOLBAR_HEIGHT dpi in
  let grid_minimum := scale_logical DIAGNOSTIC_GRID_MIN_HEIGHT dpi in
  let available_hud :=
    Z.max (sub_i32 (sub_i32 (sub_i32 (sub_i32 height separator_height) toolbar_height) separator_height)
             grid_minimum) 0 in
  let hud_height := Z.min hud_height available_hud in
  let hud_separator_top := hud_height in
  let toolbar_top := add_i32 hud_separator_top separator_height in
  let toolbar_separator_top := add_i32 toolbar_top toolbar_height in
  let list_top := add_i32 toolbar_separator_top separator_height in
  let margin := scale_logical DIAGNOSTIC_TOOLBAR_MARGIN dpi in
  let inner_width := Z.max (sub_i32 width (scale_logical (DIAGNOSTIC_TOOLBAR_MARGIN * 2) dpi)) 0 in
  mkLayout
    (mkLayoutRect margin margin inner_width state_height)
    (mkLayoutRect margin (add_i32 state_height margin) inner_width
       (Z.max (sub_i32 (sub_i32 hud_height state_height) (scale_logical (DIAGNOSTIC_TOOLBAR_MARGIN * 2) dpi)) 0))
    (mkLayoutRect 0 hud_separator_top (Z.max width 0) separator_height)
    (diagnostic_toolbar_layout width toolbar_top toolbar_height dpi)
    (mkLayoutRect 0 toolbar_separator_top (Z.max width 0) separator_height)
    (mkLayoutRect 0 list_top (Z.max width 0) (Z.max (sub_i32 height list_top) 0)).

(** ** What the layout guarantees *)

(** A rectangle that ends before the next one starts. *)
Definition left_of (r q : DiagnosticLayoutRect) : Prop := rect_right r < rect_left q.
Fixpoint in_a_row (first : DiagnosticLayoutRect) (l : list DiagnosticLayoutRect) : Prop :=
  match l with [] => True | r :: l => left_of first r ∧ in_a_row r l end.
Definition stands (r : DiagnosticLayoutRect) (top bottom : Z) : Prop :=
  top ≤ rect_top r ∧ 0 ≤ rect_height r ∧ rect_bottom r ≤ bottom.

Lemma clamp_i32_id z : - 2 ^ 31 ≤ z < 2 ^ 31 → clamp_i32 z = z.
Proof. unfold clamp_i32. lia. Qed.

(** The scaled length is the smallest whole number of pixels that holds it. *)
Lemma scale_bounds value dpi : 0 ≤ value ≤ 2000 → 96 ≤ dpi ≤ 2 ^ 16 →
  value * dpi ≤ 96 * scale_logical value dpi < value * dpi + 96.
Proof.
  intros Hv Hd. unfold scale_logical, add_i32, mul_i32. assert (as_i32 dpi = dpi) as ->.
  { unfold as_i32. rewrite Z.mod_small by lia. replace (dpi <? 2 ^ 31) with true by lia. done. }
  assert (0 ≤ value * dpi ≤ 2000 * 2 ^ 16) by nia.
  rewrite !clamp_i32_id by (rewrite ?clamp_i32_id; lia). rewrite Z.quot_div_nonneg by lia.
  dlia.
Qed.

(** Where the widths leave the cursor. *)
Fixpoint run_of (widths : list Z) (gap : Z) : Z :=
  match widths with [] => 0 | w :: widths => w + gap + run_of widths gap end.

Lemma run_of_nonneg widths gap : Forall (λ w, 0 ≤ w) widths → 0 ≤ gap → 0 ≤ run_of widths gap.
Proof. induction 1; cbn [run_of]; lia. Qed.

Lemma place_row widths cursor top height gap : Forall (λ w, 0 ≤ w) widths → 0 < gap → 0 ≤ cursor →
  cursor + run_of widths gap < 2 ^ 31 →
  let '(rects, after) := place widths cursor top height gap in
  after = cursor + run_of widths gap ∧ length rects = length widths ∧
  Forall (λ r, rect_top r = top ∧ rect_height r = height) rects ∧
  ∀ message, rect_left message = after →
    match rects ++ [message] with [] => False | r :: l => rect_left r = cursor ∧ in_a_row r l end.
Proof.
  intros Hw Hg. revert cursor. induction Hw as [|w widths Hw Hws IH]; intros cursor Hc Hr.
  - cbn in Hr |- *. split_and!; [lia|done|done|]. intros m ->. done.
  - cbn [place run_of] in *. pose proof (run_of_nonneg widths gap Hws ltac:(lia)).
    unfold add_i32. rewrite !clamp_i32_id by (rewrite ?clamp_i32_id; lia).
    specialize (IH (cursor + w + gap) ltac:(lia) ltac:(lia)). destruct (place _ _ _ _ _) as [rects after].
    destruct IH as (-> & Hl & Hf & Hm). split_and!; [lia|cbn; lia|by constructor|].
    intros m E. specialize (Hm m E). cbn. split; [done|]. destruct (rects ++ [m]) as [|q l]; [done|].
    destruct Hm as [Hq Hrow]. split; [|done]. unfold left_of, rect_right, add_i32. cbn. rewrite clamp_i32_id; lia.
Qed.

(** The scaled values a layout uses. *)
Ltac scaled dpi values :=
  lazymatch values with
  | [] => idtac
  | ?v :: ?rest => pose proof (scale_bounds v dpi ltac:(lia) ltac:(lia)); scaled dpi rest
  end.

Lemma toolbar_room dpi : 96 ≤ dpi ≤ 2 ^ 16 →
  let gap := scale_logical 8 dpi in
  let used := gap + run_of (map (λ v, scale_logical v dpi) DIAGNOSTIC_TOOLBAR_CONTROL_WIDTHS) gap in
  Forall (λ w, 0 ≤ w) (map (λ v, scale_logical v dpi) DIAGNOSTIC_TOOLBAR_CONTROL_WIDTHS) ∧
  8 ≤ gap < 2 ^ 13 ∧ 0 ≤ used < 2 ^ 20 ∧
  used + scale_logical 140 dpi ≤ diagnostic_toolbar_min_width dpi + 17 ∧
  ((12 | dpi) → used + scale_logical 140 dpi ≤ diagnostic_toolbar_min_width dpi).
Proof.
  intros Hd gap used. subst used gap. change (diagnostic_toolbar_min_width dpi) with (scale_logical 1190 (Z.max dpi 96)).
  rewrite Z.max_l by lia. cbn [map run_of DIAGNOSTIC_TOOLBAR_CONTROL_WIDTHS].
  let values := constr:([8; 64; 52; 100; 54; 104; 128; 66; 124; 56; 70; 140; 1190]) in scaled dpi values.
  split_and!; [repeat constructor; lia|lia..|]. intros [k ->]. lia.
Qed.

Lemma toolbar_fits width top height dpi : 96 ≤ dpi ≤ 2 ^ 16 → diagnostic_toolbar_min_width dpi ≤ width ≤ 2 ^ 24 →
  0 ≤ top ≤ 2 ^ 24 → 0 ≤ height ≤ 2 ^ 24 → let t := diagnostic_toolbar_layout width top height dpi in
  length (toolbar_controls t) = 12%nat ∧
  match toolbar_controls t ++ [message_rect t] with
  | [] => False | r :: l => rect_left r = scale_logical 8 dpi ∧ in_a_row r l
  end ∧ scale_logical 140 dpi ≤ rect_width (message_rect t) ∧
  rect_right (message_rect t) ≤ width + 17 ∧ ((12 | dpi) → rect_right (message_rect t) ≤ width) ∧
  Forall (λ r, stands r top (top + height)) (message_rect t :: toolbar_controls t).
Proof.
  intros Hd Hw Ht Hh. destruct (toolbar_room dpi Hd) as (Hws & Hg & Hu & Hroom & Hexact). cbv zeta in Hws, Hg, Hu, Hroom, Hexact.
  pose proof (scale_bounds 140 dpi ltac:(lia) Hd). pose proof (scale_bounds 24 dpi ltac:(lia) Hd).
  unfold diagnostic_toolbar_layout. rewrite (Z.max_l dpi 96) by lia. cbv zeta.
  unfold DIAGNOSTIC_TOOLBAR_GAP, DIAGNOSTIC_TOOLBAR_MARGIN, DIAGNOSTIC_TOOLBAR_MIN_MESSAGE_WIDTH.
  set (row := Z.min (scale_logical 24 dpi) (Z.max height 0)). assert (0 ≤ row ≤ height) as Hrow by lia.
  assert (0 ≤ (height - row) ÷ 2 ∧ 2 * ((height - row) ÷ 2) ≤ height - row) as Hhalf.
  { rewrite Z.quot_div_nonneg by lia. dlia. }
  assert (add_i32 top (sub_i32 height row ÷ 2) = top + (height - row) ÷ 2) as ->.
  { unfold add_i32, sub_i32. rewrite (clamp_i32_id (height - row)) by lia. rewrite clamp_i32_id by lia. done. }
  set (half := (height - row) ÷ 2) in *. clearbody half row.
  set (widths := map _ _) in *. pose proof (place_row widths (scale_logical 8 dpi) (top + half) row (scale_logical 8 dpi)
    Hws ltac:(lia) ltac:(lia) ltac:(lia)) as Hplace.
  assert (length widths = 12%nat) as Hn by done. clearbody widths. destruct (place _ _ _ _ _) as [rects after].
  destruct Hplace as (-> & Hl & Hf & Hm). cbn [toolbar_controls message_rect rect_width].
  set (m := mkLayoutRect _ _ _ _). set (used := scale_logical 8 dpi + run_of widths (scale_logical 8 dpi)) in *.
  assert (rect_width m = Z.max (width - used - scale_logical 8 dpi) (scale_logical 140 dpi)) as Hmw.
  { subst m. cbn [rect_width]. unfold sub_i32. by rewrite !clamp_i32_id by (rewrite ?clamp_i32_id; lia). }
  assert (rect_right m = used + rect_width m) as Hmr.
  { unfold rect_right, add_i32. rewrite Hmw. cbn [m rect_left]. rewrite clamp_i32_id; lia. }
  split_and!; [by rewrite Hl|by apply Hm|change (scale_logical 140 dpi ≤ rect_width m); lia|lia|intros Hdiv; specialize (Hexact Hdiv); lia|].
  assert (∀ r, rect_top r = top + half ∧ rect_height r = row → stands r top (top + height)) as Hs.
  { intros r [E1 E2]. unfold stands, rect_bottom, add_i32. rewrite E1, E2, clamp_i32_id by lia. lia. }
  constructor; [by apply Hs|]. by eapply Forall_impl, Hs.
Qed.

(** The bands from top to bottom: what stands above the toolbar, the toolbar, the list. *)
Lemma bands_fit width height dpi : 96 ≤ dpi ≤ 2 ^ 16 →
  0 ≤ width ≤ 2 ^ 24 → diagnostic_min_client_height dpi ≤ height ≤ 2 ^ 24 →
  let l := diagnostic_layout width height dpi in
  let toolbar_top := rect_bottom (hud_separator l) in
  let toolbar_height := scale_logical DIAGNOSTIC_TOOLBAR_HEIGHT dpi in
  stands (hud_state l) 0 (rect_top (summary l)) ∧ stands (summary l) 0 (rect_top (hud_separator l)) ∧
  toolbar l = diagnostic_toolbar_layout width toolbar_top toolbar_height dpi ∧
  0 ≤ toolbar_top ≤ 2 ^ 24 ∧ 0 ≤ toolbar_height ≤ 2 ^ 24 ∧
  rect_top (toolbar_separator l) = toolbar_top + toolbar_height ∧
  rect_top (list_rect l) = rect_bottom (toolbar_separator l) ∧
  rect_bottom (list_rect l) = height ∧ scale_logical DIAGNOSTIC_GRID_MIN_HEIGHT dpi ≤ rect_height (list_rect l).
Proof.
  intros Hd Hw Hh l. change (diagnostic_min_client_height dpi) with (scale_logical 276 (Z.max dpi 96)) in Hh.
  subst l. unfold diagnostic_layout, DIAGNOSTIC_SUMMARY_HEIGHT, DIAGNOSTIC_HUD_STATE_HEIGHT, DIAGNOSTIC_SEPARATOR_HEIGHT,
    DIAGNOSTIC_TOOLBAR_HEIGHT, DIAGNOSTIC_GRID_MIN_HEIGHT, DIAGNOSTIC_TOOLBAR_MARGIN.
  rewrite (Z.max_l dpi 96) in * by lia. change (8 * 2) with 16. cbv zeta.
  let values := constr:([140; 32; 2; 36; 96; 8; 16; 276]) in scaled dpi values.
  unfold stands. unfold rect_bottom. unfold sub_i32, add_i32. cbn [hud_state summary hud_separator toolbar toolbar_separator list_rect rect_top rect_height].
  generalize dependent (scale_logical 276 dpi).
  set (s140 := scale_logical 140 dpi) in *. set (s32 := scale_logical 32 dpi) in *. set (s2 := scale_logical 2 dpi) in *.
  set (s36 := scale_logical 36 dpi) in *. set (s96 := scale_logical 96 dpi) in *. set (s8 := scale_logical 8 dpi) in *.
  set (s16 := scale_logical 16 dpi) in *. clearbody s140 s32 s2 s36 s96 s8 s16. intros s276 Hh Hs.
  rewrite (clamp_i32_id (height - s2)), (clamp_i32_id (height - s2 - s36)), (clamp_i32_id (height - s2 - s36 - s2)),
    (clamp_i32_id (height - s2 - s36 - s2 - s96)) by lia.
  set (h := Z.min s140 _). assert (s140 - 5 ≤ h ≤ s140 ∧ h ≤ height - s2 - s36 - s2 - s96) as Hb by lia. clearbody h.
  rewrite (clamp_i32_id (h + s2)), (clamp_i32_id (s32 + s8)), (clamp_i32_id (s8 + s32)) by lia.
  rewrite (clamp_i32_id (h + s2 + s36)), (clamp_i32_id (h - s32)) by lia.
  rewrite (clamp_i32_id (h + s2 + s36 + s2)), (clamp_i32_id (h - s32 - s16)) by lia.
  rewrite (clamp_i32_id (height - (h + s2 + s36 + s2))) by lia.
  rewrite (clamp_i32_id (h + s2 + s36 + s2 + _)), (clamp_i32_id (s32 + s8 + _)) by lia.
  split_and!; try done; lia.
Qed.



(** At 98 dots per inch the smallest window is eleven pixels too narrow. *)
Example layout_rounding : let width := diagnostic_toolbar_min_width 98 in
  rect_right (message_rect (toolbar (diagnostic_layout width 600 98))) = width + 11.
Proof. reflexivity. Qed.
