(* ===== verification/DiagWindow.v ===== *)
(** * DiagWindow: the diagnostic window

    Models [apps/true-tick/src/ui/diagnostic_window.rs], [diagnostic_grid.rs] and
    [diagnostic_transfer.rs]: the refresh of the window and the requests for it,
    the selections, the controls of the toolbar, the copy and export of rows, the
    opening and closing of the window, and the window procedure.

    The eighteen child controls are created together and forgotten together
    ([diagnostic_controls]).  A native call succeeds or fails with an error code as
    the script [calls] says, so a theorem for all scripts covers every pattern of
    failures.  Painting, fonts, colours, redraw batching and the horizontal scroll
    position are left out; the pixel rectangles are in [DiagLayout]. *)
From coqutil Require Import Datatypes.RecordSetters.
From S2P Require Import Prelude Text Core Policy Privacy Diagnostics Grid Retention Files Logging AppRecords DiagLayout.
Import TriangleBracketNotations.

(** ** Results of native calls *)

Module DiagnosticNativeAction.
Inductive DiagnosticNativeAction := Completed | Cancelled | Failed (raw_error : Z).
End DiagnosticNativeAction.
Abbreviation DiagnosticNativeAction := DiagnosticNativeAction.DiagnosticNativeAction.

Record NativeFailure := mkFailure { failure_stage : str; raw_error : Z }.

Definition map_native_action (success : bool) (raw : Z) : DiagnosticNativeAction :=
  if success then DiagnosticNativeAction.Completed else DiagnosticNativeAction.Failed raw.

Definition map_save_dialog_result (res extended_error : Z) : DiagnosticNativeAction :=
  if negb (res =? 0) then DiagnosticNativeAction.Completed
  else if extended_error =? 0 then DiagnosticNativeAction.Cancelled
  else DiagnosticNativeAction.Failed extended_error.

(** ** The state *)

Record DiagnosticUiState := mkUi {
  (** Whether there is a handle: its value is not looked at. *)
  diagnostic_window : bool;
  diagnostic_controls : bool;
  diagnostic_selected_category : option EventCategory;
  diagnostic_selection : option RowSelection;
  diagnostic_selection_sequences : option (list Z);
  diagnostic_grid_selection_sequences : list Z;
  diagnostic_grid_selection_reset : bool;
  diagnostic_selection_reset : bool;
  diagnostic_display_limit : Z;
  diagnostic_display_all : bool;
  diagnostic_controls_initializing : bool;
  diagnostic_search_text : str;
  diagnostic_message_text : str;
  diagnostic_refresh_pending : bool;
  diagnostic_refreshing : bool;
  diagnostic_refresh_direct_recorded : bool;
  diagnostic_refresh_follow_up_scheduled : bool;
  diagnostic_layout_stable : bool;
  diagnostic_snapshot_key : option (Z * Z);
  diagnostic_snapshot_generation : Z;
  diagnostic_auto_fit_generation : option Z }.

Definition ui_new : DiagnosticUiState :=
  mkUi false false None None None [] false false 100 false false [] [] false false false false false None 0 None.

(** What the operating system keeps for the window: its queue, its answers to the
    next calls and dialogs, and what the controls hold. *)
Record Screen := mkScreen {
  (** The [WM_DIAGNOSTIC_REFRESH] messages in the queue. *)
  posted : nat;
  calls : list (option Z);
  (** The return value of [GetSaveFileNameW], the extended error and the file name. *)
  dialogs : list (Z * Z * str);
  clipboard : option str;
  display_input : str;
  search_input : str;
  range_input : str;
  category_filter : Z;
  message_label : str;
  selection_label : str;
  state_label : str;
  hud_label : str;
  copy_enabled : bool;
  export_enabled : bool;
  item_count : Z;
  list_selected : gset Z;
  list_top : Z;
  list_page : Z;
  column_widths : list Z;
  client_size : Z * Z;
  list_client_width : Z;
  window_dpi : Z }.

(** The values of the heads-up display, from the rest of the application. *)
Record Hud := mkHud {
  hud_status : list str;
  hud_power : PowerState;
  hud_startup_enabled : bool;
  operating_slot_label : str;
  portable_root_label : str }.

Record App := mkApp {
  recorder : Recorder;
  diagnostic_ui : DiagnosticUiState;
  (** [DIAGNOSTIC_OWNER_DATA]: the displayed rows. *)
  owner_buffer : list (list str);
  screen : Screen;
  hud : Hud }.

(** A panic: of a record's redaction, or of an [expect]. *)
Inductive WindowPanic := RecordPanic (f : Privacy.Fault) | ExpectPanic.

(** The list view control: the selection it keeps when its item count is set, its
    first visible row after a row is brought into view, and the content and header
    widths it measures for a column. *)
Class ListView := {
  keep_selected : Z → gset Z → gset Z;
  ensure_visible : Z → Z → Z → Z;
  measure_column : list (list str) → nat → Z * Z }.

(** ** Filters *)

#[export] Instance EventCategory_eq_dec : EqDecision EventCategory.
Proof. solve_decision. Defined.

Section Filters.
Context `{ToLowercase}.

Definition search_matches (search event_name event_details : str) : bool :=
  let needle := trim search in
  if is_empty needle then true
  else
    let needle := to_lowercase needle in
    contains (to_lowercase event_name) needle || contains (to_lowercase event_details) needle.

Definition diagnostic_filtered_events (u : DiagnosticUiState) (evs : list DiagnosticEvent) : list DiagnosticEvent :=
  List.filter (λ e,
    match diagnostic_selected_category u with
    | None => true
    | Some category => bool_decide (from_event_name (name e) = category)
    end && search_matches (diagnostic_search_text u) (name e) (details e)) evs.

Definition diagnostic_visible_selection (u : DiagnosticUiState) (retained_rows : Z) : RowSelection :=
  if diagnostic_display_all u then select_all retained_rows
  else latest_row_selection (diagnostic_display_limit u) retained_rows.

Definition diagnostic_filtered_visible_events (u : DiagnosticUiState) (evs : list DiagnosticEvent) : list DiagnosticEvent :=
  let filtered := diagnostic_filtered_events u evs in
  let selection := diagnostic_visible_selection u (Z.of_nat (length filtered)) in
  if selection_is_empty selection then [] else visible filtered selection.
End Filters.

(** ** Texts *)

Definition power_state_label (p : PowerState) : str :=
  match p with
  | PowerState.Ac => lit "AC"
  | PowerState.Battery => lit "Battery"
  | PowerState.BatterySaver => lit "Battery Saver"
  | PowerState.Unknown => lit "Unknown"
  end.

Definition diagnostic_chain_status_text `{Sha256} (evs : list DiagnosticEvent) : str :=
  match verify_event_chain evs with
  | Ok _ => lit "Verified (SHA-256)"
  | Err (index, _) => lit "TAMPER/ERROR at row " ++ show_u (Z.of_nat index)
  end.

Definition status_field (labels : list str) (index : nat) (prefix : string) : str :=
  let label := nth index labels [] in default label (strip_prefix label (lit prefix)).

Definition diagnostic_state_text (h : Hud) : str := status_field (hud_status h) 0 "State: ".

Definition GITHUB_URL : str := lit "https://github.com/kaiiuen/true-tick".
Definition CRLF_TEXT : str := [13; 10].

Definition diagnostic_hud_field_text (effective ownership power startup running_duration next_action history : str)
    (visible_rows retained : Z) (chain_status slot root version : str) : str :=
  lit "Effective: " ++ effective ++ lit "  |  Ownership: " ++ ownership ++ lit "  |  Power: " ++ power ++ CRLF_TEXT ++
  lit "Startup: " ++ startup ++ lit "  |  Running: " ++ running_duration ++ lit "  |  Next: " ++ next_action ++ CRLF_TEXT ++
  lit "History: " ++ history ++ lit "  |  Showing " ++ show_u visible_rows ++ lit " of " ++ show_u retained ++
  lit " retained rows  |  Chain: " ++ chain_status ++ CRLF_TEXT ++
  lit "Slot: " ++ slot ++ lit "  |  Root: " ++ root ++ CRLF_TEXT ++
  lit "True" ++ [8482] ++ lit " Tick v" ++ version ++ lit " by kaiiuen  |  " ++ GITHUB_URL ++ CRLF_TEXT.

Definition diagnostic_open_operation_outcome (opened : bool) : DiagnosticOutcome :=
  if opened then DiagnosticOutcome.Completed else DiagnosticOutcome.Failed.

Definition diagnostic_selection_summary (u : DiagnosticUiState) (retained_rows : Z) : str :=
  let chosen := diagnostic_grid_selection_sequences u in
  if negb (bool_decide (chosen = [])) then
    lit "Selected: " ++ show_u (Z.of_nat (length chosen)) ++
    (if diagnostic_grid_selection_reset u then lit " rows (some no longer retained)" else lit " rows")
  else if diagnostic_grid_selection_reset u then lit "Selection reset: selected rows are no longer retained"
  else match diagnostic_selection u with
       | Some selection =>
           if is_all selection retained_rows
           then lit "Selected: 0 rows; range fallback: all " ++ show_u retained_rows
           else lit "Selected: 0 rows; range fallback: " ++ show_u (sel_start selection) ++ lit "-" ++
                show_u (sel_end selection)
       | None => lit "Selected: 0 rows; range unavailable"
       end.

Definition diagnostic_range_details (selection : RowSelection) (retained_rows : Z) : str :=
  lit "selected_range=" ++ show_u (sel_start selection) ++ lit "-" ++ show_u (sel_end selection) ++
  lit " retained_rows=" ++ show_u retained_rows ++ lit " row_count=" ++ show_u (row_count selection) ++ lit " format=TSV".

Module DiagnosticTransferSource.
Inductive DiagnosticTransferSource := GridSelection | RangeSelection.
End DiagnosticTransferSource.
Abbreviation DiagnosticTransferSource := DiagnosticTransferSource.DiagnosticTransferSource.

Definition transfer_source_label (s : DiagnosticTransferSource) : str :=
  match s with
  | DiagnosticTransferSource.GridSelection => lit "grid-selection"
  | DiagnosticTransferSource.RangeSelection => lit "range-selection"
  end.

Definition diagnostic_transfer_details (s : DiagnosticTransferSource) (selected_row_count retained_rows : Z)
    (range : option RowSelection) : str :=
  lit "source=" ++ transfer_source_label s ++ lit " selected_row_count=" ++ show_u selected_row_count ++
  lit " retained_rows=" ++ show_u retained_rows ++ lit " format=TSV" ++
  match range with
  | Some selection => lit " selected_range=" ++ show_u (sel_start selection) ++ lit "-" ++ show_u (sel_end selection)
  | None => []
  end.

Definition diagnostic_transfer_source (grid_selection_count range_selection_count : Z) : option DiagnosticTransferSource :=
  if 0 <? grid_selection_count then Some DiagnosticTransferSource.GridSelection
  else if 0 <? range_selection_count then Some DiagnosticTransferSource.RangeSelection
  else None.

Definition diagnostic_grid_refresh_message (snapshot_rows displayed_rows items evicted_rows : Z) : str :=
  lit "snapshot_rows=" ++ show_u snapshot_rows ++ lit " displayed_rows=" ++ show_u displayed_rows ++
  lit " item_count=" ++ show_i items ++ lit " evicted_rows=" ++ show_u evicted_rows.

(** ** Export formats *)

Module DiagnosticExportFormat.
Inductive DiagnosticExportFormat := Csv | Tsv.
End DiagnosticExportFormat.
Abbreviation DiagnosticExportFormat := DiagnosticExportFormat.DiagnosticExportFormat.

Definition export_format_label (f : DiagnosticExportFormat) : str :=
  match f with DiagnosticExportFormat.Csv => lit "CSV" | DiagnosticExportFormat.Tsv => lit "TSV" end.

(** [Path::extension]: after the last dot, none when that is the first character. *)
Definition extension (p : path) : option str :=
  n ← file_name p; match rsplit_once 46 n with Some (_ :: _, e) => Some e | _ => None end.

Definition export_format_for_path (p : path) : DiagnosticExportFormat :=
  match extension p with
  | Some e => if str_eqb (lowercase e) (lit "tsv") then DiagnosticExportFormat.Tsv else DiagnosticExportFormat.Csv
  | None => DiagnosticExportFormat.Csv
  end.

Definition format_export_rows `{UnicodeAlphabetic} (rows : list (list str)) (f : DiagnosticExportFormat) : str :=
  match f with DiagnosticExportFormat.Csv => format_csv rows | DiagnosticExportFormat.Tsv => format_tsv rows end.

(** ** The display limit as typed *)

Module DisplayLimitInputDecision.
Inductive DisplayLimitInputDecision := Apply (limit : Z) | PreserveEmpty | Invalid (error : DisplayLimitError).
End DisplayLimitInputDecision.
Abbreviation DisplayLimitInputDecision := DisplayLimitInputDecision.DisplayLimitInputDecision.

(** [Invalid] carries the error that the caller gets by parsing again. *)
Definition display_limit_input_decision (input : str) : DisplayLimitInputDecision :=
  if is_empty (trim input) then DisplayLimitInputDecision.PreserveEmpty
  else match parse_display_limit input with
       | Ok limit => DisplayLimitInputDecision.Apply limit
       | Err e => DisplayLimitInputDecision.Invalid e
       end.

(** ** Refresh decisions *)

Definition diagnostic_snapshot_key_of (evs : list DiagnosticEvent) : option (Z * Z) :=
  (λ e, (Z.of_nat (length evs), sequence e)) <$> last evs.
Definition diagnostic_data_snapshot_changed (previous current : option (Z * Z)) : bool :=
  negb (bool_decide (previous = current)).
Definition diagnostic_auto_fit_once (layout_stable snapshot_changed : bool) (generation : Z) (fitted : option Z) : bool :=
  negb layout_stable || (snapshot_changed && negb (bool_decide (fitted = Some generation))).
Definition diagnostic_refresh_is_coalesced (pending refreshing : bool) : bool := pending || refreshing.
Definition diagnostic_follow_up_needed (generated_direct_records follow_up_refresh : bool) : bool :=
  generated_direct_records && negb follow_up_refresh.

Definition EVENT_BUFFER_CAP : nat := 4096.
(** [DiagnosticGridRowBuffer::push]. *)
Definition push_row (buffer : list (list str)) (row : list str) : list (list str) :=
  (if (EVENT_BUFFER_CAP <=? length buffer)%nat then tail buffer else buffer) ++ [row].

Definition DIAGNOSTIC_COLUMN_WIDTHS : list Z := [54; 70; 78; 78; 70; 86; 82; 90; 86; 160; 240].
Definition DIAGNOSTIC_COLUMN_MIN_WIDTHS : list Z := [36; 52; 64; 64; 52; 64; 60; 68; 64; 84; 240].
Definition DIAGNOSTIC_COLUMN_MAX_WIDTHS : list Z := [84; 120; 140; 144; 120; 144; 112; 124; 124; 260; 640].

(** [value.clamp(minimum, maximum)]. *)
Definition clamp (value minimum maximum : Z) : Z := Z.min (Z.max value minimum) maximum.

(** The cells [LVN_GETDISPINFO] is answered with. *)
Definition diagnostic_grid_cell (buffer : list (list str)) (index column : Z) : option str :=
  row ← buffer !! Z.to_nat (Z.max index 0); row !! Z.to_nat (Z.max column 0).

Section Window.
Context `{Sha256} `{RecordClock} `{ToLowercase} `{UnicodeAlphabetic} `{PathParse} `{ListView}.
(** [env!("CARGO_PKG_VERSION")]. *)
Context (version : str).
Abbreviation W := (comp App WindowPanic).
Implicit Types (a : App) (u : DiagnosticUiState).

(** ** Calls *)

Definition on_ui (f : DiagnosticUiState → DiagnosticUiState) : W unit := modify (λ a, a <| diagnostic_ui ::= f |>).
Definition on_screen (f : Screen → Screen) : W unit := modify (λ a, a <| screen ::= f |>).
Definition ui : W DiagnosticUiState := λ a, (Ok (diagnostic_ui a), a).
Definition snapshot : W (list DiagnosticEvent) := λ a, (Ok (events (diagnostics (recorder a))), a).
Definition maximum : W Z := λ a, (Ok (Z.of_nat (maximum_events (diagnostics (recorder a)))), a).

Definition on_recorder {T} (m : comp Recorder Privacy.Fault T) : W T := λ a,
  match m (recorder a) with
  | (Ok x, r) => (Ok x, a <| recorder := r |>)
  | (Err e, r) => (Err (RecordPanic e), a <| recorder := r |>)
  end.
Definition on_files {T} (m : FS T) : W (result IoError T) := λ a,
  let l := logger (recorder a) in
  let '(r, f) := m (log_fs l) in (Ok r, a <| recorder ::= (λ rec, rec <| logger := set_log_fs f l |>) |>).

(** The next native call: [None] when it succeeds, the last error when it fails. *)
Definition native_call : W (option Z) := λ a,
  match calls (screen a) with
  | [] => (Ok None, a)
  | c :: rest => (Ok c, a <| screen ::= (λ s, s <| calls := rest |>) |>)
  end.
(** A call that takes effect when it succeeds. *)
Definition native_set (f : Screen → Screen) : W (option Z) :=
  r ← native_call;
  _ ← match r with None => on_screen f | Some _ => mret tt end;
  mret r.

(** ** Requests for a refresh, and records *)

Definition request_diagnostic_refresh : W unit :=
  u ← ui;
  if diagnostic_refresh_is_coalesced (diagnostic_refresh_pending u) (diagnostic_refreshing u)
  then if diagnostic_refreshing u then on_ui (λ u, u <| diagnostic_refresh_pending := true |>) else mret tt
  else if negb (diagnostic_window u) then mret tt
  else
    _ ← on_ui (λ u, u <| diagnostic_refresh_pending := true |>);
    r ← native_set (λ s, s <| posted ::= S |>);
    match r with
    | Some _ => on_ui (λ u, u <| diagnostic_refresh_pending := false |>)
    | None => mret tt
    end.

Definition app_begin_operation (source : DiagnosticSource) : W unit := on_recorder (begin_app_operation source).
Definition app_finish_operation (o : DiagnosticOutcome) : W unit :=
  open ← on_recorder (close_operation o);
  if (open : bool) then request_diagnostic_refresh else mret tt.
Definition app_record_with_outcome (nm dt : str) (o : DiagnosticOutcome) : W unit :=
  _ ← on_recorder (append_record nm dt o); request_diagnostic_refresh.
Definition app_record (nm dt : str) : W unit := app_record_with_outcome nm dt (diagnostic_outcome nm dt).
Definition app_store_record (nm dt : str) (o : DiagnosticOutcome) : W unit := on_recorder (store_record nm dt o).

Definition record_diagnostic_event_with_context (nm dt : str) (ph : DiagnosticPhase) (o : DiagnosticOutcome) : W unit :=
  on_recorder (
    r ← get;
    context ← new_context (operation r);
    record_with (mkRecord context ph DiagnosticSource.Diagnostic o (native_outcome nm dt)) nm dt).

Definition record_diagnostic_refresh_event (nm dt : str) : W unit :=
  u ← ui;
  _ ← (if diagnostic_refreshing u
       then on_ui (λ u, u <| diagnostic_refresh_direct_recorded := true |>) else mret tt);
  record_diagnostic_event_with_context nm dt (diagnostic_phase nm) (diagnostic_outcome nm dt).

(** ** Texts of the controls *)

Definition if_controls (m : W unit) : W unit := u ← ui; if diagnostic_controls u then m else mret tt.

Definition set_diagnostic_message (message : str) : W unit :=
  _ ← on_ui (λ u, u <| diagnostic_message_text := message |>);
  if_controls (
    r ← native_set (λ s, s <| message_label := message |>);
    match r with
    | Some e => app_store_record (lit "native.SetWindowTextW.diagnostic_message.error") (lit "raw_status=" ++ show_u e)
                  DiagnosticOutcome.Failed
    | None => mret tt
    end).

Definition set_diagnostic_selection_summary (text : str) : W unit :=
  if_controls (_ ← native_set (λ s, s <| selection_label := text |>); mret tt).
Definition set_diagnostic_action_enabled (enabled : bool) : W unit :=
  if_controls (on_screen (λ s, (s <| copy_enabled := enabled |>) <| export_enabled := enabled |>)).

(** The text of an edit control, empty without the control. *)
Definition edit_text (f : Screen → str) : W str := λ a,
  (Ok (if diagnostic_controls (diagnostic_ui a) then f (screen a) else []), a).
Definition diagnostic_display_text : W str := edit_text display_input.
Definition diagnostic_search_input_text : W str := edit_text search_input.
Definition diagnostic_range_text : W str := edit_text range_input.

Definition show_selection_summary (retained_rows : Z) : W unit :=
  u ← ui; set_diagnostic_selection_summary (diagnostic_selection_summary u retained_rows).

(** [set_diagnostic_message(app, "")] when the message starts with [prefix]. *)
Definition clear_message_starting (prefix : string) : W unit :=
  u ← ui; if starts_with (diagnostic_message_text u) (lit prefix) then set_diagnostic_message [] else mret tt.

(** ** The selections *)

Definition grid_selected u : bool := negb (bool_decide (diagnostic_grid_selection_sequences u = [])).
Definition range_selected u : bool :=
  match diagnostic_selection u with Some s => negb (selection_is_empty s) | None => false end.

Definition input_is_all (input : str) : bool := is_empty (trim input) || str_eq_ignore_case (trim input) (lit "all").

Definition refresh_range_from_input (evs : list DiagnosticEvent) (input : str) : W unit :=
  match parse_row_selection input (Z.of_nat (length evs)) with
  | Ok selection =>
      _ ← on_ui (λ u, ((u <| diagnostic_selection := Some selection |>)
                         <| diagnostic_selection_sequences := Some (selected_event_sequences evs selection) |>)
                         <| diagnostic_selection_reset := false |>);
      clear_message_starting "Invalid range:"
  | Err e =>
      _ ← on_ui (λ u, ((u <| diagnostic_selection := None |>)
                         <| diagnostic_selection_sequences := None |>)
                         <| diagnostic_selection_reset := false |>);
      set_diagnostic_message (lit "Invalid range: " ++ row_selection_error_display e)
  end.

(** The range's rows are no longer retained. *)
Definition reset_range (retained_rows : Z) : W unit :=
  _ ← on_ui (λ u, ((u <| diagnostic_selection := None |>)
                     <| diagnostic_selection_sequences := None |>)
                     <| diagnostic_selection_reset := true |>);
  _ ← show_selection_summary retained_rows;
  u ← ui;
  _ ← set_diagnostic_action_enabled (grid_selected u);
  _ ← set_diagnostic_message (lit "Selection reset: selected rows are no longer retained.");
  _ ← record_diagnostic_refresh_event (lit "diagnostic.selection.reset")
        (lit "reason=range_rows_not_retained retained_rows=" ++ show_u retained_rows);
  request_diagnostic_refresh.

Definition refresh_diagnostic_controls (evs : list DiagnosticEvent) (preserve_selection : bool) : W unit :=
  let retained_rows := Z.of_nat (length evs) in
  input ← diagnostic_range_text;
  u ← ui;
  if preserve_selection && diagnostic_selection_reset u then
    _ ← show_selection_summary retained_rows;
    set_diagnostic_action_enabled (grid_selected u)
  else
    match (if preserve_selection && negb (input_is_all input) then diagnostic_selection_sequences u else None) with
    | Some sequences =>
        match row_selection_for_sequences evs sequences with
        | Some selection =>
            _ ← on_ui (λ u, u <| diagnostic_selection := Some selection |>);
            _ ← show_selection_summary retained_rows;
            set_diagnostic_action_enabled (grid_selected u || negb (selection_is_empty selection))
        | None => reset_range retained_rows
        end
    | None =>
        _ ← refresh_range_from_input evs input;
        _ ← show_selection_summary retained_rows;
        u ← ui; set_diagnostic_action_enabled (grid_selected u || range_selected u)
    end.

Definition preserve_diagnostic_grid_selection (evs : list DiagnosticEvent) : W unit :=
  u ← ui;
  let previous := diagnostic_grid_selection_sequences u in
  if bool_decide (previous = []) then mret tt
  else
    let selected := selected_event_sequences_for_sequences evs previous in
    let invalid_count := sat_sub (Z.of_nat (length previous)) (Z.of_nat (length selected)) in
    _ ← on_ui (λ u, u <| diagnostic_grid_selection_sequences := selected |>);
    if 0 <? invalid_count then
      _ ← on_ui (λ u, u <| diagnostic_grid_selection_reset := true |>);
      _ ← set_diagnostic_message
            (if invalid_count =? 1 then lit "Selection reset: 1 selected row is no longer retained."
             else lit "Selection reset: selected rows are no longer retained.");
      record_diagnostic_refresh_event (lit "diagnostic.selection.reset")
        (lit "source=grid-selection invalid_rows=" ++ show_u invalid_count ++ lit " retained_rows=" ++
         show_u (Z.of_nat (length evs)))
    else mret tt.

(** The sequence number shown in a row of the buffer. *)
Definition row_sequence (row : list str) : option Z := cell ← row !! 1%nat; parse_u 64 cell.
Definition sequence_at (buffer : list (list str)) (position : Z) : option Z :=
  if Z.of_nat (length buffer) <=? position then None else row ← buffer !! Z.to_nat position; row_sequence row.

(** [list_selected_item_positions]: [LVM_GETNEXTITEM] from each selected row to the next. *)
Definition list_selected_item_positions (s : Screen) : list Z := sort_z (elements (list_selected s)).

Definition update_diagnostic_grid_selection : W unit :=
  u ← ui;
  if diagnostic_refreshing u then mret tt
  else if negb (diagnostic_controls u) then mret tt
  else
    evs ← snapshot;
    a ← get;
    let selected := List.filter (λ q, mem_z q (map sequence evs))
                      (omap (sequence_at (owner_buffer a)) (list_selected_item_positions (screen a))) in
    _ ← on_ui (λ u, (u <| diagnostic_grid_selection_sequences := selected |>)
                      <| diagnostic_grid_selection_reset := false |>);
    _ ← clear_message_starting "Selection reset:";
    _ ← show_selection_summary (Z.of_nat (length evs));
    u ← ui; set_diagnostic_action_enabled (grid_selected u || range_selected u).

(** The positions [apply_diagnostic_grid_selection] selects, beside those already selected. *)
Definition positions_of (buffer : list (list str)) (sequences : list Z) : list Z :=
  omap (λ '(index, row), q ← row_sequence row; if mem_z q sequences then Some index else None) (enumerate buffer).
Definition apply_diagnostic_grid_selection : W unit :=
  a ← get;
  let chosen := diagnostic_grid_selection_sequences (diagnostic_ui a) in
  if bool_decide (chosen = []) then mret tt
  else on_screen (λ s, s <| list_selected ::= union (list_to_set (positions_of (owner_buffer a) chosen)) |>).

(** [LVM_SETITEMSTATE] on item -1. *)
Definition select_all_diagnostic_rows : W unit :=
  u ← ui;
  if negb (diagnostic_controls u) then mret tt
  else
    _ ← on_screen (λ s, s <| list_selected := list_to_set (seqZ 0 (item_count s)) |>);
    update_diagnostic_grid_selection.

(** ** Columns and layout *)

(** The limits of a column at the window's DPI. *)
Definition column_limits (dpi : Z) : list (Z * Z) :=
  zip (map (λ w, scale_logical w dpi) DIAGNOSTIC_COLUMN_MIN_WIDTHS)
      (map (λ w, scale_logical w dpi) DIAGNOSTIC_COLUMN_MAX_WIDTHS).
Definition clamp_columns (dpi : Z) (widths : list Z) : list Z :=
  zip_with (λ w l, clamp w l.1 l.2) widths (column_limits dpi).

(** The columns before the details, clamped, and their total; then the details. *)
Definition fixed_columns : nat := length REPORT_COLUMNS - 1.
Definition fit_diagnostic_details_to_viewport (client_width dpi : Z) : W unit :=
  on_screen (λ s, s <| column_widths ::= (λ widths,
    let fixed := take fixed_columns (clamp_columns dpi (map (Z.max 0) widths)) in
    let fixed_width := foldl add_i32 0 fixed in
    let details_minimum := (nth fixed_columns (column_limits dpi) (0, 0)).1 in
    fixed ++ [Z.max (sub_i32 client_width fixed_width) details_minimum]) |>).

Definition auto_fit_diagnostic_columns (client_width dpi : Z) : W unit := λ a,
  let measured := map (λ i, let '(content, header) := measure_column (owner_buffer a) i in
                            Z.max (Z.max content 0) (Z.max header 0)) (seq 0 (length REPORT_COLUMNS)) in
  let clamped := clamp_columns dpi measured in
  let fixed := take fixed_columns clamped in
  let fixed_width := foldl add_i32 0 fixed in
  let details_minimum := (nth fixed_columns (column_limits dpi) (0, 0)).1 in
  let measured_details := nth fixed_columns clamped 0 in
  let remaining_width := sub_i32 client_width fixed_width in
  (Ok tt, a <| screen ::= (λ s, s <| column_widths :=
     fixed ++ [Z.max (Z.max measured_details details_minimum) remaining_width] |>) |>).

Definition record_diagnostic_layout_failure (stage : string) (index : option Z) (raw : Z) : W unit :=
  record_diagnostic_event_with_context (lit "diagnostic.layout.error")
    (lit "stage=" ++ lit stage ++ lit " control_index=" ++
     match index with Some i => show_u i | None => lit "none" end ++ lit " raw_status=" ++ show_u raw)
    DiagnosticPhase.Render DiagnosticOutcome.Failed.

(** Each control: [IsWindow], an empty rectangle, [SetWindowPos]. *)
Fixpoint apply_diagnostic_layout (index : Z) (rects : list DiagnosticLayoutRect) : W bool :=
  match rects with
  | [] => mret true
  | rect :: rects =>
      u ← ui;
      if negb (diagnostic_controls u) then
        _ ← record_diagnostic_layout_failure "missing_control" (Some index) 0; mret false
      else
        live ← native_call;
        match live with
        | Some e =>
            _ ← record_diagnostic_event_with_context (lit "diagnostic.layout.skipped")
                  (lit "control_index=" ++ show_u index ++ lit " reason=not_a_window raw_status=" ++ show_u e)
                  DiagnosticPhase.Render DiagnosticOutcome.Suppressed;
            apply_diagnostic_layout (index + 1) rects
        | None =>
            if (rect_width rect <=? 0) || (rect_height rect <=? 0) then
              _ ← record_diagnostic_event_with_context (lit "diagnostic.layout.skipped")
                    (lit "control_index=" ++ show_u index ++ lit " reason=empty_rect width=" ++
                     show_i (rect_width rect) ++ lit " height=" ++ show_i (rect_height rect))
                    DiagnosticPhase.Render DiagnosticOutcome.Suppressed;
              apply_diagnostic_layout (index + 1) rects
            else
              moved ← native_call;
              match moved with
              | Some e => _ ← record_diagnostic_layout_failure "SetWindowPos" (Some index) e; mret false
              | None => apply_diagnostic_layout (index + 1) rects
              end
        end
  end.

(** The rectangles in the order of the controls; the range input is laid out before the selection summary. *)
Definition layout_order (l : DiagnosticLayout) : list DiagnosticLayoutRect :=
  [hud_state l; summary l; hud_separator l; toolbar_separator l] ++ toolbar_controls (toolbar l) ++
  [message_rect (toolbar l); list_rect l].

Definition layout_diagnostic_controls : W bool :=
  r ← native_call;
  match r with
  | Some e => _ ← record_diagnostic_layout_failure "GetClientRect" None e; mret false
  | None =>
      a ← get;
      let s := screen a in
      let dpi := Z.max (window_dpi s) 96 in
      let layout := diagnostic_layout (Z.max (client_size s).1 0) (Z.max (client_size s).2 0) dpi in
      positioned ← apply_diagnostic_layout 0 (layout_order layout);
      _ ← if_controls (fit_diagnostic_details_to_viewport (rect_width (list_rect layout)) dpi);
      mret positioned
  end.

(** ** Refreshing *)

Definition diagnostic_summary_text (a : App) (retained : Z) : str :=
  let evs := events (diagnostics (recorder a)) in
  let h := hud a in
  diagnostic_hud_field_text (status_field (hud_status h) 1 "Timing: ") (status_field (hud_status h) 4 "Ownership: ")
    (power_state_label (hud_power h)) (if hud_startup_enabled h then lit "On" else lit "Off")
    (status_field (hud_status h) 2 "Running for: ") (status_field (hud_status h) 3 "Next action: ")
    (retention_summary retained (Z.of_nat (maximum_events (diagnostics (recorder a)))) (snapshot_is_truncated evs))
    (Z.of_nat (length (diagnostic_filtered_visible_events (diagnostic_ui a) evs))) retained
    (diagnostic_chain_status_text evs) (operating_slot_label h) (portable_root_label h) version.

Definition set_hud_label (nm : string) (text : App → str) (put : str → Screen → Screen) : W unit :=
  if_controls (
    a ← get;
    r ← native_set (put (text a));
    match r with
    | Some e => app_store_record (lit nm) (lit "raw_status=" ++ show_u e) DiagnosticOutcome.Failed
    | None => mret tt
    end).

Definition finish_diagnostic_refresh (follow_up_needed : bool) : W unit :=
  _ ← on_ui (λ u, u <| diagnostic_refreshing := false |>);
  _ ← modify (λ a : App, a <| recorder ::= (λ r, r <| logger ::= (λ l,
        (flush_diagnostic_events_to_disk (E := WindowPanic) (moment r) l).2) |>) |>);
  _ ← (if follow_up_needed
       then on_ui (λ u, u <| diagnostic_refresh_follow_up_scheduled := true |>) else mret tt);
  u ← ui;
  if diagnostic_refresh_pending u || follow_up_needed then
    _ ← on_ui (λ u, u <| diagnostic_refresh_pending := false |>);
    request_diagnostic_refresh
  else mret tt.

(** The start of a refresh: the flags, the snapshot's generation, whether to fit the columns. *)
Definition start_refresh (evs : list DiagnosticEvent) : W bool :=
  _ ← on_ui (λ u, ((u <| diagnostic_refreshing := true |>)
                     <| diagnostic_refresh_follow_up_scheduled := false |>)
                     <| diagnostic_refresh_direct_recorded := false |>);
  u ← ui;
  let key := diagnostic_snapshot_key_of evs in
  let snapshot_changed := diagnostic_data_snapshot_changed (diagnostic_snapshot_key u) key in
  _ ← (if snapshot_changed
       then on_ui (λ u, (u <| diagnostic_snapshot_generation ::= (λ g, sat_add 64 g 1) |>)
                          <| diagnostic_snapshot_key := key |>)
       else mret tt);
  u ← ui;
  let auto_fit := diagnostic_auto_fit_once (diagnostic_layout_stable u) snapshot_changed
                    (diagnostic_snapshot_generation u) (diagnostic_auto_fit_generation u) in
  _ ← (if auto_fit
       then on_ui (λ u, u <| diagnostic_auto_fit_generation := Some (diagnostic_snapshot_generation u) |>)
       else mret tt);
  mret auto_fit.

(** The rows of the visible events go to the buffer and the list view. *)
Definition grid_rows_of (evs : list DiagnosticEvent) : list (list str) :=
  map (λ '(index, e), diagnostic_grid_row (sat_add 64 index 1) e) (enumerate evs).
Definition fill_rows (evs : list DiagnosticEvent) (follow_up_refresh : bool) : W unit :=
  u ← ui;
  let rows := grid_rows_of (diagnostic_filtered_visible_events u evs) in
  let displayed_rows := Z.of_nat (length rows) in
  let evicted_rows := sat_sub displayed_rows (Z.of_nat EVENT_BUFFER_CAP) in
  let buffer := foldl push_row [] rows in
  let buffer_len := Z.of_nat (length buffer) in
  _ ← modify (λ a : App, a <| owner_buffer := buffer |>);
  _ ← on_screen (λ s, (s <| item_count := buffer_len |>) <| list_selected ::= keep_selected buffer_len |>);
  _ ← apply_diagnostic_grid_selection;
  if follow_up_refresh then mret tt
  else record_diagnostic_refresh_event (lit "diagnostic.grid.refresh")
         (diagnostic_grid_refresh_message (Z.of_nat (length evs)) displayed_rows buffer_len evicted_rows).

(** What follows the rows: columns, scrolling, the display's texts. *)
Definition after_rows (evs : list DiagnosticEvent) (auto_fit was_at_bottom : bool) : W unit :=
  _ ← (if auto_fit then
         r ← native_call;
         match r with
         | None => a ← get;
             auto_fit_diagnostic_columns (Z.max (list_client_width (screen a)) 0) (Z.max (window_dpi (screen a)) 96)
         | Some _ => mret tt
         end
       else mret tt);
  _ ← (if was_at_bottom
       then on_screen (λ s, if 0 <? item_count s
                            then s <| list_top ::= (λ top, ensure_visible (item_count s - 1) top (list_page s)) |> else s)
       else mret tt);
  _ ← set_hud_label "native.SetWindowTextW.diagnostic_hud.error" (λ a, diagnostic_state_text (hud a))
        (λ t s, s <| state_label := t |>);
  _ ← set_hud_label "native.SetWindowTextW.diagnostic_summary.error"
        (λ a, diagnostic_summary_text a (Z.of_nat (length evs))) (λ t s, s <| hud_label := t |>);
  on_ui (λ u, u <| diagnostic_layout_stable := true |>).

(** The refresh from its rows on. *)
Definition rows_and_end (evs : list DiagnosticEvent) (auto_fit follow_up_refresh allow : bool) : W unit :=
  a ← get;
  let was_at_bottom :=
    if 0 <? item_count (screen a)
    then item_count (screen a) <=? Z.max (list_top (screen a)) 0 + Z.max (list_page (screen a)) 0 else true in
  _ ← fill_rows evs follow_up_refresh;
  _ ← after_rows evs auto_fit was_at_bottom;
  u ← ui;
  finish_diagnostic_refresh
    (allow && diagnostic_follow_up_needed (diagnostic_refresh_direct_recorded u) follow_up_refresh).

(** The refresh up to its rows. *)
Definition prepare_refresh (evs : list DiagnosticEvent) : W bool :=
  auto_fit ← start_refresh evs;
  _ ← preserve_diagnostic_grid_selection evs;
  _ ← refresh_diagnostic_controls evs true;
  mret auto_fit.

Definition refresh_diagnostic_window (allow_follow_up_post : bool) : W unit :=
  u ← ui;
  if diagnostic_refreshing u then mret tt
  else
    let follow_up_refresh := diagnostic_refresh_follow_up_scheduled u in
    evs ← snapshot;
    auto_fit ← prepare_refresh evs;
    u ← ui;
    if negb (diagnostic_controls u) then
      _ ← app_store_record (lit "diagnostic.grid.refresh.error") (lit "list_handle_null") DiagnosticOutcome.Failed;
      finish_diagnostic_refresh false
    else rows_and_end evs auto_fit follow_up_refresh allow_follow_up_post.

(** ** Copy and export *)

(** [copy_tsv_to_clipboard]: the calls in order; a failing one is reported by its name. *)
Definition stage_call {T} (stage : string) (k : W (result NativeFailure T)) : W (result NativeFailure T) :=
  r ← native_call; match r with Some e => mret (Err (mkFailure (lit stage) e)) | None => k end.
(** A call whose result the code ignores. *)
Definition ignored_call : W unit := _ ← native_call; mret tt.
Definition stage_call_closing (frees : bool) (stage : string) (k : W (result NativeFailure unit)) : W (result NativeFailure unit) :=
  r ← native_call;
  match r with
  | Some e =>
      _ ← (if frees then ignored_call else mret tt);
      _ ← ignored_call;
      mret (Err (mkFailure (lit stage) e))
  | None => k
  end.
Definition copy_tsv_to_clipboard (text : str) : W (result NativeFailure unit) :=
  stage_call "OpenClipboard" (
  stage_call_closing false "EmptyClipboard" (
  _ ← on_screen (λ s, s <| clipboard := None |>);
  stage_call_closing false "GlobalAlloc" (
  stage_call_closing true "GlobalLock" (
  _ ← ignored_call;
  stage_call_closing true "SetClipboardData" (
  _ ← on_screen (λ s, s <| clipboard := Some text |>);
  stage_call "CloseClipboard" (mret (Ok tt))))))).

(** The next answer of the save dialog; the path without its terminator. *)
Definition choose_export_path : W (result NativeFailure (option path)) := λ a,
  match dialogs (screen a) with
  | [] => (Ok (Ok None), a)
  | (res, extended, file) :: rest =>
      (Ok match map_save_dialog_result res (if res =? 0 then extended else 0) with
          | DiagnosticNativeAction.Completed => Ok (Some (path_parse file))
          | DiagnosticNativeAction.Cancelled => Ok None
          | DiagnosticNativeAction.Failed raw => Err (mkFailure (lit "GetSaveFileNameW") raw)
          end, a <| screen ::= (λ s, s <| dialogs := rest |>) |>)
  end.

Definition export_io_error (e : IoError) : Z :=
  let raw := default 1 (raw_os_error e) in if 0 <=? raw then raw else 1.

(** The path with [.tmp] after its name. *)
Definition temporary_path (p : path) : path :=
  match reverse p with [] => [] | n :: dir => reverse dir ++ [n ++ lit ".tmp"] end.

Definition write_export_tsv (p : path) (text : str) : W (result NativeFailure unit) :=
  let temporary := temporary_path p in
  written ← on_files (fs_write temporary (utf8_encode text));
  match written with
  | Err e =>
      _ ← on_files (fs_remove_file temporary);
      mret (Err (mkFailure (lit "write_temporary") (export_io_error e)))
  | Ok _ =>
      moved ← on_files (fs_replace temporary p);
      match moved with
      | Err e =>
          _ ← on_files (fs_remove_file temporary);
          mret (Err (mkFailure (lit "MoveFileExW") (default 0 (raw_os_error e))))
      | Ok _ => mret (Ok tt)
      end
  end.

(** What the toolbar transfers: the rows and the words about them; none when the
    input is refused, which ends the operation. *)
Definition transfer_rows (evs : list DiagnosticEvent)
    : W (option (DiagnosticTransferSource * list (list str) * option RowSelection)) :=
  let retained_rows := Z.of_nat (length evs) in
  u ← ui;
  let grid_sequences := selected_event_sequences_for_sequences evs (diagnostic_grid_selection_sequences u) in
  if negb (bool_decide (grid_sequences = [])) then
    match diagnostic_transfer_source (Z.of_nat (length grid_sequences)) 0 with
    | Some source => mret (Some (source, diagnostic_grid_rows_for_sequences evs grid_sequences, None))
    | None => fail ExpectPanic
    end
  else
    input ← diagnostic_range_text;
    match parse_row_selection input retained_rows with
    | Ok selection =>
        if negb (selection_is_empty selection) then
          _ ← on_ui (λ u, ((u <| diagnostic_selection := Some selection |>)
                             <| diagnostic_selection_sequences := Some (selected_event_sequences evs selection) |>)
                             <| diagnostic_selection_reset := false |>);
          match diagnostic_transfer_source 0 (row_count selection) with
          | Some source => mret (Some (source, diagnostic_grid_rows evs selection, Some selection))
          | None => fail ExpectPanic
          end
        else
          let words := diagnostic_transfer_details DiagnosticTransferSource.RangeSelection 0 retained_rows (Some selection) in
          _ ← app_record (lit "diagnostic.range.parsed") (lit "result=empty " ++ words);
          _ ← app_record_with_outcome (lit "diagnostic.validation_failure")
                (words ++ lit " result=failed reason=no_retained_events") DiagnosticOutcome.Failed;
          _ ← set_diagnostic_message (lit "No retained events.");
          _ ← app_finish_operation DiagnosticOutcome.Failed;
          mret None
    | Err e =>
        let words := diagnostic_transfer_details DiagnosticTransferSource.RangeSelection 0 retained_rows None in
        let shown := row_selection_error_display e in
        _ ← app_record_with_outcome (lit "diagnostic.range.parsed")
              (words ++ lit " result=invalid error=" ++ shown) DiagnosticOutcome.Failed;
        _ ← app_record_with_outcome (lit "diagnostic.validation_failure")
              (words ++ lit " result=failed error=" ++ shown) DiagnosticOutcome.Failed;
        _ ← set_diagnostic_message (lit "Invalid range: " ++ shown);
        _ ← app_finish_operation DiagnosticOutcome.Failed;
        mret None
    end.

(** The last three steps of every branch: a message, a record, the end of the operation. *)
Definition report_transfer (message : str) (nm dt : str) (o : DiagnosticOutcome) : W unit :=
  _ ← set_diagnostic_message message;
  _ ← app_record_with_outcome nm dt o;
  app_finish_operation o.
Definition report_success (message : str) (nm dt : str) : W unit :=
  _ ← set_diagnostic_message message;
  _ ← app_record nm dt;
  app_finish_operation DiagnosticOutcome.Completed.

Definition copy_transfer (rows : list (list str)) (words : str) : W unit :=
  _ ← app_record (lit "diagnostic.copy.request") (words ++ lit " result=requested");
  res ← copy_tsv_to_clipboard (format_tsv rows);
  match res with
  | Ok _ =>
      report_success (lit "Copied " ++ show_u (Z.of_nat (length rows)) ++ lit " rows as TSV.")
        (lit "diagnostic.copy.result") (lit "result=success " ++ words)
  | Err e =>
      _ ← app_record_with_outcome (lit "native.clipboard.error")
            (lit "stage=" ++ failure_stage e ++ lit " " ++ words ++ lit " result=failed raw_status=" ++ show_u (raw_error e))
            DiagnosticOutcome.Failed;
      report_transfer (lit "Copy failed (native error " ++ show_u (raw_error e) ++ lit ").")
        (lit "diagnostic.copy.result") (lit "result=failed " ++ words ++ lit " raw_status=" ++ show_u (raw_error e))
        DiagnosticOutcome.Failed
  end.

(** The branches [export] and [export_all], which differ in their rows and words. *)
Definition exported_message (all : bool) (rows : list (list str)) (f : DiagnosticExportFormat) : str :=
  (if all then lit "Exported all " else lit "Exported ") ++ show_u (Z.of_nat (length rows)) ++ lit " rows as " ++
  export_format_label f ++ lit ".".
Definition mode_word (all : bool) : str := if all then lit " mode=all" else [].
Definition report_export (all : bool) (rows : list (list str)) (words : str) (f : DiagnosticExportFormat)
    (write_result : result NativeFailure unit) : W unit :=
  match write_result with
  | Ok _ =>
      report_success (exported_message all rows f) (lit "diagnostic.export.result")
        (lit "result=success " ++ words ++ lit " path=redacted" ++ mode_word all)
  | Err e =>
      _ ← app_record_with_outcome (lit "native.export.file.error")
            (lit "stage=" ++ failure_stage e ++ lit " " ++ words ++ lit " result=failed raw_status=" ++ show_u (raw_error e))
            DiagnosticOutcome.Failed;
      report_transfer (lit "Export failed (native error " ++ show_u (raw_error e) ++ lit ").")
        (lit "diagnostic.export.result")
        (lit "result=failed " ++ words ++ lit " path=redacted raw_status=" ++ show_u (raw_error e)) DiagnosticOutcome.Failed
  end.
Definition export_transfer (all : bool) (rows : list (list str)) (words : str) : W unit :=
  _ ← app_record (lit "diagnostic.export.request") (words ++ lit " result=requested" ++ mode_word all);
  chosen ← choose_export_path;
  match chosen with
  | Ok None =>
      _ ← set_diagnostic_message (lit "Export cancelled.");
      _ ← app_record_with_outcome (lit "diagnostic.export.cancelled") (lit "result=cancelled " ++ words)
            DiagnosticOutcome.Cancelled;
      _ ← app_record_with_outcome (lit "diagnostic.export.result") (lit "result=cancelled " ++ words)
            DiagnosticOutcome.Cancelled;
      app_finish_operation DiagnosticOutcome.Cancelled
  | Err e =>
      _ ← app_record_with_outcome (lit "native.GetSaveFileNameW.error")
            (words ++ lit " result=failed raw_status=" ++ show_u (raw_error e)) DiagnosticOutcome.Failed;
      report_transfer (lit "Export dialog failed (native error " ++ show_u (raw_error e) ++ lit ").")
        (lit "diagnostic.export.result") (lit "result=failed " ++ words ++ lit " raw_status=" ++ show_u (raw_error e))
        DiagnosticOutcome.Failed
  | Ok (Some p) =>
      let format := export_format_for_path p in
      write_result ← write_export_tsv p (format_export_rows rows format);
      report_export all rows words format write_result
  end.

Definition diagnostic_toolbar_action (action : str) : W unit :=
  evs ← snapshot;
  let retained_rows := Z.of_nat (length evs) in
  _ ← app_begin_operation DiagnosticSource.Diagnostic;
  chosen ← transfer_rows evs;
  match chosen with
  | None => mret tt
  | Some (source, rows, range) =>
      cap ← maximum;
      let retention := retention_summary retained_rows cap (snapshot_is_truncated evs) in
      let words := diagnostic_transfer_details source (Z.of_nat (length rows)) retained_rows range ++ lit " " ++ retention in
      _ ← app_record (lit "diagnostic.transfer.selection") (words ++ lit " result=selected");
      if str_eqb action (lit "copy") then copy_transfer rows words
      else if str_eqb action (lit "export") then export_transfer false rows words
      else if str_eqb action (lit "export_all") then
        let all_rows := diagnostic_grid_rows evs (select_all retained_rows) in
        export_transfer true all_rows
          (lit "source=export-all selected_row_count=" ++ show_u (Z.of_nat (length all_rows)) ++ lit " retained_rows=" ++
           show_u retained_rows ++ lit " format=TSV " ++ retention)
      else
        _ ← app_record (lit "diagnostic.toolbar.request") (lit "action=" ++ action ++ lit " result=ignored");
        app_finish_operation DiagnosticOutcome.Suppressed
  end.

(** ** The other controls *)

Definition diagnostic_range_changed : W unit :=
  evs ← snapshot;
  let retained_rows := Z.of_nat (length evs) in
  input ← diagnostic_range_text;
  _ ← app_begin_operation DiagnosticSource.Diagnostic;
  _ ← match parse_row_selection input retained_rows with
      | Ok selection =>
          _ ← on_ui (λ u, ((u <| diagnostic_selection := Some selection |>)
                             <| diagnostic_selection_sequences := Some (selected_event_sequences evs selection) |>)
                             <| diagnostic_selection_reset := false |>);
          _ ← app_record (lit "diagnostic.range.parsed")
                (lit "result=success " ++ diagnostic_range_details selection retained_rows);
          app_finish_operation DiagnosticOutcome.Completed
      | Err e =>
          let words := lit "selected_range=none retained_rows=" ++ show_u retained_rows ++ lit " row_count=0 format=TSV" in
          let shown := row_selection_error_display e in
          _ ← app_record_with_outcome (lit "diagnostic.range.parsed")
                (words ++ lit " result=invalid error=" ++ shown) DiagnosticOutcome.Failed;
          _ ← app_record_with_outcome (lit "diagnostic.validation_failure")
                (words ++ lit " result=failed error=" ++ shown) DiagnosticOutcome.Failed;
          _ ← on_ui (λ u, ((u <| diagnostic_selection := None |>)
                             <| diagnostic_selection_sequences := None |>)
                             <| diagnostic_selection_reset := false |>);
          app_finish_operation DiagnosticOutcome.Failed
      end;
  refresh_diagnostic_controls evs false.

Definition diagnostic_display_changed : W unit :=
  input ← diagnostic_display_text;
  cap ← maximum;
  let validation := λ res : string,
    lit "result=" ++ lit res ++ lit " input_bytes=" ++ show_u (str_len input) ++ lit " retained_cap=" ++ show_u cap in
  match display_limit_input_decision input with
  | DisplayLimitInputDecision.PreserveEmpty =>
      _ ← app_begin_operation DiagnosticSource.Diagnostic;
      _ ← app_record (lit "diagnostic.display_limit.validation") (validation "empty"%string);
      app_finish_operation DiagnosticOutcome.Suppressed
  | DisplayLimitInputDecision.Invalid e =>
      _ ← app_begin_operation DiagnosticSource.Diagnostic;
      _ ← app_record_with_outcome (lit "diagnostic.display_limit.validation") (validation "invalid"%string)
            DiagnosticOutcome.Failed;
      _ ← set_diagnostic_message (lit "Invalid Show rows value: " ++ display_limit_error_display e);
      app_finish_operation DiagnosticOutcome.Suppressed
  | DisplayLimitInputDecision.Apply limit =>
      _ ← on_ui (λ u, (u <| diagnostic_display_limit := limit |>) <| diagnostic_display_all := false |>);
      _ ← app_begin_operation DiagnosticSource.Diagnostic;
      _ ← app_record (lit "diagnostic.display_limit.changed")
            (lit "result=success limit=" ++ show_u limit ++ lit " override=none");
      _ ← clear_message_starting "Invalid Show rows value:";
      app_finish_operation DiagnosticOutcome.Completed
  end.

Definition diagnostic_show_all : W unit :=
  _ ← on_ui (λ u, u <| diagnostic_display_all := true |>);
  _ ← app_begin_operation DiagnosticSource.Diagnostic;
  cap ← maximum;
  _ ← app_record (lit "diagnostic.display_limit.override") (lit "result=success mode=all retained_cap=" ++ show_u cap);
  _ ← clear_message_starting "Invalid Show rows value:";
  app_finish_operation DiagnosticOutcome.Completed.

Definition category_of_index (index : Z) : option EventCategory :=
  match index with
  | 1 => Some EventCategory.Startup
  | 2 => Some EventCategory.Timer
  | 3 => Some EventCategory.Power
  | 4 => Some EventCategory.UI
  | 5 => Some EventCategory.Schedule
  | 6 => Some EventCategory.System
  | _ => None
  end.

Definition diagnostic_category_filter_changed : W unit :=
  a ← get;
  if negb (diagnostic_controls (diagnostic_ui a)) then mret tt
  else
    let category := category_of_index (category_filter (screen a)) in
    _ ← on_ui (λ u, u <| diagnostic_selected_category := category |>);
    _ ← app_begin_operation DiagnosticSource.Diagnostic;
    _ ← app_record (lit "diagnostic.category_filter.changed")
          (lit "category=" ++ match category with Some c => event_category_as_str c | None => lit "All" end);
    _ ← app_finish_operation DiagnosticOutcome.Completed;
    request_diagnostic_refresh.

Definition diagnostic_search_changed : W unit :=
  search ← diagnostic_search_input_text;
  u ← ui;
  if str_eqb search (diagnostic_search_text u) then mret tt
  else
    _ ← on_ui (λ u, u <| diagnostic_search_text := search |>);
    _ ← app_begin_operation DiagnosticSource.Diagnostic;
    _ ← app_record (lit "diagnostic.search.changed") (lit "query_bytes=" ++ show_u (str_len search));
    _ ← app_finish_operation DiagnosticOutcome.Completed;
    request_diagnostic_refresh.

(** ** Opening and closing *)

(** The display limit and [diagnostic_display_all] stay as they are. *)
Definition clear_ui u : DiagnosticUiState :=
  mkUi false false None None None [] false false (diagnostic_display_limit u) (diagnostic_display_all u) false [] []
    false false false false false None 0 None.
Definition clear_diagnostic_state : W unit :=
  _ ← on_ui clear_ui;
  modify (λ a : App, a <| owner_buffer := [] |>).

(** [DestroyWindow]: the window procedure gets [WM_NCDESTROY], the queue loses the window's messages. *)
Definition DestroyWindow : W (option Z) :=
  r ← native_call;
  _ ← match r with
      | None => _ ← clear_diagnostic_state; on_screen (λ s, s <| posted := 0%nat |>)
      | Some _ => mret tt
      end;
  mret r.

Definition destroy_diagnostic_window : W unit :=
  u ← ui;
  _ ← (if diagnostic_window u then
         _ ← on_ui (λ u, u <| diagnostic_window := false |>);
         live ← native_call;
         match live with
         | None =>
             r ← DestroyWindow;
             app_record (lit "native.DestroyWindow.diagnostic")
               (lit "result=" ++ show_bool (bool_decide (r = None)) ++ lit " raw_status=" ++ show_u (default 0 r))
         | Some _ => mret tt
         end
       else mret tt);
  clear_diagnostic_state.

(** [IsWindow] of each control until one fails. *)
Fixpoint all_live (n : nat) : W bool :=
  match n with
  | O => mret true
  | S n => live ← native_call; match live with None => all_live n | Some _ => mret false end
  end.
Definition diagnostic_children_ready : W bool :=
  u ← ui; if diagnostic_controls u then all_live 18 else mret false.

Fixpoint native_calls (n : nat) : W (list (option Z)) :=
  match n with
  | O => mret []
  | S n => r ← native_call; rest ← native_calls n; mret (r :: rest)
  end.

Definition control_names : list string :=
  ["hud_state"; "summary"; "hud_separator"; "toolbar_separator"; "display_label"; "display_input"; "show_all"; "category";
   "search_label"; "search_input"; "label"; "selection_summary"; "range"; "copy"; "export"; "export_all"; "message"; "list"].
(** The error code of every control but the summary is read after the last one was created. *)
Definition control_errors (created : list (option Z)) : str :=
  let last_error := default 0 (last (omap id created)) in
  join [32] (zip_with (λ (nm : string) r,
    let raw := if (nm =? "summary")%string then default 0 r
               else match r with Some _ => last_error | None => 0 end in
    lit nm ++ lit "_null=" ++ show_bool (bool_decide (is_Some r)) ++ lit " " ++ lit nm ++ lit "_raw_status=" ++ show_u raw)
    control_names created).

(** [initialize_diagnostic_list]: one call per column. *)
Fixpoint insert_columns (n : nat) : W (result Z unit) :=
  match n with
  | O => mret (Ok tt)
  | S n => r ← native_call; match r with None => insert_columns n | Some e => mret (Err e) end
  end.
Definition initialize_diagnostic_list : W (result Z unit) :=
  r ← insert_columns (length REPORT_COLUMNS);
  _ ← match r with Ok _ => on_screen (λ s, s <| column_widths := DIAGNOSTIC_COLUMN_WIDTHS |>) | Err _ => mret tt end;
  mret r.

Definition fresh_controls (s : Screen) : Screen :=
  mkScreen (posted s) (calls s) (dialogs s) (clipboard s) (lit "100") [] [] 0 [] (lit "All rows 0") (lit "Loading")
    (lit "Loading True" ++ [8482] ++ lit " Tick diagnostics...") true true 0 ∅ 0 (list_page s) (column_widths s)
    (client_size s) (list_client_width s) (window_dpi s).

(** [WM_CREATE]: whether the window goes on being created. *)
Definition create_controls : W bool :=
  _ ← on_ui (λ u, u <| diagnostic_controls_initializing := true |>);
  created ← native_calls 18;
  if negb (bool_decide (omap id created = [])) then
    _ ← app_store_record (lit "native.CreateWindowExW.diagnostic_control.error") (control_errors created)
          DiagnosticOutcome.Failed;
    mret false
  else
    columns ← initialize_diagnostic_list;
    match columns with
    | Err raw =>
        _ ← app_store_record (lit "native.ListView.insert_column.error") (lit "raw_status=" ++ show_u raw)
              DiagnosticOutcome.Failed;
        mret false
    | Ok _ =>
        _ ← on_screen fresh_controls;
        _ ← on_ui (λ u, u <| diagnostic_controls := true |>);
        _ ← layout_diagnostic_controls;
        _ ← on_ui (λ u, u <| diagnostic_controls_initializing := false |>);
        mret true
    end.

(** [CreateWindowExW]: the error when there is no window. *)
Definition create_window : W (option Z) :=
  r ← native_call;
  match r with
  | Some e => mret (Some e)
  | None =>
      goes_on ← create_controls;
      if (goes_on : bool) then mret None
      else _ ← clear_diagnostic_state; e ← native_call; mret (Some (default 0 e))
  end.

(** A record of the store in a context of its own or below the open operation. *)
Definition record_window_verification (o : DiagnosticOutcome) (nm dt : str) : W unit :=
  on_recorder (
    r ← get;
    context ← new_context (operation r);
    stored (λ s m, record_verification s context DiagnosticSource.TrayCommand o (marker_nanos m) (nanos m) nm dt)).

Definition window_invalid (reason : string) : W unit :=
  record_diagnostic_event_with_context (lit "diagnostic.window.invalid") (lit reason) DiagnosticPhase.Render
    DiagnosticOutcome.Failed.
Definition abandon_window (reason : string) : W bool :=
  _ ← window_invalid reason; _ ← DestroyWindow; _ ← clear_diagnostic_state; mret false.

Definition open_new_window : W bool :=
  created ← create_window;
  is_window ← match created with
              | None => live ← native_call; mret (bool_decide (live = None))
              | Some _ => mret false
              end;
  _ ← record_window_verification
        (match created with
         | Some _ => DiagnosticOutcome.Failed
         | None => if (is_window : bool) then DiagnosticOutcome.Completed else DiagnosticOutcome.Unverified
         end)
        (lit "window.diagnostic.verify")
        (lit "hwnd_valid=" ++ show_bool (bool_decide (created = None)) ++ lit " is_window=" ++
         show_u (if is_window then 1 else 0) ++ lit " raw_status=" ++ show_u (default 0 created));
  match created with
  | Some e =>
      _ ← app_record (lit "diagnostic.window.result") (lit "result=create_failed raw_status=" ++ show_u e);
      mret false
  | None =>
      titled ← native_call;
      match titled with
      | Some e =>
          _ ← app_record_with_outcome (lit "native.SetWindowTextW.diagnostic.error") (lit "raw_status=" ++ show_u e)
                DiagnosticOutcome.Failed;
          _ ← DestroyWindow; mret false
      | None =>
          _ ← on_ui (λ u, u <| diagnostic_window := true |>);
          ready ← diagnostic_children_ready;
          if negb ready then abandon_window "result=destroyed reason=create_returned_without_required_children"
          else
            placed ← layout_diagnostic_controls;
            if negb placed then abandon_window "result=destroyed reason=initial_layout_failed"
            else
              _ ← refresh_diagnostic_window false;
              shown ← native_call;
              let is_visible := bool_decide (shown = None) in
              _ ← record_window_verification
                    (if is_visible then DiagnosticOutcome.Completed else DiagnosticOutcome.Unverified)
                    (lit "window.diagnostic.visible.verify")
                    (lit "visible=" ++ show_bool is_visible ++ lit " raw_status=0");
              _ ← app_record (lit "diagnostic.window.styles")
                    (lit "overlapped=true appwindow=true toolwindow=false title=True" ++ [8482] ++
                     lit " Tick Status and Diagnostics");
              _ ← app_record (lit "diagnostic.window.result") (lit "result=opened");
              _ ← request_diagnostic_refresh;
              mret true
      end
  end.

Definition open_diagnostic_window : W bool :=
  u ← ui;
  if negb (diagnostic_window u) then open_new_window
  else
    live ← native_call;
    match live with
    | Some _ =>
        _ ← window_invalid "result=cleared reason=parent_not_a_window";
        _ ← clear_diagnostic_state; open_new_window
    | None =>
        ready ← diagnostic_children_ready;
        if negb ready then
          _ ← window_invalid "result=destroyed reason=required_child_missing";
          _ ← DestroyWindow; _ ← clear_diagnostic_state; open_new_window
        else _ ← request_diagnostic_refresh; mret true
    end.

(** ** The window procedure *)

Definition ID_DIAGNOSTIC_RANGE : Z := 1201.
Definition ID_DIAGNOSTIC_COPY : Z := 1202.
Definition ID_DIAGNOSTIC_EXPORT : Z := 1203.
Definition ID_DIAGNOSTIC_DISPLAY_LIMIT : Z := 1204.
Definition ID_DIAGNOSTIC_SHOW_ALL : Z := 1205.
Definition ID_DIAGNOSTIC_CATEGORY_FILTER : Z := 1206.
Definition ID_DIAGNOSTIC_EXPORT_ALL : Z := 1207.
Definition ID_DIAGNOSTIC_SEARCH : Z := 1208.
Definition CBN_SELCHANGE : Z := 1.
Definition EN_CHANGE : Z := 0x0300.
Definition BN_CLICKED : Z := 0.
Definition LVIF_STATE : Z := 0x0008.
Definition LVIS_SELECTED : Z := 0x0002.

(** The notifications of the list view that change the state. *)
Inductive Notification :=
| ItemChanged (changed old_state new_state : Z)
| KeyDown (control : bool) (virtual_key : Z).

Inductive Message :=
| WmCommand (command notification : Z)
| WmNotify (n : Notification)
| WmDiagnosticRefresh
| WmDpiChanged (dpi : Z) (suggested : bool)
| WmSize
| WmClose
| WmSetFocus
| WmNcDestroy.

Definition handle_diagnostic_notify (n : Notification) : W unit :=
  u ← ui;
  if diagnostic_refreshing u then mret tt
  else match n with
       | ItemChanged changed old_state new_state =>
           if negb (Z.land changed LVIF_STATE =? 0) && negb (Z.land (Z.lxor old_state new_state) LVIS_SELECTED =? 0)
           then update_diagnostic_grid_selection else mret tt
       | KeyDown control virtual_key =>
           if (control : bool) then
             if virtual_key =? 67 then diagnostic_toolbar_action (lit "copy")
             else if virtual_key =? 65 then select_all_diagnostic_rows else mret tt
           else mret tt
       end.

Definition wm_command (command notification : Z) : W unit :=
  u ← ui;
  let edit_notification := (notification =? EN_CHANGE) &&
    ((command =? ID_DIAGNOSTIC_DISPLAY_LIMIT) || (command =? ID_DIAGNOSTIC_SEARCH) || (command =? ID_DIAGNOSTIC_RANGE)) in
  if edit_notification && diagnostic_controls_initializing u then mret tt
  else if (command =? ID_DIAGNOSTIC_DISPLAY_LIMIT) && (notification =? EN_CHANGE) then diagnostic_display_changed
  else if (command =? ID_DIAGNOSTIC_SHOW_ALL) && (notification =? BN_CLICKED) then diagnostic_show_all
  else if (command =? ID_DIAGNOSTIC_CATEGORY_FILTER) && (notification =? CBN_SELCHANGE) then diagnostic_category_filter_changed
  else if (command =? ID_DIAGNOSTIC_SEARCH) && (notification =? EN_CHANGE) then diagnostic_search_changed
  else if (command =? ID_DIAGNOSTIC_RANGE) && (notification =? EN_CHANGE) then diagnostic_range_changed
  else if (command =? ID_DIAGNOSTIC_COPY) && (notification =? BN_CLICKED) then diagnostic_toolbar_action (lit "copy")
  else if (command =? ID_DIAGNOSTIC_EXPORT) && (notification =? BN_CLICKED) then diagnostic_toolbar_action (lit "export")
  else if (command =? ID_DIAGNOSTIC_EXPORT_ALL) && (notification =? BN_CLICKED)
  then diagnostic_toolbar_action (lit "export_all")
  else mret tt.

Definition diagnostic_window_proc (m : Message) : W unit :=
  match m with
  | WmCommand command notification => wm_command command notification
  | WmNotify n => handle_diagnostic_notify n
  | WmDiagnosticRefresh =>
      _ ← on_ui (λ u, u <| diagnostic_refresh_pending := false |>);
      refresh_diagnostic_window true
  | WmDpiChanged dpi suggested =>
      _ ← (if (suggested : bool) then
             moved ← native_call;
             match moved with
             | Some e => app_store_record (lit "diagnostic.dpi.error") (lit "stage=SetWindowPos raw_status=" ++ show_u e)
                           DiagnosticOutcome.Failed
             | None => mret tt
             end
           else app_store_record (lit "diagnostic.dpi.error")
                  (lit "stage=suggested_rect_missing dpi=" ++ show_u (Z.land dpi 0xffff)) DiagnosticOutcome.Failed);
      _ ← layout_diagnostic_controls; mret tt
  | WmSize => _ ← layout_diagnostic_controls; mret tt
  | WmClose => _ ← DestroyWindow; mret tt
  | WmSetFocus => request_diagnostic_refresh
  | WmNcDestroy => clear_diagnostic_state
  end.

(** The message loop takes one posted refresh. *)
Definition pump : W unit :=
  a ← get;
  match posted (screen a) with
  | O => mret tt
  | S n => _ ← on_screen (λ s, s <| posted := n |>); diagnostic_window_proc WmDiagnosticRefresh
  end.
End Window.
