(* ===== verification/DiagRecords.v ===== *)
(** * DiagRecords: the window's records never panic

    The redaction of a record panics only on a backslash ([Privacy]); the details
    the window records have none, so every record returns. *)
From coqutil Require Import Datatypes.RecordSetters.
From S2P Require Import Prelude Text Core Policy Privacy Diagnostics Grid Retention Files Logging AppRecords DiagLayout DiagWindow.
Import TriangleBracketNotations.

(** ** Texts without a backslash *)

Definition plain_char (c : Z) : bool := is_scalar c && negb (c =? 92).
Abbreviation plain := (Forall (λ c, plain_char c = true)).

Lemma plain_scalars s : plain s → scalars s.
Proof. intros H. eapply Forall_impl; [exact H|]. unfold plain_char. intros c [? _]%andb_prop. done. Qed.

Lemma plain_small c : 0 ≤ c < 128 → c ≠ 92 → plain_char c = true.
Proof. intros Hc Hn. unfold plain_char, is_scalar. lia. Qed.

Lemma plain_app s t : plain s → plain t → plain (s ++ t).
Proof. intros ??. by apply Forall_app. Qed.
Lemma plain_text_check s : forallb plain_char s = true → plain s.
Proof. intros H. apply Forall_forall. intros c Hc. rewrite forallb_forall in H. by apply H, list_elem_of_In. Qed.
Lemma plain_digits_acc fuel n acc : plain acc → plain (digits_acc fuel n acc).
Proof.
  revert n acc. induction fuel as [|fuel IH]; intros n acc Ha; cbn [digits_acc]; [done|].
  assert (plain (48 + n mod 10 :: acc)) by (constructor; [apply plain_small; dlia|done]).
  destruct (n <? 10); [done|by apply IH].
Qed.
Lemma plain_show_u n : plain (show_u n).
Proof. by apply plain_digits_acc. Qed.
Lemma plain_show_i n : plain (show_i n).
Proof. unfold show_i. destruct (n <? 0); [constructor; [done|]|]; apply plain_show_u. Qed.
Lemma plain_show_bool b : plain (show_bool b).
Proof. destruct b; by apply plain_text_check. Qed.
Lemma plain_outcome o : plain (outcome_label o).
Proof. destruct o; by apply plain_text_check. Qed.
Lemma plain_source s : plain (source_label s).
Proof. destruct s; by apply plain_text_check. Qed.
Lemma plain_category c : plain (event_category_as_str c).
Proof. destruct c; by apply plain_text_check. Qed.
Lemma plain_selection_error e : plain (row_selection_error_display e).
Proof. destruct e; try (by apply plain_text_check). cbn. apply plain_app; [by apply plain_text_check|apply plain_show_u]. Qed.
Lemma plain_limit_error e : plain (display_limit_error_display e).
Proof. destruct e; by apply plain_text_check. Qed.
Lemma plain_transfer_source s : plain (transfer_source_label s).
Proof. destruct s; by apply plain_text_check. Qed.
Lemma plain_join sep l : plain sep → Forall (λ s, plain s) l → plain (join sep l).
Proof.
  intros Hs. induction 1 as [|s l H Hl IH]; [constructor|]. cbn [join]. destruct l; [done|]. by repeat apply plain_app.
Qed.

#[export] Hint Resolve plain_app plain_show_u plain_show_i plain_show_bool plain_outcome plain_source plain_category
  plain_selection_error plain_limit_error plain_transfer_source : plain.
#[export] Hint Extern 1 (Forall _ (lit _)) => (by apply plain_text_check) : plain.
#[export] Hint Extern 1 (Forall _ []) => (by apply Forall_nil) : plain.
#[export] Hint Extern 2 (Forall _ (_ :: _)) => (by apply plain_text_check) : plain.

(** ** The redaction of a plain text *)

Lemma utf8_char_no_backslash c : plain_char c = true → Forall (λ b, b ≠ 92) (utf8_char c).
Proof.
  unfold plain_char, is_scalar, utf8_char. intros H. destruct_ifs; reflect_bools; repeat constructor; try dlia.
Qed.

Lemma utf8_no_backslash s : plain s → Forall (λ b, b ≠ 92) (utf8_encode s).
Proof.
  induction 1 as [|c s Hc _ IH]; [constructor|]. cbn [utf8_encode flat_map]. apply Forall_app. split; [|exact IH].
  by apply utf8_char_no_backslash.
Qed.

Lemma sanitize_pii_plain field s : plain s → is_ok (sanitize_pii field s) = true.
Proof.
  intros Hs. pose proof (sanitize_pii_result field s (plain_scalars s Hs)) as H.
  destruct (sanitize_pii field s) as [|e]; [done|]. destruct H as (_ & i & Hi & Hb & _).
  apply utf8_no_backslash in Hs. rewrite Forall_forall in Hs. exfalso. apply (Hs (byte_at (utf8_encode s) i)); [|done].
  apply list_elem_of_In, nth_In. lia.
Qed.

Lemma plain_take_bytes s n : plain s → plain (take_bytes s n).
Proof.
  revert n. induction s as [|c s IH]; intros n H; [constructor|]. inversion H; subst. cbn [take_bytes].
  destruct (_ <=? _); [constructor; auto|constructor].
Qed.
Lemma plain_truncate s n : plain s → plain (truncate_utf8 s n).
Proof. intros H. unfold truncate_utf8. destruct (_ <=? _); [done|]. apply plain_app; [by apply plain_take_bytes|by apply plain_text_check]. Qed.
Lemma plain_sanitize s : plain s → plain (sanitize s).
Proof.
  intros H. unfold sanitize. apply plain_truncate. apply Forall_map. eapply Forall_impl; [exact H|].
  intros c Hc. cbn. unfold sanitize_char. destruct_ifs; done.
Qed.
Lemma clean_details_plain dt : plain dt → ∃ t, clean_details dt = Ok t.
Proof.
  intros H. unfold clean_details. change PII_SCAN_ENABLED with true. cbv iota zeta.
  pose proof (sanitize_pii_plain (lit "details") (sanitize dt) (plain_sanitize dt H)) as Hok.
  destruct (sanitize_pii (lit "details") (sanitize dt)) as [[t fs]|]; [|done]. cbn.
  destruct (length fs =? 0)%nat; eauto.
Qed.

Section Records.
Context `{Sha256} `{RecordClock}.

(** A computation of the recorder that returns and leaves the files alone. *)
Definition files_of (r : Recorder) : Fs := log_fs (logger r).
Definition total {T} (m : comp Recorder Privacy.Fault T) : Prop :=
  ∀ r, ∃ x r', m r = (Ok x, r') ∧ files_of r' = files_of r.

Lemma records_ret {T} (x : T) : total (mret x).
Proof. intros r. by exists x, r. Qed.
Lemma records_bind {T U} (m : comp Recorder Privacy.Fault T) (k : T → comp Recorder Privacy.Fault U) :
  total m → (∀ x, total (k x)) → total (m ≫= k).
Proof.
  intros Hm Hk r. destruct (Hm r) as (x & r1 & E & F). destruct (Hk x r1) as (y & r2 & E2 & F2).
  exists y, r2. unfold mbind, comp_bind. rewrite E. split; [done|congruence].
Qed.
Lemma total_get : total get.
Proof. intros r. by exists r, r. Qed.
Lemma records_modify f : (∀ r, files_of (f r) = files_of r) → total (modify f).
Proof. intros Hf r. by exists tt, (f r). Qed.
Lemma total_new_context p : total (new_context p).
Proof. intros r. unfold new_context. destruct (allocate_operation _ _) as [c s]. by exists c, (set_diagnostics s r). Qed.
Lemma total_stored f : (∀ s m, ∃ s', f s m = Ok s') → total (stored f).
Proof. intros Hf r. unfold stored. destruct (Hf (diagnostics r) (moment r)) as [s' ->]. by exists tt, (set_diagnostics s' r). Qed.
Lemma total_record_with rec nm dt : plain dt → total (record_with rec nm dt).
Proof.
  intros Hp. apply total_stored. intros s m. unfold record_with_context.
  destruct (clean_details_plain dt Hp) as [t ->]. by eexists.
Qed.
Lemma total_store_record nm dt o : plain dt → total (store_record nm dt o).
Proof.
  intros Hp. apply total_stored. intros s m. unfold record_with_outcome, Diagnostics.begin_operation.
  destruct (allocate_operation _ _). unfold record_with_context. destruct (clean_details_plain dt Hp) as [t ->]. by eexists.
Qed.
Lemma total_verification c src o nm dt :
  plain dt → total (stored (λ s m, record_verification s c src o (marker_nanos m) (nanos m) nm dt)).
Proof.
  intros Hp. apply total_stored. intros s m. unfold record_verification, record_with_context.
  destruct (clean_details_plain dt Hp) as [t ->]. by eexists.
Qed.
Lemma total_context c : total (set_operation_context c).
Proof. by apply records_modify. Qed.

#[local] Hint Resolve records_ret total_get total_new_context total_context : total.

Lemma total_begin src : total (begin_app_operation src).
Proof.
  apply records_bind; [auto with total|intros c]. apply records_bind; [by apply records_modify|intros _].
  apply records_bind; [auto with total|intros n]. apply records_bind; [auto with total|intros _].
  apply total_record_with. auto with plain.
Qed.
Lemma total_close o : total (close_operation o).
Proof.
  apply records_bind; [auto with total|]. intros r. destruct (operation r); [|auto with total].
  apply records_bind; [by apply records_modify|intros _].
  apply records_bind; [apply total_record_with; auto with plain|intros _]. apply records_bind; auto with total.
Qed.
Lemma total_append nm dt o : plain dt → total (append_record nm dt o).
Proof.
  intros Hp. apply records_bind; [auto with total|]. intros r. apply records_bind; [auto with total|]. intros c.
  apply records_bind; [|intros []; by apply total_record_with]. destruct (operation r); auto with total.
Qed.

(** Records leave the open operation alone; closing it leaves none. *)
Lemma keeps_stored f : keeps operation (stored f).
Proof. intros r. unfold stored. by destruct (f _ _). Qed.
Lemma keeps_new_context p : keeps operation (new_context p).
Proof. intros r. unfold new_context. by destruct (allocate_operation _ _). Qed.
Lemma keeps_append nm dt o : keeps operation (append_record nm dt o).
Proof.
  apply keeps_bind; [done|]. intros r. apply keeps_bind; [apply keeps_new_context|]. intros c.
  apply keeps_bind; [by destruct (operation r)|]. intros _. apply keeps_stored.
Qed.
Lemma close_closes o r : operation (close_operation o r).2 = None.
Proof.
  unfold close_operation, mbind, comp_bind, get, modify. destruct (operation r) as [c|] eqn:E; [|done].
  cbv beta iota zeta. unfold record_with.
  match goal with |- context [stored ?f ?r0] => pose proof (keeps_stored f r0) as Hk; destruct (stored f r0) as [[x|e] r1] end;
    exact Hk.
Qed.
End Records.
