(* ===== verification/DiagFacts.v ===== *)
(** * DiagFacts: what the diagnostic window guarantees

    Proofs about [DiagWindow]: no message panics, the refreshes the window asks
    for come to an end and leave it showing the current events, and a copy or an
    export transfers exactly the selected rows or says that it failed. *)
From coqutil Require Import Datatypes.RecordSetters.
From S2P Require Import Prelude Text Core Policy Privacy Diagnostics Grid Retention Files FileFrames Logging AppRecords DiagLayout DiagWindow DiagRecords.
Import TriangleBracketNotations.

Section Facts.
Context `{Sha256} `{RecordClock} `{ToLowercase} `{UnicodeAlphabetic} `{PathParse} `{ListView} (version : str).
Abbreviation W := (comp App WindowPanic).
Implicit Types a b c : App.

(** ** Computations that return *)

(** [m] returns from every state, to one related by [P]. *)
Definition does {T} (P : App → App → Prop) (m : W T) : Prop := ∀ a, ∃ x b, m a = (Ok x, b) ∧ P a b.

Lemma does_weaken {T} (P Q : App → App → Prop) (m : W T) : (∀ a b, P a b → Q a b) → does P m → does Q m.
Proof. intros Hpq Hm a. destruct (Hm a) as (x & b & E & Hp). exists x, b. auto. Qed.
Lemma does_ret {T} (P : App → App → Prop) `{!PreOrder P} (x : T) : does P (mret x).
Proof. intros a. by exists x, a. Qed.
Lemma does_bind {T U} (P : App → App → Prop) `{!PreOrder P} (m : W T) (k : T → W U) :
  does P m → (∀ x, does P (k x)) → does P (m ≫= k).
Proof.
  intros Hm Hk a. destruct (Hm a) as (x & b & E & Hp). destruct (Hk x b) as (y & c & E2 & Hq).
  exists y, c. unfold mbind, comp_bind. rewrite E. split; [done|by trans b].
Qed.
(** Two steps related by [P] and [Q] make one related by [R]. *)
Lemma does_seq {T U} (P Q R : App → App → Prop) (m : W T) (k : T → W U) :
  (∀ a b c, P a b → Q b c → R a c) → does P m → (∀ x, does Q (k x)) → does R (m ≫= k).
Proof.
  intros HR Hm Hk a. destruct (Hm a) as (x & b & E & Hp). destruct (Hk x b) as (y & c & E2 & Hq).
  exists y, c. unfold mbind, comp_bind. rewrite E. eauto.
Qed.
Lemma does_ui {U} (P : App → App → Prop) (k : DiagnosticUiState → W U) : (∀ u, does P (k u)) → does P (u ← ui; k u).
Proof. intros Hk a. apply Hk. Qed.
Lemma does_get {U} (P : App → App → Prop) (k : App → W U) : (∀ a, does P (k a)) → does P (a ← get; k a).
Proof. intros Hk a. apply Hk. Qed.
Lemma does_modify (P : App → App → Prop) (f : App → App) : (∀ a, P a (f a)) → does P (modify f).
Proof. intros Hf a. exists tt, (f a). auto. Qed.

(** A step of a run. *)
Lemma run_bind {T U} (m : W T) (k : T → W U) a x b : m a = (Ok x, b) → (m ≫= k) a = k x b.
Proof. intros E. unfold mbind, comp_bind. by rewrite E. Qed.

(** ** What a step leaves alone *)

(** The clipboard, the answers of the dialogs, the files. *)
Definition outside a : option str * list (Z * Z * str) * Fs :=
  (clipboard (screen a), dialogs (screen a), files_of (recorder a)).
(** What a refresh works with, and what its phases change. *)
Definition fixed_of (u : DiagnosticUiState) :=
  (diagnostic_window u, diagnostic_controls u, diagnostic_refreshing u, diagnostic_refresh_follow_up_scheduled u,
   (diagnostic_display_limit u, diagnostic_display_all u, diagnostic_selected_category u, diagnostic_search_text u)).
Definition moving_of (u : DiagnosticUiState) :=
  (diagnostic_refresh_pending u, diagnostic_refresh_direct_recorded u, diagnostic_selection_reset u,
   diagnostic_grid_selection_sequences u).
Definition spares a b : Prop := calls (screen a) = [] → calls (screen b) = [].

Definition frame a b : Prop :=
  fixed_of (diagnostic_ui b) = fixed_of (diagnostic_ui a) ∧ posted (screen b) = posted (screen a) ∧
  outside b = outside a ∧ spares a b.
Definition calm a b : Prop :=
  moving_of (diagnostic_ui b) = moving_of (diagnostic_ui a) ∧ owner_buffer b = owner_buffer a ∧ frame a b.
(** And nothing is recorded while no call fails. *)
Definition still a b : Prop := calm a b ∧ (calls (screen a) = [] → recorder b = recorder a).

#[local] Instance frame_preorder : PreOrder frame.
Proof.
  split; [intros a; unfold frame, spares; auto|]. intros a b c (F1 & P1 & O1 & S1) (F2 & P2 & O2 & S2).
  unfold frame, spares in *. split_and!; [congruence|congruence|congruence|auto].
Qed.
#[local] Instance calm_preorder : PreOrder calm.
Proof.
  split; [by intros a|]. intros a b c (M1 & B1 & F1) (M2 & B2 & F2). split_and!; [congruence|congruence|by trans b].
Qed.
#[local] Instance still_preorder : PreOrder still.
Proof.
  split; [by intros a|]. intros a b c (C1 & R1) (C2 & R2). split; [by trans b|].
  intros Ha. destruct C1 as (_ & _ & _ & _ & _ & S1). rewrite R2 by auto. auto.
Qed.
Lemma still_calm a b : still a b → calm a b.
Proof. by intros [? _]. Qed.

Lemma does_on_recorder {T} (m : comp Recorder Privacy.Fault T) : total m → does calm (on_recorder m).
Proof.
  intros Hm a. destruct (Hm (recorder a)) as (x & r' & E & F). unfold on_recorder. rewrite E.
  eexists x, _. split; [done|]. split; [done|]. repeat split; [|by intros ?]. unfold outside. f_equal. exact F.
Qed.

Lemma does_native_call : does still native_call.
Proof.
  intros a. unfold native_call. destruct (calls (screen a)) as [|c rest] eqn:E.
  - exists None, a. split; [done|]. reflexivity.
  - eexists c, _. split; [done|]. by repeat split; unfold spares; rewrite E.
Qed.
Lemma does_screen (f : Screen → Screen) :
  (∀ s, posted (f s) = posted s ∧ calls (f s) = calls s ∧ clipboard (f s) = clipboard s ∧ dialogs (f s) = dialogs s) →
  does still (on_screen f).
Proof.
  intros Hf. apply does_modify. intros [r u o s h]. destruct (Hf s) as (F1 & F2 & F3 & F4).
  unfold still, calm, frame, outside, spares. cbn. rewrite F1, F2, F3, F4. auto 10.
Qed.
Lemma does_native_set (f : Screen → Screen) :
  (∀ s, posted (f s) = posted s ∧ calls (f s) = calls s ∧ clipboard (f s) = clipboard s ∧ dialogs (f s) = dialogs s) →
  does still (native_set f).
Proof.
  intros Hf. apply does_bind; [apply _|apply does_native_call|]. intros r.
  apply does_bind; [apply _|destruct r; [by apply does_ret, _|by apply does_screen]|]. intros _. by apply does_ret, _.
Qed.

(** Changes of the window's state that no refresh looks at. *)
Lemma does_on_ui (f : DiagnosticUiState → DiagnosticUiState) :
  (∀ u, fixed_of (f u) = fixed_of u ∧ moving_of (f u) = moving_of u) → does still (on_ui f).
Proof.
  intros Hf. apply does_modify. intros [r u o s h]. destruct (Hf u) as (F1 & F2).
  unfold still, calm, frame, outside, spares. cbn. auto 10.
Qed.

Lemma does_if_controls P `{!PreOrder P} (m : W unit) : does P m → does P (if_controls m).
Proof. intros Hm. apply does_ui. intros u. destruct (diagnostic_controls u); [done|by apply does_ret]. Qed.

Lemma does_store_record nm dt o : plain dt → does calm (app_store_record nm dt o).
Proof. intros Hp. by apply does_on_recorder, total_store_record. Qed.

Lemma does_event nm dt ph o : plain dt → does calm (record_diagnostic_event_with_context nm dt ph o).
Proof.
  intros Hp. apply does_on_recorder. apply records_bind; [apply total_get|intros r].
  apply records_bind; [apply total_new_context|intros c]. by apply total_record_with.
Qed.

(** A call whose failure alone is recorded. *)
Lemma does_reported (f : Screen → Screen) (nm : string) :
  (∀ s, posted (f s) = posted s ∧ calls (f s) = calls s ∧ clipboard (f s) = clipboard s ∧ dialogs (f s) = dialogs s) →
  does still (r ← native_set f;
              match r with
              | Some e => app_store_record (lit nm) (lit "raw_status=" ++ show_u e) DiagnosticOutcome.Failed
              | None => mret tt
              end).
Proof.
  intros Hf a. destruct (does_native_set f Hf a) as (r & b & E & Hs). rewrite (run_bind _ _ _ _ _ E).
  destruct r as [e|]; [|by exists tt, b].
  destruct (does_store_record (lit nm) (lit "raw_status=" ++ show_u e) DiagnosticOutcome.Failed ltac:(auto with plain) b)
    as (x & c & E2 & Hc).
  exists x, c. split; [done|]. split; [by trans b; [apply still_calm|]|].
  assert (calls (screen a) ≠ []) as Hne.
  { intros Hn. unfold native_set, native_call, mbind, comp_bind in E. rewrite Hn in E. by destruct (on_screen f a) as [[[]|] ?]. }
  done.
Qed.

Lemma does_message m : does still (set_diagnostic_message m).
Proof.
  apply does_bind; [apply _|by apply does_on_ui|]. intros _. apply does_if_controls; [apply _|]. by apply does_reported.
Qed.
Lemma does_clear prefix : does still (clear_message_starting prefix).
Proof. apply does_ui. intros u. destruct (starts_with _ _); [apply does_message|by apply does_ret, _]. Qed.
Lemma does_summary n : does still (show_selection_summary n).
Proof.
  apply does_ui. intros u. apply does_if_controls; [apply _|].
  apply does_bind; [apply _|by apply does_native_set|intros _]. by apply does_ret, _.
Qed.
Lemma does_enabled e : does still (set_diagnostic_action_enabled e).
Proof. apply does_if_controls; [apply _|]. by apply does_screen. Qed.
#[local] Hint Resolve does_message does_clear does_summary does_enabled : does.

(** ** The phases of a refresh *)

Implicit Types evs : list DiagnosticEvent.

Lemma event_run nm dt a : plain dt → diagnostic_refreshing (diagnostic_ui a) = true →
  ∃ b, record_diagnostic_refresh_event nm dt a = (Ok tt, b) ∧ frame a b ∧ owner_buffer b = owner_buffer a ∧
    let u := diagnostic_ui a in moving_of (diagnostic_ui b) =
      (diagnostic_refresh_pending u, true, diagnostic_selection_reset u, diagnostic_grid_selection_sequences u).
Proof.
  intros Hp Hr. unfold record_diagnostic_refresh_event. rewrite (run_bind _ _ _ (diagnostic_ui a) a) by done. rewrite Hr.
  destruct (does_event nm dt (diagnostic_phase nm) (diagnostic_outcome nm dt) Hp
    (a <| diagnostic_ui ::= (λ u, u <| diagnostic_refresh_direct_recorded := true |>) |>)) as ([] & b & E & M & B & F).
  exists b. erewrite run_bind by reflexivity. split; [exact E|]. split; [exact F|]. split; [exact B|exact M].
Qed.

Lemma request_while_refreshing a : diagnostic_refreshing (diagnostic_ui a) = true →
  request_diagnostic_refresh a = (Ok tt, a <| diagnostic_ui ::= (λ u, u <| diagnostic_refresh_pending := true |>) |>).
Proof.
  intros Hr. unfold request_diagnostic_refresh, diagnostic_refresh_is_coalesced.
  rewrite (run_bind _ _ _ (diagnostic_ui a) a) by done. by rewrite Hr, orb_true_r.
Qed.

Lemma preserve_run evs a : diagnostic_refreshing (diagnostic_ui a) = true →
  ∃ b, preserve_diagnostic_grid_selection evs a = (Ok tt, b) ∧ frame a b ∧
    diagnostic_refresh_pending (diagnostic_ui b) = diagnostic_refresh_pending (diagnostic_ui a) ∧
    diagnostic_selection_reset (diagnostic_ui b) = diagnostic_selection_reset (diagnostic_ui a) ∧
    (diagnostic_grid_selection_sequences (diagnostic_ui a) = [] → b = a).
Proof.
  intros Hr. unfold preserve_diagnostic_grid_selection. rewrite (run_bind _ _ _ (diagnostic_ui a) a) by done. cbv zeta.
  case_bool_decide as Hs; [exists a; split_and!; done|].
  set (chosen := selected_event_sequences_for_sequences _ _). set (lost := sat_sub _ _).
  set (a1 := a <| diagnostic_ui ::= (λ u, u <| diagnostic_grid_selection_sequences := chosen |>) |>).
  rewrite (run_bind _ _ _ tt a1) by done. assert (frame a a1) as F1 by (repeat split; by intros ?).
  destruct (0 <? lost); [|exists a1; by split_and!].
  set (a2 := a1 <| diagnostic_ui ::= (λ u, u <| diagnostic_grid_selection_reset := true |>) |>).
  rewrite (run_bind _ _ _ tt a2) by done. assert (frame a1 a2) as F2 by (repeat split; by intros ?).
  destruct (does_message (if lost =? 1 then lit "Selection reset: 1 selected row is no longer retained."
    else lit "Selection reset: selected rows are no longer retained.") a2) as ([] & a3 & E3 & (M3 & _ & F3) & _).
  rewrite (run_bind _ _ _ tt a3 E3).
  destruct (event_run (lit "diagnostic.selection.reset")
    (lit "source=grid-selection invalid_rows=" ++ show_u lost ++ lit " retained_rows=" ++ show_u (Z.of_nat (length evs))) a3)
    as (b & E & F & _ & M); [auto 10 with plain| |].
  { destruct F3 as (F3 & _). injection F3 as _ _ -> _ _ _ _ _. exact Hr. }
  exists b. injection M3 as Hp3 _ Hr3 _. injection M as Hp _ Hr' _.
  split_and!; [exact E|trans a1; [done|]; trans a2; [done|]; by trans a3|by rewrite Hp, Hp3|by rewrite Hr', Hr3|done].
Qed.

Lemma range_run evs input a : diagnostic_selection_reset (diagnostic_ui a) = false →
  ∃ b, refresh_range_from_input evs input a = (Ok tt, b) ∧ still a b.
Proof.
  intros Hr. unfold refresh_range_from_input.
  destruct (parse_row_selection _ _) as [sel|e]; erewrite run_bind by reflexivity;
    [pose proof (does_clear "Invalid range:") as Hd
    |pose proof (does_message (lit "Invalid range: " ++ row_selection_error_display e)) as Hd];
    match goal with |- ∃ b, ?m ?a1 = _ ∧ _ => destruct (Hd a1) as ([] & b & E & Hs);
      exists b; split; [exact E|]; trans a1; [|exact Hs] end;
    by repeat split; try (by intros ?); unfold moving_of; rewrite Hr.
Qed.

Lemma reset_run n a : diagnostic_refreshing (diagnostic_ui a) = true →
  ∃ b, reset_range n a = (Ok tt, b) ∧ frame a b ∧
    moving_of (diagnostic_ui b) = (true, true, true, diagnostic_grid_selection_sequences (diagnostic_ui a)).
Proof.
  intros Hr. unfold reset_range. erewrite run_bind by reflexivity.
  match goal with |- ∃ b, ?m ?a1 = _ ∧ _ => set (a1' := a1) end.
  destruct (does_summary n a1') as ([] & a2 & E2 & S2). rewrite (run_bind _ _ _ _ _ E2).
  erewrite run_bind by reflexivity.
  destruct (does_enabled (grid_selected (diagnostic_ui a2)) a2) as ([] & a3 & E3 & S3). rewrite (run_bind _ _ _ _ _ E3).
  destruct (does_message (lit "Selection reset: selected rows are no longer retained.") a3) as ([] & a4 & E4 & S4).
  rewrite (run_bind _ _ _ _ _ E4).
  assert (still a1' a4) as ((M4 & _ & F4) & _) by (trans a2; [done|]; by trans a3).
  assert (diagnostic_refreshing (diagnostic_ui a4) = true) as Hr4.
  { destruct F4 as (F4 & _). injection F4 as _ _ -> _ _ _ _ _. exact Hr. }
  destruct (event_run (lit "diagnostic.selection.reset")
    (lit "reason=range_rows_not_retained retained_rows=" ++ show_u n) a4) as (a5 & E5 & F5 & _ & M5);
    [auto with plain|done|].
  rewrite (run_bind _ _ _ _ _ E5). rewrite request_while_refreshing.
  2:{ destruct F5 as (F5 & _). by injection F5 as _ _ -> _ _ _ _ _. }
  eexists. split; [reflexivity|]. injection M4 as Hp4 Hd4 HR4 HS4. injection M5 as Hp5 Hd5 HR5 HS5. split.
  - trans a1'; [by repeat split; intros ?|]. trans a4; [done|]. trans a5; [done|]. by repeat split; intros ?.
  - set (u := diagnostic_ui a5). trans (true, diagnostic_refresh_direct_recorded u, diagnostic_selection_reset u,
      diagnostic_grid_selection_sequences u); [done|]. subst u. by rewrite Hd5, HR5, HS5, HR4, HS4.
Qed.

Lemma controls_run evs a : diagnostic_refreshing (diagnostic_ui a) = true →
  ∃ b, refresh_diagnostic_controls evs true a = (Ok tt, b) ∧
    (still a b ∨
     diagnostic_selection_reset (diagnostic_ui a) = false ∧ diagnostic_controls (diagnostic_ui a) = true ∧ frame a b ∧
     moving_of (diagnostic_ui b) = (true, true, true, diagnostic_grid_selection_sequences (diagnostic_ui a))).
Proof.
  intros Hr. unfold refresh_diagnostic_controls. cbv zeta.
  rewrite (run_bind _ _ a (if diagnostic_controls (diagnostic_ui a) then range_input (screen a) else []) a) by done.
  set (input := if diagnostic_controls (diagnostic_ui a) then _ else _).
  rewrite (run_bind _ _ _ (diagnostic_ui a) a) by done. cbn [andb].
  destruct (diagnostic_selection_reset (diagnostic_ui a)) eqn:HR.
  { destruct (does_bind still (show_selection_summary (Z.of_nat (length evs)))
      (λ _, set_diagnostic_action_enabled (grid_selected (diagnostic_ui a))) (does_summary _) (λ _, does_enabled _) a)
      as ([] & b & E & Hs). exists b. auto. }
  destruct (if negb (input_is_all input) then _ else None) as [sequences|] eqn:Hq.
  - assert (diagnostic_controls (diagnostic_ui a) = true) as Hc.
    { subst input. by destruct (diagnostic_controls _). }
    destruct (row_selection_for_sequences evs sequences) as [sel|].
    + match goal with |- context [?m a] => assert (does still m) as Hd end.
      { apply does_bind; [apply _|by apply does_on_ui|intros _]. apply does_bind; [apply _|apply does_summary|intros _]. apply does_enabled. }
      destruct (Hd a) as ([] & b & E & Hs). exists b. auto.
    + destruct (reset_run (Z.of_nat (length evs)) a Hr) as (b & E & F & M). exists b. auto 10.
  - destruct (range_run evs input a HR) as (a1 & E1 & S1). rewrite (run_bind _ _ _ _ _ E1).
    destruct (does_summary (Z.of_nat (length evs)) a1) as ([] & a2 & E2 & S2). rewrite (run_bind _ _ _ _ _ E2).
    erewrite run_bind by reflexivity.
    destruct (does_enabled (grid_selected (diagnostic_ui a2) || range_selected (diagnostic_ui a2)) a2) as ([] & b & E3 & S3).
    exists b. split; [exact E3|]. left. trans a1; [done|]. by trans a2.
Qed.

Lemma start_run evs a :
  let u := diagnostic_ui a in
  ∃ fit b, start_refresh evs a = (Ok fit, b) ∧ outside b = outside a ∧ calls (screen b) = calls (screen a) ∧
    posted (screen b) = posted (screen a) ∧ recorder b = recorder a ∧
    fixed_of (diagnostic_ui b) = (diagnostic_window u, diagnostic_controls u, true, false,
      (diagnostic_display_limit u, diagnostic_display_all u, diagnostic_selected_category u, diagnostic_search_text u)) ∧
    moving_of (diagnostic_ui b) = (diagnostic_refresh_pending u, false, diagnostic_selection_reset u,
      diagnostic_grid_selection_sequences u).
Proof.
  intros u. unfold start_refresh. erewrite run_bind by reflexivity. erewrite run_bind by reflexivity. cbv zeta.
  destruct (diagnostic_data_snapshot_changed _ _); (erewrite run_bind by reflexivity); (erewrite run_bind by reflexivity);
    destruct (diagnostic_auto_fit_once _ _ _ _); (erewrite run_bind by reflexivity); by eexists _, _.
Qed.

(** The rows shown for the events. *)
Definition shown_rows (u : DiagnosticUiState) evs : list (list str) :=
  foldl push_row [] (grid_rows_of (diagnostic_filtered_visible_events u evs)).

Definition filters_of (u : DiagnosticUiState) :=
  (diagnostic_display_limit u, diagnostic_display_all u, diagnostic_selected_category u, diagnostic_search_text u).
Lemma shown_filters (u v : DiagnosticUiState) evs : filters_of v = filters_of u → shown_rows v evs = shown_rows u evs.
Proof.
  intros F. injection F as L1 L2 L3 L4. unfold shown_rows, diagnostic_filtered_visible_events,
    diagnostic_visible_selection, diagnostic_filtered_events. by rewrite L1, L2, L3, L4.
Qed.

Lemma fill_run evs follow_up a : diagnostic_refreshing (diagnostic_ui a) = true →
  let u := diagnostic_ui a in
  ∃ b, fill_rows evs follow_up a = (Ok tt, b) ∧ frame a b ∧ owner_buffer b = shown_rows u evs ∧
    moving_of (diagnostic_ui b) = (diagnostic_refresh_pending u,
      if follow_up then diagnostic_refresh_direct_recorded u else true,
      diagnostic_selection_reset u, diagnostic_grid_selection_sequences u) ∧
    (follow_up = true → recorder b = recorder a).
Proof.
  intros Hr u. unfold fill_rows. do 3 (erewrite run_bind by reflexivity).
  match goal with |- ∃ b, (_ ≫= _) ?a1 = _ ∧ _ => set (a' := a1) end.
  assert (∃ b, apply_diagnostic_grid_selection a' = (Ok tt, b) ∧ frame a b ∧ owner_buffer b = shown_rows u evs ∧
    moving_of (diagnostic_ui b) = moving_of u ∧ diagnostic_refreshing (diagnostic_ui b) = true ∧ recorder b = recorder a)
    as (b & E & F & B & M & R & Hrec).
  { unfold apply_diagnostic_grid_selection. erewrite run_bind by reflexivity. cbv zeta.
    case_bool_decide; eexists; (split; [reflexivity|]); split_and!; try done; repeat split; by intros ?. }
  rewrite (run_bind _ _ _ tt b E). destruct follow_up; [exists b; by split_and!|].
  edestruct (event_run (lit "diagnostic.grid.refresh")) as (c & E2 & F2 & B2 & M2); [|exact R|].
  2:{ exists c. split; [exact E2|]. injection M as Hp Hd HR HS. cbv zeta in M2. rewrite Hp, HR, HS in M2.
      split; [by trans b|]. split; [by rewrite B2|]. by split. }
  unfold diagnostic_grid_refresh_message. auto 12 with plain.
Qed.

Lemma does_hud nm text put : (∀ t s, posted (put t s) = posted s ∧ calls (put t s) = calls s ∧
    clipboard (put t s) = clipboard s ∧ dialogs (put t s) = dialogs s) → does still (set_hud_label nm text put).
Proof. intros Hp. apply does_if_controls; [apply _|]. apply does_get. intros a. by apply does_reported. Qed.

(** The end of a refresh up to [finish_diagnostic_refresh]. *)
Lemma does_auto_fit w d : does still (auto_fit_diagnostic_columns w d).
Proof. intros a. unfold auto_fit_diagnostic_columns. eexists tt, _. split; [done|]. by repeat split; intros ?. Qed.

(** The refresh that is wanted is posted, unless the call fails or there is no window. *)
Definition posts (want : bool) a b : Prop :=
  if want
  then diagnostic_refresh_pending (diagnostic_ui b) = true ∧ posted (screen b) = S (posted (screen a)) ∨
       diagnostic_refresh_pending (diagnostic_ui b) = false ∧ posted (screen b) = posted (screen a) ∧
       (calls (screen a) = [] → diagnostic_window (diagnostic_ui a) = false)
  else diagnostic_refresh_pending (diagnostic_ui b) = false ∧ posted (screen b) = posted (screen a).
Lemma posts_after want a a' b : posts want a' b → posted (screen a') = posted (screen a) → spares a a' →
  diagnostic_window (diagnostic_ui a') = diagnostic_window (diagnostic_ui a) → posts want a b.
Proof. unfold posts, spares. intros Hp Hq Hs Hw. rewrite Hq, Hw in Hp. destruct want; naive_solver. Qed.

Lemma request_run a :
  diagnostic_refreshing (diagnostic_ui a) = false → diagnostic_refresh_pending (diagnostic_ui a) = false →
  ∃ b, request_diagnostic_refresh a = (Ok tt, b) ∧ fixed_of (diagnostic_ui b) = fixed_of (diagnostic_ui a) ∧
    diagnostic_selection_reset (diagnostic_ui b) = diagnostic_selection_reset (diagnostic_ui a) ∧
    diagnostic_grid_selection_sequences (diagnostic_ui b) = diagnostic_grid_selection_sequences (diagnostic_ui a) ∧
    diagnostic_message_text (diagnostic_ui b) = diagnostic_message_text (diagnostic_ui a) ∧
    recorder b = recorder a ∧ owner_buffer b = owner_buffer a ∧ outside b = outside a ∧ spares a b ∧
    posts true a b.
Proof.
  intros Hr Hp. unfold request_diagnostic_refresh, diagnostic_refresh_is_coalesced.
  erewrite run_bind by reflexivity. rewrite Hr, Hp. cbn [orb].
  destruct (diagnostic_window (diagnostic_ui a)) eqn:Hw; cbn [negb].
  2:{ exists a. split_and!; try done; [by intros ?|by right]. }
  destruct a as [rec u o s h]. cbn in Hr, Hp.
  unfold native_set, native_call, on_screen, on_ui, modify, mbind, comp_bind, mret, comp_ret. cbn.
  destruct (calls s) as [|[e|] rest] eqn:Hc; eexists; (split; [reflexivity|]); unfold spares, posts; cbn; rewrite ?Hc; split_and!; try done; auto; right; by split_and!.
Qed.

Lemma flush_keeps m l : let l' := (flush_diagnostic_events_to_disk (E := WindowPanic) m l).2 in
  log_fs l' = log_fs l ∧ log_store l' = log_store l.
Proof.
  unfold flush_diagnostic_events_to_disk, mbind, comp_bind, get. destruct (build_log_lines _ _) as [ls n].
  case_bool_decide; [done|]. destruct (utc_date_of _) as [[y mo] d]. by destruct (writer l).
Qed.

Lemma finish_run follow a :
  let u := diagnostic_ui a in
  ∃ b, finish_diagnostic_refresh follow a = (Ok tt, b) ∧ outside b = outside a ∧ spares a b ∧
    owner_buffer b = owner_buffer a ∧ diagnostics (recorder b) = diagnostics (recorder a) ∧
    fixed_of (diagnostic_ui b) = (diagnostic_window u, diagnostic_controls u, false,
      follow || diagnostic_refresh_follow_up_scheduled u,
      (diagnostic_display_limit u, diagnostic_display_all u, diagnostic_selected_category u, diagnostic_search_text u)) ∧
    diagnostic_selection_reset (diagnostic_ui b) = diagnostic_selection_reset u ∧
    diagnostic_grid_selection_sequences (diagnostic_ui b) = diagnostic_grid_selection_sequences u ∧
    posts (diagnostic_refresh_pending u || follow) a b.
Proof.
  intros u. subst u. destruct a as [rec u o s h]. cbn. unfold finish_diagnostic_refresh. do 2 (erewrite run_bind by reflexivity). cbn.
  destruct (flush_keeps (moment rec) (logger rec)) as [Hf Hs].
  set (rec' := mkRecorder (flush_diagnostic_events_to_disk (E := WindowPanic) (moment rec) (logger rec)).2
    (operation rec) (operation_source rec) (native_context rec)).
  set (u1 := u <| diagnostic_refreshing := false |>).
  set (u2 := if follow then u1 <| diagnostic_refresh_follow_up_scheduled := true |> else u1).
  rewrite (run_bind _ _ _ tt (mkApp rec' u2 o s h)) by (by destruct follow).
  rewrite (run_bind _ _ _ u2 (mkApp rec' u2 o s h)) by done.
  assert (diagnostic_refresh_pending u2 = diagnostic_refresh_pending u) as -> by (by destruct follow).
  destruct (_ || _) eqn:Hw.
  - set (u3 := u2 <| diagnostic_refresh_pending := false |>).
    rewrite (run_bind _ _ _ tt (mkApp rec' u3 o s h)) by done.
    destruct (request_run (mkApp rec' u3 o s h)) as (b & E & F & R & S & _ & Hrec & B & O & Sp & Hp);
      [by destruct follow|done|].
    exists b. split_and!; [exact E|by rewrite O; unfold outside, files_of; cbn; rewrite Hf|done|done|
      by rewrite Hrec; unfold diagnostics; cbn|by rewrite F; destruct follow|by rewrite R; destruct follow|
      by rewrite S; destruct follow|apply (posts_after _ _ _ _ Hp); [done|by intros ?|by destruct follow]].
  - exists (mkApp rec' u2 o s h). apply orb_false_iff in Hw as [Hp ->].
    split_and!; try done; [unfold outside, files_of; cbn; by rewrite Hf|by intros ?].
Qed.

Lemma does_after_rows evs auto_fit was_at_bottom : does still (after_rows version evs auto_fit was_at_bottom).
Proof.
  apply does_bind; [apply _| |intros _].
  { destruct auto_fit; [|by apply does_ret, _]. apply does_bind; [apply _|apply does_native_call|]. intros [e|].
    - by apply does_ret, _.
    - apply does_get. intros a. apply does_auto_fit. }
  apply does_bind; [apply _| |intros _].
  { destruct was_at_bottom; [|by apply does_ret, _]. apply does_screen. intros s. by destruct (0 <? item_count s). }
  apply does_bind; [apply _|by apply does_hud|intros _]. apply does_bind; [apply _|by apply does_hud|intros _].
  by apply does_on_ui.
Qed.

Lemma rows_and_end_run evs auto_fit follow_up allow a :
  diagnostic_refreshing (diagnostic_ui a) = true → let u := diagnostic_ui a in
  let follow := allow && negb follow_up in
  diagnostic_refresh_follow_up_scheduled u = false →
  ∃ b, rows_and_end version evs auto_fit follow_up allow a = (Ok tt, b) ∧ outside b = outside a ∧ spares a b ∧
    fixed_of (diagnostic_ui b) = (diagnostic_window u, diagnostic_controls u, false, follow,
      (diagnostic_display_limit u, diagnostic_display_all u, diagnostic_selected_category u, diagnostic_search_text u)) ∧
    diagnostic_selection_reset (diagnostic_ui b) = diagnostic_selection_reset u ∧
    diagnostic_grid_selection_sequences (diagnostic_ui b) = diagnostic_grid_selection_sequences u ∧
    posts (diagnostic_refresh_pending u || follow) a b ∧
    (follow_up = true → calls (screen a) = [] →
     owner_buffer b = shown_rows (diagnostic_ui b) evs ∧ diagnostics (recorder b) = diagnostics (recorder a)).
Proof.
  intros Hr u follow Hf. subst u. unfold rows_and_end. erewrite run_bind by reflexivity. cbv zeta.
  destruct (fill_run evs follow_up a Hr) as (b1 & E1 & F1 & B1 & M1 & R1). rewrite (run_bind _ _ _ _ _ E1).
  match goal with |- context [after_rows _ _ _ ?w] => destruct (does_after_rows evs auto_fit w b1) as ([] & b2 & E2 & C2 & R2) end.
  rewrite (run_bind _ _ _ _ _ E2). erewrite run_bind by reflexivity. destruct C2 as (M2 & B2 & F2).
  destruct (finish_run (allow && diagnostic_follow_up_needed (diagnostic_refresh_direct_recorded (diagnostic_ui b2)) follow_up) b2)
    as (b & E & O & S & B & D & F & R & Sq & P).
  cbv zeta in M1, F, R, P, Sq. rewrite M1 in M2. injection M2 as P2 D2 R2' S2'.
  assert (allow && diagnostic_follow_up_needed (diagnostic_refresh_direct_recorded (diagnostic_ui b2)) follow_up = follow)
    as Hfollow.
  { rewrite D2. subst follow. unfold diagnostic_follow_up_needed. destruct follow_up; [by rewrite andb_false_r|done]. }
  assert (frame a b2) as (F12 & Q12 & O12 & S12) by (by trans b1). rewrite Hfollow in *.
  injection F12 as W2 C2 _ Fo2 L1 L2 L3 L4. rewrite W2, C2, Fo2, L1, L2, L3, L4, Hf, orb_false_r in F.
  rewrite P2 in P. apply (posts_after _ a) in P; [|done..]. exists b. split; [exact E|]. split; [congruence|]. split; [unfold spares in *; auto|].
  split; [exact F|]. split; [by rewrite R, R2'|]. split; [by rewrite Sq, S2'|]. split; [exact P|].
  intros Hfu Hc. destruct F1 as (F1 & _ & _ & S1). split.
  - rewrite B, B2, B1. symmetry. apply shown_filters. unfold filters_of. by injection F as _ _ _ _ -> -> -> ->.
  - rewrite D, R2, R1; auto.
Qed.

(** The refresh up to its rows; [reset]: the range was given up. *)
Lemma prepare_run evs a :
  let u := diagnostic_ui a in
  diagnostic_refresh_pending u = false →
  ∃ fit b reset, prepare_refresh evs a = (Ok fit, b) ∧ outside b = outside a ∧ spares a b ∧
    posted (screen b) = posted (screen a) ∧
    fixed_of (diagnostic_ui b) = (diagnostic_window u, diagnostic_controls u, true, false, filters_of u) ∧
    diagnostic_refresh_pending (diagnostic_ui b) = reset ∧
    diagnostic_selection_reset (diagnostic_ui b) = diagnostic_selection_reset u || reset ∧
    (reset = true → diagnostic_selection_reset u = false ∧ diagnostic_controls u = true) ∧
    (diagnostic_grid_selection_sequences u = [] → diagnostic_grid_selection_sequences (diagnostic_ui b) = [] ∧
     (reset = false → calls (screen a) = [] → recorder b = recorder a)).
Proof.
  intros u Hp. subst u. unfold prepare_refresh.
  destruct (start_run evs a) as (fit & b1 & E1 & O1 & C1 & P1 & R1 & F1 & M1). rewrite (run_bind _ _ _ _ _ E1).
  injection F1 as Fw1 Fc1 Fr1 Ff1 L1 L2 L3 L4. injection M1 as Mp1 _ Mr1 Ms1.
  destruct (preserve_run evs b1 Fr1) as (b2 & E2 & F2 & Mp2 & Mr2 & Hs2). rewrite (run_bind _ _ _ _ _ E2).
  pose proof F2 as (Hfix2 & _). injection Hfix2 as _ Fc2 Fr2 _ _ _ _ _. rewrite Fr1 in Fr2. rewrite Fc1 in Fc2.
  rewrite Mr1 in Mr2. rewrite Mp1, Hp in Mp2.
  destruct (controls_run evs b2 Fr2) as (b3 & E3 & Hc3). rewrite (run_bind _ _ _ _ _ E3).
  exists fit, b3. assert (frame b2 b3) as F3 by (by destruct Hc3 as [((_ & _ & F3) & _)|(_ & _ & F3 & _)]).
  assert (frame b1 b3) as (F13 & Q13 & O13 & S13) by (by trans b2). injection F13 as Fw3 Fc3 Fr3 Ff3 N1 N2 N3 N4.
  assert (outside b3 = outside a ∧ spares a b3 ∧ posted (screen b3) = posted (screen a) ∧
    fixed_of (diagnostic_ui b3) = (diagnostic_window (diagnostic_ui a), diagnostic_controls (diagnostic_ui a), true, false,
      filters_of (diagnostic_ui a))) as (Oa & Sa & Pa & Fa).
  { split_and!; [congruence|unfold spares in *; rewrite <- C1; auto|congruence|].
    unfold fixed_of, filters_of. by rewrite Fw3, Fw1, Fc3, Fc1, Fr3, Fr1, Ff3, Ff1, N1, N2, N3, N4, L1, L2, L3, L4. }
  destruct Hc3 as [((M3 & _ & _) & R3)|(HR & HC & _ & M3)]; injection M3 as Mp3 _ Mr3 Ms3.
  - exists false. split_and!; try done; [congruence|by rewrite Mr3, Mr2, orb_false_r|].
    intros Hseq. assert (b2 = b1) as -> by (apply Hs2; by rewrite Ms1). split; [by rewrite Ms3, Ms1|].
    intros _ Hcalls. rewrite R3, R1; [done|by rewrite C1].
  - exists true. split_and!; try done; [by rewrite Mr3, orb_true_r|by intros _; rewrite <- Mr2, <- Fc2|].
    intros Hseq. assert (b2 = b1) as -> by (apply Hs2; by rewrite Ms1). split; [by rewrite Ms3, Ms1|done].
Qed.

Lemma refresh_run allow a :
  let u := diagnostic_ui a in
  diagnostic_refreshing u = false → diagnostic_refresh_pending u = false →
  ∃ b reset, refresh_diagnostic_window version allow a = (Ok tt, b) ∧ outside b = outside a ∧ spares a b ∧
    (reset = true → diagnostic_selection_reset u = false ∧ diagnostic_controls u = true) ∧
    diagnostic_selection_reset (diagnostic_ui b) = diagnostic_selection_reset u || reset ∧
    (diagnostic_grid_selection_sequences u = [] → diagnostic_grid_selection_sequences (diagnostic_ui b) = []) ∧
    let follow := allow && negb (diagnostic_refresh_follow_up_scheduled u) && diagnostic_controls u in
    fixed_of (diagnostic_ui b) = (diagnostic_window u, diagnostic_controls u, false, follow, filters_of u) ∧
    posts (reset || follow) a b ∧
    (reset = false → diagnostic_refresh_follow_up_scheduled u = true → diagnostic_controls u = true →
     diagnostic_grid_selection_sequences u = [] → calls (screen a) = [] →
     owner_buffer b = shown_rows (diagnostic_ui b) (events (diagnostics (recorder b)))).
Proof.
  intros u Hr Hp. subst u. unfold refresh_diagnostic_window. erewrite run_bind by reflexivity. rewrite Hr. cbv zeta.
  erewrite run_bind by reflexivity. set (evs := events (diagnostics (recorder a))).
  destruct (prepare_run evs a Hp) as (fit & b3 & reset & E3 & O3 & S3 & P3 & F3 & Mp3 & Mr3 & Hreset & Hrec3).
  rewrite (run_bind _ _ _ _ _ E3). erewrite run_bind by reflexivity. injection F3 as Fw3 Fc3 Fr3 Ff3 N1 N2 N3 N4. rewrite Fc3.
  destruct (diagnostic_controls (diagnostic_ui a)) eqn:HC; cbn [negb].
  - destruct (rows_and_end_run evs fit (diagnostic_refresh_follow_up_scheduled (diagnostic_ui a)) allow b3 Fr3 Ff3)
      as (b & E & O & S & F & R & Sq & P & Hsh). cbv zeta in F, R, Sq, P.
    exists b, reset. split; [exact E|]. split; [by rewrite O|]. split; [unfold spares in *; auto|].
    split; [done|]. split; [by rewrite R, Mr3|]. rewrite andb_true_r.
    split; [intros Hseq; rewrite Sq; by apply Hrec3|]. split.
    { by rewrite F, Fw3, Fc3, N1, N2, N3, N4. }
    split; [rewrite Mp3 in P; by apply (posts_after _ a) in P|].
    intros Hre Hfu _ Hseq Hcalls. destruct (Hsh Hfu (S3 Hcalls)) as [-> ->]. destruct (Hrec3 Hseq) as [_ ->]; done.
  - destruct (does_store_record (lit "diagnostic.grid.refresh.error") (lit "list_handle_null") DiagnosticOutcome.Failed
      ltac:(auto with plain) b3) as ([] & b4 & E4 & M4 & _ & F4 & Q4 & O4 & S4). rewrite (run_bind _ _ _ _ _ E4).
    destruct (finish_run false b4) as (b & E & O & S & _ & _ & F & R & Sq & P). cbv zeta in F, R, P, Sq.
    assert (reset = false) as -> by (destruct reset; [by destruct (Hreset eq_refl)|done]).
    injection M4 as Mp4 _ Mr4 Ms4. injection F4 as Fw4 Fc4 _ Ff4 K1 K2 K3 K4.
    exists b, false. split; [exact E|]. split; [congruence|]. split; [unfold spares in *; auto|]. split; [done|].
    split; [by rewrite R, Mr4, Mr3|]. split; [intros Hseq; rewrite Sq, Ms4; by apply Hrec3|]. rewrite andb_false_r. split.
    { by rewrite F, Fw4, Fw3, Fc4, Fc3, Ff4, Ff3, K1, K2, K3, K4, N1, N2, N3, N4. }
    split; [|done]. rewrite Mp4, Mp3 in P. apply (posts_after _ a) in P; [done|congruence|unfold spares in *; auto|congruence].
Qed.

(** ** The refreshes come to an end *)

(** Between messages: no refresh runs, and one is pending exactly when its message is posted. *)
Definition refresh_inv a : Prop :=
  diagnostic_refreshing (diagnostic_ui a) = false ∧
  (diagnostic_refresh_pending (diagnostic_ui a) = false ∧ posted (screen a) = 0%nat ∨
   diagnostic_refresh_pending (diagnostic_ui a) = true ∧ posted (screen a) = 1%nat).

(** The refreshes still to come at most. *)
Definition refreshes_left a : nat :=
  match posted (screen a), diagnostic_refresh_follow_up_scheduled (diagnostic_ui a),
        diagnostic_selection_reset (diagnostic_ui a) with
  | O, _, _ => 0 | _, true, true => 1 | _, false, true => 2 | _, true, false => 3 | _, false, false => 4
  end.

(** The grid shows the events of the store as the filters choose them. *)
Definition shows_store a : Prop :=
  owner_buffer a = shown_rows (diagnostic_ui a) (events (diagnostics (recorder a))).

Definition live a : Prop :=
  diagnostic_window (diagnostic_ui a) = true ∧ diagnostic_controls (diagnostic_ui a) = true ∧
  diagnostic_grid_selection_sequences (diagnostic_ui a) = [] ∧ calls (screen a) = [].

Lemma pump_run a : refresh_inv a → posted (screen a) ≠ 0%nat →
  ∃ b, pump version a = (Ok tt, b) ∧ refresh_inv b ∧ outside b = outside a ∧ (refreshes_left b < refreshes_left a)%nat ∧
    filters_of (diagnostic_ui b) = filters_of (diagnostic_ui a) ∧
    (live a → live b ∧ (posted (screen b) = 0%nat → shows_store b)).
Proof.
  intros [Hr Hi] Hne. assert (posted (screen a) = 1%nat) as Hone by (destruct Hi as [[_ ?]|[_ ?]]; done).
  unfold pump. erewrite run_bind by reflexivity. rewrite Hone. erewrite run_bind by reflexivity. cbn [diagnostic_window_proc].
  erewrite run_bind by reflexivity.
  match goal with |- context [refresh_diagnostic_window _ _ ?x] => set (a1 := x) end.
  destruct (refresh_run true a1) as (b & reset & E & O & S & Hre & R & Sq & F & P & Sh); [exact Hr|done|].
  exists b. split; [exact E|]. change (outside a1) with (outside a) in O.
  change (diagnostic_refresh_follow_up_scheduled (diagnostic_ui a1)) with (diagnostic_refresh_follow_up_scheduled (diagnostic_ui a)) in *.
  change (diagnostic_selection_reset (diagnostic_ui a1)) with (diagnostic_selection_reset (diagnostic_ui a)) in *.
  change (diagnostic_controls (diagnostic_ui a1)) with (diagnostic_controls (diagnostic_ui a)) in *.
  injection F as Fw Fc Fr Ff L1 L2 L3 L4.
  assert (posted (screen a1) = 0%nat) as Hp1 by done. assert (calls (screen a1) = calls (screen a)) as Hca by done.
  change (diagnostic_window (diagnostic_ui a1)) with (diagnostic_window (diagnostic_ui a)) in *.
  change (diagnostic_grid_selection_sequences (diagnostic_ui a1)) with (diagnostic_grid_selection_sequences (diagnostic_ui a)) in *.
  assert (diagnostic_window (diagnostic_ui a1) = diagnostic_window (diagnostic_ui a)) as Hwa by done.
  clearbody a1.
  assert (diagnostic_refresh_pending (diagnostic_ui b) = false ∧ posted (screen b) = 0%nat ∨
    diagnostic_refresh_pending (diagnostic_ui b) = true ∧ posted (screen b) = 1%nat) as Hib.
  { clear - P Hp1. unfold posts in P. rewrite Hp1 in P.
    destruct (_ || _); [destruct P as [[-> ->]|(-> & -> & _)]|destruct P as [-> ->]]; auto. }
  split; [by split|]. split; [done|]. split; [|split; [unfold filters_of; by rewrite L1, L2, L3, L4|]].
  - clear - Hone P Hp1 Hre R Ff. unfold refreshes_left. rewrite Hone, Ff, R. unfold posts in P. rewrite Hp1 in P.
    destruct (diagnostic_refresh_follow_up_scheduled (diagnostic_ui a)), (diagnostic_selection_reset (diagnostic_ui a)),
      reset, (diagnostic_controls (diagnostic_ui a)); cbn [orb andb negb] in P |- *;
      first [by destruct (Hre eq_refl) | destruct P as [[_ ->]|(_ & -> & _)]; lia | destruct P as [_ ->]; lia].
  - intros (Lw & Lc & Ls & Lcalls). assert (calls (screen b) = []) as Hcb by (apply S; by rewrite Hca).
    split; [split_and!; [exact (eq_trans Fw Lw)|exact (eq_trans Fc Lc)|by apply Sq|done]|]. intros Hp0. unfold shows_store.
    assert (reset = false ∧ diagnostic_refresh_follow_up_scheduled (diagnostic_ui a) = true) as [Hr0 Hf0].
    { clear - P Hp0 Hp1 Lw Lc Lcalls Hca Hwa. unfold posts in P. rewrite Hp0, Hp1, Lc, Hca, Hwa, Lw, Lcalls in P.
      destruct reset, (diagnostic_refresh_follow_up_scheduled (diagnostic_ui a)); cbn [orb andb negb] in P; try done;
        by destruct P as [[_ ?]|(_ & _ & P)]; [|specialize (P eq_refl)]. }
    apply Sh; try done. by rewrite Hca.
Qed.

(** ** Records between refreshes *)

(** The step keeps the invariant and touches neither the clipboard nor the dialogs nor a file. *)
Definition kept a b : Prop := (refresh_inv a → refresh_inv b) ∧ outside b = outside a ∧ spares a b.
(** And the message stays. *)
Definition noted a b : Prop :=
  kept a b ∧ diagnostic_message_text (diagnostic_ui b) = diagnostic_message_text (diagnostic_ui a).

#[local] Instance kept_preorder : PreOrder kept.
Proof.
  split; [intros a; unfold kept, spares; auto|]. intros a b c (I1 & O1 & S1) (I2 & O2 & S2).
  unfold kept, spares in *. split_and!; [auto|congruence|auto].
Qed.
#[local] Instance noted_preorder : PreOrder noted.
Proof. split; [by intros a|]. intros a b c (K1 & M1) (K2 & M2). split; [by trans b|congruence]. Qed.
Lemma noted_kept a b : noted a b → kept a b.
Proof. by intros [? _]. Qed.

Lemma calm_kept a b : calm a b → kept a b.
Proof.
  intros (M & _ & F & P & O & S). split; [|done]. injection M as M _ _ _. injection F as _ _ F _ _ _ _ _.
  unfold refresh_inv. by rewrite M, F, P.
Qed.
Lemma still_kept a b : still a b → kept a b.
Proof. intros [? _]. by apply calm_kept. Qed.

Lemma recorder_run {T} (m : comp Recorder Privacy.Fault T) a : total m → ∃ x b,
  on_recorder m a = (Ok x, b) ∧ noted a b ∧ diagnostic_ui b = diagnostic_ui a ∧ recorder b = (m (recorder a)).2 ∧
  screen b = screen a.
Proof.
  intros Hm. destruct (does_on_recorder m Hm a) as (x & b & E & C). exists x, b. split; [done|].
  assert (diagnostic_ui b = diagnostic_ui a ∧ recorder b = (m (recorder a)).2 ∧ screen b = screen a) as (U & R & S).
  { revert E. unfold on_recorder. by destruct (m (recorder a)) as [[y|e] r]; intros [= _ <-]. }
  split; [split; [by apply calm_kept|by rewrite U]|done].
Qed.
Lemma does_recorder {T} (m : comp Recorder Privacy.Fault T) : total m → does noted (on_recorder m).
Proof. intros Hm a. destruct (recorder_run m a Hm) as (x & b & E & N & _). eauto. Qed.

Lemma request_kept a : ∃ b, request_diagnostic_refresh a = (Ok tt, b) ∧
  (refresh_inv a → refresh_inv b) ∧ outside b = outside a ∧ spares a b ∧ recorder b = recorder a ∧
  diagnostic_message_text (diagnostic_ui b) = diagnostic_message_text (diagnostic_ui a).
Proof.
  destruct (diagnostic_refreshing (diagnostic_ui a)) eqn:Hr.
  { rewrite request_while_refreshing by done. eexists. split; [reflexivity|]. split_and!; try done; [|by intros ?].
    intros [Hr' _]. by rewrite Hr in Hr'. }
  destruct (diagnostic_refresh_pending (diagnostic_ui a)) eqn:Hp.
  { exists a. split; [|split_and!; try done; by intros ?]. unfold request_diagnostic_refresh.
    erewrite run_bind by reflexivity. by rewrite Hr, Hp. }
  destruct (request_run a Hr Hp) as (b & E & F & _ & _ & M & R & _ & O & S & P). exists b. split; [done|].
  split_and!; try done. intros [_ Hi]. split; [by injection F as _ _ -> _ _ _ _ _|].
  assert (posted (screen a) = 0%nat) as Hz by (destruct Hi as [[_ ?]|[Hi _]]; [done|by rewrite Hp in Hi]).
  unfold posts in P. rewrite Hz in P. destruct P as [[-> ->]|(-> & -> & _)]; auto.
Qed.
Lemma does_request : does noted request_diagnostic_refresh.
Proof. intros a. destruct (request_kept a) as (b & E & I & O & S & _ & M). exists tt, b. split; [done|]. exact (conj (conj I (conj O S)) M). Qed.

Lemma does_record_outcome nm dt o : plain dt → does noted (app_record_with_outcome nm dt o).
Proof.
  intros Hp. apply does_bind; [apply _|by apply does_recorder, total_append|]. intros _. apply does_request.
Qed.
Lemma does_record nm dt : plain dt → does noted (app_record nm dt).
Proof. apply does_record_outcome. Qed.
Lemma does_begin s : does noted (app_begin_operation s).
Proof. apply does_recorder, total_begin. Qed.
Lemma end_operation o a : ∃ b, app_finish_operation o a = (Ok tt, b) ∧ noted a b ∧ operation (recorder b) = None.
Proof.
  unfold app_finish_operation. destruct (recorder_run (close_operation o) a (total_close o)) as (open & b & E & N & _ & R & _).
  rewrite (run_bind _ _ _ _ _ E). assert (operation (recorder b) = None) as Ho by (rewrite R; apply close_closes).
  destruct open; [|by exists b]. destruct (request_kept b) as (c & E2 & I & O & S & R2 & M). exists c. split; [done|].
  split; [trans b; [done|]; exact (conj (conj I (conj O S)) M)|by rewrite R2].
Qed.
Lemma does_finish o : does noted (app_finish_operation o).
Proof. intros a. destruct (end_operation o a) as (b & E & N & _). eauto. Qed.

Lemma message_run m a : ∃ b, set_diagnostic_message m a = (Ok tt, b) ∧ kept a b ∧
  diagnostic_message_text (diagnostic_ui b) = m.
Proof.
  destruct (does_message m a) as ([] & b & E & S). exists b. split; [done|]. split; [by apply still_kept|].
  revert E. unfold set_diagnostic_message. erewrite run_bind by reflexivity. unfold if_controls. erewrite run_bind by reflexivity.
  match goal with |- context [if ?c then _ else _] => destruct c end; [|by intros [= <-]].
  unfold native_set, native_call, on_screen, modify, mbind, comp_bind, mret, comp_ret, app_store_record, on_recorder.
  destruct a as [rec u o s h]. cbn. destruct (calls s) as [|[e|] rest]; cbn; [by intros [= <-]| |by intros [= <-]].
  destruct (store_record _ _ _ rec) as [[x|x] r]; by intros [= _ <-].
Qed.
Lemma does_said m : does kept (set_diagnostic_message m).
Proof. intros a. destruct (message_run m a) as (b & E & K & _). eauto. Qed.

(** A message, a record, the end of the operation. *)
Lemma report_run m nm dt o a : plain dt → ∃ b, report_transfer m nm dt o a = (Ok tt, b) ∧ kept a b ∧
  diagnostic_message_text (diagnostic_ui b) = m ∧ operation (recorder b) = None.
Proof.
  intros Hp. unfold report_transfer. destruct (message_run m a) as (a1 & E1 & K1 & M1). rewrite (run_bind _ _ _ _ _ E1).
  destruct (does_record_outcome nm dt o Hp a1) as ([] & a2 & E2 & K2 & M2). rewrite (run_bind _ _ _ _ _ E2).
  destruct (end_operation o a2) as (b & E & (K3 & M3) & Ho). exists b. split; [done|].
  split; [trans a1; [done|]; by trans a2|]. split; [congruence|done].
Qed.
Lemma success_run m nm dt a : plain dt → ∃ b, report_success m nm dt a = (Ok tt, b) ∧ kept a b ∧
  diagnostic_message_text (diagnostic_ui b) = m ∧ operation (recorder b) = None.
Proof.
  intros Hp. unfold report_success. destruct (message_run m a) as (a1 & E1 & K1 & M1). rewrite (run_bind _ _ _ _ _ E1).
  destruct (does_record nm dt Hp a1) as ([] & a2 & E2 & K2 & M2). rewrite (run_bind _ _ _ _ _ E2).
  destruct (end_operation DiagnosticOutcome.Completed a2) as (b & E & (K3 & M3) & Ho). exists b. split; [done|].
  split; [trans a1; [done|]; by trans a2|]. split; [congruence|done].
Qed.

(** ** Copying *)

Definition clipboard_step (text : str) (before after : option str) : Prop :=
  after = before ∨ after = None ∨ after = Some text.
(** Only the clipboard changes, and the script moves on. *)
Definition copies (text : str) a b : Prop :=
  diagnostic_ui b = diagnostic_ui a ∧ recorder b = recorder a ∧ posted (screen b) = posted (screen a) ∧
  dialogs (screen b) = dialogs (screen a) ∧ spares a b ∧ clipboard_step text (clipboard (screen a)) (clipboard (screen b)).
#[local] Instance copies_preorder text : PreOrder (copies text).
Proof.
  split; [intros a; unfold copies, spares, clipboard_step; auto 10|].
  intros a b c (U1 & R1 & P1 & D1 & S1 & C1) (U2 & R2 & P2 & D2 & S2 & C2). unfold copies, spares, clipboard_step in *.
  split_and!; [congruence..|auto|]. destruct C1 as [C1|[C1|C1]], C2 as [C2|[C2|C2]]; rewrite ?C2, ?C1; auto.
Qed.

Lemma call_copies text : does (copies text) native_call.
Proof.
  intros a. unfold native_call. destruct (calls (screen a)) as [|c rest] eqn:E; [by exists None, a|].
  eexists c, _. split; [done|]. repeat split; [unfold spares; by rewrite E|by left].
Qed.
Lemma ignored_copies text : does (copies text) ignored_call.
Proof. apply does_bind; [apply _|apply call_copies|intros _]. by apply does_ret, _. Qed.
Lemma stage_copies {T} text s (k : W (result NativeFailure T)) : does (copies text) k → does (copies text) (stage_call s k).
Proof. intros Hk. apply does_bind; [apply _|apply call_copies|]. intros [e|]; [by apply does_ret, _|done]. Qed.
Lemma closing_copies text frees s k : does (copies text) k → does (copies text) (stage_call_closing frees s k).
Proof.
  intros Hk. apply does_bind; [apply _|apply call_copies|]. intros [e|]; [|done].
  apply does_bind; [apply _|destruct frees; [apply ignored_copies|by apply does_ret, _]|intros _].
  apply does_bind; [apply _|apply ignored_copies|intros _]. by apply does_ret, _.
Qed.
Lemma clip_copies text v : v = None ∨ v = Some text → does (copies text) (on_screen (λ s, s <| clipboard := v |>)).
Proof.
  intros Hv. apply does_modify. intros a. repeat split; [by intros ?|]. right. destruct Hv as [->| ->]; cbn; auto.
Qed.
Lemma does_copy text : does (copies text) (copy_tsv_to_clipboard text).
Proof.
  apply stage_copies, closing_copies, does_bind; [apply _|apply clip_copies; auto|intros _].
  apply closing_copies, closing_copies, does_bind; [apply _|apply ignored_copies|intros _].
  apply closing_copies, does_bind; [apply _|apply clip_copies; auto|intros _]. apply stage_copies. by apply does_ret, _.
Qed.

(** A stage that succeeds goes on with the next. *)
Lemma call_ok a : ∃ r b, native_call a = (Ok r, b) ∧ clipboard (screen b) = clipboard (screen a) ∧ (calls (screen a) = [] → r = None ∧ b = a).
Proof.
  unfold native_call. destruct (calls (screen a)) as [|c rest]; [by exists None, a|]. by eexists c, _.
Qed.
Lemma stage_ok {T} s (k : W (result NativeFailure T)) a x b : stage_call s k a = (Ok (Ok x), b) →
  ∃ a', k a' = (Ok (Ok x), b) ∧ clipboard (screen a') = clipboard (screen a).
Proof.
  unfold stage_call. destruct (call_ok a) as (r & a' & E & C & _). rewrite (run_bind _ _ _ _ _ E). destruct r; [done|eauto].
Qed.
Lemma closing_ok frees s k a x b : stage_call_closing frees s k a = (Ok (Ok x), b) →
  ∃ a', k a' = (Ok (Ok x), b) ∧ clipboard (screen a') = clipboard (screen a).
Proof.
  unfold stage_call_closing. destruct (call_ok a) as (r & a' & E & C & _). rewrite (run_bind _ _ _ _ _ E).
  destruct r as [e|]; [|eauto]. unfold mbind, comp_bind.
  destruct ((if frees then ignored_call else mret tt) a') as [[[]|] d]; [|done]. by destruct (ignored_call d) as [[[]|] d'].
Qed.
Lemma copy_ok text a b : copy_tsv_to_clipboard text a = (Ok (Ok tt), b) → clipboard (screen b) = Some text.
Proof.
  intros E. apply stage_ok in E as (a1 & E & _). apply closing_ok in E as (a2 & E & _).
  erewrite run_bind in E by reflexivity. apply closing_ok in E as (a3 & E & _). apply closing_ok in E as (a4 & E & _).
  destruct (ignored_copies text a4) as ([] & a5 & E5 & _). rewrite (run_bind _ _ _ _ _ E5) in E.
  apply closing_ok in E as (a6 & E & _). erewrite run_bind in E by reflexivity.
  apply stage_ok in E as (a7 & E & C). injection E as <-. by rewrite C.
Qed.
Lemma call_none a : calls (screen a) = [] → native_call a = (Ok None, a).
Proof. unfold native_call. by intros ->. Qed.
Lemma ignored_none a : calls (screen a) = [] → ignored_call a = (Ok tt, a).
Proof. intros Hc. unfold ignored_call. by rewrite (run_bind _ _ _ _ _ (call_none a Hc)). Qed.
Lemma stage_none {T} s (k : W (result NativeFailure T)) a : calls (screen a) = [] → stage_call s k a = k a.
Proof. intros Hc. unfold stage_call. by rewrite (run_bind _ _ _ _ _ (call_none a Hc)). Qed.
Lemma closing_none frees s k a : calls (screen a) = [] → stage_call_closing frees s k a = k a.
Proof. intros Hc. unfold stage_call_closing. by rewrite (run_bind _ _ _ _ _ (call_none a Hc)). Qed.
Lemma copy_sure text a : calls (screen a) = [] → ∃ b, copy_tsv_to_clipboard text a = (Ok (Ok tt), b).
Proof.
  intros Hc. unfold copy_tsv_to_clipboard. rewrite stage_none, closing_none by done. erewrite run_bind by reflexivity.
  rewrite !closing_none by done.
  erewrite (run_bind ignored_call) by (by apply ignored_none).
  rewrite closing_none by done. erewrite run_bind by reflexivity. rewrite stage_none by done. by eexists.
Qed.

(** The stage of a failure is one of the fixed texts. *)
Definition fails_plain {T} (m : W (result NativeFailure T)) : Prop :=
  ∀ a e b, m a = (Ok (Err e), b) → plain (failure_stage e).
Lemma plain_then {T U} (m : W U) (k : U → W (result NativeFailure T)) : (∀ x, fails_plain (k x)) → fails_plain (m ≫= k).
Proof. intros Hk a e b. unfold mbind, comp_bind. destruct (m a) as [[x|x] c]; [apply Hk|done]. Qed.
Lemma plain_give {T} (r : result NativeFailure T) : (∀ e, r = Err e → plain (failure_stage e)) → fails_plain (mret r).
Proof. intros Hr a e b [= E _]. by apply Hr. Qed.
Lemma plain_stage {T} s (k : W (result NativeFailure T)) : plain (lit s) → fails_plain k → fails_plain (stage_call s k).
Proof. intros Hs Hk. apply plain_then. intros [e|]; [|done]. apply plain_give. by intros e' [= <-]. Qed.
Lemma plain_closing frees s k : plain (lit s) → fails_plain k → fails_plain (stage_call_closing frees s k).
Proof.
  intros Hs Hk. apply plain_then. intros [e|]; [|done]. apply plain_then. intros _. apply plain_then. intros _.
  apply plain_give. by intros e' [= <-].
Qed.
Lemma copy_plain text : fails_plain (copy_tsv_to_clipboard text).
Proof.
  apply plain_stage; [auto with plain|]. apply plain_closing; [auto with plain|]. apply plain_then; intros _.
  apply plain_closing; [auto with plain|]. apply plain_closing; [auto with plain|]. apply plain_then; intros _.
  apply plain_closing; [auto with plain|]. apply plain_then; intros _. apply plain_stage; [auto with plain|]. by apply plain_give.
Qed.

(** ** What is transferred *)

Abbreviation Transfer := (DiagnosticTransferSource * list (list str) * option RowSelection)%type.

(** The rows the toolbar transfers: those selected in the grid that are still
    retained; without any, those of the range that is typed. *)
Definition chosen_rows u input evs : option Transfer :=
  let chosen := selected_event_sequences_for_sequences evs (diagnostic_grid_selection_sequences u) in
  if negb (bool_decide (chosen = []))
  then Some (DiagnosticTransferSource.GridSelection, diagnostic_grid_rows_for_sequences evs chosen, None)
  else match parse_row_selection input (Z.of_nat (length evs)) with
       | Ok s => if selection_is_empty s then None
                 else Some (DiagnosticTransferSource.RangeSelection, diagnostic_grid_rows evs s, Some s)
       | Err _ => None
       end.
(** What the user is told when there are none. *)
Definition refusal input evs (message : str) : Prop :=
  message = lit "No retained events." ∨
  ∃ e, parse_row_selection input (Z.of_nat (length evs)) = Err e ∧ message = lit "Invalid range: " ++ row_selection_error_display e.

Definition typed_range a : str := if diagnostic_controls (diagnostic_ui a) then range_input (screen a) else [].

Lemma plain_opt_selection (range : option RowSelection) : plain (match range with
  | Some s => lit " selected_range=" ++ show_u (sel_start s) ++ lit "-" ++ show_u (sel_end s) | None => [] end).
Proof. destruct range; auto with plain. Qed.
Lemma plain_details s n m range : plain (diagnostic_transfer_details s n m range).
Proof. pose proof plain_opt_selection. unfold diagnostic_transfer_details. auto 12 with plain. Qed.
Lemma plain_retention n m t : plain (retention_summary n m t).
Proof. unfold retention_summary. auto 10 with plain. Qed.
#[local] Hint Resolve plain_details plain_retention : plain.

(** A refused transfer: two records, a message, the end of the operation. *)
Lemma refused_run (r1 r2 : W unit) m a : does noted r1 → does noted r2 →
  ∃ b, (_ ← r1; _ ← r2; _ ← set_diagnostic_message m; _ ← app_finish_operation DiagnosticOutcome.Failed; mret None) a
       = (Ok (@None Transfer), b) ∧ kept a b ∧ diagnostic_message_text (diagnostic_ui b) = m ∧ operation (recorder b) = None.
Proof.
  intros D1 D2. destruct (D1 a) as ([] & a1 & E1 & K1 & _). rewrite (run_bind _ _ _ _ _ E1).
  destruct (D2 a1) as ([] & a2 & E2 & K2 & _). rewrite (run_bind _ _ _ _ _ E2).
  destruct (message_run m a2) as (a3 & E3 & K3 & M3). rewrite (run_bind _ _ _ _ _ E3).
  destruct (end_operation DiagnosticOutcome.Failed a3) as (b & E & (K4 & M4) & Ho). rewrite (run_bind _ _ _ _ _ E).
  exists b. split; [done|]. split; [trans a1; [done|]; trans a2; [done|]; by trans a3|]. split; [congruence|done].
Qed.

Lemma row_count_nonneg s : 0 ≤ row_count s.
Proof. unfold row_count. destruct (_ || _); [done|]. unfold sat_add, sat_sub. lia. Qed.

Lemma transfer_run evs a : let input := typed_range a in let chosen := chosen_rows (diagnostic_ui a) input evs in
  ∃ b, transfer_rows evs a = (Ok chosen, b) ∧ kept a b ∧
    (chosen = None → refusal input evs (diagnostic_message_text (diagnostic_ui b)) ∧ operation (recorder b) = None).
Proof.
  intros input chosen. subst chosen. unfold transfer_rows, chosen_rows. cbv zeta. erewrite run_bind by reflexivity.
  case_bool_decide as Hs; cbn [negb].
  2:{ assert (diagnostic_transfer_source (Z.of_nat (length (selected_event_sequences_for_sequences evs
        (diagnostic_grid_selection_sequences (diagnostic_ui a))))) 0 = Some DiagnosticTransferSource.GridSelection) as ->.
      { unfold diagnostic_transfer_source. destruct (selected_event_sequences_for_sequences _ _); [done|].
        destruct (0 <? _) eqn:E; [done|]. apply Z.ltb_ge in E. cbn [length] in E. lia. }
      exists a. split; [done|]. split; [done|done]. }
  rewrite (run_bind _ _ _ input a) by done.
  destruct (parse_row_selection input (Z.of_nat (length evs))) as [s|e] eqn:Hp.
  - destruct (selection_is_empty s) eqn:Hes; cbn [negb].
    + destruct (refused_run
        (app_record (lit "diagnostic.range.parsed") (lit "result=empty " ++
           diagnostic_transfer_details DiagnosticTransferSource.RangeSelection 0 (Z.of_nat (length evs)) (Some s)))
        (app_record_with_outcome (lit "diagnostic.validation_failure")
           (diagnostic_transfer_details DiagnosticTransferSource.RangeSelection 0 (Z.of_nat (length evs)) (Some s) ++
            lit " result=failed reason=no_retained_events") DiagnosticOutcome.Failed) (lit "No retained events.") a)
        as (b & E & K & M & Ho); [apply does_record; auto with plain|apply does_record_outcome; auto with plain|].
      exists b. split; [exact E|]. split; [done|]. intros _. split; [by left|done].
    + erewrite run_bind by reflexivity.
      assert (diagnostic_transfer_source 0 (row_count s) = Some DiagnosticTransferSource.RangeSelection) as ->.
      { unfold diagnostic_transfer_source. change (0 <? 0) with false. unfold selection_is_empty in Hes.
        pose proof (row_count_nonneg s). by replace (0 <? row_count s) with true by lia. }
      eexists. split; [reflexivity|]. split; [|done]. split; [by intros ?|by repeat split; intros ?].
  - destruct (refused_run
      (app_record_with_outcome (lit "diagnostic.range.parsed")
         (diagnostic_transfer_details DiagnosticTransferSource.RangeSelection 0 (Z.of_nat (length evs)) None ++
          lit " result=invalid error=" ++ row_selection_error_display e) DiagnosticOutcome.Failed)
      (app_record_with_outcome (lit "diagnostic.validation_failure")
         (diagnostic_transfer_details DiagnosticTransferSource.RangeSelection 0 (Z.of_nat (length evs)) None ++
          lit " result=failed error=" ++ row_selection_error_display e) DiagnosticOutcome.Failed)
      (lit "Invalid range: " ++ row_selection_error_display e) a) as (b & E & K & M & Ho);
      [apply does_record_outcome; auto with plain..|].
    exists b. split; [exact E|]. split; [done|]. intros _. split; [right; eauto|done].
Qed.

(** The toolbar up to its action. *)
Definition words_of evs (cap : Z) (t : Transfer) : str :=
  diagnostic_transfer_details t.1.1 (Z.of_nat (length t.1.2)) (Z.of_nat (length evs)) t.2 ++ lit " " ++
  retention_summary (Z.of_nat (length evs)) cap (snapshot_is_truncated evs).
Definition all_words evs (cap : Z) : str :=
  lit "source=export-all selected_row_count=" ++
  show_u (Z.of_nat (length (diagnostic_grid_rows evs (select_all (Z.of_nat (length evs)))))) ++ lit " retained_rows=" ++
  show_u (Z.of_nat (length evs)) ++ lit " format=TSV " ++
  retention_summary (Z.of_nat (length evs)) cap (snapshot_is_truncated evs).

Definition toolbar_branch (action : str) evs (rows : list (list str)) (words everything : str) : W unit :=
  if str_eqb action (lit "copy") then copy_transfer rows words
  else if str_eqb action (lit "export") then export_transfer false rows words
  else if str_eqb action (lit "export_all")
  then export_transfer true (diagnostic_grid_rows evs (select_all (Z.of_nat (length evs)))) everything
  else _ ← app_record (lit "diagnostic.toolbar.request") (lit "action=" ++ action ++ lit " result=ignored");
       app_finish_operation DiagnosticOutcome.Suppressed.

Definition chosen_in a : option Transfer :=
  chosen_rows (diagnostic_ui a) (typed_range a) (events (diagnostics (recorder a))).

Lemma toolbar_run action a : let evs := events (diagnostics (recorder a)) in
  match chosen_in a with
  | None => ∃ b, diagnostic_toolbar_action action a = (Ok tt, b) ∧ kept a b ∧
      refusal (typed_range a) evs (diagnostic_message_text (diagnostic_ui b)) ∧ operation (recorder b) = None
  | Some t => ∃ words everything a', plain words ∧ plain everything ∧ kept a a' ∧
      diagnostic_toolbar_action action a = toolbar_branch action evs t.1.2 words everything a'
  end.
Proof.
  intros evs. unfold diagnostic_toolbar_action. rewrite (run_bind snapshot _ a evs a) by done. cbv zeta.
  destruct (recorder_run (begin_app_operation DiagnosticSource.Diagnostic) a (total_begin _)) as ([] & a1 & E1 & (K1 & _) & U1 & _ & S1).
  rewrite (run_bind (app_begin_operation _) _ a tt a1) by exact E1.
  assert (chosen_in a = chosen_rows (diagnostic_ui a1) (typed_range a1) evs) as Hch
    by (unfold chosen_in, typed_range; by rewrite U1, S1).
  assert (typed_range a1 = typed_range a) as Ht by (unfold typed_range; by rewrite U1, S1).
  destruct (transfer_run evs a1) as (a2 & E2 & K2 & Hn). cbv zeta in E2, Hn. rewrite (run_bind _ _ _ _ _ E2).
  rewrite <- Hch in *. rewrite Ht in Hn. destruct (chosen_in a) as [[[src rows] range]|] eqn:Hc.
  - erewrite run_bind by reflexivity. set (cap := Z.of_nat (maximum_events _)).
    destruct (does_record (lit "diagnostic.transfer.selection") (words_of evs cap (src, rows, range) ++ lit " result=selected")
      ltac:(unfold words_of; auto with plain) a2) as ([] & a3 & E3 & K3 & _).
    exists (words_of evs cap (src, rows, range)), (all_words evs cap), a3.
    split; [unfold words_of; auto with plain|]. split; [unfold all_words; auto 12 with plain|].
    split; [trans a1; [done|]; by trans a2|]. by rewrite (run_bind _ _ _ _ _ E3).
  - destruct (Hn eq_refl) as [Hr Ho]. exists a2. split; [done|]. split; [by trans a1|done].
Qed.

Definition copied_message (rows : list (list str)) : str := lit "Copied " ++ show_u (Z.of_nat (length rows)) ++ lit " rows as TSV.".
Definition copy_failed_message (code : Z) : str := lit "Copy failed (native error " ++ show_u code ++ lit ").".

Lemma copies_inv text a b : copies text a b → (refresh_inv a → refresh_inv b) ∧ spares a b ∧
  dialogs (screen b) = dialogs (screen a) ∧ files_of (recorder b) = files_of (recorder a).
Proof. intros (U & R & P & D & S & _). unfold refresh_inv. by rewrite U, P, R. Qed.

Lemma copy_transfer_run rows words a : plain words →
  ∃ b, copy_transfer rows words a = (Ok tt, b) ∧ (refresh_inv a → refresh_inv b) ∧
    dialogs (screen b) = dialogs (screen a) ∧ files_of (recorder b) = files_of (recorder a) ∧ operation (recorder b) = None ∧
    (diagnostic_message_text (diagnostic_ui b) = copied_message rows ∧ clipboard (screen b) = Some (format_tsv rows) ∨
     (∃ code, diagnostic_message_text (diagnostic_ui b) = copy_failed_message code) ∧
     clipboard_step (format_tsv rows) (clipboard (screen a)) (clipboard (screen b)) ∧ calls (screen a) ≠ []).
Proof.
  intros Hw. unfold copy_transfer.
  destruct (does_record (lit "diagnostic.copy.request") (words ++ lit " result=requested") ltac:(auto with plain) a)
    as ([] & a1 & E1 & (I1 & O1 & S1) & _). rewrite (run_bind _ _ _ _ _ E1).
  destruct (does_copy (format_tsv rows) a1) as (r & a2 & E2 & C2). rewrite (run_bind _ _ _ _ _ E2).
  destruct (copies_inv _ _ _ C2) as (I2 & S2 & D2 & F2). destruct C2 as (_ & _ & _ & _ & _ & St).
  injection O1 as Oc Od Of. destruct r as [[]|e].
  - apply copy_ok in E2. destruct (success_run (copied_message rows) (lit "diagnostic.copy.result") (lit "result=success " ++ words) a2)
      as (b & E & (I3 & O3 & S3) & M & Ho); [auto with plain|]. injection O3 as Oc3 Od3 Of3.
    exists b. split; [exact E|]. split; [auto|]. split; [congruence|]. split; [unfold files_of in *; congruence|]. split; [done|].
    left. split; [done|congruence].
  - pose proof (copy_plain _ _ _ _ E2) as Hpe.
    destruct (does_record_outcome (lit "native.clipboard.error")
      (lit "stage=" ++ failure_stage e ++ lit " " ++ words ++ lit " result=failed raw_status=" ++ show_u (raw_error e))
      DiagnosticOutcome.Failed ltac:(auto 10 with plain) a2) as ([] & a3 & E3 & (I3 & O3 & S3) & _).
    rewrite (run_bind _ _ _ _ _ E3).
    destruct (report_run (copy_failed_message (raw_error e)) (lit "diagnostic.copy.result")
      (lit "result=failed " ++ words ++ lit " raw_status=" ++ show_u (raw_error e)) DiagnosticOutcome.Failed a3)
      as (b & E & (I4 & O4 & S4) & M & Ho); [auto with plain|].
    injection O3 as Oc3 Od3 Of3. injection O4 as Oc4 Od4 Of4.
    exists b. split; [exact E|]. split; [auto|]. split; [congruence|]. split; [unfold files_of in *; congruence|]. split; [done|].
    right. split; [eauto|]. split; [by rewrite Oc4, Oc3, <- Oc|]. intros Hc. destruct (copy_sure (format_tsv rows) a1) as (x & Ex); [auto|congruence].
Qed.

(** C28: the Copy button.  From every state, whatever calls fail, the handler
    returns, touches no file and no dialog and closes its operation.  Without rows to
    transfer, which are those selected in the grid that are still retained or else the
    typed range, the clipboard stays and the user is told why.  Otherwise either the
    clipboard holds exactly these rows and the user is told their number, or the
    copy is reported as failed, which happens only when a call fails. *)
Theorem toolbar_copy_exact a :
  ∃ b, diagnostic_toolbar_action (lit "copy") a = (Ok tt, b) ∧ (refresh_inv a → refresh_inv b) ∧
    dialogs (screen b) = dialogs (screen a) ∧ files_of (recorder b) = files_of (recorder a) ∧ operation (recorder b) = None ∧
    match chosen_in a with
    | None => clipboard (screen b) = clipboard (screen a) ∧
        refusal (typed_range a) (events (diagnostics (recorder a))) (diagnostic_message_text (diagnostic_ui b))
    | Some t =>
        diagnostic_message_text (diagnostic_ui b) = copied_message t.1.2 ∧ clipboard (screen b) = Some (format_tsv t.1.2) ∨
        (∃ code, diagnostic_message_text (diagnostic_ui b) = copy_failed_message code) ∧
        clipboard_step (format_tsv t.1.2) (clipboard (screen a)) (clipboard (screen b)) ∧ calls (screen a) ≠ []
    end.
Proof.
  pose proof (toolbar_run (lit "copy") a) as H'. cbv zeta in H'. destruct (chosen_in a) as [t|].
  - destruct H' as (words & everything & a' & Hw & _ & (I & O & S) & ->). unfold toolbar_branch.
    destruct (copy_transfer_run t.1.2 words a' Hw) as (b & E & I2 & D & F & Ho & Hm).
    injection O as Oc Od Of. exists b. split; [exact E|]. split; [auto|]. split; [congruence|]. split; [unfold files_of in *; congruence|].
    split; [done|]. destruct Hm as [Hm|(Hm & St & Hc)]; [by left|right]. split; [done|]. rewrite <- Oc. split; [done|]. intros Hn. by apply Hc, S.
  - destruct H' as (b & E & (I & O & S) & Hr & Ho). injection O as Oc Od Of. exists b. by split_and!.
Qed.

(** ** Exporting *)

Lemma files_run {T} (m : FS T) a : ∃ b, on_files m a = (Ok (m (files_of (recorder a))).1, b) ∧
  files_of (recorder b) = (m (files_of (recorder a))).2 ∧ diagnostic_ui b = diagnostic_ui a ∧ screen b = screen a.
Proof. unfold on_files, files_of. destruct (m (log_fs (logger (recorder a)))) as [r f]. by eexists. Qed.

Lemma temporary_path_ne p : p ≠ [] → temporary_path p ≠ p.
Proof.
  unfold temporary_path. intros Hp. destruct (reverse p) as [|n dir] eqn:E.
  { by apply (f_equal reverse) in E; rewrite reverse_involutive in E. }
  intros Ht. assert (p = reverse dir ++ [n]) as Hpn by (rewrite <- (reverse_involutive p), E; apply reverse_cons).
  rewrite Hpn in Ht. apply app_inj_2 in Ht as [_ Ht]; [|done]. injection Ht as Ht.
  apply (f_equal length) in Ht. rewrite length_app in Ht. change (length (lit ".tmp")) with 4%nat in Ht. lia.
Qed.

Lemma write_run p text a : p ≠ [] →
  ∃ r b, write_export_tsv p text a = (Ok r, b) ∧ diagnostic_ui b = diagnostic_ui a ∧ screen b = screen a ∧
    same_but [p; temporary_path p] (files_of (recorder a)) (files_of (recorder b)) ∧
    match r with
    | Ok _ => content_at (files_of (recorder b)) p = Some (utf8_encode text)
    | Err e => nodes (files_of (recorder b)) !! p = nodes (files_of (recorder a)) !! p ∧ plain (failure_stage e)
    end.
Proof.
  intros Hp. apply temporary_path_ne in Hp. unfold write_export_tsv. cbv zeta. set (tmp := temporary_path p) in *.
  set (s := files_of (recorder a)). assert (touches [p; tmp] (fs_write tmp (utf8_encode text))) as Tw
    by (unfold fs_write; touches_tac). assert (touches [p; tmp] (fs_remove_file tmp)) as Tr by touches_tac.
  assert (touches [p; tmp] (fs_replace tmp p)) as Tm by touches_tac.
  destruct (files_run (fs_write tmp (utf8_encode text)) a) as (a1 & E1 & F1 & U1 & S1). fold s in E1, F1. rewrite (run_bind _ _ _ _ _ E1).
  pose proof (Tw s) as W1. pose proof (leaves_write p tmp (utf8_encode text) (not_eq_sym Hp) s) as L1. rewrite <- F1 in W1, L1.
  destruct (fs_write tmp (utf8_encode text) s) as [[[]|e] s1] eqn:Ew; cbn [fst snd] in *.
  - apply write_ok in Ew. destruct (files_run (fs_replace tmp p) a1) as (a2 & E2 & F2 & U2 & S2). rewrite (run_bind _ _ _ _ _ E2).
    pose proof (Tm (files_of (recorder a1))) as W2. rewrite <- F2 in W2. rewrite F1 in *.
    destruct (fs_replace tmp p s1) as [[[]|e] s2] eqn:Er; cbn [fst snd] in *.
    + exists (Ok tt), a2. split; [done|]. split_and!; [congruence|congruence|by eapply same_but_trans|].
      rewrite F2. unfold content_at in Ew. destruct (nodes s1 !! tmp) as [[c|]|] eqn:Et; try done. injection Ew as ->.
      unfold content_at. rewrite (replace_ok _ _ _ _ _ Et Er). by rewrite lookup_insert_eq.
    + destruct (files_run (fs_remove_file tmp) a2) as (a3 & E3 & F3 & U3 & S3). rewrite (run_bind _ _ _ _ _ E3).
      eexists (Err _), a3. split; [done|].
      pose proof (Tr (files_of (recorder a2))) as W3. pose proof (leaves_remove p tmp (not_eq_sym Hp) (files_of (recorder a2))) as L3.
      rewrite <- F3 in W3, L3. split_and!; [congruence|congruence|by eapply same_but_trans, same_but_trans| |cbn; auto with plain].
      rewrite L3, F2, (replace_err _ _ _ _ _ Er). exact L1.
  - destruct (files_run (fs_remove_file tmp) a1) as (a2 & E2 & F2 & U2 & S2). rewrite (run_bind _ _ _ _ _ E2).
    eexists (Err _), a2. split; [done|].
    pose proof (Tr (files_of (recorder a1))) as W2. pose proof (leaves_remove p tmp (not_eq_sym Hp) (files_of (recorder a1))) as L2.
    rewrite <- F2 in W2, L2. split_and!; [congruence|congruence|by eapply same_but_trans|by rewrite L2, L1|cbn; auto with plain].
Qed.

(** Nothing is in the way of writing the file at [p]. *)
Definition writable (s : Fs) (p : path) : Prop :=
  p ≠ [] ∧ faults s = [] ∧ is_dir s (path_parent p) = true ∧ nodes s !! p ≠ Some Dir ∧ nodes s !! temporary_path p ≠ Some Dir.

Lemma create_sure p s : faults s = [] → is_dir s (path_parent p) = true → nodes s !! p ≠ Some Dir →
  fs_create p s = (Ok tt, set_nodes <[p := File []]> s).
Proof.
  intros Hf Hd Hn. unfold fs_create. rewrite (FileFrames.bind_run _ _ _ tt s) by (unfold guard_call, next_fault, mbind, comp_bind; by rewrite Hf).
  rewrite (FileFrames.bind_run _ _ _ s s) by done. destruct (nodes s !! p) as [[|]|]; [|done|]; by rewrite Hd.
Qed.
Lemma write_all_sure p bs s : faults s = [] → fs_write_all p bs s = (Ok tt, set_nodes (append_at p bs) s).
Proof. intros Hf. unfold fs_write_all. by rewrite (FileFrames.bind_run _ _ _ None s) by (unfold next_fault; by rewrite Hf). Qed.
Lemma replace_sure p q s bs : faults s = [] → nodes s !! p = Some (File bs) → is_dir s (path_parent q) = true →
  nodes s !! q ≠ Some Dir → is_ok (fs_replace p q s).1 = true.
Proof.
  intros Hf Hp Hd Hn. unfold fs_replace. rewrite (FileFrames.bind_run _ _ _ tt s) by (unfold guard_call, next_fault, mbind, comp_bind; by rewrite Hf).
  rewrite (FileFrames.bind_run _ _ _ s s) by done. rewrite Hp. destruct (nodes s !! q) as [[|]|]; [|done|]; by rewrite Hd.
Qed.

Lemma write_sure p text a : writable (files_of (recorder a)) p → ∃ b, write_export_tsv p text a = (Ok (Ok tt), b).
Proof.
  intros (Hp & Hf & Hd & Hn & Ht). pose proof (temporary_path_ne p Hp) as Hne. unfold write_export_tsv. cbv zeta.
  assert (∃ dir n, p = dir ++ [n] ∧ temporary_path p = dir ++ [n ++ lit ".tmp"]) as (dir & n & Hpn & Htn).
  { unfold temporary_path. destruct (reverse p) as [|n dir] eqn:E; [by apply (f_equal reverse) in E; rewrite reverse_involutive in E|].
    exists (reverse dir), n. split; [|done]. rewrite <- (reverse_involutive p), E. apply reverse_cons. }
  set (s := files_of (recorder a)) in *. set (tmp := temporary_path p) in *.
  assert (path_parent tmp = path_parent p) as Hpar.
  { rewrite Htn, Hpn. change (dir ++ [?x]) with (path_join dir x). by rewrite !path_parent_join. }
  destruct (files_run (fs_write tmp (utf8_encode text)) a) as (a1 & E1 & F1 & _). fold s in E1, F1. rewrite (run_bind _ _ _ _ _ E1).
  unfold fs_write in *. rewrite (FileFrames.bind_run _ _ _ _ _ (create_sure tmp s Hf ltac:(by rewrite Hpar) Ht)) in F1 |- *.
  rewrite write_all_sure in F1 |- * by done. cbn [fst snd] in F1 |- *.
  destruct (files_run (fs_replace tmp p) a1) as (a2 & E2 & F2 & _). rewrite (run_bind _ _ _ _ _ E2). rewrite F1 in *.
  match goal with |- context [fs_replace tmp p ?x] => set (s1 := x) in * end.
  assert (nodes s1 !! tmp = Some (File (utf8_encode text))) as H1'.
  { subst s1. unfold set_nodes, append_at. cbn. rewrite lookup_insert_eq. by rewrite lookup_insert_eq. }
  assert (∀ q, q ≠ tmp → nodes s1 !! q = nodes s !! q) as Hq.
  { intros q Hq. subst s1. unfold set_nodes, append_at. cbn. rewrite lookup_insert_eq. by rewrite !lookup_insert_ne by done. }
  assert (is_ok (fs_replace tmp p s1).1 = true) as Hok.
  { eapply replace_sure; [done|exact H1'| |by rewrite Hq by congruence]. revert Hd. unfold is_dir.
    destruct (path_parent p) as [[|x l]|] eqn:Epar; [done| |done]. rewrite Hq; [done|]. intros Hx. rewrite Hx, Htn in Hpar.
    change (dir ++ [?x]) with (path_join dir x) in Hpar. rewrite path_parent_join in Hpar.
    injection Hpar as Hpar. apply (f_equal length) in Hpar. unfold path_join in Hpar. rewrite length_app in Hpar. cbn in Hpar. lia. }
  destruct (fs_replace tmp p s1) as [[[]|] s2]; [|done]. by exists a2.
Qed.

(** What the user answers to the save dialog. *)
Definition chosen_path a : result NativeFailure (option path) :=
  match dialogs (screen a) with
  | [] => Ok None
  | (res, extended, file) :: _ =>
      match map_save_dialog_result res (if res =? 0 then extended else 0) with
      | DiagnosticNativeAction.Completed => Ok (Some (path_parse file))
      | DiagnosticNativeAction.Cancelled => Ok None
      | DiagnosticNativeAction.Failed raw => Err (mkFailure (lit "GetSaveFileNameW") raw)
      end
  end.
Definition cancelled_message : str := lit "Export cancelled.".
Definition dialog_failed_message (code : Z) : str := lit "Export dialog failed (native error " ++ show_u code ++ lit ").".
Definition export_failed_message (code : Z) : str := lit "Export failed (native error " ++ show_u code ++ lit ").".

(** How an export of rows ends. *)
Definition exported (all : bool) (rows : list (list str)) (answer : result NativeFailure (option path)) (before : Fs)
    (b : App) : Prop :=
  let message := diagnostic_message_text (diagnostic_ui b) in
  let after := files_of (recorder b) in
  match answer with
  | Ok None => message = cancelled_message ∧ after = before
  | Err e => message = dialog_failed_message (raw_error e) ∧ after = before
  | Ok (Some p) =>
      let f := export_format_for_path p in
      p ≠ [] → same_but [p; temporary_path p] before after ∧
      (message = exported_message all rows f ∧ content_at after p = Some (utf8_encode (format_export_rows rows f)) ∨
       (∃ code, message = export_failed_message code) ∧ nodes after !! p = nodes before !! p ∧ ¬ writable before p)
  end.

Lemma choose_run a : ∃ b, choose_export_path a = (Ok (chosen_path a), b) ∧ diagnostic_ui b = diagnostic_ui a ∧
  recorder b = recorder a ∧ posted (screen b) = posted (screen a) ∧ clipboard (screen b) = clipboard (screen a).
Proof.
  unfold choose_export_path, chosen_path. destruct (dialogs (screen a)) as [|[[res extended] file] rest]; [by exists a|].
  by eexists.
Qed.

(** Only files change. *)
Definition filed a b : Prop := diagnostic_ui b = diagnostic_ui a ∧ screen b = screen a.
#[local] Instance filed_preorder : PreOrder filed.
Proof. split; [by intros a|]. intros a b c [U1 S1] [U2 S2]. split; congruence. Qed.
Lemma does_files {T} (m : FS T) : does filed (on_files m).
Proof. intros a. destruct (files_run m a) as (b & E & _ & U & S). by exists (m (files_of (recorder a))).1, b. Qed.
Lemma does_write p text : does filed (write_export_tsv p text).
Proof.
  apply does_bind; [apply _|apply does_files|]. intros [[]|e].
  - apply does_bind; [apply _|apply does_files|]. intros [[]|e]; [by apply does_ret, _|].
    apply does_bind; [apply _|apply does_files|intros _]. by apply does_ret, _.
  - apply does_bind; [apply _|apply does_files|intros _]. by apply does_ret, _.
Qed.
Lemma write_plain p text : fails_plain (write_export_tsv p text).
Proof.
  apply plain_then. intros [[]|e].
  - apply plain_then. intros [[]|e]; [by apply plain_give|]. apply plain_then. intros _. apply plain_give. intros ? [= <-]. cbn. auto with plain.
  - apply plain_then. intros _. apply plain_give. intros ? [= <-]. cbn. auto with plain.
Qed.

(** A failed branch: a record of the call, then the report. *)
Lemma failed_run nm1 dt1 m nm dt a : plain dt1 → plain dt →
  ∃ b, (_ ← app_record_with_outcome nm1 dt1 DiagnosticOutcome.Failed; report_transfer m nm dt DiagnosticOutcome.Failed) a
       = (Ok tt, b) ∧ kept a b ∧ diagnostic_message_text (diagnostic_ui b) = m ∧ operation (recorder b) = None.
Proof.
  intros H1' H2'. destruct (does_record_outcome nm1 dt1 DiagnosticOutcome.Failed H1' a) as ([] & a1 & E1 & K1 & _).
  rewrite (run_bind _ _ _ _ _ E1). destruct (report_run m nm dt DiagnosticOutcome.Failed a1 H2') as (b & E & K & M & Ho).
  exists b. split; [exact E|]. split; [by trans a1|done].
Qed.

Lemma plain_mode all : plain (mode_word all).
Proof. destruct all; by apply plain_text_check. Qed.
#[local] Hint Resolve plain_mode : plain.

Lemma report_export_run all rows words f r a : plain words → (∀ e, r = Err e → plain (failure_stage e)) →
  ∃ b, report_export all rows words f r a = (Ok tt, b) ∧ kept a b ∧ operation (recorder b) = None ∧
    diagnostic_message_text (diagnostic_ui b) =
      match r with Ok _ => exported_message all rows f | Err e => export_failed_message (raw_error e) end.
Proof.
  intros Hw Hp. destruct r as [[]|e].
  - destruct (success_run (exported_message all rows f) (lit "diagnostic.export.result")
      (lit "result=success " ++ words ++ lit " path=redacted" ++ mode_word all) a) as (b & E & K & M & Ho); [auto with plain|]. eauto 10.
  - specialize (Hp e eq_refl). destruct (failed_run (lit "native.export.file.error")
      (lit "stage=" ++ failure_stage e ++ lit " " ++ words ++ lit " result=failed raw_status=" ++ show_u (raw_error e))
      (export_failed_message (raw_error e)) (lit "diagnostic.export.result")
      (lit "result=failed " ++ words ++ lit " path=redacted raw_status=" ++ show_u (raw_error e)) a) as (b & E & K & M & Ho);
      [auto 10 with plain|auto with plain|]. eauto 10.
Qed.

Lemma written_run all rows words p a : plain words →
  ∃ b, (write_result ← write_export_tsv p (format_export_rows rows (export_format_for_path p));
        report_export all rows words (export_format_for_path p) write_result) a = (Ok tt, b) ∧
    (refresh_inv a → refresh_inv b) ∧ clipboard (screen b) = clipboard (screen a) ∧
    operation (recorder b) = None ∧ exported all rows (Ok (Some p)) (files_of (recorder a)) b.
Proof.
  intros Hw. set (text := format_export_rows _ _). destruct (does_write p text a) as (r & a1 & E1 & U1 & S1).
  rewrite (run_bind _ _ _ _ _ E1). assert (refresh_inv a → refresh_inv a1) as I1 by (unfold refresh_inv; by rewrite U1, S1).
  destruct (report_export_run all rows words (export_format_for_path p) r a1 Hw) as (b & E & (I & O & _) & Ho & M).
  { intros e ->. exact (write_plain _ _ _ _ _ E1). }
  injection O as Oc _ Of. exists b. split; [exact E|]. split; [auto|]. split; [by rewrite Oc, S1|]. split; [done|].
  unfold exported. cbv zeta. intros Hp. destruct (write_run p text a Hp) as (r' & b' & E' & _ & _ & Sb & R).
  rewrite E1 in E'. injection E' as <- <-. rewrite M. unfold files_of in *. rewrite Of. split; [done|].
  destruct r as [[]|e]; [by left|right]. split; [eauto|]. split; [by destruct R|].
  intros Hwr. destruct (write_sure p text a Hwr) as (b2 & E2). congruence.
Qed.

Lemma export_transfer_run all rows words a : plain words →
  ∃ b, export_transfer all rows words a = (Ok tt, b) ∧ (refresh_inv a → refresh_inv b) ∧
    clipboard (screen b) = clipboard (screen a) ∧ operation (recorder b) = None ∧
    exported all rows (chosen_path a) (files_of (recorder a)) b.
Proof.
  intros Hw. unfold export_transfer.
  destruct (does_record (lit "diagnostic.export.request") (words ++ lit " result=requested" ++ mode_word all) ltac:(auto with plain) a)
    as ([] & a1 & E1 & (I1 & O1 & _) & _). rewrite (run_bind _ _ _ _ _ E1). injection O1 as Oc Od Of.
  assert (chosen_path a1 = chosen_path a) as Hch by (unfold chosen_path; by rewrite Od).
  destruct (choose_run a1) as (a2 & E2 & U2 & R2 & P2 & C2). rewrite (run_bind _ _ _ _ _ E2).
  assert (refresh_inv a1 → refresh_inv a2) as I2 by (unfold refresh_inv; by rewrite U2, P2). rewrite Hch.
  assert (files_of (recorder a2) = files_of (recorder a)) as Hfa by (unfold files_of in *; congruence).
  destruct (chosen_path a) as [[p|]|e].
  - destruct (written_run all rows words p a2 Hw) as (b & E & I & C & Ho & Hx). exists b.
    split; [exact E|]. split; [auto|]. split; [congruence|]. split; [done|]. by rewrite <- Hfa.
  - destruct (message_run cancelled_message a2) as (a3 & E3 & K3 & M3). rewrite (run_bind _ _ _ _ _ E3).
    destruct (does_record_outcome (lit "diagnostic.export.cancelled") (lit "result=cancelled " ++ words)
      DiagnosticOutcome.Cancelled ltac:(auto with plain) a3) as ([] & a4 & E4 & K4 & M4). rewrite (run_bind _ _ _ _ _ E4).
    destruct (does_record_outcome (lit "diagnostic.export.result") (lit "result=cancelled " ++ words)
      DiagnosticOutcome.Cancelled ltac:(auto with plain) a4) as ([] & a5 & E5 & K5 & M5). rewrite (run_bind _ _ _ _ _ E5).
    destruct (end_operation DiagnosticOutcome.Cancelled a5) as (b & E & (K6 & M6) & Ho).
    assert (kept a2 b) as (I & O & _) by (trans a3; [done|]; trans a4; [done|]; by trans a5). injection O as Oc6 _ Of6.
    exists b. split; [exact E|]. split; [auto|]. split; [congruence|]. split; [done|]. split; [congruence|unfold files_of in *; congruence].
  - destruct (failed_run (lit "native.GetSaveFileNameW.error") (words ++ lit " result=failed raw_status=" ++ show_u (raw_error e))
      (dialog_failed_message (raw_error e)) (lit "diagnostic.export.result")
      (lit "result=failed " ++ words ++ lit " raw_status=" ++ show_u (raw_error e)) a2) as (b & E & (I & O & _) & M & Ho);
      [auto with plain..|]. injection O as Oc6 _ Of6.
    exists b. split; [exact E|]. split; [auto|]. split; [congruence|]. split; [done|]. split; [done|unfold files_of in *; congruence].
Qed.

(** C27: the Export buttons.  From every state, whatever calls fail, the handlers
    return, leave the clipboard and close their operation.  Without rows to transfer
    no file changes, for Export all too, and the user is told why.  Otherwise the
    user is told that the rows, or all retained rows, were written only when the file
    that was chosen holds exactly their rendering; when the dialog is cancelled or
    fails no file changes; when writing fails the file that stood there before
    still does, and no other path than it and its temporary neighbour is touched. *)
Theorem toolbar_export_exact (all : bool) a : let evs := events (diagnostics (recorder a)) in
  ∃ b, diagnostic_toolbar_action (if all then lit "export_all" else lit "export") a = (Ok tt, b) ∧
    (refresh_inv a → refresh_inv b) ∧ clipboard (screen b) = clipboard (screen a) ∧ operation (recorder b) = None ∧
    match chosen_in a with
    | None => files_of (recorder b) = files_of (recorder a) ∧
        refusal (typed_range a) evs (diagnostic_message_text (diagnostic_ui b))
    | Some t => exported all (if all then diagnostic_grid_rows evs (select_all (Z.of_nat (length evs))) else t.1.2)
        (chosen_path a) (files_of (recorder a)) b
    end.
Proof.
  intros evs. pose proof (toolbar_run (if all then lit "export_all" else lit "export") a) as H'. cbv zeta in H'.
  destruct (chosen_in a) as [t|].
  - destruct H' as (words & everything & a' & Hw & He & (I & O & _) & ->). injection O as Oc Od Of.
    assert (chosen_path a' = chosen_path a) as Hch by (unfold chosen_path; by rewrite Od). fold evs.
    destruct (export_transfer_run all (if all then diagnostic_grid_rows evs (select_all (Z.of_nat (length evs))) else t.1.2)
      (if all then everything else words) a') as (b & E & I2 & C & Ho & Hx); [by destruct all|].
    exists b. split; [by destruct all; unfold toolbar_branch|]. split; [auto|]. split; [congruence|]. split; [done|].
    rewrite <- Hch. unfold files_of in *. by rewrite <- Of.
  - destruct H' as (b & E & (I & O & S) & Hr & Ho). injection O as Oc Od Of. exists b. by split_and!.
Qed.

End Facts.
