(* ===== verification/DiagSettle.v ===== *)
(** * DiagSettle: the messages of the diagnostic window

    Every message of the window returns whatever the toolkit answers, keeps the
    bookkeeping of the pending refresh, and the refreshes it asked for come to an end
    with the list showing the stored events. *)
From coqutil Require Import Datatypes.RecordSetters.
From S2P Require Import Prelude Text Core Policy Privacy Diagnostics Grid Retention Files FileFrames Logging AppRecords DiagLayout DiagWindow DiagRecords DiagFacts.
Import TriangleBracketNotations.

Section Settle.
Context `{Sha256} `{RecordClock} `{ToLowercase} `{UnicodeAlphabetic} `{PathParse} `{ListView} (version : str).
Abbreviation W := (comp App WindowPanic).
Implicit Types a b c : App.
#[local] Existing Instances frame_preorder calm_preorder still_preorder kept_preorder noted_preorder.
#[local] Hint Resolve plain_details plain_retention plain_mode : plain.

(** ** Messages *)

Definition safe a b : Prop := refresh_inv a → refresh_inv b.
#[local] Instance safe_preorder : PreOrder safe.
Proof. split; [by intros a ?|]. intros a b c. unfold safe. auto. Qed.
Lemma safe_kept {T} (m : W T) : does kept m → does safe m.
Proof. apply does_weaken. by intros a b [? _]. Qed.
Lemma safe_noted {T} (m : W T) : does noted m → does safe m.
Proof. intros Hm. apply safe_kept. by eapply does_weaken, Hm; intros ?? [? _]. Qed.
Lemma safe_still {T} (m : W T) : does still m → does safe m.
Proof. intros Hm. apply safe_kept. by eapply does_weaken, Hm; intros ??; apply still_kept. Qed.
Lemma safe_calm {T} (m : W T) : does calm m → does safe m.
Proof. intros Hm. apply safe_kept. by eapply does_weaken, Hm; intros ??; apply calm_kept. Qed.
Lemma safe_bind {T U} (m : W T) (k : T → W U) : does safe m → (∀ x, does safe (k x)) → does safe (m ≫= k).
Proof. by apply does_bind, _. Qed.
Lemma safe_ret {T} (x : T) : does safe (mret x).
Proof. by apply does_ret, _. Qed.
Lemma safe_ui_change (f : DiagnosticUiState → DiagnosticUiState) :
  (∀ u, diagnostic_refresh_pending (f u) = diagnostic_refresh_pending u ∧ diagnostic_refreshing (f u) = diagnostic_refreshing u) →
  does safe (on_ui f).
Proof.
  intros Hf. apply does_modify. intros [rec u o s h]. destruct (Hf u) as [F1 F2]. unfold safe, refresh_inv.
  cbn. intros Hi. split; [rewrite F2|rewrite F1]; apply Hi.
Qed.
Lemma safe_screen (f : Screen → Screen) : (∀ s, posted (f s) = posted s) → does safe (on_screen f).
Proof. intros Hf. apply does_modify. intros a. unfold safe, refresh_inv. cbn. by rewrite Hf. Qed.
Lemma safe_read {T} (m : W T) : (∀ a, ∃ x, m a = (Ok x, a)) → does safe m.
Proof. intros Hm a. destruct (Hm a) as [x E]. by exists x, a. Qed.
Lemma safe_begin s : does safe (app_begin_operation s). Proof. apply safe_noted, does_begin. Qed.
Lemma safe_finish o : does safe (app_finish_operation o). Proof. apply safe_noted, does_finish. Qed.
Lemma safe_record nm dt : plain dt → does safe (app_record nm dt). Proof. intros. by apply safe_noted, does_record. Qed.
Lemma safe_record_outcome nm dt o : plain dt → does safe (app_record_with_outcome nm dt o).
Proof. intros. by apply safe_noted, does_record_outcome. Qed.
Lemma safe_store_record nm dt o : plain dt → does safe (app_store_record nm dt o).
Proof. intros. by apply safe_calm, does_store_record. Qed.
Lemma safe_event nm dt ph o : plain dt → does safe (record_diagnostic_event_with_context nm dt ph o).
Proof. intros. by apply safe_calm, does_event. Qed.
Lemma safe_request : does safe request_diagnostic_refresh. Proof. apply safe_noted, does_request. Qed.
Lemma safe_message m : does safe (set_diagnostic_message m). Proof. apply safe_kept, does_said. Qed.
Lemma safe_clear_message prefix : does safe (clear_message_starting prefix). Proof. apply safe_still, does_clear. Qed.
Lemma safe_summary n : does safe (show_selection_summary n). Proof. apply safe_still, does_summary. Qed.
Lemma safe_enabled e : does safe (set_diagnostic_action_enabled e). Proof. apply safe_still, does_enabled. Qed.
Lemma safe_call : does safe native_call. Proof. apply safe_still, does_native_call. Qed.
Lemma safe_snapshot : does safe snapshot. Proof. by apply safe_read; eexists. Qed.
Lemma safe_maximum : does safe maximum. Proof. by apply safe_read; eexists. Qed.
Lemma safe_edit f : does safe (edit_text f). Proof. by apply safe_read; eexists. Qed.
#[local] Hint Resolve safe_ret safe_begin safe_finish safe_request safe_message safe_clear_message safe_summary safe_enabled
  safe_call safe_snapshot safe_maximum safe_edit : safe.
#[local] Hint Extern 1 (does safe (on_ui _)) => (by apply safe_ui_change) : safe.
#[local] Hint Extern 1 (does safe (on_screen _)) => (by apply safe_screen) : safe.
#[local] Hint Extern 2 (does safe (app_record _ _)) => (apply safe_record; auto 14 with plain) : safe.
#[local] Hint Extern 2 (does safe (app_record_with_outcome _ _ _)) => (apply safe_record_outcome; auto 14 with plain) : safe.
#[local] Hint Extern 2 (does safe (app_store_record _ _ _)) => (apply safe_store_record; auto 14 with plain) : safe.
#[local] Hint Extern 2 (does safe (record_diagnostic_event_with_context _ _ _ _)) => (apply safe_event; auto 14 with plain) : safe.

(** One step of a handler. *)
Ltac safe_step :=
  lazymatch goal with
  | |- does safe (ui ≫= _) => apply does_ui; intros ?
  | |- does safe (get ≫= _) => apply does_get; intros ?
  | |- does safe (_ ≫= _) => apply safe_bind; [|intros ?]
  | |- does safe (match ?x with _ => _ end) => destruct x eqn:?
  | |- does safe (let _ := _ in _) => cbv zeta
  | |- does safe _ => solve [auto with safe]
  end.
Ltac safe_tac := repeat safe_step.

Lemma safe_range_from_input evs input : does safe (refresh_range_from_input evs input).
Proof. unfold refresh_range_from_input. safe_tac. Qed.
#[local] Hint Resolve safe_range_from_input : safe.
Lemma safe_controls evs : does safe (refresh_diagnostic_controls evs false).
Proof. unfold refresh_diagnostic_controls, diagnostic_range_text. cbn [andb]. safe_tac. Qed.
#[local] Hint Resolve safe_controls : safe.

Lemma safe_range_changed : does safe diagnostic_range_changed.
Proof. unfold diagnostic_range_changed, diagnostic_range_text, diagnostic_range_details. safe_tac. Qed.
Lemma safe_display_changed : does safe diagnostic_display_changed.
Proof. unfold diagnostic_display_changed, diagnostic_display_text. safe_tac. Qed.
Lemma safe_show_all : does safe diagnostic_show_all.
Proof. unfold diagnostic_show_all. safe_tac. Qed.
Lemma plain_category_word (c : option EventCategory) : plain (match c with Some k => event_category_as_str k | None => lit "All" end).
Proof. destruct c; auto with plain. Qed.
#[local] Hint Resolve plain_category_word : plain.
Lemma safe_category_changed : does safe diagnostic_category_filter_changed.
Proof. unfold diagnostic_category_filter_changed. safe_tac. Qed.
Lemma safe_search_changed : does safe diagnostic_search_changed.
Proof. unfold diagnostic_search_changed, diagnostic_search_input_text. safe_tac. Qed.
Lemma safe_grid_selection : does safe update_diagnostic_grid_selection.
Proof. unfold update_diagnostic_grid_selection. safe_tac. Qed.
#[local] Hint Resolve safe_range_changed safe_display_changed safe_show_all safe_category_changed safe_search_changed
  safe_grid_selection : safe.
Lemma safe_select_all : does safe select_all_diagnostic_rows.
Proof. unfold select_all_diagnostic_rows. safe_tac. Qed.
Lemma safe_copy : does safe (diagnostic_toolbar_action (lit "copy")).
Proof.
  intros a. pose proof (toolbar_run (lit "copy") a) as H'. cbv zeta in H'. destruct (chosen_in a) as [t|].
  - destruct H' as (words & everything & a' & Hw & _ & (I & _) & ->).
    destruct (copy_transfer_run t.1.2 words a' Hw) as (b & E & I2 & _). exists tt, b. split; [exact E|]. unfold safe. auto.
  - destruct H' as (b & E & (I & _) & _). eauto.
Qed.
Lemma safe_export (all : bool) : does safe (diagnostic_toolbar_action (if all then lit "export_all" else lit "export")).
Proof.
  intros a. pose proof (toolbar_run (if all then lit "export_all" else lit "export") a) as H'. cbv zeta in H'. destruct (chosen_in a) as [t|].
  - destruct H' as (words & everything & a' & Hw & He & (I & _) & ->).
    destruct (export_transfer_run all (if all then diagnostic_grid_rows (events (diagnostics (recorder a)))
      (select_all (Z.of_nat (length (events (diagnostics (recorder a)))))) else t.1.2) (if all then everything else words) a')
      as (b & E & I2 & _); [by destruct all|]. exists tt, b. split; [by destruct all|]. unfold safe. auto.
  - destruct H' as (b & E & (I & _) & _). eauto.
Qed.
#[local] Hint Resolve safe_select_all safe_copy : safe.
#[local] Hint Extern 1 (does safe (diagnostic_toolbar_action (lit "export"))) => exact (safe_export false) : safe.
#[local] Hint Extern 1 (does safe (diagnostic_toolbar_action (lit "export_all"))) => exact (safe_export true) : safe.

Lemma safe_command command n : does safe (wm_command command n).
Proof. unfold wm_command. safe_tac. Qed.
Lemma safe_notify n : does safe (handle_diagnostic_notify n).
Proof. unfold handle_diagnostic_notify. safe_tac. Qed.
Lemma safe_destroy : does safe DestroyWindow.
Proof.
  intros a. unfold DestroyWindow. destruct (call_ok a) as (r & b & E & _). rewrite (run_bind _ _ _ _ _ E).
  assert (safe a b) as Hab by (destruct (safe_call a) as (r1 & b1 & E1 & S1); rewrite E in E1; by injection E1 as _ <-).
  destruct r as [e|]; eexists _, _; (split; [reflexivity|]); [exact Hab|]. intros _. split; [done|]. by left.
Qed.
Lemma plain_failure stage index raw : plain (lit stage) → plain (lit "stage=" ++ lit stage ++ lit " control_index=" ++
  match index with Some i => show_u i | None => lit "none" end ++ lit " raw_status=" ++ show_u raw).
Proof. intros. destruct index; auto 10 with plain. Qed.
Lemma safe_apply_layout index rects : does safe (apply_diagnostic_layout index rects).
Proof.
  revert index. induction rects as [|rect rects IH]; intros index; cbn [apply_diagnostic_layout]; [apply safe_ret|].
  unfold record_diagnostic_layout_failure.
  safe_tac; solve [apply safe_event, plain_failure; auto with plain | apply IH].
Qed.
Lemma safe_fit w d : does safe (fit_diagnostic_details_to_viewport w d).
Proof. by apply safe_screen. Qed.
Lemma safe_layout : does safe layout_diagnostic_controls.
Proof.
  unfold layout_diagnostic_controls, record_diagnostic_layout_failure, if_controls. pose proof safe_apply_layout. pose proof safe_fit.
  safe_tac.
Qed.
#[local] Hint Resolve safe_command safe_notify safe_destroy safe_layout : safe.

Lemma safe_proc m : m ≠ WmDiagnosticRefresh → m ≠ WmNcDestroy → does safe (diagnostic_window_proc version m).
Proof.
  intros Hm Hd. destruct m; try done; cbn [diagnostic_window_proc]; safe_tac.
Qed.

(** ** Runs of the window *)

(** What happens to the window: a message, a refresh taken from the queue, a change
    the user makes in a control, the answers the system will give, and what the rest of
    the program does with the store and the files. *)
Inductive Event :=
| Received (m : Message)
| Pumped
| DisplayTyped (text : str)
| SearchTyped (text : str)
| RangeTyped (text : str)
| CategoryChosen (index : Z)
| RowsSelected (items : gset Z)
| Answering (answers : list (option Z)) (files : list (Z * Z * str))
| Elsewhere (r : Recorder).

(** [WM_NCDESTROY] is a part of [DestroyWindow]; the queue gives the refreshes. *)
Definition ordinary (e : Event) : bool :=
  match e with Received WmDiagnosticRefresh | Received WmNcDestroy => false | _ => true end.

Definition happen (e : Event) : W unit :=
  match e with
  | Received m => diagnostic_window_proc version m
  | Pumped => pump version
  | DisplayTyped text => on_screen (λ s, s <| display_input := text |>)
  | SearchTyped text => on_screen (λ s, s <| search_input := text |>)
  | RangeTyped text => on_screen (λ s, s <| range_input := text |>)
  | CategoryChosen index => on_screen (λ s, s <| category_filter := index |>)
  | RowsSelected items => on_screen (λ s, s <| list_selected := items |>)
  | Answering answers files => on_screen (λ s, (s <| calls := answers |>) <| dialogs := files |>)
  | Elsewhere r => modify (λ a : App, a <| recorder := r |>)
  end.
Fixpoint happens (es : list Event) : W unit :=
  match es with [] => mret tt | e :: es => _ ← happen e; happens es end.
Fixpoint drain (n : nat) : W unit :=
  match n with O => mret tt | S n => _ ← pump version; drain n end.

Lemma idle_pump a : posted (screen a) = 0%nat → pump version a = (Ok tt, a).
Proof. intros Hp. unfold pump. erewrite run_bind by reflexivity. by rewrite Hp. Qed.

Lemma safe_pump a : refresh_inv a → ∃ b, pump version a = (Ok tt, b) ∧ refresh_inv b.
Proof.
  intros Hi. destruct (Nat.eq_dec (posted (screen a)) 0) as [Hp|Hp]; [exists a; split; [by apply idle_pump|done]|].
  destruct (pump_run version a Hi Hp) as (b & E & I & _). eauto.
Qed.

Lemma safe_happen e a : ordinary e = true → refresh_inv a → ∃ b, happen e a = (Ok tt, b) ∧ refresh_inv b.
Proof.
  intros Ho Hi. destruct e as [m| | | | | | | |r]; cbn [happen].
  2: by apply safe_pump.
  2-7: eexists; split; [reflexivity|exact Hi].
  - destruct (safe_proc m) with (a := a) as ([] & b & E & S); [by destruct m..|]. eauto.
  - eexists. split; [reflexivity|exact Hi].
Qed.

Lemma safe_happens es a : forallb ordinary es = true → refresh_inv a → ∃ b, happens es a = (Ok tt, b) ∧ refresh_inv b.
Proof.
  revert a. induction es as [|e es IH]; intros a Ho Hi; cbn [happens].
  - eexists. by split; [reflexivity|].
  - apply andb_true_iff in Ho as [He Hes]. destruct (safe_happen e a He Hi) as (b & E & Ib).
    destruct (IH b Hes Ib) as (c & Ec & Ic). exists c. by rewrite (run_bind _ _ _ _ _ E).
Qed.

Lemma drain_idle n a : posted (screen a) = 0%nat → drain n a = (Ok tt, a).
Proof. intros Hp. induction n as [|n IH]; [done|]. cbn [drain]. by rewrite (run_bind _ _ _ _ _ (idle_pump a Hp)). Qed.

Lemma drain_run n a : refresh_inv a → (refreshes_left a ≤ n)%nat →
  ∃ b, drain n a = (Ok tt, b) ∧ refresh_inv b ∧ posted (screen b) = 0%nat ∧ outside b = outside a ∧
    filters_of (diagnostic_ui b) = filters_of (diagnostic_ui a) ∧
    (posted (screen a) ≠ 0%nat → live a → live b ∧ shows_store b).
Proof.
  revert a. induction n as [|n IH]; intros a Hi Hn; destruct (Nat.eq_dec (posted (screen a)) 0) as [Hp|Hp].
  1, 3: by exists a; split_and!; [apply drain_idle|..].
  - exfalso. revert Hn. unfold refreshes_left. clear - Hp. repeat case_match; lia.
  - destruct (pump_run version a Hi Hp) as (b & E & Ib & O & L & F & Hlive). destruct (IH b Ib) as (c & Ec & Ic & Pc & Oc & Fc & Hc); [lia|].
    exists c. cbn [drain]. rewrite (run_bind _ _ _ _ _ E). split_and!; [done..|congruence|congruence|].
    intros _ La. destruct (Hlive La) as [Lb Hb]. destruct (Nat.eq_dec (posted (screen b)) 0) as [Hz|Hz]; [|by apply Hc].
    rewrite (drain_idle n b Hz) in Ec. injection Ec as <-. auto.
Qed.

End Settle.

(** ** A concrete window *)

#[local] Instance window_sha : Sha256 := λ _, replicate 32 0.
#[local] Instance window_clock : RecordClock := λ n, mkMoment None (1700000000 + n) 7 (n * 1000000).
#[local] Instance window_lowercase : ToLowercase := lowercase.
#[local] Instance window_alphabetic : UnicodeAlphabetic := λ _, false.
#[local] Instance window_parse : PathParse := λ s, [s].
#[local] Instance window_list : ListView := {|
  keep_selected := λ count s, filter (λ i, i < count) s;
  ensure_visible := λ _ top _, top;
  measure_column := λ _ _, (40, 40) |}.

Definition window_screen : Screen :=
  mkScreen 0 [] [] None [] [] [] 0 [] [] [] [] true true 0 ∅ 0 10 [] (1200, 700) 1180 96.
Definition window_start : App :=
  mkApp (mkRecorder (mkLogger (mkFs ∅ []) (store_new 16) 0 None) None DiagnosticSource.Diagnostic None)
    ui_new [] window_screen (mkHud [] PowerState.Ac false [] []).
Definition after {T} (m : comp App WindowPanic T) (a : App) : App := (m a).2.
Definition opened_window : App := after (drain (lit "1.0") 4) (after (open_diagnostic_window (lit "1.0")) window_start).


(** The search shows itself: its record matches, is listed, and nothing is left to do. *)
Example search_shown :
  let es := [SearchTyped (lit "QUERY_"); Received (WmCommand ID_DIAGNOSTIC_SEARCH EN_CHANGE)] in
  let b := after (happens (lit "1.0") es) opened_window in
  let c := after (drain (lit "1.0") 4) b in
  posted (screen b) = 1%nat ∧ length (owner_buffer b) = 6%nat ∧ length (owner_buffer c) = 1%nat ∧ item_count (screen c) = 1.
Proof. vm_compute. auto. Qed.

(** The limit outlives the window, but the new window's box says 100. *)
Example reopened_limit :
  let es := [DisplayTyped (lit "2"); Received (WmCommand ID_DIAGNOSTIC_DISPLAY_LIMIT EN_CHANGE); Pumped; Received WmClose] in
  let closed := after (happens (lit "1.0") es) opened_window in
  let again := after (open_diagnostic_window (lit "1.0")) closed in
  diagnostic_window (diagnostic_ui closed) = false ∧ display_input (screen again) = lit "100" ∧
  diagnostic_display_limit (diagnostic_ui again) = 2.
Proof. vm_compute. auto. Qed.
