(* ===== verification/Icons.v ===== *)
(** * Icons: the tray icon's pictures, texts and handles

    Models [apps/true-tick/src/tray/icon.rs]: the cache of icon handles, the
    drawing of an icon, the registration's tooltip and balloon texts, and the calls
    of the shell, with graphics and shell calls that may fail.

    Handles are integers, [0] for none.  [FreshHandle] is the system's choice of
    the next handle; a destroyed one may come back. *)
From coqutil Require Import Datatypes.RecordSetters.
From S2P Require Import Prelude Text Core Surface Menus.
Import TriangleBracketNotations.

(** ** UTF-16 texts in fixed buffers *)

Definition encode_utf16_char (ch : Z) : list Z :=
  if ch <? 0x10000 then [ch]
  else [0xD800 + (ch - 0x10000) / 0x400; 0xDC00 + (ch - 0x10000) mod 0x400].
Definition encode_utf16 (text : str) : list Z := concat (map encode_utf16_char text).

(** [for (target, source) in buffer.iter_mut().zip(units)]. *)
Fixpoint zip_write (buffer units : list Z) : list Z :=
  match buffer, units with
  | _ :: buffer, u :: units => u :: zip_write buffer units
  | _, _ => buffer
  end.

(** The units the loop writes, with [written] already there. *)
Fixpoint fitting_units (max_len written : nat) (text : str) : list Z :=
  match text with
  | [] => []
  | ch :: text =>
      let encoded := encode_utf16_char ch in
      if (max_len <? written + length encoded)%nat then []
      else encoded ++ fitting_units max_len (written + length encoded) text
  end.
Definition truncate_utf16_into_buffer (buffer : list Z) (text : str) : list Z :=
  match buffer with
  | [] => []
  | _ => zip_write (replicate (length buffer) 0) (fitting_units (length buffer - 1) 0 text)
  end.

(** ** The cache *)

Record IconCacheKey := mkKey { color : Z; canvas : Z }.
#[export] Instance IconCacheKey_eq_dec : EqDecision IconCacheKey.
Proof. solve_decision. Defined.

Record Bitmap := mkBitmap { bitmap_size : Z; bits_per_pixel : Z; bitmap_data : list Z }.
(** What an icon shows: its size and the pixels of its colour bitmap. *)
Record Picture := mkPicture { picture_size : Z; pixels : list Z }.

Record NotifyIconData := mkNotify {
  u_flags : Z;
  h_icon : Z;
  sz_tip : list Z;
  sz_info : list Z;
  sz_info_title : list Z;
  dw_info_flags : Z }.

(** The objects of the system, its answers to the next calls (the error of a
    failing one), the DPI of the window, the cache, and the icon and tooltip the
    notification area shows. *)
Record IconState := mkIcons {
  gdi_bitmaps : gmap Z Bitmap;
  gdi_icons : gmap Z Picture;
  icon_answers : list (option Z);
  window_dpi : Z;
  icon_cache : list (IconCacheKey * Z);
  shell_icon : option (Z * list Z) }.

Class FreshHandle := {
  fresh_handle : gset Z → Z;
  fresh_handle_new : ∀ used, fresh_handle used ∉ used;
  fresh_handle_nonzero : ∀ used, fresh_handle used ≠ 0 }.

Definition NIF_MESSAGE : Z := 0x0001.
Definition NIF_ICON : Z := 0x0002.
Definition NIF_TIP : Z := 0x0004.
Definition NIF_INFO : Z := 0x0010.
Definition NIIF_INFO : Z := 0x0001.
Definition NIIF_WARNING : Z := 0x0002.
Definition MAX_ICON_CACHE_ENTRIES : nat := 32.

Definition clamp_canvas_size (canvas : Z) : Z :=
  if bool_decide (canvas ∈ [16; 20; 24; 32; 64]) then canvas else 16.
Definition dpi_to_canvas_size (dpi : Z) : Z := dpi_to_icon_canvas dpi.
Definition mask_buffer_len (canvas : Z) : Z := (canvas + 31) / 32 * 4 * canvas.
Definition status_key (s : TrayStatus) (dpi : Z) : IconCacheKey :=
  mkKey (icon_pixel_color s) (clamp_canvas_size (dpi_to_canvas_size dpi)).

Section Icons.
Context `{FreshHandle}.
Abbreviation I := (comp IconState Z).

(** The answer to the next native call; without one it succeeds. *)
Definition icon_call : I (option Z) := λ s,
  match icon_answers s with [] => (Ok None, s) | r :: rest => (Ok r, s <| icon_answers := rest |>) end.

Definition destroy_icon (handle : Z) : I unit :=
  if handle =? 0 then mret tt else modify (λ s, s <| gdi_icons ::= delete handle |>).
Definition DeleteObject (handle : Z) : I unit := modify (λ s, s <| gdi_bitmaps ::= delete handle |>).

(** A failing [CreateBitmap] leaves its error. *)
Definition CreateBitmap (b : Bitmap) : I (result Z Z) :=
  r ← icon_call;
  match r with
  | Some e => mret (Err e)
  | None =>
      s ← get;
      let handle := fresh_handle (dom (gdi_bitmaps s) ∪ dom (gdi_icons s)) in
      _ ← modify (λ s, s <| gdi_bitmaps ::= <[handle := b]> |>);
      mret (Ok handle)
  end.

(** [CreateIconIndirect] copies the bitmaps. *)
Definition CreateIconIndirect (bitmap mask : Z) : I (result Z Z) :=
  r ← icon_call;
  match r with
  | Some e => mret (Err e)
  | None =>
      s ← get;
      let handle := fresh_handle (dom (gdi_bitmaps s) ∪ dom (gdi_icons s)) in
      let picture := match gdi_bitmaps s !! bitmap with Some b => mkPicture (bitmap_size b) (bitmap_data b) | None => mkPicture 0 [] end in
      _ ← modify (λ s, s <| gdi_icons ::= <[handle := picture]> |>);
      mret (Ok handle)
  end.

(** A hit moves to the back. *)
Definition cached_icon_handle (key : IconCacheKey) : I (option Z) := λ s,
  match list_find (λ e, e.1 = key) (icon_cache s) with
  | Some (position, entry) => (Ok (Some entry.2), s <| icon_cache := delete position (icon_cache s) ++ [entry] |>)
  | None => (Ok None, s)
  end.

Definition cache_icon_handle (key : IconCacheKey) (handle : Z) : I unit :=
  s ← get;
  match list_find (λ e, e.1 = key) (icon_cache s) with
  | Some (position, _) => modify (λ s, s <| icon_cache := delete position (icon_cache s) ++ [(key, handle)] |>)
  | None =>
      _ ← (if (MAX_ICON_CACHE_ENTRIES <=? length (icon_cache s))%nat then
             match icon_cache s with
             | evicted :: rest => _ ← modify (λ s, s <| icon_cache := rest |>); destroy_icon evicted.2
             | [] => mret tt
             end
           else mret tt);
      modify (λ s, s <| icon_cache ::= (λ l, l ++ [(key, handle)]) |>)
  end.

Fixpoint destroy_entries (entries : list (IconCacheKey * Z)) : I unit :=
  match entries with [] => mret tt | e :: entries => _ ← destroy_icon e.2; destroy_entries entries end.
Definition clear_icon_cache : I unit :=
  s ← get;
  _ ← modify (λ s, s <| icon_cache := [] |>);
  destroy_entries (icon_cache s).

(** ** Drawing *)

Definition status_icon (status : TrayStatus) (dpi : Z) : I Z :=
  let color := icon_pixel_color status in
  let canvas := clamp_canvas_size (dpi_to_canvas_size dpi) in
  let pixels := replicate (Z.to_nat (canvas * canvas)) color in
  let mask := replicate (Z.to_nat (mask_buffer_len canvas)) 0 in
  bitmap ← CreateBitmap (mkBitmap canvas 32 pixels);
  match bitmap with
  | Err e => fail e
  | Ok bitmap =>
      mask_bitmap ← CreateBitmap (mkBitmap canvas 1 mask);
      match mask_bitmap with
      | Err e => _ ← DeleteObject bitmap; fail e
      | Ok mask_bitmap =>
          icon ← CreateIconIndirect bitmap mask_bitmap;
          _ ← DeleteObject bitmap;
          _ ← DeleteObject mask_bitmap;
          match icon with Err e => fail e | Ok icon => mret icon end
      end
  end.

Definition shared_status_icon (status : TrayStatus) (dpi : Z) : I Z :=
  let key := status_key status dpi in
  cached ← cached_icon_handle key;
  match cached with
  | Some handle => mret handle
  | None =>
      handle ← status_icon status dpi;
      _ ← cache_icon_handle key handle;
      mret handle
  end.

Definition dpi_for_window : I Z := s ← get; mret (if window_dpi s =? 0 then 96 else window_dpi s).

(** ** The registration *)

Definition notify_icon_new (status : TrayStatus) (tip : str) : I NotifyIconData :=
  dpi ← dpi_for_window;
  handle ← shared_status_icon status dpi;
  mret (mkNotify (Z.lor (Z.lor NIF_MESSAGE NIF_ICON) NIF_TIP) handle
    (zip_write (replicate 128 0) (encode_utf16 tip)) (replicate 256 0) (replicate 64 0) 0).

(** [Shell_NotifyIconW]: the notification area takes over the icon and the tooltip. *)
Definition Shell_NotifyIconW (icon : NotifyIconData) : I (option Z) :=
  r ← icon_call;
  _ ← match r with
      | None => modify (λ s, s <| shell_icon := Some (h_icon icon, sz_tip icon) |>)
      | Some _ => mret tt
      end;
  mret r.

(** The registration afterwards, and the error of a failing call. *)
Definition refresh_tooltip_only (icon : NotifyIconData) (tip : str) : I (NotifyIconData * option Z) :=
  let icon := icon <| sz_tip := zip_write (replicate 128 0) (encode_utf16 tip) |> in
  r ← Shell_NotifyIconW icon;
  mret (icon, r).

Definition update_icon (icon : NotifyIconData) (status : TrayStatus) (tip : str) : I (NotifyIconData * option Z) :=
  dpi ← dpi_for_window;
  replacement ← attempt (shared_status_icon status dpi);
  match replacement with
  | Err e => mret (icon, Some e)
  | Ok replacement =>
      if replacement =? h_icon icon then refresh_tooltip_only icon tip
      else
        let changed := (icon <| h_icon := replacement |>)
                         <| sz_tip := zip_write (replicate 128 0) (encode_utf16 tip) |> in
        r ← Shell_NotifyIconW changed;
        mret match r with
             | Some e => ((changed <| h_icon := h_icon icon |>) <| sz_tip := sz_tip icon |>, Some e)
             | None => (changed, None)
             end
  end.

Definition show_balloon (icon : NotifyIconData) (title body : str) (warning : bool) : I (NotifyIconData * option Z) :=
  let icon := ((icon <| sz_info_title := truncate_utf16_into_buffer (sz_info_title icon) title |>)
                 <| sz_info := truncate_utf16_into_buffer (sz_info icon) body |>)
                 <| dw_info_flags := if warning then NIIF_WARNING else NIIF_INFO |> in
  let previous_flags := u_flags icon in
  r ← Shell_NotifyIconW (icon <| u_flags := Z.lor previous_flags NIF_INFO |>);
  mret (icon <| u_flags := previous_flags |>, r).

(** [remove_tray_icon] of [tray/surface.rs]: whether the deletion worked is only recorded. *)
Definition remove_tray_icon (registered : option NotifyIconData) : I unit :=
  _ ← match registered with
      | Some _ =>
          r ← icon_call;
          match r with None => modify (λ s, s <| shell_icon := None |>) | Some _ => mret tt end
      | None => mret tt
      end;
  clear_icon_cache.

(** [restore_tray_icon]: a new registration, or none when a call fails. *)
Definition register_icon (status : TrayStatus) (tip : str) : I (option NotifyIconData) :=
  created ← attempt (notify_icon_new status tip);
  match created with
  | Err _ => mret None
  | Ok icon => r ← Shell_NotifyIconW icon; mret match r with Some _ => None | None => Some icon end
  end.
End Icons.
