(* ===== verification/IconFacts.v ===== *)
(** * IconFacts: the tray icon's handles and texts

    Proofs about [Icons]: the cache owns every icon of the system and nothing else is
    left behind, the icon on show is never destroyed, and texts are cut between
    characters. *)
From coqutil Require Import Datatypes.RecordSetters.
From S2P Require Import Prelude Text Core Surface Menus Icons.
Import TriangleBracketNotations.

(** ** Texts *)

Lemma zip_write_replicate n units : (length units ≤ n)%nat →
  zip_write (replicate n 0) units = units ++ replicate (n - length units) 0.
Proof.
  revert n. induction units as [|u units IH]; intros n Hn; [by destruct n; cbn; rewrite ?Nat.sub_0_r|].
  destruct n as [|n]; [cbn in Hn; lia|]. cbn. f_equal. apply IH. cbn in Hn. lia.
Qed.

Lemma fitting_prefix max_len written text : ∃ kept dropped, text = kept ++ dropped ∧
  fitting_units max_len written text = encode_utf16 kept ∧
  (written ≤ max_len → written + length (encode_utf16 kept) ≤ max_len)%nat ∧
  match dropped with
  | [] => True
  | ch :: _ => (max_len < written + length (encode_utf16 kept) + length (encode_utf16_char ch))%nat
  end.
Proof.
  revert written. induction text as [|ch text IH]; intros written; cbn [fitting_units].
  - exists [], []. cbn. split_and!; [done..|lia|done].
  - destruct (Nat.ltb_spec max_len (written + length (encode_utf16_char ch))) as [Hl|Hl].
    + exists [], (ch :: text). cbn. split_and!; [done..|lia|lia].
    + destruct (IH (written + length (encode_utf16_char ch))%nat) as (kept & dropped & -> & -> & Hk & Hd).
      exists (ch :: kept), dropped. unfold encode_utf16 in *. cbn [map concat]. rewrite length_app.
      split_and!; [done..|lia|]. destruct dropped; [done|lia].
Qed.

(** The character a buffer of UTF-16 units starts with, and the rest. *)
Definition decode_utf16_char (units : list Z) : option (Z * list Z) :=
  match units with
  | [] => None
  | u :: rest =>
      if (0xD800 <=? u) && (u <? 0xDC00) then
        match rest with
        | v :: rest => if (0xDC00 <=? v) && (v <? 0xE000)
                       then Some (0x10000 + (u - 0xD800) * 0x400 + (v - 0xDC00), rest) else None
        | [] => None
        end
      else if (0xDC00 <=? u) && (u <? 0xE000) then None else Some (u, rest)
  end.

(** A Unicode scalar value: what a [char] holds. *)
Definition is_char (ch : Z) : Prop := 0 ≤ ch < 0xD800 ∨ 0xE000 ≤ ch < 0x110000.

Lemma decode_encode_utf16 ch rest : is_char ch → decode_utf16_char (encode_utf16_char ch ++ rest) = Some (ch, rest).
Proof.
  unfold is_char, encode_utf16_char, decode_utf16_char. intros Hc. destruct (Z.ltb_spec ch 0x10000) as [Hs|Hs]; cbn [app].
  - replace ((0xD800 <=? ch) && (ch <? 0xDC00)) with false by lia. by replace ((0xDC00 <=? ch) && (ch <? 0xE000)) with false by lia.
  - replace (_ && _) with true by dlia. replace (_ && _) with true by dlia. f_equal. f_equal. dlia.
Qed.

(** The texts of the balloon: the buffer holds the longest part of the text that fits
    before its end, whole characters only, and is zero from there on. *)
Theorem truncation_exact buffer text : buffer ≠ [] → ∃ kept dropped, text = kept ++ dropped ∧
  truncate_utf16_into_buffer buffer text = encode_utf16 kept ++ replicate (length buffer - length (encode_utf16 kept)) 0 ∧
  (length (encode_utf16 kept) < length buffer)%nat ∧
  match dropped with
  | [] => True
  | ch :: _ => (length buffer ≤ length (encode_utf16 (kept ++ [ch])))%nat
  end.
Proof.
  intros Hb. destruct (fitting_prefix (length buffer - 1) 0 text) as (kept & dropped & -> & E & Hk & Hd).
  assert (0 < length buffer)%nat as Hl by (destruct buffer; cbn; [done|lia]). specialize (Hk ltac:(lia)).
  exists kept, dropped. split; [done|]. split; [|split; [lia|]].
  - unfold truncate_utf16_into_buffer. destruct buffer as [|b0 rest]; [done|]. rewrite E. apply zip_write_replicate. lia.
  - destruct dropped as [|ch rest]; [done|]. unfold encode_utf16 in *. rewrite map_app, concat_app. cbn.
    rewrite app_nil_r, length_app. lia.
Qed.

(** ** The cache *)

Section Cache.
Context `{FreshHandle}.

Definition solid (k : IconCacheKey) : Picture :=
  mkPicture (canvas k) (replicate (Z.to_nat (canvas k * canvas k)) (color k)).

(** The cache holds each key and each handle once, and it holds every icon of the
    system, which shows the colour of its key; no bitmap is left. *)
Record icons_ok (s : IconState) : Prop := mkOk {
  ok_bitmaps : gdi_bitmaps s = ∅;
  ok_keys : NoDup (icon_cache s).*1;
  ok_handles : NoDup (icon_cache s).*2;
  ok_owned : ∀ h p, gdi_icons s !! h = Some p ↔ ∃ k, (k, h) ∈ icon_cache s ∧ p = solid k;
  ok_nonzero : Forall (λ e, e.2 ≠ 0) (icon_cache s);
  ok_known : Forall (λ e, ∃ status dpi, e.1 = status_key status dpi) (icon_cache s) }.

(** There are three colours and five sizes. *)
Definition all_keys : list IconCacheKey :=
  c ← [0xFF00B000; 0xFFD0D000; 0xFFD00000]; k ← [16; 20; 24; 32; 64]; [mkKey c k].

Lemma status_key_known status dpi : status_key status dpi ∈ all_keys.
Proof.
  unfold status_key, clamp_canvas_size, dpi_to_canvas_size.
  assert (icon_pixel_color status ∈ [0xFF00B000; 0xFFD0D000; 0xFFD00000]) as Hc.
  { unfold icon_pixel_color. destruct (icon_color status); set_solver. }
  assert ((if bool_decide (dpi_to_icon_canvas dpi ∈ [16; 20; 24; 32; 64]) then dpi_to_icon_canvas dpi else 16) ∈ [16; 20; 24; 32; 64]) as Hk.
  { case_bool_decide; [done|set_solver]. }
  revert Hc Hk. generalize (icon_pixel_color status). intros c. match goal with |- _ → ?k ∈ _ → _ => generalize k end. intros k Hc Hk.
  unfold all_keys. apply list_elem_of_bind. exists c. split; [|done]. apply list_elem_of_bind. exists k. by split; [constructor|].
Qed.

Lemma cache_bounded s : icons_ok s → (length (icon_cache s) ≤ 15)%nat.
Proof.
  intros [_ Hk _ _ _ Hs]. rewrite <- (length_fmap fst). change 15%nat with (length all_keys).
  apply submseteq_length, NoDup_submseteq; [done|]. intros k ([k' h] & -> & Hin)%list_elem_of_fmap.
  rewrite Forall_forall in Hs. destruct (Hs _ Hin) as (status & dpi & E). cbn in *. rewrite E. apply status_key_known.
Qed.

(** [m] keeps the invariant and every icon, and leaves the notification area alone. *)
Definition grows (s s' : IconState) : Prop :=
  icons_ok s' ∧ gdi_icons s ⊆ gdi_icons s' ∧ shell_icon s' = shell_icon s ∧ window_dpi s' = window_dpi s.

Lemma call_run s : ∃ r, icon_call s = (Ok r, s <| icon_answers := tail (icon_answers s) |>).
Proof. unfold icon_call. destruct s as [b i [|r a] d c sh]; cbn; eauto. Qed.

Lemma icons_run {T U} (m : comp IconState Z T) (k : T → comp IconState Z U) s x s' : m s = (Ok x, s') → (m ≫= k) s = k x s'.
Proof. intros E. unfold mbind, comp_bind. by rewrite E. Qed.

(** A call that creates: its answer, and the object with its fresh handle. *)
Lemma bitmap_run b s : ∃ r answers, CreateBitmap b s = (Ok r, match r with
    | Ok h => (s <| icon_answers := answers |>) <| gdi_bitmaps := <[h := b]> (gdi_bitmaps s) |>
    | Err _ => s <| icon_answers := answers |> end) ∧
  match r with Ok h => h ∉ dom (gdi_bitmaps s) ∪ dom (gdi_icons s) | Err _ => True end.
Proof.
  destruct s as [bm ic [|[e|] a] d c sh].
  - exists (Ok (fresh_handle (dom bm ∪ dom ic))), []. split; [done|apply fresh_handle_new].
  - by exists (Err e), a.
  - exists (Ok (fresh_handle (dom bm ∪ dom ic))), a. split; [done|apply fresh_handle_new].
Qed.

Lemma icon_run bitmap mask b s : gdi_bitmaps s !! bitmap = Some b → ∃ r answers,
  CreateIconIndirect bitmap mask s = (Ok r, match r with
    | Ok h => (s <| icon_answers := answers |>) <| gdi_icons := <[h := mkPicture (bitmap_size b) (bitmap_data b)]> (gdi_icons s) |>
    | Err _ => s <| icon_answers := answers |> end) ∧
  match r with Ok h => h ∉ dom (gdi_bitmaps s) ∪ dom (gdi_icons s) ∧ h ≠ 0 | Err _ => True end.
Proof.
  intros Hb. destruct s as [bm ic a d c sh]. cbn in Hb. set (h := fresh_handle (dom bm ∪ dom ic)).
  assert (h ∉ dom bm ∪ dom ic ∧ h ≠ 0) as Hh by (split; [apply fresh_handle_new|apply fresh_handle_nonzero]).
  destruct a as [|[e|] a]; [exists (Ok h), []|by exists (Err e), a|exists (Ok h), a]; (split; [|exact Hh]);
    unfold CreateIconIndirect, icon_call, get, modify, mret, comp_ret, mbind, comp_bind; cbn; rewrite Hb; reflexivity.
Qed.

Lemma delete_two (m : gmap Z Bitmap) h1 h2 b1 b2 : m = ∅ → delete h2 (delete h1 (<[h2 := b2]> (<[h1 := b1]> m))) = ∅.
Proof.
  intros ->. apply map_eq. intros h. rewrite !lookup_delete, !lookup_insert, lookup_empty. by repeat case_decide.
Qed.

Lemma status_run status dpi s : gdi_bitmaps s = ∅ → ∃ answers,
  (∃ e, status_icon status dpi s = (Err e, s <| icon_answers := answers |>)) ∨
  ∃ h, h ≠ 0 ∧ gdi_icons s !! h = None ∧ status_icon status dpi s =
    (Ok h, (s <| icon_answers := answers |>) <| gdi_icons := <[h := solid (status_key status dpi)]> (gdi_icons s) |>).
Proof.
  intros Hb. unfold status_icon. cbv zeta. change (icon_pixel_color status) with (color (status_key status dpi)).
  change (clamp_canvas_size (dpi_to_canvas_size dpi)) with (canvas (status_key status dpi)).
  set (key := status_key status dpi). clearbody key.
  match goal with |- context [CreateBitmap ?b ≫= _] => destruct (bitmap_run b s) as (r1 & a1 & E1 & F1) end.
  setoid_rewrite (icons_run _ _ _ _ _ E1). destruct r1 as [h1|e]; [|exists a1; left; by exists e].
  match goal with |- context [CreateBitmap ?b ≫= _] => match goal with |- context [(CreateBitmap b ≫= _) ?s1] =>
    destruct (bitmap_run b s1) as (r2 & a2 & E2 & F2) end end.
  setoid_rewrite (icons_run _ _ _ _ _ E2). destruct s as [bm ic a d c sh]. cbn in Hb, F1, F2. subst bm. unfold constant in F2. destruct r2 as [h2|e].
  2: { exists a2. left. exists e. unfold DeleteObject. erewrite icons_run by reflexivity. unfold fail. f_equal. cbn. unfold constant.
       by rewrite delete_insert_id. }
  rewrite dom_insert in F2. assert (h2 ≠ h1) as Hne by set_solver.
  match goal with |- context [(CreateIconIndirect _ _ ≫= _) ?s2] => destruct (icon_run h1 h2 (mkBitmap (canvas key) 32 (replicate (Z.to_nat (canvas key * canvas key)) (color key))) s2)
    as (r3 & a3 & E3 & F3) end.
  { cbn. unfold constant. by rewrite lookup_insert_ne, lookup_insert_eq by done. }
  exists a3. setoid_rewrite (icons_run _ _ _ _ _ E3). unfold DeleteObject. repeat setoid_rewrite icons_run; [|reflexivity..].
  destruct r3 as [h|e].
  - right. exists h. destruct F3 as [F3 Hz]. split; [done|]. split; [apply not_elem_of_dom; cbn in *; unfold constant in *; set_solver|].
    unfold mret, comp_ret. f_equal. cbn. unfold constant. by rewrite delete_two.
  - left. exists e. unfold fail. f_equal. cbn. unfold constant. by rewrite delete_two.
Qed.

Lemma cached_run key s : icons_ok s → ∃ r c, cached_icon_handle key s = (Ok r, s <| icon_cache := c |>) ∧
  icons_ok (s <| icon_cache := c |>) ∧
  match r with
  | Some h => gdi_icons s !! h = Some (solid key)
  | None => c = icon_cache s ∧ key ∉ (icon_cache s).*1
  end.
Proof.
  intros Hok. unfold cached_icon_handle. destruct (list_find _ (icon_cache s)) as [[position [k h]]|] eqn:E.
  - apply list_find_Some in E as (Hl & Hk & _). cbn in Hk. subst k. exists (Some h), (delete position (icon_cache s) ++ [(key, h)]).
    split; [done|]. assert (delete position (icon_cache s) ++ [(key, h)] ≡ₚ icon_cache s) as Hp.
    { rewrite Permutation_app_comm. cbn. symmetry. by apply delete_Permutation. }
    destruct Hok as [B K S O Z N]. split; [|apply O; exists key; split; [by eapply list_elem_of_lookup_2|done]].
    split; cbn; unfold constant; try done; try (by rewrite Hp).
    intros h' p. rewrite O. by setoid_rewrite Hp.
  - apply list_find_None in E. exists None, (icon_cache s). destruct s as [b i a d c sh]. cbn in *. split_and!; [done..|].
    intros ([k h] & -> & Hin)%list_elem_of_fmap. rewrite Forall_forall in E. by eapply E.
Qed.

Lemma cache_new_run key h s : key ∉ (icon_cache s).*1 → (length (icon_cache s) ≤ 15)%nat →
  cache_icon_handle key h s = (Ok tt, s <| icon_cache := icon_cache s ++ [(key, h)] |>).
Proof.
  intros Hk Hlen. unfold cache_icon_handle. erewrite icons_run by reflexivity.
  assert (list_find (λ e, e.1 = key) (icon_cache s) = None) as ->.
  { apply list_find_None, Forall_forall. intros [k x] Hin Hkx. cbn in Hkx. apply Hk. rewrite <- Hkx.
    by apply (list_elem_of_fmap_2 fst _ (k, x)). }
  replace (MAX_ICON_CACHE_ENTRIES <=? length (icon_cache s))%nat with false
    by (symmetry; apply Nat.leb_gt; unfold MAX_ICON_CACHE_ENTRIES; lia).
  by erewrite icons_run by reflexivity.
Qed.

Lemma shared_run status dpi s : icons_ok s → ∃ r s', shared_status_icon status dpi s = (r, s') ∧ grows s s' ∧
  match r with Ok h => gdi_icons s' !! h = Some (solid (status_key status dpi)) | Err _ => True end.
Proof.
  intros Hok. unfold shared_status_icon. cbv zeta. destruct (cached_run (status_key status dpi) s Hok) as (r & c & E & Hc & Hr).
  rewrite (icons_run _ _ _ _ _ E). destruct r as [h|].
  { exists (Ok h), (s <| icon_cache := c |>). by split_and!. }
  destruct Hr as [-> Hk]. clear E Hc. destruct (status_run status dpi s (ok_bitmaps s Hok)) as (a & [[e E]|(h & Hz & Hf & E)]).
  - exists (Err e), (s <| icon_answers := a |>). unfold mbind, comp_bind. destruct s. cbn in *. rewrite E.
    split_and!; try done. by destruct Hok.
  - exists (Ok h), ((s <| icon_answers := a |>) <| gdi_icons := <[h := solid (status_key status dpi)]> (gdi_icons s) |>
      <| icon_cache := icon_cache s ++ [(status_key status dpi, h)] |>).
    assert (icon_cache (s <| icon_cache := icon_cache s |>) = icon_cache s) as Hsame by done.
    replace (s <| icon_cache := icon_cache s |>) with s by (by destruct s). rewrite (icons_run _ _ _ _ _ E).
    pose proof (cache_bounded s Hok) as Hlen. destruct s as [bm ic an d c sh]. cbn in Hf, Hk, Hlen |- *. clear Hsame.
    erewrite icons_run by (apply cache_new_run; [exact Hk|cbn; lia]).
    cbn. unfold constant. split; [done|]. destruct Hok as [B K S O Z N]. cbn in *.
    assert (∀ k, (k, h) ∉ c) as Hnew. { intros k Hin. assert (ic !! h = Some (solid k)) by (apply O; eauto). congruence. }
    split; [split_and!|by rewrite lookup_insert_eq]; cbn; [|by apply insert_subseteq|done..].
    split; cbn; [done| | | | |].
    + rewrite fmap_app. apply NoDup_app. split_and!; [done| |apply NoDup_singleton]. intros k Hin ->%list_elem_of_singleton. by apply Hk.
    + rewrite fmap_app. apply NoDup_app. split_and!; [done| |apply NoDup_singleton]. intros x Hin ->%list_elem_of_singleton.
      apply list_elem_of_fmap in Hin as ([k y] & Hy & Hin). cbn in Hy. subst y. by apply (Hnew k).
    + intros x p. setoid_rewrite elem_of_app. setoid_rewrite list_elem_of_singleton. destruct (Z.eq_dec x h) as [->|Hne].
      * rewrite lookup_insert_eq. split; [intros [= <-]; eexists; split; [by right|done]|].
        intros (k & [Hin|[= ->]] & ->); [by destruct (Hnew k)|done].
      * rewrite lookup_insert_ne by done. rewrite O. split; [intros (k & Hin & ->); eauto|]. intros (k & [Hin|[= -> ->]] & ->); [eauto|done].
    + apply Forall_app. by split; [|constructor].
    + apply Forall_app. split; [done|]. constructor; [|done]. by exists status, dpi.
Qed.

(** The handle is that of an icon in a status colour. *)
Definition shows_status (s : IconState) (h : Z) : Prop :=
  ∃ status dpi, gdi_icons s !! h = Some (solid (status_key status dpi)).

Lemma shows_grows s s' h : gdi_icons s ⊆ gdi_icons s' → shows_status s h → shows_status s' h.
Proof. intros Hs (status & dpi & E). exists status, dpi. by eapply lookup_weaken. Qed.

(** What the code has of the system between its calls. *)
Definition tray_ok (s : IconState) (registered : option NotifyIconData) : Prop :=
  icons_ok s ∧ (∀ icon, registered = Some icon → shows_status s (h_icon icon)) ∧
  (∀ h tip, shell_icon s = Some (h, tip) → shows_status s h).

Lemma shell_run icon s : ∃ r a, Shell_NotifyIconW icon s = (Ok r, (s <| icon_answers := a |>) <|
  shell_icon := match r with None => Some (h_icon icon, sz_tip icon) | Some _ => shell_icon s end |>).
Proof.
  unfold Shell_NotifyIconW. destruct (call_run s) as [r E]. rewrite (icons_run _ _ _ _ _ E).
  exists r, (tail (icon_answers s)). destruct r as [e|]; by destruct s.
Qed.

Lemma shell_ok icon reg s a o : tray_ok s reg → (o = shell_icon s ∨ ∃ tip, o = Some (h_icon icon, tip) ∧ shows_status s (h_icon icon)) →
  tray_ok ((s <| icon_answers := a |>) <| shell_icon := o |>) reg.
Proof.
  intros (Hok & Hr & Hs) Ho. destruct s as [bm ic an d c sh]. split; [by destruct Hok|]. split; [exact Hr|]. intros h tip E. change (o = Some (h, tip)) in E. subst o.
  destruct Ho as [Ho|(t & Ho & Hi)]; [exact (Hs _ _ (eq_sym Ho))|]. by injection Ho as -> _.
Qed.

Definition effective_dpi (s : IconState) : Z := if window_dpi s =? 0 then 96 else window_dpi s.
Definition tip_units (tip : str) : list Z := zip_write (replicate 128 0) (encode_utf16 tip).

Lemma tray_grows s s' reg : grows s s' → tray_ok s reg → tray_ok s' reg.
Proof.
  intros (Hok & Hi & Hsh & _) (_ & Hr & Hs). split; [done|]. split.
  - intros icon E. by eapply shows_grows; [|apply Hr].
  - intros h tip E. rewrite Hsh in E. by eapply shows_grows; [|eapply Hs].
Qed.

Lemma update_run icon status tip s : tray_ok s (Some icon) → ∃ icon' r s',
  update_icon icon status tip s = (Ok (icon', r), s') ∧ tray_ok s' (Some icon') ∧
  match r with
  | None => gdi_icons s' !! h_icon icon' = Some (solid (status_key status (effective_dpi s))) ∧
      sz_tip icon' = tip_units tip ∧ shell_icon s' = Some (h_icon icon', tip_units tip)
  | Some _ => h_icon icon' = h_icon icon ∧ shell_icon s' = shell_icon s
  end.
Proof.
  intros Ht. unfold update_icon. erewrite icons_run by reflexivity. fold (effective_dpi s).
  destruct (shared_run status (effective_dpi s) s (proj1 Ht)) as (r & s1 & E & Hg & Hr).
  assert (attempt (E' := Z) (shared_status_icon status (effective_dpi s)) s = (Ok r, s1)) as Ea by (unfold attempt; by rewrite E).
  rewrite (icons_run _ _ _ _ _ Ea). clear E Ea. pose proof (tray_grows _ _ _ Hg Ht) as Ht1.
  assert (∀ i, h_icon i = h_icon icon → tray_ok s1 (Some i)) as Hkeep.
  { intros i Hi. destruct Ht1 as (Hok1 & Hr1 & Hs1). split_and!; [done| |done]. intros ? [= <-]. rewrite Hi. by apply Hr1. }
  destruct Hg as (_ & _ & Hsh & _). destruct r as [h|e]; [|by exists icon, (Some e), s1].
  assert (shows_status s1 h) as Hh by (by exists status, (effective_dpi s)).
  destruct (Z.eqb_spec h (h_icon icon)) as [->|Hne].
  - unfold refresh_tooltip_only. cbv zeta.
    match goal with |- context [(Shell_NotifyIconW ?i ≫= _) _] => destruct (shell_run i s1) as (r & a & E); set (icon1 := i) in * end.
    rewrite (icons_run _ _ _ _ _ E). exists icon1, r. eexists. split; [reflexivity|]. split.
    + apply (shell_ok icon1); [by apply Hkeep|]. destruct r; [by left|right; eauto].
    + destruct r; [|by split_and!; destruct s1]. split; [done|]. destruct s1. exact Hsh.
  - cbv zeta. match goal with |- context [(Shell_NotifyIconW ?i ≫= _) _] => destruct (shell_run i s1) as (r & a & E); set (icon1 := i) in * end.
    rewrite (icons_run _ _ _ _ _ E). destruct r as [e|].
    + eexists _, _, _. split; [reflexivity|]. split; [|split; [done|destruct s1; exact Hsh]].
      apply (shell_ok icon); [by apply Hkeep|by left].
    + eexists _, _, _. split; [reflexivity|]. split; [|by split_and!; destruct s1].
      apply (shell_ok icon1); [|right; eauto]. destruct Ht1 as (Hok1 & _ & Hs1). split_and!; [done|by intros ? [= <-]|done].
Qed.

Lemma register_run status tip s reg : tray_ok s reg → ∃ reg' s', register_icon status tip s = (Ok reg', s') ∧ tray_ok s' reg'.
Proof.
  intros Ht. unfold register_icon.
  destruct (shared_run status (effective_dpi s) s (proj1 Ht)) as (r & s1 & E & Hg & Hr).
  pose proof (tray_grows _ _ _ Hg Ht) as (Hok1 & _ & Hs1).
  assert (∃ r', attempt (E' := Z) (notify_icon_new status tip) s = (Ok r', s1) ∧
    match r' with Ok icon => shows_status s1 (h_icon icon) | Err _ => True end) as (r' & En & Hn).
  { unfold attempt, notify_icon_new. erewrite icons_run by reflexivity. fold (effective_dpi s). unfold mbind, comp_bind. rewrite E.
    destruct r as [h|e]; eexists; (split; [reflexivity|]); [|done]. by exists status, (effective_dpi s). }
  rewrite (icons_run _ _ _ _ _ En). destruct r' as [icon|e]; [|eexists None, s1; split; [reflexivity|by split_and!]].
  destruct (shell_run icon s1) as (r' & a & Es). rewrite (icons_run _ _ _ _ _ Es). eexists _, _. split; [reflexivity|].
  apply (shell_ok icon); [|destruct r'; [by left|right; eauto]]. split_and!; [done|destruct r'; [done|by intros ? [= <-]]|done].
Qed.

Lemma balloon_run icon title body warning s : tray_ok s (Some icon) → ∃ icon' r s',
  show_balloon icon title body warning s = (Ok (icon', r), s') ∧ tray_ok s' (Some icon') ∧ u_flags icon' = u_flags icon.
Proof.
  intros (Hok & Hr & Hs). unfold show_balloon. cbv zeta.
  match goal with |- context [(Shell_NotifyIconW ?i ≫= _) _] => destruct (shell_run i s) as (r & a & E); set (icon1 := i) in * end.
  rewrite (icons_run _ _ _ _ _ E). eexists _, _, _. split; [reflexivity|]. split; [|done].
  apply (shell_ok icon1); [split_and!; [done| |done]|].
  - intros ? [= <-]. exact (Hr icon eq_refl).
  - destruct r; [by left|]. right. eexists. split; [reflexivity|]. exact (Hr icon eq_refl).
Qed.

Lemma destroy_run entries s : Forall (λ e, e.2 ≠ 0) entries →
  destroy_entries entries s = (Ok tt, s <| gdi_icons := foldl (λ m e, delete e.2 m) (gdi_icons s) entries |>).
Proof.
  intros Hz. revert s. induction Hz as [|[k h] entries Hh Hz IH]; intros s; [by destruct s|]. cbn [destroy_entries foldl]. cbn in Hh.
  unfold destroy_icon. cbn [snd]. rewrite (proj2 (Z.eqb_neq h 0) Hh). erewrite icons_run by reflexivity. rewrite IH. by destruct s.
Qed.

Lemma foldl_delete (m : gmap Z Picture) entries h : foldl (λ m (e : IconCacheKey * Z), delete e.2 m) m entries !! h =
  if bool_decide (h ∈ entries.*2) then None else m !! h.
Proof.
  revert m. induction entries as [|[k x] entries IH]; intros m; [done|]. cbn [foldl fmap list_fmap]. rewrite IH. cbn.
  destruct (Z.eq_dec h x) as [->|Hne].
  - rewrite lookup_delete_eq. rewrite (bool_decide_true (x ∈ x :: _)) by left. by case_bool_decide.
  - rewrite lookup_delete_ne by done. repeat case_bool_decide; try done; exfalso; rewrite elem_of_cons in *; naive_solver.
Qed.

Lemma clear_run s : icons_ok s → ∃ s', clear_icon_cache s = (Ok tt, s') ∧ gdi_icons s' = ∅ ∧ gdi_bitmaps s' = ∅ ∧ icon_cache s' = [].
Proof.
  intros [B K S O Z N]. unfold clear_icon_cache. do 2 erewrite icons_run by reflexivity. rewrite destroy_run by done.
  eexists. split; [reflexivity|]. destruct s as [bm ic a d c sh]. cbn in *. unfold constant. split_and!; [|done..].
  apply map_eq. intros h. rewrite lookup_empty, foldl_delete. case_bool_decide as Hin; [done|].
  destruct (ic !! h) as [p|] eqn:E; [|done]. apply O in E as (k & E & _). destruct Hin. by apply (list_elem_of_fmap_2 snd _ (k, h)).
Qed.

(** What happens to the tray icon: a new registration, as the start of the process
    and the restart of the task bar make it, an update, a balloon, another DPI, and the
    answers of the system to the next calls. *)
Inductive IconEvent :=
| Registering (status : TrayStatus) (tip : str)
| Updating (status : TrayStatus) (tip : str)
| Ballooning (title body : str) (warning : bool)
| DpiChanged (dpi : Z)
| IconAnswers (answers : list (option Z)).

Definition icon_event (e : IconEvent) (registered : option NotifyIconData) : comp IconState Z (option NotifyIconData) :=
  match e, registered with
  | Registering status tip, _ => register_icon status tip
  | Updating status tip, Some icon => u ← update_icon icon status tip; mret (Some u.1)
  | Ballooning title body warning, Some icon => u ← show_balloon icon title body warning; mret (Some u.1)
  | DpiChanged dpi, _ => _ ← modify (λ s, s <| window_dpi := dpi |>); mret registered
  | IconAnswers answers, _ => _ ← modify (λ s, s <| icon_answers := answers |>); mret registered
  | _, None => mret None
  end.
Fixpoint icon_events (es : list IconEvent) (registered : option NotifyIconData) : comp IconState Z (option NotifyIconData) :=
  match es with [] => mret registered | e :: es => r ← icon_event e registered; icon_events es r end.

Lemma event_ok e s reg : tray_ok s reg → ∃ reg' s', icon_event e reg s = (Ok reg', s') ∧ tray_ok s' reg'.
Proof.
  intros Ht. destruct e as [status tip|status tip|title body warning|dpi|answers]; cbn [icon_event].
  - by eapply register_run.
  - destruct reg as [icon|]; [|by exists None, s]. destruct (update_run icon status tip s Ht) as (i & r & s' & E & Hk & _).
    rewrite (icons_run _ _ _ _ _ E). by exists (Some i), s'.
  - destruct reg as [icon|]; [|by exists None, s]. destruct (balloon_run icon title body warning s Ht) as (i & r & s' & E & Hk & _).
    rewrite (icons_run _ _ _ _ _ E). by exists (Some i), s'.
  - eexists reg, _. split; [reflexivity|]. destruct s, Ht as ([] & ? & ?). by split_and!.
  - eexists reg, _. split; [reflexivity|]. destruct s, Ht as ([] & ? & ?). by split_and!.
Qed.

Lemma events_ok es s reg : tray_ok s reg → ∃ reg' s', icon_events es reg s = (Ok reg', s') ∧ tray_ok s' reg'.
Proof.
  revert s reg. induction es as [|e es IH]; intros s reg Ht; [by exists reg, s|]. cbn [icon_events].
  destruct (event_ok e s reg Ht) as (r1 & s1 & E & H1). rewrite (icons_run _ _ _ _ _ E). by apply IH.
Qed.

(** C29: the tray icon.  Through any registrations, updates, balloons and changes of the
    DPI, whatever calls fail: no bitmap is left, the cache holds at most fifteen icons
    and every icon of the system, the icon that is registered or on show was not
    destroyed and is in a status colour; an update that succeeds shows the colour of the
    status at the size of the DPI, one that fails leaves the icon and what is on show;
    and removing the icon leaves no icon behind. *)
Theorem icon_handles_safe (es : list IconEvent) answers dpi : let start := mkIcons ∅ ∅ answers dpi [] None in
  ∃ registered s, icon_events es None start = (Ok registered, s) ∧
    gdi_bitmaps s = ∅ ∧ (length (icon_cache s) ≤ 15)%nat ∧ (∀ h, is_Some (gdi_icons s !! h) → h ∈ (icon_cache s).*2) ∧
    (∀ h tip, shell_icon s = Some (h, tip) → shows_status s h) ∧
    match registered with
    | Some icon => shows_status s (h_icon icon) ∧ ∀ status tip, ∃ icon' r s',
        update_icon icon status tip s = (Ok (icon', r), s') ∧
        match r with
        | None => gdi_icons s' !! h_icon icon' = Some (solid (status_key status (effective_dpi s))) ∧
            shell_icon s' = Some (h_icon icon', tip_units tip)
        | Some _ => h_icon icon' = h_icon icon ∧ shell_icon s' = shell_icon s
        end
    | None => True
    end ∧
    ∃ s', remove_tray_icon registered s = (Ok tt, s') ∧ gdi_icons s' = ∅ ∧ gdi_bitmaps s' = ∅ ∧ icon_cache s' = [].
Proof.
  intros start. assert (tray_ok start None) as Hstart.
  { split; [|by split]. split; [done|constructor|constructor| |constructor|constructor]. intros h p.
    change (gdi_icons start) with (∅ : gmap Z Picture). rewrite lookup_empty. split; [done|]. intros (k & Hin & _).
    by apply elem_of_nil in Hin. }
  destruct (events_ok es start None Hstart) as (reg & s & E & Ht). pose proof Ht as (Hok & Hr & Hs). exists reg, s.
  split; [done|]. split; [apply Hok|]. split; [by apply cache_bounded|]. split.
  { intros h [p (k & Hin & _)%(ok_owned s Hok)]. by apply (list_elem_of_fmap_2 snd _ (k, h)). }
  split; [done|]. split.
  - destruct reg as [icon|]; [|done]. split; [by apply Hr|]. intros status tip.
    destruct (update_run icon status tip s Ht) as (i & r & s' & Eu & _ & Hu). exists i, r, s'. split; [done|]. destruct r; [done|].
    split; apply Hu.
  - unfold remove_tray_icon. destruct reg as [icon|]; [|by apply clear_run].
    destruct (call_run s) as [r Er]. unfold mbind at 1, comp_bind at 1. rewrite (icons_run _ _ _ _ _ Er).
    destruct r as [e|]; (apply clear_run; destruct s, Hok; by split).
Qed.
End Cache.

(** ** A concrete tray icon *)

#[local] Instance first_fresh : FreshHandle.
Proof.
  refine {| fresh_handle used := fresh ({[0]} ∪ used) |}; intros used; pose proof (is_fresh ({[0]} ∪ used)); set_solver.
Defined.

Definition icon_start : IconState := mkIcons ∅ ∅ [] 96 [] None.
(** Two status colours at two sizes; the update that fails leaves the red icon on show. *)
Definition icon_day : list IconEvent :=
  [Registering TrayStatus.Stopped (lit "stopped"); Updating TrayStatus.Running (lit "running"); DpiChanged 144;
   Updating TrayStatus.Stopped (lit "stopped"); IconAnswers [Some 5]; Updating TrayStatus.Running (lit "running");
   Ballooning (lit "True Tick") (lit "slow") true].
Definition icon_evening : option NotifyIconData * IconState :=
  match icon_events icon_day None icon_start with (Ok r, s) => (r, s) | (Err _, s) => (None, s) end.

Example icon_day_ends : let '(registered, s) := icon_evening in
  (canvas ∘ fst <$> icon_cache s) = [16; 16; 24] ∧ map_size (gdi_icons s) = 3%nat ∧
  (u ← registered; gdi_icons s !! h_icon u) = Some (solid (mkKey 0xFFD00000 24)).
Proof. vm_compute. auto. Qed.

(** A deletion that fails is only recorded, and the icon the notification area may
    still show is destroyed with the cache. *)
Example failed_delete_destroys : let '(registered, s) := icon_evening in
  let s' := (remove_tray_icon registered (s <| icon_answers := [Some 5] |>)).2 in
  is_Some (shell_icon s') ∧ gdi_icons s' = ∅.
Proof. vm_compute. eauto. Qed.

(** Four units hold two letters and not the half of the character after them. *)
Example truncation_between_characters : truncate_utf16_into_buffer [0; 0; 0; 0] (lit "ab" ++ [0x1F600]) = [97; 98; 0; 0].
Proof. reflexivity. Qed.
